(** * vanilla-signals: a shallow embedding of the reactive graph

    The repository holds two copies of the runtime.  [src/reactive/index.ts]
    is the plain one; the second copy (the file that also carries
    [setupCounter]) adds a de-duplicating [subscribe], an [unsubscribe] that
    removes every matching reference, a [destroyed] guard and [destroy()].
    Both are embedded here, selected by a [version] argument, so that every
    statement says which copy it is about.

    JavaScript objects live in a heap indexed by [node_id].  The global
    [context], the microtask queue and the [window[EFFECTS]] registry are
    fields of the machine state.  User supplied closures ([computationFn],
    [effectFn]) are programs over the operations they can perform on the
    graph: call a getter, call [getter.set], produce an observable side
    effect, return, throw. *)

From Stdlib Require Import List ZArith Bool Arith Lia.
Import ListNotations.

Set Implicit Arguments.

(** ** Data model *)

Definition node_id := nat.

(** Which copy of the runtime is executed. *)
Inductive version : Type :=
| Vindex   (* src/reactive/index.ts *)
| Vguard.  (* the copy with de-duplication, [destroyed] and [destroy()] *)

(** The body of a user closure. *)
Inductive prog : Type :=
| Ret (v : Z)                            (* return v *)
| Throw                                  (* throw *)
| Read (n : node_id) (k : Z -> prog)     (* const x = getter_n(); ... *)
| Write (n : node_id) (v : Z) (k : prog) (* getter_n.set(v); ... *)
| Emit (v : Z) (k : prog).               (* results.push(v); ... *)

(** Outcome of a call that may throw. *)
Inductive Result (A : Type) : Type :=
| Ok (a : A)
| Exn.
Arguments Ok {A} a.
Arguments Exn {A}.

(** [new WeakRef(sub)]: every allocation is a distinct object, told apart by
    [ref_id]. *)
Record WeakRef : Type := mkRef { ref_id : nat; ref_target : node_id }.

Definition ref_eqb (a b : WeakRef) : bool :=
  Nat.eqb (ref_id a) (ref_id b) && Nat.eqb (ref_target a) (ref_target b).

(** The class of the object stored at an address; [Free] marks an address at
    which nothing was allocated. *)
Inductive Kind : Type := Free | WritableNode | ComputedNode | EffectNode.

Definition Kind_eqb (a b : Kind) : bool :=
  match a, b with
  | Free, Free | WritableNode, WritableNode | ComputedNode, ComputedNode | EffectNode, EffectNode => true
  | _, _ => false
  end.

(** One heap object.  [dirty], [subs], [deps], [ctxDeps] are the fields of
    [ReactiveNode]; [wvalue] is [WritableNode.value]; [cvalue] is
    [ComputedNode.value] with [None] for the [NONE] sentinel; [fn] is
    [computationFn] or [effectFn]; [equal] is the [opts.equal] captured by
    the closure returned from [Signal]; [taskScheduled] and [destroyed]
    belong to [EffectNode]; [handle] tells whether the variable [node]
    captured by the handle returned from [Effect] is still non-null.
    [collected] says the garbage collector reclaimed the object, so that
    [deref()] of a reference to it yields [undefined].  [runs] is a ghost
    counter of the invocations of [fn]. *)
Record Node : Type := mkNode {
  kind : Kind;
  dirty : bool;
  subs : list WeakRef;
  deps : list node_id;
  ctxDeps : list node_id;
  wvalue : Z;
  cvalue : option Z;
  fn : prog;
  equal : Z -> Z -> bool;
  taskScheduled : bool;
  destroyed : bool;
  collected : bool;
  handle : bool;
  runs : nat
}.

Definition with_dirty (b : bool) (x : Node) : Node :=
  mkNode (kind x) b (subs x) (deps x) (ctxDeps x) (wvalue x) (cvalue x) (fn x)
         (equal x) (taskScheduled x) (destroyed x) (collected x) (handle x) (runs x).
Definition with_subs (l : list WeakRef) (x : Node) : Node :=
  mkNode (kind x) (dirty x) l (deps x) (ctxDeps x) (wvalue x) (cvalue x) (fn x)
         (equal x) (taskScheduled x) (destroyed x) (collected x) (handle x) (runs x).
Definition with_deps (l : list node_id) (x : Node) : Node :=
  mkNode (kind x) (dirty x) (subs x) l (ctxDeps x) (wvalue x) (cvalue x) (fn x)
         (equal x) (taskScheduled x) (destroyed x) (collected x) (handle x) (runs x).
Definition with_ctxDeps (l : list node_id) (x : Node) : Node :=
  mkNode (kind x) (dirty x) (subs x) (deps x) l (wvalue x) (cvalue x) (fn x)
         (equal x) (taskScheduled x) (destroyed x) (collected x) (handle x) (runs x).
Definition with_wvalue (v : Z) (x : Node) : Node :=
  mkNode (kind x) (dirty x) (subs x) (deps x) (ctxDeps x) v (cvalue x) (fn x)
         (equal x) (taskScheduled x) (destroyed x) (collected x) (handle x) (runs x).
Definition with_cvalue (v : option Z) (x : Node) : Node :=
  mkNode (kind x) (dirty x) (subs x) (deps x) (ctxDeps x) (wvalue x) v (fn x)
         (equal x) (taskScheduled x) (destroyed x) (collected x) (handle x) (runs x).
Definition with_taskScheduled (b : bool) (x : Node) : Node :=
  mkNode (kind x) (dirty x) (subs x) (deps x) (ctxDeps x) (wvalue x) (cvalue x) (fn x)
         (equal x) b (destroyed x) (collected x) (handle x) (runs x).
Definition with_destroyed (b : bool) (x : Node) : Node :=
  mkNode (kind x) (dirty x) (subs x) (deps x) (ctxDeps x) (wvalue x) (cvalue x) (fn x)
         (equal x) (taskScheduled x) b (collected x) (handle x) (runs x).
Definition with_collected (b : bool) (x : Node) : Node :=
  mkNode (kind x) (dirty x) (subs x) (deps x) (ctxDeps x) (wvalue x) (cvalue x) (fn x)
         (equal x) (taskScheduled x) (destroyed x) b (handle x) (runs x).
Definition with_handle (b : bool) (x : Node) : Node :=
  mkNode (kind x) (dirty x) (subs x) (deps x) (ctxDeps x) (wvalue x) (cvalue x) (fn x)
         (equal x) (taskScheduled x) (destroyed x) (collected x) b (runs x).
Definition with_runs (k : nat) (x : Node) : Node :=
  mkNode (kind x) (dirty x) (subs x) (deps x) (ctxDeps x) (wvalue x) (cvalue x) (fn x)
         (equal x) (taskScheduled x) (destroyed x) (collected x) (handle x) k.

(** What an address holds before anything is allocated there. *)
Definition blank : Node :=
  mkNode Free false [] [] [] 0%Z None (Ret 0%Z) Z.eqb false false false false 0.

(** The machine: the heap, the allocation frontier, the next [WeakRef]
    identity, the module variable [context] ([None] is [NONE]), the microtask
    queue (each entry is the closure queued by [EffectNode.markAsDisty] for
    that node), [window[EFFECTS]], the observable output of [Emit], and the
    number of exceptions that escaped a microtask. *)
Record State : Type := mkState {
  nodes : node_id -> Node;
  size : nat;
  next_ref : nat;
  context : option node_id;
  queue : list node_id;
  registry : list node_id;
  log : list Z;
  uncaught : nat
}.

Definition init : State := mkState (fun _ => blank) 0 0 None [] [] [] 0.

Definition upd (n : node_id) (f : Node -> Node) (s : State) : State :=
  mkState (fun m => if Nat.eqb m n then f (nodes s n) else nodes s m)
          (size s) (next_ref s) (context s) (queue s) (registry s) (log s) (uncaught s).

Definition set_context (c : option node_id) (s : State) : State :=
  mkState (nodes s) (size s) (next_ref s) c (queue s) (registry s) (log s) (uncaught s).
Definition set_queue (q : list node_id) (s : State) : State :=
  mkState (nodes s) (size s) (next_ref s) (context s) q (registry s) (log s) (uncaught s).
Definition set_registry (r : list node_id) (s : State) : State :=
  mkState (nodes s) (size s) (next_ref s) (context s) (queue s) r (log s) (uncaught s).
Definition set_next_ref (k : nat) (s : State) : State :=
  mkState (nodes s) (size s) k (context s) (queue s) (registry s) (log s) (uncaught s).
Definition emit (v : Z) (s : State) : State :=
  mkState (nodes s) (size s) (next_ref s) (context s) (queue s) (registry s)
          (log s ++ [v]) (uncaught s).
Definition report (s : State) : State :=
  mkState (nodes s) (size s) (next_ref s) (context s) (queue s) (registry s)
          (log s) (S (uncaught s)).

(** [Set<ReactiveNode>]: insertion ordered, no duplicates. *)
Definition set_has (x : node_id) (l : list node_id) : bool := existsb (Nat.eqb x) l.
Definition set_add (x : node_id) (l : list node_id) : list node_id :=
  if set_has x l then l else l ++ [x].
Definition set_delete (x : node_id) (l : list node_id) : list node_id :=
  filter (fun y => negb (Nat.eqb y x)) l.

(** ** ReactiveNode *)

(** [ref.deref()] *)
Definition deref (s : State) (r : WeakRef) : option node_id :=
  if collected (nodes s (ref_target r)) then None else Some (ref_target r).

(** [Object.is(ref.deref(), sub)] *)
Definition targets (s : State) (sub : node_id) (r : WeakRef) : bool :=
  match deref s r with
  | Some t => Nat.eqb t sub
  | None => false
  end.

(** [this.subs.add(new WeakRef(sub))]: the reference is a new object, so the
    set always grows. *)
Definition add_ref (this sub : node_id) (s : State) : State :=
  set_next_ref (S (next_ref s))
    (upd this (fun x => with_subs (subs x ++ [mkRef (next_ref s) sub]) x) s).

(** [this.subs.delete(ref)] *)
Definition delete_ref (this : node_id) (r : WeakRef) (s : State) : State :=
  upd this (fun x => with_subs (filter (fun r' => negb (ref_eqb r r')) (subs x)) x) s.

Definition subscribe (V : version) (this sub : node_id) (s : State) : State :=
  match V with
  | Vindex => add_ref this sub s
  | Vguard =>
      if existsb (targets s sub) (subs (nodes s this)) then s
      else add_ref this sub s
  end.

(** [Vindex]: [find] the first matching reference and delete that one.
    [Vguard]: [forEach] reference, delete it when it matches. *)
Definition unsubscribe (V : version) (this sub : node_id) (s : State) : State :=
  match V with
  | Vindex =>
      match find (targets s sub) (subs (nodes s this)) with
      | Some r => delete_ref this r s
      | None => s
      end
  | Vguard =>
      upd this (fun x => with_subs (filter (fun r => negb (targets s sub r)) (subs x)) x) s
  end.

(** [EffectNode.markAsDisty]: the override queues one microtask and raises
    [taskScheduled]; only [Vguard] has the [destroyed] test. *)
Definition effect_blocked (V : version) (x : Node) : bool :=
  match V with
  | Vindex => taskScheduled x
  | Vguard => taskScheduled x || destroyed x
  end.

Definition schedule (e : node_id) (s : State) : State :=
  upd e (with_taskScheduled true) (set_queue (queue s ++ [e]) s).

Definition EffectNode_markAsDisty (V : version) (e : node_id) (s : State) : State :=
  if effect_blocked V (nodes s e) then s else schedule e s.

(** The loop shared by [ReactiveNode.markAsDisty] and [WritableNode.setValue]:
    [for (const ref of this.subs)], notifying live subscribers and deleting
    dead references.  The body only ever deletes the element being visited
    from the set under iteration, so iterating the elements present at loop
    entry visits the same references in the same order. *)
Fixpoint notify (mark : node_id -> State -> option State) (this : node_id)
         (refs : list WeakRef) (s : State) : option State :=
  match refs with
  | [] => Some s
  | r :: rest =>
      match deref s r with
      | Some sub =>
          match mark sub s with
          | Some s' => notify mark this rest s'
          | None => None
          end
      | None => notify mark this rest (delete_ref this r s)
      end
  end.

(** [sub.markAsDisty()] with dynamic dispatch.  The recursion follows
    subscriber edges; [fuel] bounds its depth. *)
Fixpoint markAsDisty_fuel (V : version) (fuel : nat) (n : node_id) (s : State)
  : option State :=
  match fuel with
  | O => None
  | S f =>
      match kind (nodes s n) with
      | Free => None
      | EffectNode => Some (EffectNode_markAsDisty V n s)
      | WritableNode | ComputedNode =>
          if dirty (nodes s n) then Some s
          else
            let s1 := upd n (with_dirty true) s in
            notify (markAsDisty_fuel V f) n (subs (nodes s1 n)) s1
      end
  end.

(** Every call that does something turns a clean node dirty, so the depth
    never exceeds the number of allocated nodes (see [markAsDisty_total]). *)
Definition markAsDisty (V : version) (n : node_id) (s : State) : option State :=
  markAsDisty_fuel V (S (size s)) n s.

(** [addAsSub] *)
Definition addAsSub (V : version) (this : node_id) (s : State) : State :=
  match context s with
  | None => s
  | Some ctx =>
      upd ctx (fun x => with_ctxDeps (set_add this (ctxDeps x)) x)
          (subscribe V this ctx s)
  end.

(** ** WritableNode *)

Definition setValue (V : version) (n : node_id) (v : Z) (s : State) : option State :=
  let s1 := upd n (with_wvalue v) s in
  notify (markAsDisty V) n (subs (nodes s1 n)) s1.

Definition WritableNode_getValue (V : version) (n : node_id) (s : State) : Z * State :=
  let s1 := addAsSub V n s in (wvalue (nodes s1 n), s1).

(** [signalFn.set] of the closure returned by [Signal] for node [n]. *)
Definition Signal_set (V : version) (n : node_id) (v : Z) (s : State) : option State :=
  match kind (nodes s n) with
  | WritableNode =>
      let (cur, s1) := WritableNode_getValue V n s in
      if equal (nodes s n) cur v then Some s1 else setValue V n v s1
  | _ => None
  end.

(** ** Running a user closure *)

Fixpoint exec (V : version) (rd : node_id -> State -> option (Result Z * State))
         (p : prog) (s : State) : option (Result Z * State) :=
  match p with
  | Ret v => Some (Ok v, s)
  | Throw => Some (Exn, s)
  | Read n k =>
      match rd n s with
      | Some (Ok v, s') => exec V rd (k v) s'
      | Some (Exn, s') => Some (Exn, s')
      | None => None
      end
  | Write n v k =>
      match Signal_set V n v s with
      | Some s' => exec V rd k s'
      | None => None
      end
  | Emit v k => exec V rd k (emit v s)
  end.

(** The two loops and the [clear()] that follow the call of the closure in
    [compute] and [runEffect]. *)
Definition prune_step (V : version) (this : node_id) (s : State) (dep : node_id) : State :=
  if set_has dep (ctxDeps (nodes s this)) then s
  else unsubscribe V dep this (upd this (fun x => with_deps (set_delete dep (deps x)) x) s).

Definition adopt_step (this : node_id) (s : State) (ctxDep : node_id) : State :=
  if set_has ctxDep (deps (nodes s this)) then s
  else upd this (fun x => with_deps (deps x ++ [ctxDep]) x) s.

Definition reconcile (V : version) (this : node_id) (s : State) : State :=
  let s1 := fold_left (prune_step V this) (deps (nodes s this)) s in
  let s2 := fold_left (adopt_step this) (ctxDeps (nodes s1 this)) s1 in
  upd this (with_ctxDeps []) s2.

(** [context = this; const value = this.computationFn()] *)
Definition enter (this : node_id) (s : State) : State :=
  upd this (fun x => with_runs (S (runs x)) x) (set_context (Some this) s).

(** ** ComputedNode *)

Definition stale (x : Node) : bool :=
  match cvalue x with
  | None => true
  | Some _ => dirty x
  end.

(** [compute()]; [rd] is the getter dispatch the closure calls into. *)
Definition compute (V : version) (rd : node_id -> State -> option (Result Z * State))
           (this : node_id) (s : State) : option (Result Z * State) :=
  let prevCtx := context s in
  match exec V rd (fn (nodes s this)) (enter this s) with
  | Some (Ok value, s1) => Some (Ok value, set_context prevCtx (reconcile V this s1))
  | Some (Exn, s1) => Some (Exn, s1)
  | None => None
  end.

(** Getter dispatch: [node.getValue()] for the node behind a getter.  [fuel]
    bounds the nesting depth of evaluations; [None] stands for a call that
    does not return within that depth, or for a getter that cannot exist
    (an effect has none). *)
Fixpoint getValue (V : version) (fuel : nat) (n : node_id) (s : State)
  : option (Result Z * State) :=
  match fuel with
  | O => None
  | S f =>
      match kind (nodes s n) with
      | WritableNode =>
          let (v, s1) := WritableNode_getValue V n s in Some (Ok v, s1)
      | ComputedNode =>
          let s1 := addAsSub V n s in
          if stale (nodes s1 n) then
            match compute V (getValue V f) n s1 with
            | Some (Ok v, s2) =>
                Some (Ok v, upd n (fun x => with_dirty false (with_cvalue (Some v) x)) s2)
            | Some (Exn, s2) => Some (Exn, s2)
            | None => None
            end
          else
            match cvalue (nodes s1 n) with
            | Some v => Some (Ok v, s1)
            | None => None
            end
      | _ => None
      end
  end.

(** ** EffectNode *)

Definition runEffect (V : version) (fuel : nat) (e : node_id) (s : State)
  : option (Result unit * State) :=
  let prevCtx := context s in
  match exec V (getValue V fuel) (fn (nodes s e)) (enter e s) with
  | Some (Ok _, s1) => Some (Ok tt, set_context prevCtx (reconcile V e s1))
  | Some (Exn, s1) => Some (Exn, s1)
  | None => None
  end.

(** The closure handed to [queueMicrotask]:
    [() => { this.runEffect(); this.taskScheduled = false; }] *)
Definition runTask (V : version) (fuel : nat) (e : node_id) (s : State)
  : option (Result unit * State) :=
  match runEffect V fuel e s with
  | Some (Ok _, s1) => Some (Ok tt, upd e (with_taskScheduled false) s1)
  | Some (Exn, s1) => Some (Exn, s1)
  | None => None
  end.

(** The host drains the microtask queue; an exception escaping a task is
    reported and the next task runs. *)
Fixpoint runMicrotasks (V : version) (fuel : nat) (s : State) : option State :=
  match fuel with
  | O => None
  | S f =>
      match queue s with
      | [] => Some s
      | e :: q =>
          match runTask V f e (set_queue q s) with
          | Some (Ok _, s') => runMicrotasks V f s'
          | Some (Exn, s') => runMicrotasks V f (report s')
          | None => None
          end
      end
  end.

(** [destroy()] of [EffectNode] (only in [Vguard]). *)
Definition EffectNode_destroy (e : node_id) (s : State) : State :=
  let s1 := fold_left (fun st dep => unsubscribe Vguard dep e st) (deps (nodes s e)) s in
  upd e (fun x => with_destroyed true (with_deps [] x)) s1.

(** ** Public factories *)

Definition alloc (x : Node) (s : State) : node_id * State :=
  (size s,
   mkState (fun m => if Nat.eqb m (size s) then x else nodes s m)
           (S (size s)) (next_ref s) (context s) (queue s) (registry s) (log s)
           (uncaught s)).

Definition Signal (value : Z) (eq : Z -> Z -> bool) (s : State) : node_id * State :=
  alloc (mkNode WritableNode false [] [] [] value None (Ret 0%Z) eq false false false false 0) s.

(** [Object.is] on the integers of the model. *)
Definition Object_is : Z -> Z -> bool := Z.eqb.

Definition Computed (f : prog) (s : State) : node_id * State :=
  alloc (mkNode ComputedNode false [] [] [] 0%Z None f Object_is false false false false 0) s.

Definition Effect (V : version) (f : prog) (s : State) : node_id * State :=
  let (e, s1) :=
    alloc (mkNode EffectNode false [] [] [] 0%Z None f Object_is false false false true 0) s in
  let s2 := EffectNode_markAsDisty V e s1 in
  match V with
  | Vindex => (e, s2)
  | Vguard => (e, set_registry (set_add e (registry s2)) s2)
  end.

(** [destroy] of the handle returned by [Effect] in [Vguard]. *)
Definition Effect_destroy (e : node_id) (s : State) : State :=
  if handle (nodes s e) then
    upd e (with_handle false)
        (EffectNode_destroy e (set_registry (set_delete e (registry s)) s))
  else s.

(** The garbage collector reclaims an object. *)
Definition collect (n : node_id) (s : State) : State := upd n (with_collected true) s.

(** ** Client code: sequences of public operations *)

(** A sequence of [getter.set] calls. *)
Fixpoint Signal_sets (V : version) (ws : list (node_id * Z)) (s : State) : option State :=
  match ws with
  | [] => Some s
  | (n, v) :: rest =>
      match Signal_set V n v s with
      | Some s' => Signal_sets V rest s'
      | None => None
      end
  end.

(** What client code does with the public surface between two moments. *)
Inductive op : Type :=
| OpRead (n : node_id)            (* getter_n() *)
| OpSet (n : node_id) (v : Z)     (* getter_n.set(v) *)
| OpTick.                         (* the host drains the microtask queue *)

Definition run_op (V : version) (fuel : nat) (o : op) (s : State) : option State :=
  match o with
  | OpRead n =>
      match getValue V fuel n s with
      | Some (_, s') => Some s'
      | None => None
      end
  | OpSet n v => Signal_set V n v s
  | OpTick => runMicrotasks V fuel s
  end.

Fixpoint run_ops (V : version) (fuel : nat) (ops : list op) (s : State) : option State :=
  match ops with
  | [] => Some s
  | o :: rest =>
      match run_op V fuel o s with
      | Some s' => run_ops V fuel rest s'
      | None => None
      end
  end.

Definition or_init (o : option State) : State :=
  match o with
  | Some s => s
  | None => init
  end.

Definition after_read (V : version) (fuel : nat) (n : node_id) (s : State) : State :=
  match getValue V fuel n s with
  | Some (_, s') => s'
  | None => init
  end.

Definition after_set (V : version) (n : node_id) (v : Z) (s : State) : State :=
  or_init (Signal_set V n v s).

Definition after_tick (V : version) (fuel : nat) (s : State) : State :=
  or_init (runMicrotasks V fuel s).

Definition is_some (A : Type) (o : option A) : bool :=
  match o with
  | Some _ => true
  | None => false
  end.

Definition after_task (V : version) (fuel : nat) (e : node_id) (s : State) : State :=
  match runTask V fuel e s with
  | Some (_, s') => s'
  | None => init
  end.

(** ** Scenarios built through the public surface *)

(** [setupCounter]: [counter = Signal(0)] at address 0 and an effect that
    renders it at address 1. *)
Definition counter0 (V : version) : State :=
  let (c, s) := Signal 0%Z Object_is init in
  let (e, s) := Effect V (Read c (fun x => Emit x (Ret 0%Z))) s in
  s.

(** The counter after the first tick. *)
Definition counter_state (V : version) : State := after_tick V 4 (counter0 V).

(** [a = Signal(1); b = Computed(a*2); c = Computed(a+1); d = Computed(b+c)]
    at addresses 0..3, then a first read of [d]. *)
Definition diamond0 : State :=
  let (a, s) := Signal 1%Z Object_is init in
  let (b, s) := Computed (Read a (fun x => Ret (x * 2)%Z)) s in
  let (c, s) := Computed (Read a (fun x => Ret (x + 1)%Z)) s in
  let (d, s) := Computed (Read b (fun x => Read c (fun y => Ret (x + y)%Z))) s in
  s.

Definition diamond1 (V : version) : State := after_read V 4 3 diamond0.

(** [a.set(5)] and then the second read of [d]. *)
Definition diamond2 (V : version) : State := after_set V 0 5%Z (diamond1 V).
Definition diamond3 (V : version) : State := after_read V 4 3 (diamond2 V).

(** Three signals at 0..2 and an effect at 3 that reads all of them; idle
    after its first run. *)
Definition trio_state (V : version) : State :=
  let (a, s) := Signal 1%Z Object_is init in
  let (b, s) := Signal 2%Z Object_is s in
  let (c, s) := Signal 3%Z Object_is s in
  let (e, s) :=
    Effect V (Read a (fun x => Read b (fun y => Read c (fun z =>
                Emit (x + y + z)%Z (Ret 0%Z))))) s in
  after_tick V 4 s.

(** [flag = Signal(1); x = Signal(10); d = Computed(() => flag() ? x() : 0)]
    at addresses 0..2. *)
Definition branch0 : State :=
  let (flag, s) := Signal 1%Z Object_is init in
  let (x, s) := Signal 10%Z Object_is s in
  let (d, s) :=
    Computed (Read flag (fun b => if Z.eqb b 0 then Ret 0%Z
                                   else Read x (fun v => Ret v))) s in
  s.

(** [d(); x.set(11); d(); flag.set(0)]: two evaluations that read [x], then
    the flag is lowered. *)
Definition branch_before (V : version) : State :=
  after_set V 0 0%Z
    (after_read V 3 2
       (after_set V 1 11%Z
          (after_read V 3 2 branch0))).

(** The next [d()] takes the other branch. *)
Definition branch_pruned (V : version) : State := after_read V 3 2 (branch_before V).

(** [a = Signal(1); d = Computed(() => { a(); throw ... })]. *)
Definition thrower0 : State :=
  let (a, s) := Signal 1%Z Object_is init in
  let (d, s) := Computed (Read a (fun _ => Throw)) s in
  s.

(** [a = Signal(1); Effect(() => { a(); throw ... })], before the first tick. *)
Definition failing0 (V : version) : State :=
  let (a, s) := Signal 1%Z Object_is init in
  let (e, s) := Effect V (Read a (fun _ => Throw)) s in
  s.

(** The counter's effect in the middle of a run. *)
Definition counter_running : State := enter 1 (counter_state Vindex).

(** The example of the specification:
    [a = Signal(1); b = Computed(() => a() * 2); Effect(() => results.push(b()))]
    at addresses 0..2. *)
Definition example0 (V : version) : State :=
  let (a, s) := Signal 1%Z Object_is init in
  let (b, s) := Computed (Read a (fun x => Ret (x * 2)%Z)) s in
  let (e, s) := Effect V (Read b (fun x => Emit x (Ret 0%Z))) s in
  s.

(** The first tick, then [a.set(5)] and the next tick. *)
Definition example1 (V : version) : State := after_tick V 4 (example0 V).
Definition example2 (V : version) : State := after_tick V 4 (after_set V 0 5%Z (example1 V)).

(** The three signals of [trio_state] written in one turn, and the tick
    that follows. *)
Definition trio_written (V : version) : State :=
  or_init (Signal_sets V [(0, 10%Z); (1, 20%Z); (2, 30%Z)] (trio_state V)).
Definition trio_ticked (V : version) : State := after_tick V 4 (trio_written V).

(** In index.ts nothing but weak references holds the counter's effect after
    its first run: it is reclaimed, and then the counter is written. *)
Definition counter_collected : State :=
  after_set Vindex 0 1%Z (collect 1 (counter_state Vindex)).

(** * Specification vocabulary *)

(** All fields but [dirty], [subs] and [taskScheduled] agree. *)
Definition push_node (x x' : Node) : Prop :=
  x' = with_taskScheduled (taskScheduled x') (with_subs (subs x') (with_dirty (dirty x') x)).

(** How the scheduling state may move: flags are only raised, and the queue
    grows by exactly the effects whose flag went up, each of them once. *)
Record sched_rel (V : version) (s s' : State) : Prop := mkSched {
  sr_kind : forall m, kind (nodes s' m) = kind (nodes s m);
  sr_destroyed : forall m, destroyed (nodes s' m) = destroyed (nodes s m);
  sr_sched : forall m, taskScheduled (nodes s m) = true -> taskScheduled (nodes s' m) = true;
  sr_queue : exists l,
      queue s' = queue s ++ l /\ NoDup l /\
      (forall e, In e l <->
                 taskScheduled (nodes s e) = false /\ taskScheduled (nodes s' e) = true) /\
      (forall e, In e l ->
                 kind (nodes s e) = EffectNode /\ effect_blocked V (nodes s e) = false)
}.

Record push_rel (V : version) (s s' : State) : Prop := mkPush {
  pr_size : size s' = size s;
  pr_next_ref : next_ref s' = next_ref s;
  pr_context : context s' = context s;
  pr_registry : registry s' = registry s;
  pr_log : log s' = log s;
  pr_uncaught : uncaught s' = uncaught s;
  pr_node : forall m, push_node (nodes s m) (nodes s' m);
  pr_dirty : forall m, dirty (nodes s m) = true -> dirty (nodes s' m) = true;
  pr_subs_incl : forall m r, In r (subs (nodes s' m)) -> In r (subs (nodes s m));
  pr_subs_live : forall m r, In r (subs (nodes s m)) ->
                             collected (nodes s (ref_target r)) = false ->
                             In r (subs (nodes s' m));
  pr_schedq : sched_rel V s s'
}.

Fixpoint count_upto (p : nat -> bool) (N : nat) : nat :=
  match N with
  | O => 0
  | S k => (if p k then 1 else 0) + count_upto p k
  end.

(** A node on which [ReactiveNode.markAsDisty] still has work to do. *)
Definition clean (s : State) (m : node_id) : bool :=
  match kind (nodes s m) with
  | WritableNode | ComputedNode => negb (dirty (nodes s m))
  | _ => false
  end.

Definition clean_count (s : State) : nat := count_upto (clean s) (size s).

(** Nothing lives beyond the allocation frontier. *)
Definition bounded (s : State) : Prop :=
  forall n, size s <= n -> kind (nodes s n) = Free.

(** Every weak reference was created for an allocated object. *)
Definition refs_ok (s : State) : Prop :=
  forall n r, In r (subs (nodes s n)) -> kind (nodes s (ref_target r)) <> Free.

(** All fields but [subs] and [ctxDeps] agree. *)
Definition track_node (x x' : Node) : Prop :=
  x' = with_ctxDeps (ctxDeps x') (with_subs (subs x') x).

(** All fields but [dirty], [subs], [deps], [ctxDeps], [wvalue], [cvalue]
    agree: the node was touched by dependency tracking or value caching only. *)
Definition loose_node (x x' : Node) : Prop :=
  x' = with_dirty (dirty x') (with_subs (subs x') (with_deps (deps x')
         (with_ctxDeps (ctxDeps x') (with_wvalue (wvalue x') (with_cvalue (cvalue x') x))))).

Record loose (s s' : State) : Prop := mkLoose {
  lo_size : size s' = size s;
  lo_queue : queue s' = queue s;
  lo_registry : registry s' = registry s;
  lo_uncaught : uncaught s' = uncaught s;
  lo_node : forall m, loose_node (nodes s m) (nodes s' m)
}.

(** What holds between the states before and after any read or write: the
    allocation frontier, the registry, the class, closure and liveness of
    every object are fixed; no effect function runs; scheduling only moves
    forward. *)
Record pull_rel (V : version) (s s' : State) : Prop := mkPull {
  pl_size : size s' = size s;
  pl_registry : registry s' = registry s;
  pl_uncaught : uncaught s' = uncaught s;
  pl_fn : forall m, fn (nodes s' m) = fn (nodes s m);
  pl_equal : forall m, equal (nodes s' m) = equal (nodes s m);
  pl_collected : forall m, collected (nodes s' m) = collected (nodes s m);
  pl_handle : forall m, handle (nodes s' m) = handle (nodes s m);
  pl_runs_effect : forall m, kind (nodes s m) = EffectNode ->
                             runs (nodes s' m) = runs (nodes s m);
  pl_schedq : sched_rel V s s'
}.

(** The slot after a call that started in [s]: unchanged when the call
    returned, still naming some evaluator when it threw. *)
Definition ctx_after (A : Type) (s : State) (r : Result A) (s' : State) : Prop :=
  match r with
  | Ok _ => context s' = context s
  | Exn => exists m, context s' = Some m
  end.

(** Every getter called by [p] belongs to a node of rank below [b]. *)
Fixpoint reads_below (rank : node_id -> nat) (b : nat) (p : prog) : Prop :=
  match p with
  | Ret _ | Throw => True
  | Read n k => rank n < b /\ forall v, reads_below rank b (k v)
  | Write _ _ k => reads_below rank b k
  | Emit _ k => reads_below rank b k
  end.

(** The graph of derived nodes is acyclic: a computation function only calls
    getters of nodes ranked strictly below its own node. *)
Definition stratified (rank : node_id -> nat) (s : State) : Prop :=
  forall m, kind (nodes s m) = ComputedNode -> reads_below rank (rank m) (fn (nodes s m)).

(** A closure that never calls [getter.set]. *)
Fixpoint write_free (p : prog) : Prop :=
  match p with
  | Ret _ | Throw => True
  | Read _ k => forall v, write_free (k v)
  | Write _ _ _ => False
  | Emit _ k => write_free k
  end.

(** Every function in the graph only observes. *)
Definition observers (s : State) : Prop := forall m, write_free (fn (nodes s m)).

(** The scheduling state did not move. *)
Definition quiet (s s' : State) : Prop :=
  queue s' = queue s /\
  forall m, taskScheduled (nodes s' m) = taskScheduled (nodes s m).

(** Tasks for [e] waiting in the microtask queue. *)
Definition pending (e : node_id) (s : State) : nat := count_occ Nat.eq_dec (queue s) e.

(** A destroyed effect never gains a task: the runs it has had plus the tasks
    still queued for it stay constant. *)
Definition inert_step (e : node_id) (s s' : State) : Prop :=
  kind (nodes s e) = EffectNode -> destroyed (nodes s e) = true ->
  kind (nodes s' e) = EffectNode /\ destroyed (nodes s' e) = true /\
  pending e s' <= pending e s /\
  runs (nodes s' e) + pending e s' = runs (nodes s e) + pending e s.

(** References in [this.subs] that resolve to [sub]. *)
Definition refs_to (s : State) (this sub : node_id) : list WeakRef :=
  filter (targets s sub) (subs (nodes s this)).

(** The invariant of the data model: [a] is a dependency of [b] exactly when
    [a]'s subscriber set holds a reference to [b]. *)
Definition consistent (s : State) : Prop :=
  forall a b, collected (nodes s b) = false ->
              (In a (deps (nodes s b)) <-> exists r, In r (subs (nodes s a)) /\ ref_target r = b).

(** Checking well-formedness of a concrete heap by evaluation. *)
Definition refs_okb (N : nat) (s : State) : bool :=
  forallb (fun n =>
             forallb (fun r => negb (Kind_eqb (kind (nodes s (ref_target r))) Free))
                     (subs (nodes s n)))
          (seq 0 N).

(** The invariant of the data model, stated so that it also holds during an
    evaluation: [a.subs] holds a reference to a live node [b] exactly when
    [a] is in [b.deps] or was read by the evaluation of [b] in progress. *)
Definition tracked (s : State) : Prop :=
  forall a b, collected (nodes s b) = false ->
              (In a (deps (nodes s b)) \/ In a (ctxDeps (nodes s b)) <->
               exists r, In r (subs (nodes s a)) /\ ref_target r = b).

(** No subscriber set holds two references to the same live node. *)
Definition single_ref (s : State) : Prop :=
  forall this r1 r2,
    In r1 (subs (nodes s this)) -> In r2 (subs (nodes s this)) ->
    ref_target r1 = ref_target r2 ->
    collected (nodes s (ref_target r1)) = false -> r1 = r2.

Definition guard_inv (s : State) : Prop := tracked s /\ single_ref s.

(** Two heaps with the same edges and the same live objects. *)
Definition same_edges (s s' : State) : Prop :=
  forall m, subs (nodes s' m) = subs (nodes s m) /\
            deps (nodes s' m) = deps (nodes s m) /\
            ctxDeps (nodes s' m) = ctxDeps (nodes s m) /\
            collected (nodes s' m) = collected (nodes s m).

(** * Further vocabulary *)

Unset Implicit Arguments.

(** ** What a notification leaves behind *)

(** What [markAsDisty] leaves behind on a node: a signal or derived node is
    dirty; an effect has its task scheduled (or, in the copy that has the
    flag, is destroyed). *)
Definition marked (V : version) (x : Node) : bool :=
  match kind x with
  | WritableNode | ComputedNode => dirty x
  | EffectNode => effect_blocked V x
  | Free => false
  end.

(** Every node that went from clean to dirty between [s] and [s'] has all
    its remaining subscribers marked. *)
Definition propagated (V : version) (s s' : State) : Prop :=
  forall m r, dirty (nodes s m) = false -> dirty (nodes s' m) = true ->
              In r (subs (nodes s' m)) -> marked V (nodes s' (ref_target r)) = true.

(** ** The value of a node *)

(** The value a closure returns when each getter [n] it calls answers
    [den n]; [None] when it throws, writes, or calls a getter that has no
    answer. *)
Fixpoint denote_prog (den : node_id -> option Z) (p : prog) : option Z :=
  match p with
  | Ret v => Some v
  | Throw => None
  | Read n k =>
      match den n with
      | Some v => denote_prog den (k v)
      | None => None
      end
  | Write _ _ _ => None
  | Emit _ k => denote_prog den k
  end.

(** The getters it calls on the way. *)
Fixpoint trace (den : node_id -> option Z) (p : prog) : list node_id :=
  match p with
  | Ret _ | Throw => []
  | Read n k =>
      n :: match den n with
           | Some v => trace den (k v)
           | None => []
           end
  | Write _ _ _ => []
  | Emit _ k => trace den k
  end.

(** The value of a node as a function of the values the signals hold now:
    a signal's stored value, a derived node's function applied to the values
    of the nodes it reads.  No cache is consulted. *)
Fixpoint denote (fuel : nat) (s : State) (n : node_id) : option Z :=
  match fuel with
  | O => None
  | S f =>
      match kind (nodes s n) with
      | WritableNode => Some (wvalue (nodes s n))
      | ComputedNode => denote_prog (denote f s) (fn (nodes s n))
      | _ => None
      end
  end.

(** The same with the fuel that the rank of the node calls for. *)
Definition current (rank : node_id -> nat) (s : State) (n : node_id) : option Z :=
  denote (S (rank n)) s n.

(** A closure that is a formula over nodes ranked below [b]: it calls
    getters of signals and derived nodes ranked below [b], never writes and
    never throws. *)
Fixpoint formula (rank : node_id -> nat) (s : State) (b : nat) (p : prog) : Prop :=
  match p with
  | Ret _ => True
  | Throw => False
  | Read n k =>
      rank n < b /\
      (kind (nodes s n) = WritableNode \/ kind (nodes s n) = ComputedNode) /\
      forall v, formula rank s b (k v)
  | Write _ _ _ => False
  | Emit _ k => formula rank s b k
  end.

(** Every function in the graph is a formula over lower-ranked nodes, and
    nothing was reclaimed. *)
Definition pure_graph (rank : node_id -> nat) (s : State) : Prop :=
  (forall m, formula rank s (rank m) (fn (nodes s m))) /\
  (forall m, collected (nodes s m) = false).

(** A node whose getter answers without running anything. *)
Definition settled (s : State) (m : node_id) : Prop :=
  kind (nodes s m) = WritableNode \/
  (kind (nodes s m) = ComputedNode /\ stale (nodes s m) = false).

(** [m.subs] holds a reference made for [c]. *)
Definition has_ref (s : State) (m c : node_id) : Prop :=
  exists r, In r (subs (nodes s m)) /\ ref_target r = c.

(** The cache of [c] holds the current value, and every node the function
    of [c] reads on the way to it is settled and notifies [c]. *)
Definition cache_ok (rank : node_id -> nat) (s : State) (c : node_id) : Prop :=
  current rank s c = cvalue (nodes s c) /\
  forall m, In m (trace (current rank s) (fn (nodes s c))) ->
            settled s m /\ has_ref s m c.

(** Every derived node that is clean and cached has a sound cache. *)
Definition fresh (rank : node_id -> nat) (s : State) : Prop :=
  forall c, kind (nodes s c) = ComputedNode -> stale (nodes s c) = false ->
            cache_ok rank s c.

(** The fields [denote] looks at. *)
Record static (s s' : State) : Prop := mkStatic {
  st_kind : forall m, kind (nodes s' m) = kind (nodes s m);
  st_fn : forall m, fn (nodes s' m) = fn (nodes s m);
  st_wvalue : forall m, wvalue (nodes s' m) = wvalue (nodes s m);
  st_collected : forall m, collected (nodes s' m) = collected (nodes s m)
}.

(** What an evaluation that only reads nodes ranked below [b] leaves alone. *)
Record link (rank : node_id -> nat) (b : nat) (s s' : State) : Prop := mkLink {
  ln_static : static s s';
  ln_settled : forall m, settled s m -> settled s' m;
  ln_ref : forall c m, b <= rank c -> has_ref s m c -> has_ref s' m c;
  ln_ctx : forall c m, b <= rank c -> In m (ctxDeps (nodes s c)) ->
                       In m (ctxDeps (nodes s' c))
}.

(** Every dependency notifies its dependent: a node in [b.deps], or read by
    the evaluation of [b] in progress, holds a reference to [b]. *)
Definition deps_subscribed (s : State) : Prop :=
  forall a b, collected (nodes s b) = false ->
              In a (deps (nodes s b)) \/ In a (ctxDeps (nodes s b)) -> has_ref s a b.

(** ** Declaring a graph *)

(** A call of one of the three public factories. *)
Inductive decl : Type :=
| NewSignal (value : Z) (eq : Z -> Z -> bool)   (* Signal(value, { equal }) *)
| NewComputed (f : prog)                        (* Computed(f) *)
| NewEffect (f : prog).                         (* Effect(f) *)

Definition declare (V : version) (s : State) (d : decl) : State :=
  match d with
  | NewSignal value eq => snd (Signal value eq s)
  | NewComputed f => snd (Computed f s)
  | NewEffect f => snd (Effect V f s)
  end.

(** A module that only declares its graph. *)
Definition build (V : version) (ds : list decl) : State := fold_left (declare V) ds init.

(** The graph right after its declaration: nothing was evaluated, nothing
    is connected, and every effect waits for its first run. *)
Record declared (s : State) : Prop := mkDeclared {
  dc_bounded : bounded s;
  dc_context : context s = None;
  dc_log : log s = [];
  dc_edges : forall m, subs (nodes s m) = [] /\ deps (nodes s m) = [] /\
                       ctxDeps (nodes s m) = [];
  dc_live : forall m, collected (nodes s m) = false;
  dc_clean : forall m, dirty (nodes s m) = false /\ cvalue (nodes s m) = None /\
                       runs (nodes s m) = 0;
  dc_queue : NoDup (queue s);
  dc_effects : forall e, In e (queue s) <-> kind (nodes s e) = EffectNode;
  dc_sched : forall e, kind (nodes s e) = EffectNode -> taskScheduled (nodes s e) = true
}.

(** ** Programs over a declared graph *)

(** An operation client code can perform on the graph in [s]: a getter
    exists for signals and derived nodes, [set] for signals. *)
Definition valid_op (s : State) (o : op) : Prop :=
  match o with
  | OpRead n => kind (nodes s n) = WritableNode \/ kind (nodes s n) = ComputedNode
  | OpSet n _ => kind (nodes s n) = WritableNode
  | OpTick => True
  end.

(** A well-formed heap whose evaluator, if any, is an allocated object. *)
Definition sound_heap (s : State) : Prop :=
  bounded s /\ refs_ok s /\
  forall c, context s = Some c -> kind (nodes s c) <> Free.

(** The microtask queue holds effects whose flag is set, each once. *)
Definition sound_queue (s : State) : Prop :=
  NoDup (queue s) /\
  forall e, In e (queue s) ->
            kind (nodes s e) = EffectNode /\ taskScheduled (nodes s e) = true.

(** ** The counter page *)

(** [element.textContent = `count is ${counter()}`]: the text written is
    observed as the number it shows. *)
Definition render (counter : node_id) : prog :=
  Read counter (fun x => Emit x (Ret 0%Z)).

(** [setupCounter(element)] up to the registration of the listener. *)
Definition setupCounter (V : version) (s : State) : node_id * State :=
  let (counter, s1) := Signal 0%Z Object_is s in
  let (_, s2) := Effect V (render counter) s1 in
  (counter, s2).

(** [x + 1] on numbers.  JavaScript numbers are doubles: the sum of two
    integers is exact while the operand stays below 2^53 in absolute value;
    beyond that it is rounded, and the model gives no result. *)
Definition js_succ (x : Z) : option Z :=
  if (Z.abs x <? 2 ^ 53)%Z then Some (x + 1)%Z else None.

(** The [mousedown] listener: [counter.set(counter() + 1)]. *)
Definition mousedown (V : version) (fuel : nat) (counter : node_id) (s : State)
  : option State :=
  match getValue V fuel counter s with
  | Some (Ok x, s1) =>
      match js_succ x with
      | Some y => Signal_set V counter y s1
      | None => None
      end
  | _ => None
  end.

(** What the host does between two jobs: it dispatches a [mousedown] event
    to the button, or its garbage collector tries to reclaim an object. *)
Inductive host_event : Type :=
| Click
| Reclaim (m : node_id).

(** Whether something keeps the object [m] alive: the page ([roots]: the
    listener closure captures the getter of the signal), the evaluation in
    progress, a queued task (its closure captures [this]),
    [window[EFFECTS]], or the [deps] or [ctxDeps] set of an object that was
    not reclaimed.  The references in [subs] are weak and keep nothing
    alive. *)
Definition held (roots : list node_id) (s : State) (m : node_id) : bool :=
  set_has m roots ||
  match context s with
  | Some c => Nat.eqb m c
  | None => false
  end ||
  set_has m (queue s) || set_has m (registry s) ||
  existsb (fun x => negb (collected (nodes s x)) &&
                    (set_has m (deps (nodes s x)) || set_has m (ctxDeps (nodes s x))))
          (seq 0 (size s)).

(** The collector reclaims the allocated object [m] unless something holds
    it. *)
Definition reclaim (roots : list node_id) (m : node_id) (s : State) : State :=
  if (m <? size s) && negb (held roots s m) then collect m s else s.

(** The host runs the events in order; it drains the microtask queue after
    each call of the listener. *)
Fixpoint host (V : version) (fuel : nat) (counter : node_id) (evs : list host_event)
         (s : State) : option State :=
  match evs with
  | [] => Some s
  | Click :: rest =>
      match mousedown V fuel counter s with
      | Some s1 =>
          match runMicrotasks V fuel s1 with
          | Some s2 => host V fuel counter rest s2
          | None => None
          end
      | None => None
      end
  | Reclaim m :: rest => host V fuel counter rest (reclaim [counter] m s)
  end.

(** The clicks among the events. *)
Fixpoint clicks_of (evs : list host_event) : nat :=
  match evs with
  | [] => 0
  | Click :: rest => S (clicks_of rest)
  | Reclaim _ :: rest => clicks_of rest
  end.

(** The clicks that come before the collector first turns to [e]. *)
Fixpoint clicks_before_reclaim (e : node_id) (evs : list host_event) : nat :=
  match evs with
  | [] => 0
  | Click :: rest => S (clicks_before_reclaim e rest)
  | Reclaim m :: rest => if Nat.eqb m e then 0 else clicks_before_reclaim e rest
  end.

(** The page of [setupCounter] between two events: the signal at 0 holds
    [k], the effect at 1 renders it, and [sched] tells whether a run of the
    effect is queued. *)
Record counter_shape (sched : bool) (k : Z) (s : State) : Prop := mkShape {
  cs_context : context s = None;
  cs_queue : queue s = if sched then [1] else [];
  cs_size : size s = 2;
  cs_bounded : bounded s;
  cs_kind0 : kind (nodes s 0) = WritableNode;
  cs_equal : equal (nodes s 0) = Object_is;
  cs_value : wvalue (nodes s 0) = k;
  cs_kind1 : kind (nodes s 1) = EffectNode;
  cs_fn : fn (nodes s 1) = render 0;
  cs_sched : taskScheduled (nodes s 1) = sched;
  cs_destroyed : destroyed (nodes s 1) = false;
  cs_collected : collected (nodes s 1) = false;
  cs_subs0 : forall r, In r (subs (nodes s 0)) -> ref_target r = 1;
  cs_ref : sched = false -> exists r, In r (subs (nodes s 0)) /\ ref_target r = 1;
  cs_subs : forall m, m <> 0 -> subs (nodes s m) = [];
  cs_deps : forall d, In d (deps (nodes s 1)) -> d = 0;
  cs_ctxDeps : ctxDeps (nodes s 1) = []
}.

(** What holds the objects of the page: [window[EFFECTS]] holds the effect
    in the copy that has it, and the signal holds nothing. *)
Definition counter_held (V : version) (s : State) : Prop :=
  registry s = match V with
               | Vindex => []
               | Vguard => [1]
               end /\
  deps (nodes s 0) = [] /\ ctxDeps (nodes s 0) = [].

(** The page once the effect was reclaimed: what is left in the set of the
    signal are references to it. *)
Record counter_dead (k : Z) (s : State) : Prop := mkDead {
  cd_context : context s = None;
  cd_queue : queue s = [];
  cd_size : size s = 2;
  cd_bounded : bounded s;
  cd_kind0 : kind (nodes s 0) = WritableNode;
  cd_equal : equal (nodes s 0) = Object_is;
  cd_value : wvalue (nodes s 0) = k;
  cd_kind1 : kind (nodes s 1) = EffectNode;
  cd_collected : collected (nodes s 1) = true;
  cd_subs0 : forall r, In r (subs (nodes s 0)) -> ref_target r = 1;
  cd_subs : forall m, m <> 0 -> subs (nodes s m) = []
}.

(** ** What effects emit *)

(** What a closure passes to [Emit], in order, when each getter [n] it
    calls answers [den n]. *)
Fixpoint emits (den : node_id -> option Z) (p : prog) : list Z :=
  match p with
  | Ret _ | Throw => []
  | Read n k =>
      match den n with
      | Some v => emits den (k v)
      | None => []
      end
  | Write _ _ _ => []
  | Emit v k => v :: emits den k
  end.

(** A closure with no observable side effect. *)
Fixpoint silent (p : prog) : Prop :=
  match p with
  | Ret _ | Throw => True
  | Read _ k => forall v, silent (k v)
  | Write _ _ k => silent k
  | Emit _ _ => False
  end.

(** Only effects produce output. *)
Definition silent_computations (s : State) : Prop :=
  forall m, kind (nodes s m) = ComputedNode -> silent (fn (nodes s m)).

(** ** Where an exception comes from *)





(** ** Diamonds *)

(** A diamond between two reads of [d]: [a] is a signal, [b], [c] and [d]
    are derived nodes, [a] notifies [b] and [c], both notify [d], and the
    three derived nodes are cached and clean. *)
Record diamond (s : State) (a b c d : node_id) : Prop := mkDiamond {
  dm_a : kind (nodes s a) = WritableNode;
  dm_b : kind (nodes s b) = ComputedNode;
  dm_c : kind (nodes s c) = ComputedNode;
  dm_d : kind (nodes s d) = ComputedNode;
  dm_ab : exists r, In r (subs (nodes s a)) /\ deref s r = Some b;
  dm_ac : exists r, In r (subs (nodes s a)) /\ deref s r = Some c;
  dm_bd : exists r, In r (subs (nodes s b)) /\ deref s r = Some d;
  dm_cd : exists r, In r (subs (nodes s c)) /\ deref s r = Some d;
  dm_clean_b : stale (nodes s b) = false;
  dm_clean_c : stale (nodes s c) = false;
  dm_clean_d : stale (nodes s d) = false
}.

(** ** Effects that write *)



Set Implicit Arguments.

(** * Verification *)

(** ** Heap algebra *)

Lemma nodes_upd_eq (n : node_id) (f : Node -> Node) (s : State) :
  nodes (upd n f s) n = f (nodes s n).
Proof. simpl. now rewrite Nat.eqb_refl. Qed.

Lemma nodes_upd_ne (n m : node_id) (f : Node -> Node) (s : State) :
  m <> n -> nodes (upd n f s) m = nodes s m.
Proof. intros H. simpl. apply Nat.eqb_neq in H. now rewrite H. Qed.

Lemma nodes_upd (n m : node_id) (f : Node -> Node) (s : State) :
  nodes (upd n f s) m = if Nat.eqb m n then f (nodes s n) else nodes s m.
Proof. reflexivity. Qed.

(** Case analysis on whether two addresses coincide. *)
Ltac same_addr m n :=
  let E := fresh "E" in
  destruct (Nat.eqb m n) eqn:E;
  [apply Nat.eqb_eq in E; try subst m | apply Nat.eqb_neq in E].

Lemma set_has_In (x : node_id) (l : list node_id) : set_has x l = true <-> In x l.
Proof.
  unfold set_has. rewrite existsb_exists. split.
  - intros [y [Hy E]]. apply Nat.eqb_eq in E. now subst.
  - intros H. exists x. split; [assumption | apply Nat.eqb_refl].
Qed.

Lemma set_add_In (x y : node_id) (l : list node_id) :
  In y (set_add x l) <-> y = x \/ In y l.
Proof.
  unfold set_add. destruct (set_has x l) eqn:E.
  - apply set_has_In in E. split; [now right | intros [->|H]; assumption].
  - rewrite in_app_iff. simpl. intuition.
Qed.

Lemma set_delete_In (x y : node_id) (l : list node_id) :
  In y (set_delete x l) <-> In y l /\ y <> x.
Proof.
  unfold set_delete. rewrite filter_In, negb_true_iff, Nat.eqb_neq. reflexivity.
Qed.

Lemma ref_eqb_eq (a b : WeakRef) : ref_eqb a b = true <-> a = b.
Proof.
  unfold ref_eqb. rewrite andb_true_iff, !Nat.eqb_eq.
  destruct a, b; simpl. split.
  - intros [-> ->]. reflexivity.
  - intros H. injection H. auto.
Qed.

(** ** The push phase only raises flags, prunes dead references and queues tasks *)

Ltac push_node_case :=
  match goal with |- push_node ?x _ => destruct x; reflexivity end.

Lemma push_node_refl (x : Node) : push_node x x.
Proof. destruct x; reflexivity. Qed.

Lemma push_node_trans (x y z : Node) : push_node x y -> push_node y z -> push_node x z.
Proof.
  unfold push_node. intros H1 H2. rewrite H2 at 1. rewrite H1 at 1.
  destruct x; reflexivity.
Qed.

Lemma sr_blocked (V : version) (s s' : State) (m : node_id) :
  sched_rel V s s' ->
  effect_blocked V (nodes s m) = true -> effect_blocked V (nodes s' m) = true.
Proof.
  intros H. pose proof (sr_destroyed H m) as D. pose proof (sr_sched H m) as S.
  unfold effect_blocked. destruct V.
  - exact S.
  - rewrite D, !orb_true_iff. intros [A|A]; [left; now apply S | now right].
Qed.

(** Steps that leave every [taskScheduled] flag and the queue alone. *)
Lemma sched_rel_quiet (V : version) (s s' : State) :
  (forall m, kind (nodes s' m) = kind (nodes s m)) ->
  (forall m, destroyed (nodes s' m) = destroyed (nodes s m)) ->
  (forall m, taskScheduled (nodes s' m) = taskScheduled (nodes s m)) ->
  queue s' = queue s ->
  sched_rel V s s'.
Proof.
  intros K D T Q. constructor; try assumption.
  - intros m Hm. now rewrite T.
  - exists []. rewrite app_nil_r. repeat split; try assumption; try constructor;
      try contradiction.
    intros [A B]. rewrite T in B. congruence.
Qed.

Lemma sched_rel_refl (V : version) (s : State) : sched_rel V s s.
Proof. apply sched_rel_quiet; reflexivity. Qed.

Lemma sched_rel_trans (V : version) (s1 s2 s3 : State) :
  sched_rel V s1 s2 -> sched_rel V s2 s3 -> sched_rel V s1 s3.
Proof.
  intros A B. constructor.
  - intros m. now rewrite (sr_kind B), (sr_kind A).
  - intros m. now rewrite (sr_destroyed B), (sr_destroyed A).
  - intros m Hm. apply (sr_sched B), (sr_sched A), Hm.
  - destruct (sr_queue A) as [l1 [Q1 [N1 [I1 K1]]]].
    destruct (sr_queue B) as [l2 [Q2 [N2 [I2 K2]]]].
    exists (l1 ++ l2). split; [|split; [|split]].
    + now rewrite Q2, Q1, app_assoc.
    + apply NoDup_app; try assumption.
      intros e H1 H2. apply I1 in H1. apply I2 in H2. destruct H1, H2. congruence.
    + intros e. rewrite in_app_iff, I1, I2. split.
      * intros [[X Y]|[X Y]].
        -- split; [assumption | now apply (sr_sched B)].
        -- split; [|assumption].
           destruct (taskScheduled (nodes s1 e)) eqn:E; [|reflexivity].
           apply (sr_sched A) in E. congruence.
      * intros [X Y]. destruct (taskScheduled (nodes s2 e)) eqn:E; [left | right]; auto.
    + intros e He. apply in_app_iff in He. destruct He as [He|He].
      * now apply K1.
      * destruct (K2 e He) as [X Y]. rewrite (sr_kind A) in X. split; [assumption|].
        destruct (effect_blocked V (nodes s1 e)) eqn:E; [|reflexivity].
        apply (sr_blocked _ A) in E. congruence.
Qed.

Lemma blocked_false_sched (V : version) (x : Node) :
  effect_blocked V x = false -> taskScheduled x = false.
Proof.
  destruct V; simpl; [auto|]. intros H. apply orb_false_iff in H. tauto.
Qed.

Lemma sched_rel_schedule (V : version) (e : node_id) (s : State) :
  kind (nodes s e) = EffectNode -> effect_blocked V (nodes s e) = false ->
  sched_rel V s (schedule e s).
Proof.
  intros Hk Hb. pose proof (blocked_false_sched V _ Hb) as Hs.
  unfold schedule. constructor.
  - intros m. rewrite nodes_upd. same_addr m e; simpl; auto.
  - intros m. rewrite nodes_upd. same_addr m e; simpl; auto.
  - intros m. rewrite nodes_upd. same_addr m e; simpl; auto.
  - exists [e]. split; [reflexivity|]. split; [repeat constructor; simpl; tauto|].
    split.
    + intros x. rewrite nodes_upd. split.
      * intros [<-|[]]. rewrite Nat.eqb_refl. simpl. auto.
      * intros [A B]. same_addr x e; [now left|]. simpl in B. congruence.
    + intros x [<-|[]]. auto.
Qed.

Section PushNodeFacts.
Variables (V : version) (s s' : State).
Hypothesis H : push_rel V s s'.

Lemma pr_kind m : kind (nodes s' m) = kind (nodes s m).
Proof. rewrite (pr_node H m). reflexivity. Qed.
Lemma pr_deps m : deps (nodes s' m) = deps (nodes s m).
Proof. rewrite (pr_node H m). reflexivity. Qed.
Lemma pr_ctxDeps m : ctxDeps (nodes s' m) = ctxDeps (nodes s m).
Proof. rewrite (pr_node H m). reflexivity. Qed.
Lemma pr_wvalue m : wvalue (nodes s' m) = wvalue (nodes s m).
Proof. rewrite (pr_node H m). reflexivity. Qed.
Lemma pr_cvalue m : cvalue (nodes s' m) = cvalue (nodes s m).
Proof. rewrite (pr_node H m). reflexivity. Qed.
Lemma pr_fn m : fn (nodes s' m) = fn (nodes s m).
Proof. rewrite (pr_node H m). reflexivity. Qed.
Lemma pr_equal m : equal (nodes s' m) = equal (nodes s m).
Proof. rewrite (pr_node H m). reflexivity. Qed.
Lemma pr_destroyed m : destroyed (nodes s' m) = destroyed (nodes s m).
Proof. rewrite (pr_node H m). reflexivity. Qed.
Lemma pr_collected m : collected (nodes s' m) = collected (nodes s m).
Proof. rewrite (pr_node H m). reflexivity. Qed.
Lemma pr_handle m : handle (nodes s' m) = handle (nodes s m).
Proof. rewrite (pr_node H m). reflexivity. Qed.
Lemma pr_runs m : runs (nodes s' m) = runs (nodes s m).
Proof. rewrite (pr_node H m). reflexivity. Qed.
Lemma pr_sched m : taskScheduled (nodes s m) = true -> taskScheduled (nodes s' m) = true.
Proof. apply (sr_sched (pr_schedq H)). Qed.
End PushNodeFacts.

Lemma push_rel_refl (V : version) (s : State) : push_rel V s s.
Proof.
  constructor; try reflexivity; auto using sched_rel_refl.
  intros m. apply push_node_refl.
Qed.

Lemma push_rel_trans (V : version) (s1 s2 s3 : State) :
  push_rel V s1 s2 -> push_rel V s2 s3 -> push_rel V s1 s3.
Proof.
  intros A B. constructor.
  - now rewrite (pr_size B), (pr_size A).
  - now rewrite (pr_next_ref B), (pr_next_ref A).
  - now rewrite (pr_context B), (pr_context A).
  - now rewrite (pr_registry B), (pr_registry A).
  - now rewrite (pr_log B), (pr_log A).
  - now rewrite (pr_uncaught B), (pr_uncaught A).
  - intros m. eapply push_node_trans; [apply (pr_node A) | apply (pr_node B)].
  - intros m Hm. apply (pr_dirty B), (pr_dirty A), Hm.
  - intros m r Hr. apply (pr_subs_incl A), (pr_subs_incl B), Hr.
  - intros m r Hr Hc. apply (pr_subs_live B).
    + now apply (pr_subs_live A).
    + now rewrite (pr_collected A).
  - eapply sched_rel_trans; [apply (pr_schedq A) | apply (pr_schedq B)].
Qed.

(** Push-phase steps that leave every [taskScheduled] flag and the queue alone. *)
Lemma push_rel_quiet (V : version) (s s' : State) :
  size s' = size s -> next_ref s' = next_ref s -> context s' = context s ->
  registry s' = registry s -> log s' = log s -> uncaught s' = uncaught s ->
  queue s' = queue s ->
  (forall m, push_node (nodes s m) (nodes s' m)) ->
  (forall m, taskScheduled (nodes s' m) = taskScheduled (nodes s m)) ->
  (forall m, dirty (nodes s m) = true -> dirty (nodes s' m) = true) ->
  (forall m r, In r (subs (nodes s' m)) -> In r (subs (nodes s m))) ->
  (forall m r, In r (subs (nodes s m)) -> collected (nodes s (ref_target r)) = false ->
               In r (subs (nodes s' m))) ->
  push_rel V s s'.
Proof.
  intros ? ? ? ? ? ? ? N. intros. constructor; try assumption.
  apply sched_rel_quiet; try assumption; intros m; rewrite (N m); reflexivity.
Qed.

Lemma push_set_dirty (V : version) (n : node_id) (s : State) :
  push_rel V s (upd n (with_dirty true) s).
Proof.
  apply push_rel_quiet; try reflexivity; intros m; rewrite nodes_upd;
    same_addr m n; simpl; auto using push_node_refl.
  push_node_case.
Qed.

Lemma push_delete_dead (V : version) (this : node_id) (r : WeakRef) (s : State) :
  deref s r = None -> push_rel V s (delete_ref this r s).
Proof.
  intros Hd. unfold delete_ref.
  apply push_rel_quiet; try reflexivity; intros m; rewrite nodes_upd;
    same_addr m this; simpl; auto using push_node_refl.
  - push_node_case.
  - intros r' Hr. apply filter_In in Hr. tauto.
  - intros r' Hr Hc. apply filter_In. split; [assumption|].
    apply negb_true_iff. destruct (ref_eqb r r') eqn:E; [|reflexivity].
    apply ref_eqb_eq in E. subst r'. unfold deref in Hd. rewrite Hc in Hd. discriminate.
Qed.

Lemma push_schedule (V : version) (e : node_id) (s : State) :
  kind (nodes s e) = EffectNode -> effect_blocked V (nodes s e) = false ->
  push_rel V s (schedule e s).
Proof.
  intros Hk Hb. constructor; try reflexivity; try (now apply sched_rel_schedule);
    unfold schedule.
  - intros m. rewrite nodes_upd. same_addr m e; simpl; auto using push_node_refl.
    push_node_case.
  - intros m. rewrite nodes_upd. same_addr m e; simpl; auto.
  - intros m r. rewrite nodes_upd. same_addr m e; simpl; auto.
  - intros m r. rewrite nodes_upd. same_addr m e; simpl; auto.
Qed.

Lemma push_EffectNode_markAsDisty (V : version) (e : node_id) (s : State) :
  kind (nodes s e) = EffectNode -> push_rel V s (EffectNode_markAsDisty V e s).
Proof.
  intros Hk. unfold EffectNode_markAsDisty.
  destruct (effect_blocked V (nodes s e)) eqn:Hb.
  - apply push_rel_refl.
  - now apply push_schedule.
Qed.

Lemma notify_push (V : version) (mark : node_id -> State -> option State)
      (this : node_id) (refs : list WeakRef) :
  (forall n s s', mark n s = Some s' -> push_rel V s s') ->
  forall s s', notify mark this refs s = Some s' -> push_rel V s s'.
Proof.
  intros Hmark. induction refs as [|r rest IH]; intros s s' H; simpl in H.
  - injection H as <-. apply push_rel_refl.
  - destruct (deref s r) as [sub|] eqn:Hd.
    + destruct (mark sub s) as [s1|] eqn:Hm; [|discriminate].
      eapply push_rel_trans; [eapply Hmark; exact Hm | eapply IH; exact H].
    + eapply push_rel_trans; [apply push_delete_dead; exact Hd | eapply IH; exact H].
Qed.

Lemma markAsDisty_fuel_push (V : version) (fuel : nat) :
  forall n s s', markAsDisty_fuel V fuel n s = Some s' -> push_rel V s s'.
Proof.
  induction fuel as [|f IH]; intros n s s' H; simpl in H; [discriminate|].
  destruct (kind (nodes s n)) eqn:Hk; try discriminate.
  - destruct (dirty (nodes s n)).
    + injection H as <-. apply push_rel_refl.
    + eapply push_rel_trans; [apply push_set_dirty | eapply notify_push; [exact IH | exact H]].
  - destruct (dirty (nodes s n)).
    + injection H as <-. apply push_rel_refl.
    + eapply push_rel_trans; [apply push_set_dirty | eapply notify_push; [exact IH | exact H]].
  - injection H as <-. now apply push_EffectNode_markAsDisty.
Qed.

Lemma markAsDisty_push (V : version) (n : node_id) (s s' : State) :
  markAsDisty V n s = Some s' -> push_rel V s s'.
Proof. apply markAsDisty_fuel_push. Qed.

Lemma setValue_push (V : version) (n : node_id) (v : Z) (s s' : State) :
  setValue V n v s = Some s' -> push_rel V (upd n (with_wvalue v) s) s'.
Proof.
  unfold setValue. apply notify_push. intros. eapply markAsDisty_push; eassumption.
Qed.

(** ** The push phase terminates *)

Lemma count_upto_le (p : nat -> bool) (N : nat) : count_upto p N <= N.
Proof. induction N as [|k IH]; simpl; [lia|]. destruct (p k); lia. Qed.

Lemma count_upto_mono (p q : nat -> bool) (N : nat) :
  (forall m, q m = true -> p m = true) -> count_upto q N <= count_upto p N.
Proof.
  intros H. induction N as [|k IH]; simpl; [lia|].
  destruct (q k) eqn:E; [rewrite (H _ E); lia | destruct (p k); lia].
Qed.

Lemma count_upto_strict (p q : nat -> bool) (N n : nat) :
  n < N -> p n = true -> q n = false ->
  (forall m, q m = true -> p m = true) -> count_upto q N < count_upto p N.
Proof.
  intros Hn Hp Hq H. induction N as [|k IH]; simpl; [lia|].
  destruct (Nat.eq_dec n k) as [->|Hne].
  - rewrite Hp, Hq. pose proof (count_upto_mono p q k H). lia.
  - assert (n < k) as Hlt by lia. specialize (IH Hlt).
    destruct (q k) eqn:E; [rewrite (H _ E); lia | destruct (p k); lia].
Qed.

Lemma push_clean (V : version) (s s' : State) (m : node_id) :
  push_rel V s s' -> clean s' m = true -> clean s m = true.
Proof.
  intros H. unfold clean. rewrite (pr_kind H).
  destruct (kind (nodes s m)); auto; rewrite !negb_true_iff; intros D;
    destruct (dirty (nodes s m)) eqn:E; auto; apply (pr_dirty H) in E; congruence.
Qed.

Lemma push_clean_count (V : version) (s s' : State) :
  push_rel V s s' -> clean_count s' <= clean_count s.
Proof.
  intros H. unfold clean_count. rewrite (pr_size H).
  apply count_upto_mono. intros m. now apply push_clean with (V := V).
Qed.

Lemma push_bounded (V : version) (s s' : State) :
  push_rel V s s' -> bounded s -> bounded s'.
Proof. intros H B n Hn. rewrite (pr_kind H). apply B. now rewrite <- (pr_size H). Qed.

Lemma push_refs_ok (V : version) (s s' : State) :
  push_rel V s s' -> refs_ok s -> refs_ok s'.
Proof.
  intros H R n r Hr. rewrite (pr_kind H). apply (R n). now apply (pr_subs_incl H).
Qed.

Lemma set_dirty_decreases (n : node_id) (s : State) :
  bounded s -> clean s n = true ->
  clean_count (upd n (with_dirty true) s) < clean_count s.
Proof.
  intros B C. unfold clean_count. simpl size.
  apply count_upto_strict with (n := n).
  - destruct (Nat.lt_ge_cases n (size s)) as [L|G]; [assumption|].
    apply B in G. unfold clean in C. rewrite G in C. discriminate.
  - assumption.
  - unfold clean. rewrite nodes_upd_eq. simpl. now destruct (kind (nodes s n)).
  - intros m. apply push_clean with (V := Vindex). apply push_set_dirty.
Qed.

Lemma notify_total (V : version) (f : nat) (this : node_id) :
  (forall n s, bounded s -> refs_ok s -> kind (nodes s n) <> Free ->
               clean_count s < f -> exists s', markAsDisty_fuel V f n s = Some s') ->
  forall refs s,
    bounded s -> refs_ok s -> clean_count s < f ->
    (forall r, In r refs -> kind (nodes s (ref_target r)) <> Free) ->
    exists s', notify (markAsDisty_fuel V f) this refs s = Some s'.
Proof.
  intros Hmark. induction refs as [|r rest IH]; intros s B R C T; simpl.
  - eauto.
  - assert (forall s1, push_rel V s s1 ->
                       exists s', notify (markAsDisty_fuel V f) this rest s1 = Some s') as K.
    { intros s1 P. apply IH.
      - now apply push_bounded with (V := V) (s := s).
      - now apply push_refs_ok with (V := V) (s := s).
      - pose proof (push_clean_count P). lia.
      - intros r' Hr'. rewrite (pr_kind P). apply T. now right. }
    destruct (deref s r) as [sub|] eqn:Hd.
    + assert (sub = ref_target r) as ->.
      { unfold deref in Hd. destruct (collected _); congruence. }
      destruct (Hmark (ref_target r) s B R (T r (or_introl eq_refl)) C) as [s1 H1].
      rewrite H1. apply K. eapply markAsDisty_fuel_push; eassumption.
    + apply K. now apply push_delete_dead.
Qed.

Lemma markAsDisty_fuel_total (V : version) (fuel : nat) :
  forall n s, bounded s -> refs_ok s -> kind (nodes s n) <> Free ->
              clean_count s < fuel -> exists s', markAsDisty_fuel V fuel n s = Some s'.
Proof.
  induction fuel as [|f IH]; intros n s B R K C; [lia|]. simpl.
  assert (dirty (nodes s n) = false -> kind (nodes s n) <> EffectNode ->
          exists s', notify (markAsDisty_fuel V f) n
                            (subs (nodes (upd n (with_dirty true) s) n))
                            (upd n (with_dirty true) s) = Some s') as Go.
  { intros D NE. pose proof (push_set_dirty V n s) as P.
    apply notify_total; try assumption.
    - now apply push_bounded with (V := V) (s := s).
    - now apply push_refs_ok with (V := V) (s := s).
    - assert (clean s n = true) as Cn.
      { unfold clean. rewrite D. destruct (kind (nodes s n)); auto; congruence. }
      pose proof (set_dirty_decreases n B Cn). lia.
    - intros r Hr. rewrite (pr_kind P). apply (R n). now apply (pr_subs_incl P). }
  destruct (kind (nodes s n)) eqn:Hk; try congruence; eauto;
    destruct (dirty (nodes s n)); eauto; apply Go; congruence.
Qed.

(** [markAsDisty] always returns on a well-formed heap. *)
Lemma markAsDisty_total (V : version) (n : node_id) (s : State) :
  bounded s -> refs_ok s -> kind (nodes s n) <> Free ->
  exists s', markAsDisty V n s = Some s'.
Proof.
  intros B R K. apply markAsDisty_fuel_total; try assumption.
  pose proof (count_upto_le (clean s) (size s)). unfold clean_count. lia.
Qed.

Lemma notify_markAsDisty_total (V : version) (this : node_id) :
  forall refs s,
    bounded s -> refs_ok s ->
    (forall r, In r refs -> kind (nodes s (ref_target r)) <> Free) ->
    exists s', notify (markAsDisty V) this refs s = Some s'.
Proof.
  induction refs as [|r rest IH]; intros s B R T; simpl; [eauto|].
  assert (forall s1, push_rel V s s1 ->
                     exists s', notify (markAsDisty V) this rest s1 = Some s') as K.
  { intros s1 P. apply IH.
    - now apply push_bounded with (V := V) (s := s).
    - now apply push_refs_ok with (V := V) (s := s).
    - intros r' Hr'. rewrite (pr_kind P). apply T. now right. }
  destruct (deref s r) as [sub|] eqn:Hd.
  - assert (sub = ref_target r) as ->.
    { unfold deref in Hd. destruct (collected _); congruence. }
    destruct (@markAsDisty_total V (ref_target r) s B R (T r (or_introl eq_refl))) as [s1 H1].
    rewrite H1. apply K. eapply markAsDisty_push; eassumption.
  - apply K. now apply push_delete_dead.
Qed.

(** [setValue] always returns on a well-formed heap. *)
Lemma setValue_total (V : version) (n : node_id) (v : Z) (s : State) :
  bounded s -> refs_ok s -> exists s', setValue V n v s = Some s'.
Proof.
  intros B R. unfold setValue.
  assert (forall m, kind (nodes (upd n (with_wvalue v) s) m) = kind (nodes s m)) as K.
  { intros m. rewrite nodes_upd. now same_addr m n. }
  assert (forall m, subs (nodes (upd n (with_wvalue v) s) m) = subs (nodes s m)) as S.
  { intros m. rewrite nodes_upd. now same_addr m n. }
  apply notify_markAsDisty_total.
  - intros m Hm. rewrite K. now apply B.
  - intros m r Hr. rewrite K. apply (R m). now rewrite <- S.
  - intros r Hr. rewrite K. apply (R n). now rewrite <- S.
Qed.

(** ** Registering a dependency: [subscribe] and [addAsSub] *)

Ltac track_node_case :=
  match goal with |- track_node ?x _ => destruct x; reflexivity end.

Lemma track_node_refl (x : Node) : track_node x x.
Proof. track_node_case. Qed.

Lemma track_node_trans (x y z : Node) : track_node x y -> track_node y z -> track_node x z.
Proof.
  unfold track_node. intros H1 H2. rewrite H2 at 1. rewrite H1 at 1.
  destruct x; reflexivity.
Qed.

Lemma add_ref_node (this sub m : node_id) (s : State) :
  track_node (nodes s m) (nodes (add_ref this sub s) m).
Proof.
  unfold add_ref. simpl. same_addr m this; [track_node_case | apply track_node_refl].
Qed.

Lemma subscribe_node (V : version) (this sub m : node_id) (s : State) :
  track_node (nodes s m) (nodes (subscribe V this sub s) m).
Proof.
  destruct V; simpl; [apply add_ref_node|].
  destruct (existsb _ _); [apply track_node_refl | apply add_ref_node].
Qed.

Lemma subscribe_subs_other (V : version) (this sub m : node_id) (s : State) :
  m <> this -> subs (nodes (subscribe V this sub s) m) = subs (nodes s m).
Proof.
  intros Hm. apply Nat.eqb_neq in Hm.
  destruct V; simpl; [now rewrite Hm|].
  destruct (existsb _ _); [reflexivity | simpl; now rewrite Hm].
Qed.

Lemma subscribe_subs_incl (V : version) (this sub m : node_id) (s : State) (r : WeakRef) :
  In r (subs (nodes s m)) -> In r (subs (nodes (subscribe V this sub s) m)).
Proof.
  intros Hr.
  assert (In r (subs (nodes (add_ref this sub s) m))) as A.
  { unfold add_ref. simpl. same_addr m this; [|assumption].
    simpl. apply in_or_app. now left. }
  destruct V; simpl; [exact A|]. destruct (existsb _ _); [assumption | exact A].
Qed.

Lemma subscribe_ctxDeps (V : version) (this sub m : node_id) (s : State) :
  ctxDeps (nodes (subscribe V this sub s) m) = ctxDeps (nodes s m).
Proof.
  destruct V; simpl.
  - now same_addr m this.
  - destruct (existsb _ _); [reflexivity|]. simpl. now same_addr m this.
Qed.

(** After [subscribe] the set holds a reference to the subscriber, whichever
    copy runs. *)
Lemma subscribe_has_ref (V : version) (this sub : node_id) (s : State) :
  exists r, In r (subs (nodes (subscribe V this sub s) this)) /\ ref_target r = sub.
Proof.
  assert (exists r, In r (subs (nodes (add_ref this sub s) this)) /\ ref_target r = sub) as A.
  { exists (mkRef (next_ref s) sub). split; [|reflexivity].
    unfold add_ref. simpl. rewrite Nat.eqb_refl. simpl. apply in_or_app. right. now left. }
  destruct V; simpl; [exact A|].
  destruct (existsb (targets s sub) (subs (nodes s this))) eqn:E; [|exact A].
  apply existsb_exists in E. destruct E as [r [Hr Ht]]. exists r. split; [assumption|].
  unfold targets, deref in Ht. destruct (collected _); [discriminate|].
  now apply Nat.eqb_eq in Ht.
Qed.

Lemma addAsSub_node (V : version) (this m : node_id) (s : State) :
  track_node (nodes s m) (nodes (addAsSub V this s) m).
Proof.
  unfold addAsSub. destruct (context s) as [ctx|]; [|apply track_node_refl].
  eapply track_node_trans; [apply (subscribe_node V this ctx m s)|].
  rewrite nodes_upd. same_addr m ctx; [track_node_case | apply track_node_refl].
Qed.

Section TrackFacts.
Variables (x x' : Node).
Hypothesis H : track_node x x'.

Lemma tn_kind : kind x' = kind x. Proof. rewrite H. reflexivity. Qed.
Lemma tn_dirty : dirty x' = dirty x. Proof. rewrite H. reflexivity. Qed.
Lemma tn_deps : deps x' = deps x. Proof. rewrite H. reflexivity. Qed.
Lemma tn_wvalue : wvalue x' = wvalue x. Proof. rewrite H. reflexivity. Qed.
Lemma tn_cvalue : cvalue x' = cvalue x. Proof. rewrite H. reflexivity. Qed.
Lemma tn_fn : fn x' = fn x. Proof. rewrite H. reflexivity. Qed.
Lemma tn_equal : equal x' = equal x. Proof. rewrite H. reflexivity. Qed.
Lemma tn_taskScheduled : taskScheduled x' = taskScheduled x.
Proof. rewrite H. reflexivity. Qed.
Lemma tn_destroyed : destroyed x' = destroyed x. Proof. rewrite H. reflexivity. Qed.
Lemma tn_collected : collected x' = collected x. Proof. rewrite H. reflexivity. Qed.
Lemma tn_handle : handle x' = handle x. Proof. rewrite H. reflexivity. Qed.
Lemma tn_runs : runs x' = runs x. Proof. rewrite H. reflexivity. Qed.
End TrackFacts.

Lemma subscribe_state (V : version) (this sub : node_id) (s : State) :
  size (subscribe V this sub s) = size s /\
  context (subscribe V this sub s) = context s /\
  queue (subscribe V this sub s) = queue s /\
  registry (subscribe V this sub s) = registry s /\
  log (subscribe V this sub s) = log s /\
  uncaught (subscribe V this sub s) = uncaught s.
Proof.
  destruct V; simpl; [tauto|]. destruct (existsb _ _); simpl; tauto.
Qed.

Lemma addAsSub_state (V : version) (this : node_id) (s : State) :
  size (addAsSub V this s) = size s /\
  context (addAsSub V this s) = context s /\
  queue (addAsSub V this s) = queue s /\
  registry (addAsSub V this s) = registry s /\
  log (addAsSub V this s) = log s /\
  uncaught (addAsSub V this s) = uncaught s.
Proof.
  unfold addAsSub. destruct (context s) as [ctx|] eqn:E; [|rewrite E; tauto].
  simpl. rewrite <- E. apply subscribe_state.
Qed.

(** With an active evaluator, [addAsSub] leaves a reference to it in
    [this.subs] and [this] in its [ctxDeps]. *)
Lemma addAsSub_tracks (V : version) (this ctx : node_id) (s : State) :
  context s = Some ctx ->
  (exists r, In r (subs (nodes (addAsSub V this s) this)) /\ ref_target r = ctx) /\
  In this (ctxDeps (nodes (addAsSub V this s) ctx)).
Proof.
  intros Hc. unfold addAsSub. rewrite Hc. split.
  - destruct (subscribe_has_ref V this ctx s) as [r [Hr Ht]]. exists r. split; [|assumption].
    rewrite nodes_upd. now same_addr this ctx.
  - rewrite nodes_upd_eq. simpl. apply set_add_In. now left.
Qed.

Lemma addAsSub_top (V : version) (this : node_id) (s : State) :
  context s = None -> addAsSub V this s = s.
Proof. intros H. unfold addAsSub. now rewrite H. Qed.

(** ** Writes through [getter.set] *)

Lemma Signal_set_unfold (V : version) (n : node_id) (v : Z) (s : State) :
  kind (nodes s n) = WritableNode ->
  Signal_set V n v s =
  if equal (nodes s n) (wvalue (nodes s n)) v then Some (addAsSub V n s)
  else setValue V n v (addAsSub V n s).
Proof.
  intros K. unfold Signal_set, WritableNode_getValue. rewrite K.
  now rewrite (tn_wvalue (addAsSub_node V n n s)).
Qed.

(** C3. With the default [equal], [getter.set(v)] for [v] identical to the
    stored value returns without touching the stored value, any [dirty] flag,
    any [taskScheduled] flag, the microtask queue or any run counter; outside
    an evaluation the whole machine state is unchanged. *)
Theorem set_same_value_no_propagation (V : version) (s : State) (n : node_id) :
  kind (nodes s n) = WritableNode ->
  equal (nodes s n) = Object_is ->
  exists s',
    Signal_set V n (wvalue (nodes s n)) s = Some s' /\
    (forall m, wvalue (nodes s' m) = wvalue (nodes s m) /\
               cvalue (nodes s' m) = cvalue (nodes s m) /\
               dirty (nodes s' m) = dirty (nodes s m) /\
               taskScheduled (nodes s' m) = taskScheduled (nodes s m) /\
               runs (nodes s' m) = runs (nodes s m)) /\
    queue s' = queue s /\
    (context s = None -> s' = s).
Proof.
  intros K E. exists (addAsSub V n s). split; [|split; [|split]].
  - rewrite Signal_set_unfold by assumption. rewrite E. unfold Object_is.
    now rewrite Z.eqb_refl.
  - intros m. pose proof (addAsSub_node V n m s) as T.
    rewrite (tn_wvalue T), (tn_cvalue T), (tn_dirty T), (tn_taskScheduled T), (tn_runs T).
    tauto.
  - apply addAsSub_state.
  - apply addAsSub_top.
Qed.

(** C10. [getter.set(v)] called while an evaluator [E] is active registers
    the signal as a dependency of [E], whether or not the write goes through:
    afterwards the signal's [subs] holds a live reference to [E] and [E]'s
    [ctxDeps] holds the signal; when [equal] accepts the value nothing is
    written. *)
Theorem set_inside_evaluation_tracks (V : version) (s : State) (n E : node_id) (v : Z) :
  kind (nodes s n) = WritableNode ->
  context s = Some E ->
  kind (nodes s E) <> Free ->
  collected (nodes s E) = false ->
  bounded s -> refs_ok s ->
  exists s',
    Signal_set V n v s = Some s' /\
    (exists r, In r (subs (nodes s' n)) /\ deref s' r = Some E) /\
    In n (ctxDeps (nodes s' E)) /\
    (equal (nodes s n) (wvalue (nodes s n)) v = true ->
     wvalue (nodes s' n) = wvalue (nodes s n)).
Proof.
  intros K C KE L B R.
  destruct (addAsSub_tracks V n s C) as [[r [Hr Ht]] Hc].
  pose proof (addAsSub_node V n) as T.
  assert (forall m, collected (nodes (addAsSub V n s) m) = collected (nodes s m)) as Col.
  { intros m. apply (tn_collected (T m s)). }
  rewrite Signal_set_unfold by assumption.
  destruct (equal (nodes s n) (wvalue (nodes s n)) v) eqn:Eq.
  - exists (addAsSub V n s). split; [reflexivity|]. split; [|split].
    + exists r. split; [assumption|]. unfold deref. rewrite Col, Ht, L. reflexivity.
    + assumption.
    + intros _. apply (tn_wvalue (T n s)).
  - assert (bounded (addAsSub V n s)) as B1.
    { intros m Hm. rewrite (tn_kind (T m s)). apply B.
      destruct (addAsSub_state V n s) as [Hs _]. now rewrite Hs in Hm. }
    assert (refs_ok (addAsSub V n s)) as R1.
    { intros m r' Hr'. rewrite (tn_kind (T _ s)).
      unfold addAsSub in Hr'. rewrite C in Hr'. rewrite nodes_upd in Hr'.
      assert (In r' (subs (nodes (subscribe V n E s) m))) as Hr2.
      { same_addr m E; assumption. }
      clear Hr'.
      assert (In r' (subs (nodes (add_ref n E s) m)) ->
              kind (nodes s (ref_target r')) <> Free) as A.
      { unfold add_ref. simpl. destruct (Nat.eqb m n); [|now apply (R m)]. simpl.
        intros H. apply in_app_or in H.
        destruct H as [H|[<-|[]]]; [now apply (R n) | assumption]. }
      destruct V; simpl in Hr2; [now apply A|].
      destruct (existsb _ _); [now apply (R m) | now apply A]. }
    destruct (setValue_total V n v B1 R1) as [s' Hs']. exists s'.
    split; [assumption|]. pose proof (setValue_push _ _ _ _ Hs') as P.
    assert (forall m, collected (nodes (upd n (with_wvalue v) (addAsSub V n s)) m) =
                      collected (nodes s m)) as Col2.
    { intros m. rewrite nodes_upd. destruct (Nat.eqb m n) eqn:Em; [|exact (Col m)].
      apply Nat.eqb_eq in Em. subst m. exact (Col n). }
    split; [|split; [|discriminate]].
    + exists r. split.
      * apply (pr_subs_live P).
        -- rewrite nodes_upd_eq. exact Hr.
        -- rewrite Col2, Ht. exact L.
      * unfold deref. rewrite (pr_collected P), Col2, Ht, L. reflexivity.
    + rewrite (pr_ctxDeps P), nodes_upd. destruct (Nat.eqb E n) eqn:Em; [|assumption].
      apply Nat.eqb_eq in Em. rewrite Em in Hc. exact Hc.
Qed.

(** ** What reads, writes and evaluations never change *)

Ltac loose_node_case :=
  match goal with |- loose_node ?x _ => destruct x; reflexivity end.

Lemma loose_node_refl (x : Node) : loose_node x x.
Proof. loose_node_case. Qed.

Lemma loose_node_trans (x y z : Node) : loose_node x y -> loose_node y z -> loose_node x z.
Proof.
  unfold loose_node. intros H1 H2. rewrite H2 at 1. rewrite H1 at 1.
  destruct x; reflexivity.
Qed.

Lemma track_loose (x x' : Node) : track_node x x' -> loose_node x x'.
Proof. unfold track_node, loose_node. intros H. rewrite H. destruct x; reflexivity. Qed.

Lemma loose_refl (s : State) : loose s s.
Proof. constructor; try reflexivity. intros m. apply loose_node_refl. Qed.

Lemma loose_trans (s1 s2 s3 : State) : loose s1 s2 -> loose s2 s3 -> loose s1 s3.
Proof.
  intros A B. constructor.
  - now rewrite (lo_size B), (lo_size A).
  - now rewrite (lo_queue B), (lo_queue A).
  - now rewrite (lo_registry B), (lo_registry A).
  - now rewrite (lo_uncaught B), (lo_uncaught A).
  - intros m. eapply loose_node_trans; [apply (lo_node A) | apply (lo_node B)].
Qed.

Section LooseFacts.
Variables (s s' : State).
Hypothesis H : loose s s'.

Lemma lo_kind m : kind (nodes s' m) = kind (nodes s m).
Proof. rewrite (lo_node H m). reflexivity. Qed.
Lemma lo_fn m : fn (nodes s' m) = fn (nodes s m).
Proof. rewrite (lo_node H m). reflexivity. Qed.
Lemma lo_equal m : equal (nodes s' m) = equal (nodes s m).
Proof. rewrite (lo_node H m). reflexivity. Qed.
Lemma lo_taskScheduled m : taskScheduled (nodes s' m) = taskScheduled (nodes s m).
Proof. rewrite (lo_node H m). reflexivity. Qed.
Lemma lo_destroyed m : destroyed (nodes s' m) = destroyed (nodes s m).
Proof. rewrite (lo_node H m). reflexivity. Qed.
Lemma lo_collected m : collected (nodes s' m) = collected (nodes s m).
Proof. rewrite (lo_node H m). reflexivity. Qed.
Lemma lo_handle m : handle (nodes s' m) = handle (nodes s m).
Proof. rewrite (lo_node H m). reflexivity. Qed.
Lemma lo_runs m : runs (nodes s' m) = runs (nodes s m).
Proof. rewrite (lo_node H m). reflexivity. Qed.
End LooseFacts.

Lemma loose_upd (n : node_id) (f : Node -> Node) (s : State) :
  (forall x, loose_node x (f x)) -> loose s (upd n f s).
Proof.
  intros F. constructor; try reflexivity. intros m. rewrite nodes_upd.
  destruct (Nat.eqb m n) eqn:E; [|apply loose_node_refl].
  apply Nat.eqb_eq in E. subst m. apply F.
Qed.

Lemma loose_state_only (s s' : State) :
  nodes s' = nodes s -> size s' = size s -> queue s' = queue s ->
  registry s' = registry s -> uncaught s' = uncaught s -> loose s s'.
Proof.
  intros N. intros. constructor; try assumption. intros m. rewrite N.
  apply loose_node_refl.
Qed.

Lemma loose_set_context (c : option node_id) (s : State) : loose s (set_context c s).
Proof. now apply loose_state_only. Qed.

Lemma loose_emit (v : Z) (s : State) : loose s (emit v s).
Proof. now apply loose_state_only. Qed.

Lemma loose_addAsSub (V : version) (n : node_id) (s : State) : loose s (addAsSub V n s).
Proof.
  destruct (addAsSub_state V n s) as [A [_ [B [C [_ D]]]]].
  constructor; try assumption. intros m. apply track_loose, addAsSub_node.
Qed.

Lemma loose_delete_ref (this : node_id) (r : WeakRef) (s : State) :
  loose s (delete_ref this r s).
Proof. apply loose_upd. intros x. loose_node_case. Qed.

Lemma loose_unsubscribe (V : version) (this sub : node_id) (s : State) :
  loose s (unsubscribe V this sub s).
Proof.
  destruct V; simpl.
  - destruct (find _ _); [apply loose_delete_ref | apply loose_refl].
  - apply loose_upd. intros x. loose_node_case.
Qed.

Lemma loose_fold (A : Type) (step : State -> A -> State) (l : list A) :
  (forall s a, loose s (step s a)) -> forall s, loose s (fold_left step l s).
Proof.
  intros Hs. induction l as [|a l IH]; intros s; simpl; [apply loose_refl|].
  eapply loose_trans; [apply Hs | apply IH].
Qed.

Lemma loose_prune_step (V : version) (this : node_id) (s : State) (dep : node_id) :
  loose s (prune_step V this s dep).
Proof.
  unfold prune_step. destruct (set_has _ _); [apply loose_refl|].
  eapply loose_trans; [|apply loose_unsubscribe].
  apply loose_upd. intros x. loose_node_case.
Qed.

Lemma loose_adopt_step (this : node_id) (s : State) (d : node_id) :
  loose s (adopt_step this s d).
Proof.
  unfold adopt_step. destruct (set_has _ _); [apply loose_refl|].
  apply loose_upd. intros x. loose_node_case.
Qed.

Lemma loose_reconcile (V : version) (this : node_id) (s : State) :
  loose s (reconcile V this s).
Proof.
  unfold reconcile.
  eapply loose_trans; [apply loose_fold, loose_prune_step|].
  eapply loose_trans; [apply loose_fold, loose_adopt_step|].
  apply loose_upd. intros x. loose_node_case.
Qed.

(** The tail of [ComputedNode.getValue] after the closure returned. *)
Lemma loose_finish (V : version) (n : node_id) (v : Z) (c : option node_id) (s : State) :
  loose s (upd n (fun x => with_dirty false (with_cvalue (Some v) x))
               (set_context c (reconcile V n s))).
Proof.
  eapply loose_trans; [apply loose_reconcile|].
  eapply loose_trans; [apply loose_set_context|].
  apply loose_upd. intros x. loose_node_case.
Qed.

Lemma pl_kind (V : version) (s s' : State) (m : node_id) :
  pull_rel V s s' -> kind (nodes s' m) = kind (nodes s m).
Proof. intros H. apply (sr_kind (pl_schedq H)). Qed.

Lemma pl_destroyed (V : version) (s s' : State) (m : node_id) :
  pull_rel V s s' -> destroyed (nodes s' m) = destroyed (nodes s m).
Proof. intros H. apply (sr_destroyed (pl_schedq H)). Qed.

Lemma pull_rel_refl (V : version) (s : State) : pull_rel V s s.
Proof. constructor; auto using sched_rel_refl. Qed.

Lemma pull_rel_trans (V : version) (s1 s2 s3 : State) :
  pull_rel V s1 s2 -> pull_rel V s2 s3 -> pull_rel V s1 s3.
Proof.
  intros A B. constructor.
  - now rewrite (pl_size B), (pl_size A).
  - now rewrite (pl_registry B), (pl_registry A).
  - now rewrite (pl_uncaught B), (pl_uncaught A).
  - intros m. now rewrite (pl_fn B), (pl_fn A).
  - intros m. now rewrite (pl_equal B), (pl_equal A).
  - intros m. now rewrite (pl_collected B), (pl_collected A).
  - intros m. now rewrite (pl_handle B), (pl_handle A).
  - intros m K. rewrite (pl_runs_effect B), (pl_runs_effect A); auto.
    now rewrite (pl_kind m A).
  - eapply sched_rel_trans; [apply (pl_schedq A) | apply (pl_schedq B)].
Qed.

Lemma loose_pull (V : version) (s s' : State) : loose s s' -> pull_rel V s s'.
Proof.
  intros H. constructor.
  - apply (lo_size H).
  - apply (lo_registry H).
  - apply (lo_uncaught H).
  - apply (lo_fn H).
  - apply (lo_equal H).
  - apply (lo_collected H).
  - apply (lo_handle H).
  - intros m _. apply (lo_runs H).
  - apply sched_rel_quiet.
    + apply (lo_kind H).
    + apply (lo_destroyed H).
    + apply (lo_taskScheduled H).
    + apply (lo_queue H).
Qed.

Lemma push_pull (V : version) (s s' : State) : push_rel V s s' -> pull_rel V s s'.
Proof.
  intros H. constructor.
  - apply (pr_size H).
  - apply (pr_registry H).
  - apply (pr_uncaught H).
  - apply (pr_fn H).
  - apply (pr_equal H).
  - apply (pr_collected H).
  - apply (pr_handle H).
  - intros m _. apply (pr_runs H).
  - apply (pr_schedq H).
Qed.

Lemma enter_pull (V : version) (n : node_id) (s : State) :
  kind (nodes s n) <> EffectNode -> pull_rel V s (enter n s).
Proof.
  intros K. unfold enter. constructor; try reflexivity;
    try (intros m; rewrite nodes_upd; same_addr m n; reflexivity).
  - intros m Km. rewrite nodes_upd. same_addr m n; [|reflexivity]. simpl in *. congruence.
  - apply sched_rel_quiet; try reflexivity;
      intros m; rewrite nodes_upd; same_addr m n; reflexivity.
Qed.

Lemma setValue_pull (V : version) (n : node_id) (v : Z) (s s' : State) :
  setValue V n v s = Some s' -> pull_rel V s s'.
Proof.
  intros H. eapply pull_rel_trans; [|apply push_pull, (setValue_push _ _ _ _ H)].
  apply loose_pull, loose_upd. intros x. loose_node_case.
Qed.

Lemma Signal_set_pull (V : version) (n : node_id) (v : Z) (s s' : State) :
  Signal_set V n v s = Some s' -> pull_rel V s s'.
Proof.
  unfold Signal_set, WritableNode_getValue.
  destruct (kind (nodes s n)); try discriminate.
  destruct (equal _ _ _).
  - intros H. injection H as <-. apply loose_pull, loose_addAsSub.
  - intros H. eapply pull_rel_trans; [apply loose_pull, loose_addAsSub|].
    eapply setValue_pull; eassumption.
Qed.

Lemma exec_pull (V : version) (rd : node_id -> State -> option (Result Z * State)) :
  (forall n s r s', rd n s = Some (r, s') -> pull_rel V s s') ->
  forall p s r s', exec V rd p s = Some (r, s') -> pull_rel V s s'.
Proof.
  intros Hrd. induction p as [v| |n k IH|n v k IH|v k IH]; intros s r s' H; simpl in H.
  - injection H as <- <-. apply pull_rel_refl.
  - injection H as <- <-. apply pull_rel_refl.
  - destruct (rd n s) as [[[v|] s1]|] eqn:E; try discriminate.
    + eapply pull_rel_trans; [eapply Hrd; exact E | eapply IH; exact H].
    + injection H as <- <-. eapply Hrd; exact E.
  - destruct (Signal_set V n v s) as [s1|] eqn:E; try discriminate.
    eapply pull_rel_trans; [eapply Signal_set_pull; exact E | eapply IH; exact H].
  - eapply pull_rel_trans; [apply loose_pull, loose_emit | eapply IH; exact H].
Qed.

Lemma getValue_pull (V : version) (fuel : nat) :
  forall n s r s', getValue V fuel n s = Some (r, s') -> pull_rel V s s'.
Proof.
  induction fuel as [|f IH]; intros n s r s' H; simpl in H; [discriminate|].
  destruct (kind (nodes s n)) eqn:K; try discriminate.
  - unfold WritableNode_getValue in H. injection H as <- <-.
    apply loose_pull, loose_addAsSub.
  - pose proof (loose_addAsSub V n s) as L.
    eapply pull_rel_trans; [apply loose_pull, L|].
    destruct (stale (nodes (addAsSub V n s) n)).
    + unfold compute in H.
      destruct (exec V (getValue V f) _ _) as [[[v|] s2]|] eqn:E;
        cbv beta iota zeta in H; try discriminate.
      * injection H as <- <-.
        eapply pull_rel_trans;
          [apply enter_pull; rewrite (lo_kind L), K; discriminate|].
        eapply pull_rel_trans; [eapply exec_pull; [exact IH | exact E]|].
        apply loose_pull.
        eapply loose_trans; [apply loose_reconcile|].
        eapply loose_trans; [apply loose_set_context|].
        apply loose_upd. intros x. loose_node_case.
      * injection H as <- <-.
        eapply pull_rel_trans;
          [apply enter_pull; rewrite (lo_kind L), K; discriminate|].
        eapply exec_pull; [exact IH | exact E].
    + destruct (cvalue _); [|discriminate]. injection H as <- <-. apply pull_rel_refl.
Qed.

(** ** The evaluation context across an evaluation *)

Lemma Signal_set_context (V : version) (n : node_id) (v : Z) (s s' : State) :
  Signal_set V n v s = Some s' -> context s' = context s.
Proof.
  unfold Signal_set, WritableNode_getValue.
  destruct (kind (nodes s n)); try discriminate.
  destruct (addAsSub_state V n s) as [_ [C _]].
  destruct (equal _ _ _); intros H.
  - injection H as <-. exact C.
  - rewrite (pr_context (setValue_push _ _ _ _ H)). exact C.
Qed.

Lemma exec_context (V : version) (rd : node_id -> State -> option (Result Z * State)) :
  (forall n s r s', rd n s = Some (r, s') -> ctx_after s r s') ->
  forall p s r s' c,
    context s = Some c -> exec V rd p s = Some (r, s') ->
    match r with
    | Ok _ => context s' = Some c
    | Exn => exists m, context s' = Some m
    end.
Proof.
  intros Hrd. induction p as [v| |n k IH|n v k IH|v k IH]; intros s r s' c C H; simpl in H.
  - injection H as <- <-. exact C.
  - injection H as <- <-. eauto.
  - destruct (rd n s) as [[[v|] s1]|] eqn:E; try discriminate.
    + apply Hrd in E. simpl in E. eapply IH; [|exact H]. now rewrite E.
    + injection H as <- <-. apply Hrd in E. exact E.
  - destruct (Signal_set V n v s) as [s1|] eqn:E; try discriminate.
    eapply IH; [|exact H]. now rewrite (Signal_set_context _ _ _ _ E).
  - eapply IH; [|exact H]. exact C.
Qed.

Lemma getValue_context (V : version) (fuel : nat) :
  forall n s r s', getValue V fuel n s = Some (r, s') -> ctx_after s r s'.
Proof.
  induction fuel as [|f IH]; intros n s r s' H; simpl in H; [discriminate|].
  destruct (addAsSub_state V n s) as [_ [C _]].
  destruct (kind (nodes s n)) eqn:K; try discriminate.
  - unfold WritableNode_getValue in H. injection H as <- <-. exact C.
  - destruct (stale (nodes (addAsSub V n s) n)).
    + unfold compute in H.
      destruct (exec V (getValue V f) _ _) as [[[v|] s2]|] eqn:E;
        cbv beta iota zeta in H; try discriminate.
      * injection H as <- <-. simpl. exact C.
      * injection H as <- <-.
        exact (@exec_context V (getValue V f) IH _ (enter n (addAsSub V n s)) _ _ n eq_refl E).
    + destruct (cvalue _); [|discriminate]. injection H as <- <-. exact C.
Qed.

Lemma runEffect_context (V : version) (fuel : nat) (e : node_id) (s : State)
      (r : Result unit) (s' : State) :
  runEffect V fuel e s = Some (r, s') -> ctx_after s r s'.
Proof.
  unfold runEffect. intros H.
  destruct (exec V (getValue V fuel) _ _) as [[[v|] s2]|] eqn:E; try discriminate.
  - injection H as <- <-. reflexivity.
  - injection H as <- <-.
    exact (@exec_context V (getValue V fuel) (@getValue_context V fuel) _ (enter e s) _ _ e
                         eq_refl E).
Qed.

Lemma compute_context (V : version) (fuel : nat) (n : node_id) (s : State)
      (r : Result Z) (s' : State) :
  compute V (getValue V fuel) n s = Some (r, s') -> ctx_after s r s'.
Proof.
  unfold compute. intros H.
  destruct (exec V (getValue V fuel) _ _) as [[[v|] s2]|] eqn:E; try discriminate.
  - injection H as <- <-. reflexivity.
  - injection H as <- <-.
    exact (@exec_context V (getValue V fuel) (@getValue_context V fuel) _ (enter n s) _ _ n
                         eq_refl E).
Qed.

(** ** Running an effect *)

Lemma runEffect_pull (V : version) (fuel : nat) (e : node_id) (s : State)
      (r : Result unit) (s' : State) :
  runEffect V fuel e s = Some (r, s') ->
  exists s1, pull_rel V (enter e s) s1 /\ loose s1 s'.
Proof.
  unfold runEffect. intros H.
  destruct (exec V (getValue V fuel) _ _) as [[[v|] s2]|] eqn:E; try discriminate;
    injection H as <- <-; exists s2;
    (split; [eapply exec_pull; [apply getValue_pull | exact E]|]).
  - eapply loose_trans; [apply loose_reconcile | apply loose_set_context].
  - apply loose_refl.
Qed.

Lemma enter_fields (n m : node_id) (s : State) :
  kind (nodes (enter n s) m) = kind (nodes s m) /\
  taskScheduled (nodes (enter n s) m) = taskScheduled (nodes s m) /\
  destroyed (nodes (enter n s) m) = destroyed (nodes s m) /\
  runs (nodes (enter n s) m) = (if Nat.eqb m n then S (runs (nodes s m)) else runs (nodes s m)).
Proof.
  unfold enter. rewrite nodes_upd. simpl.
  destruct (Nat.eqb m n) eqn:E; [|tauto].
  apply Nat.eqb_eq in E. subst m. simpl. tauto.
Qed.

(** One deferred task runs the effect function exactly once and no other
    effect function. *)
Lemma runTask_runs (V : version) (fuel : nat) (e : node_id) (s : State)
      (r : Result unit) (s' : State) :
  kind (nodes s e) = EffectNode ->
  runTask V fuel e s = Some (r, s') ->
  runs (nodes s' e) = S (runs (nodes s e)) /\
  forall m, m <> e -> kind (nodes s m) = EffectNode -> runs (nodes s' m) = runs (nodes s m).
Proof.
  intros K H. unfold runTask in H.
  destruct (runEffect V fuel e s) as [[[u|] s1]|] eqn:E; try discriminate;
    injection H as <- <-;
    destruct (runEffect_pull _ _ _ _ E) as [s0 [P L]].
  - split.
    + rewrite nodes_upd_eq. change (runs (nodes s1 e) = S (runs (nodes s e))).
      rewrite (lo_runs L), (pl_runs_effect P).
      * destruct (enter_fields e e s) as [_ [_ [_ R]]]. now rewrite R, Nat.eqb_refl.
      * destruct (enter_fields e e s) as [Ke _]. now rewrite Ke.
    + intros m Hm Km. rewrite nodes_upd_ne by assumption.
      rewrite (lo_runs L), (pl_runs_effect P).
      * destruct (enter_fields e m s) as [_ [_ [_ R]]]. apply Nat.eqb_neq in Hm.
        now rewrite R, Hm.
      * destruct (enter_fields e m s) as [Ke _]. now rewrite Ke.
  - split.
    + rewrite (lo_runs L), (pl_runs_effect P).
      * destruct (enter_fields e e s) as [_ [_ [_ R]]]. now rewrite R, Nat.eqb_refl.
      * destruct (enter_fields e e s) as [Ke _]. now rewrite Ke.
    + intros m Hm Km. rewrite (lo_runs L), (pl_runs_effect P).
      * destruct (enter_fields e m s) as [_ [_ [_ R]]]. apply Nat.eqb_neq in Hm.
        now rewrite R, Hm.
      * destruct (enter_fields e m s) as [Ke _]. now rewrite Ke.
Qed.

Lemma runTask_shape (V : version) (fuel : nat) (x : node_id) (s : State)
      (r : Result unit) (s' : State) :
  runTask V fuel x s = Some (r, s') ->
  exists s1 s2, pull_rel V (enter x s) s1 /\ loose s1 s2 /\
                (s' = s2 \/ s' = upd x (with_taskScheduled false) s2).
Proof.
  intros H. unfold runTask in H.
  destruct (runEffect V fuel x s) as [[[u|] s1]|] eqn:E; try discriminate;
    injection H as <- <-;
    destruct (runEffect_pull _ _ _ _ E) as [s0 [P L]]; exists s0, s1; auto.
Qed.

Lemma unschedule_fields (x m : node_id) (s : State) :
  kind (nodes (upd x (with_taskScheduled false) s) m) = kind (nodes s m) /\
  destroyed (nodes (upd x (with_taskScheduled false) s) m) = destroyed (nodes s m) /\
  runs (nodes (upd x (with_taskScheduled false) s) m) = runs (nodes s m).
Proof.
  rewrite nodes_upd. destruct (Nat.eqb m x) eqn:E; [|tauto].
  apply Nat.eqb_eq in E. subst m. simpl. tauto.
Qed.

Lemma blocked_of_sched (V : version) (x : Node) :
  taskScheduled x = true -> effect_blocked V x = true.
Proof. intros H. destruct V; simpl; rewrite H; reflexivity. Qed.

(** C9, as the code has it.  When the effect function returns, the deferred
    task clears [taskScheduled].  When it throws, the statement
    [this.taskScheduled = false] is skipped: a flag that was set stays set,
    and from then on [markAsDisty] on the effect does nothing. *)
Theorem scheduled_flag_after_task (V : version) (fuel : nat) (e : node_id) (s : State)
        (r : Result unit) (s' : State) :
  runTask V fuel e s = Some (r, s') ->
  match r with
  | Ok _ => taskScheduled (nodes s' e) = false
  | Exn => taskScheduled (nodes s e) = true ->
           taskScheduled (nodes s' e) = true /\ EffectNode_markAsDisty V e s' = s'
  end.
Proof.
  intros H. unfold runTask in H.
  destruct (runEffect V fuel e s) as [[[u|] s1]|] eqn:E; try discriminate;
    injection H as <- <-.
  - now rewrite nodes_upd_eq.
  - intros T. destruct (runEffect_pull _ _ _ _ E) as [s0 [P L]].
    assert (taskScheduled (nodes s1 e) = true) as T1.
    { rewrite (lo_taskScheduled L). apply (sr_sched (pl_schedq P)).
      destruct (enter_fields e e s) as [_ [Te _]]. now rewrite Te. }
    split; [exact T1|]. unfold EffectNode_markAsDisty.
    now rewrite (blocked_of_sched V _ T1).
Qed.

(** ** Laziness of derived nodes *)

Lemma reads_below_mono (rank : node_id -> nat) (a b : nat) (p : prog) :
  a <= b -> reads_below rank a p -> reads_below rank b p.
Proof.
  intros L. induction p as [v| |n k IH|n v k IH|v k IH]; simpl; auto.
  intros [A B]. split; [lia | auto].
Qed.

Lemma stratified_pull (V : version) (rank : node_id -> nat) (s s' : State) :
  pull_rel V s s' -> stratified rank s -> stratified rank s'.
Proof.
  intros P S m K. rewrite (pl_fn P). apply S. now rewrite <- (pl_kind m P).
Qed.

Lemma setValue_runs (V : version) (n : node_id) (v : Z) (s s' : State) (m : node_id) :
  setValue V n v s = Some s' -> runs (nodes s' m) = runs (nodes s m).
Proof.
  intros H. rewrite (pr_runs (setValue_push _ _ _ _ H)). rewrite nodes_upd.
  now same_addr m n.
Qed.

(** Writing never runs a function. *)
Lemma Signal_set_runs (V : version) (n : node_id) (v : Z) (s s' : State) (m : node_id) :
  Signal_set V n v s = Some s' -> runs (nodes s' m) = runs (nodes s m).
Proof.
  unfold Signal_set, WritableNode_getValue.
  destruct (kind (nodes s n)); try discriminate.
  pose proof (lo_runs (loose_addAsSub V n s) m) as A.
  destruct (equal _ _ _); intros H.
  - injection H as <-. exact A.
  - now rewrite (setValue_runs _ _ _ _ m H).
Qed.

Lemma Signal_sets_runs (V : version) (ws : list (node_id * Z)) :
  forall s s' m, Signal_sets V ws s = Some s' -> runs (nodes s' m) = runs (nodes s m).
Proof.
  induction ws as [|[n v] rest IH]; intros s s' m H; simpl in H.
  - now injection H as <-.
  - destruct (Signal_set V n v s) as [s1|] eqn:E; [|discriminate].
    rewrite (IH _ _ m H). eapply Signal_set_runs; exact E.
Qed.

Lemma Signal_sets_pull (V : version) (ws : list (node_id * Z)) :
  forall s s', Signal_sets V ws s = Some s' -> pull_rel V s s'.
Proof.
  induction ws as [|[n v] rest IH]; intros s s' H; simpl in H.
  - injection H as <-. apply pull_rel_refl.
  - destruct (Signal_set V n v s) as [s1|] eqn:E; [|discriminate].
    eapply pull_rel_trans; [eapply Signal_set_pull; exact E | eapply IH; exact H].
Qed.

Section Below.
Variables (V : version) (rank : node_id -> nat) (d : node_id).

Lemma exec_below (rd : node_id -> State -> option (Result Z * State)) :
  (forall n s r s', rd n s = Some (r, s') -> pull_rel V s s') ->
  (forall n s r s', stratified rank s -> rank n < rank d -> rd n s = Some (r, s') ->
                    runs (nodes s' d) = runs (nodes s d)) ->
  forall p s r s',
    stratified rank s -> reads_below rank (rank d) p ->
    exec V rd p s = Some (r, s') -> runs (nodes s' d) = runs (nodes s d).
Proof.
  intros Hp Hr. induction p as [v| |n k IH|n v k IH|v k IH]; intros s r s' St B H;
    simpl in H, B.
  - now injection H as <- <-.
  - now injection H as <- <-.
  - destruct B as [Bn Bk]. destruct (rd n s) as [[[v|] s1]|] eqn:E; try discriminate.
    + rewrite (IH v s1 r s'); auto.
      * eapply Hr; eauto.
      * eapply stratified_pull; [eapply Hp; exact E | exact St].
    + injection H as <- <-. eapply Hr; eauto.
  - destruct (Signal_set V n v s) as [s1|] eqn:E; try discriminate.
    rewrite (IH s1 r s'); auto.
    + eapply Signal_set_runs; exact E.
    + eapply stratified_pull; [eapply Signal_set_pull; exact E | exact St].
  - rewrite (IH (emit v s) r s'); auto.
Qed.

Lemma getValue_below (fuel : nat) :
  forall n s r s',
    stratified rank s -> rank n < rank d ->
    getValue V fuel n s = Some (r, s') -> runs (nodes s' d) = runs (nodes s d).
Proof.
  induction fuel as [|f IH]; intros n s r s' St L H; simpl in H; [discriminate|].
  pose proof (loose_addAsSub V n s) as A.
  destruct (kind (nodes s n)) eqn:K; try discriminate.
  - unfold WritableNode_getValue in H. injection H as <- <-. apply (lo_runs A).
  - assert (runs (nodes (enter n (addAsSub V n s)) d) = runs (nodes s d)) as R0.
    { destruct (enter_fields n d (addAsSub V n s)) as [_ [_ [_ R]]]. rewrite R.
      destruct (Nat.eqb d n) eqn:E; [apply Nat.eqb_eq in E; subst; lia|].
      apply (lo_runs A). }
    assert (stratified rank (enter n (addAsSub V n s))) as S0.
    { eapply stratified_pull with (V := V); [|exact St].
      eapply pull_rel_trans; [apply loose_pull, A|].
      apply enter_pull. rewrite (lo_kind A), K. discriminate. }
    assert (reads_below rank (rank d) (fn (nodes (addAsSub V n s) n))) as B0.
    { rewrite (lo_fn A). apply reads_below_mono with (a := rank n); [lia|].
      now apply St. }
    destruct (stale (nodes (addAsSub V n s) n)).
    + unfold compute in H.
      destruct (exec V (getValue V f) _ _) as [[[v|] s2]|] eqn:E;
        cbv beta iota zeta in H; try discriminate;
        injection H as <- <-;
        pose proof (@exec_below (getValue V f) (@getValue_pull V f) IH _ _ _ _ S0 B0 E) as R2.
      * rewrite (lo_runs (loose_finish V n v _ s2)). now rewrite R2.
      * now rewrite R2.
    + destruct (cvalue _); [|discriminate]. injection H as <- <-. apply (lo_runs A).
Qed.

(** Reading [d] runs its computation function at most once. *)
Lemma getValue_runs_once (fuel : nat) (s : State) (r : Result Z) (s' : State) :
  stratified rank s ->
  getValue V fuel d s = Some (r, s') -> runs (nodes s' d) <= S (runs (nodes s d)).
Proof.
  intros St H. destruct fuel as [|f]; simpl in H; [discriminate|].
  pose proof (loose_addAsSub V d s) as A.
  destruct (kind (nodes s d)) eqn:K; try discriminate.
  - unfold WritableNode_getValue in H. injection H as <- <-. rewrite (lo_runs A). lia.
  - assert (runs (nodes (enter d (addAsSub V d s)) d) = S (runs (nodes s d))) as R0.
    { destruct (enter_fields d d (addAsSub V d s)) as [_ [_ [_ R]]].
      now rewrite R, Nat.eqb_refl, (lo_runs A). }
    assert (stratified rank (enter d (addAsSub V d s))) as S0.
    { eapply stratified_pull with (V := V); [|exact St].
      eapply pull_rel_trans; [apply loose_pull, A|].
      apply enter_pull. rewrite (lo_kind A), K. discriminate. }
    assert (reads_below rank (rank d) (fn (nodes (addAsSub V d s) d))) as B0.
    { rewrite (lo_fn A). now apply St. }
    destruct (stale (nodes (addAsSub V d s) d)).
    + unfold compute in H.
      destruct (exec V (getValue V f) _ _) as [[[v|] s2]|] eqn:E;
        cbv beta iota zeta in H; try discriminate;
        injection H as <- <-;
        pose proof (@exec_below (getValue V f) (@getValue_pull V f) (@getValue_below f)
                                _ _ _ _ S0 B0 E) as R2.
      * rewrite (lo_runs (loose_finish V d v _ s2)). lia.
      * lia.
    + destruct (cvalue _); [|discriminate]. injection H as <- <-. rewrite (lo_runs A). lia.
Qed.
End Below.

(** ** Coalescing of effect runs *)

Lemma effect_mark_scheduled (V : version) (e : node_id) (s : State) :
  (V = Vguard -> destroyed (nodes s e) = false) ->
  taskScheduled (nodes (EffectNode_markAsDisty V e s) e) = true.
Proof.
  intros D. unfold EffectNode_markAsDisty.
  destruct (effect_blocked V (nodes s e)) eqn:B.
  - destruct V; simpl in B; [exact B|].
    rewrite (D eq_refl), orb_false_r in B. exact B.
  - unfold schedule. now rewrite nodes_upd_eq.
Qed.

Lemma markAsDisty_effect (V : version) (e : node_id) (s : State) :
  kind (nodes s e) = EffectNode -> markAsDisty V e s = Some (EffectNode_markAsDisty V e s).
Proof. intros K. unfold markAsDisty. simpl. now rewrite K. Qed.

Lemma notify_markAsDisty_push (V : version) (this : node_id) (refs : list WeakRef)
      (s s' : State) :
  notify (markAsDisty V) this refs s = Some s' -> push_rel V s s'.
Proof. apply notify_push. intros n s0 s1 H. eapply markAsDisty_push; exact H. Qed.

(** A live reference to an effect in the iterated set gets the effect
    scheduled by the end of the loop. *)
Lemma notify_schedules (V : version) (this e : node_id) (r : WeakRef) :
  forall refs s s',
    In r refs -> deref s r = Some e ->
    kind (nodes s e) = EffectNode ->
    (V = Vguard -> destroyed (nodes s e) = false) ->
    notify (markAsDisty V) this refs s = Some s' ->
    taskScheduled (nodes s' e) = true.
Proof.
  induction refs as [|r0 rest IH]; intros s s' Hin Hd K D H; [contradiction|].
  simpl in H.
  assert (forall s1, push_rel V s s1 -> In r rest ->
                     notify (markAsDisty V) this rest s1 = Some s' ->
                     taskScheduled (nodes s' e) = true) as Next.
  { intros s1 P Hr H1. apply (IH s1 s'); try assumption.
    - unfold deref in *. now rewrite (pr_collected P).
    - now rewrite (pr_kind P).
    - intros HV. rewrite (pr_destroyed P). now apply D. }
  destruct Hin as [->|Hin].
  - rewrite Hd in H. rewrite (markAsDisty_effect V _ _ K) in H.
    apply (pr_sched (notify_markAsDisty_push _ _ _ _ H)).
    now apply effect_mark_scheduled.
  - destruct (deref s r0) as [sub|] eqn:Hd0.
    + destruct (markAsDisty V sub s) as [s1|] eqn:Hm; [|discriminate].
      eapply Next; [eapply markAsDisty_push; exact Hm | exact Hin | exact H].
    + eapply Next; [apply push_delete_dead; exact Hd0 | exact Hin | exact H].
Qed.

Lemma upd_wvalue_fields (n m : node_id) (v : Z) (s : State) :
  kind (nodes (upd n (with_wvalue v) s) m) = kind (nodes s m) /\
  subs (nodes (upd n (with_wvalue v) s) m) = subs (nodes s m) /\
  collected (nodes (upd n (with_wvalue v) s) m) = collected (nodes s m) /\
  destroyed (nodes (upd n (with_wvalue v) s) m) = destroyed (nodes s m).
Proof. rewrite nodes_upd. destruct (Nat.eqb m n) eqn:E; [|tauto].
       apply Nat.eqb_eq in E. subst m. simpl. tauto. Qed.

(** A write made outside any evaluation returns, and keeps the heap well formed. *)
Lemma Signal_set_top (V : version) (n : node_id) (v : Z) (s : State) :
  context s = None -> kind (nodes s n) = WritableNode -> bounded s -> refs_ok s ->
  exists s', Signal_set V n v s = Some s' /\
             context s' = None /\ bounded s' /\ refs_ok s'.
Proof.
  intros C K B R. rewrite Signal_set_unfold by assumption. rewrite addAsSub_top by assumption.
  destruct (equal _ _ _); [eauto|].
  destruct (setValue_total V n v B R) as [s' H]. exists s'. split; [exact H|].
  pose proof (setValue_push _ _ _ _ H) as P. split; [|split].
  - now rewrite (pr_context P).
  - apply (push_bounded P). intros m Hm.
    destruct (upd_wvalue_fields n m v s) as [Km _]. rewrite Km. now apply B.
  - apply (push_refs_ok P). intros m r Hr.
    destruct (upd_wvalue_fields n (ref_target r) v s) as [Km _]. rewrite Km.
    destruct (upd_wvalue_fields n m v s) as [_ [Sm _]]. rewrite Sm in Hr. now apply (R m).
Qed.


Lemma quiet_refl (s : State) : quiet s s.
Proof. split; reflexivity. Qed.

Lemma quiet_trans (s1 s2 s3 : State) : quiet s1 s2 -> quiet s2 s3 -> quiet s1 s3.
Proof.
  intros [Q1 T1] [Q2 T2]. split; [congruence|]. intros m. now rewrite T2, T1.
Qed.

Lemma loose_quiet (s s' : State) : loose s s' -> quiet s s'.
Proof. intros L. split; [apply (lo_queue L) | apply (lo_taskScheduled L)]. Qed.

Lemma enter_quiet (n : node_id) (s : State) : quiet s (enter n s).
Proof.
  split; [reflexivity|]. intros m. now destruct (enter_fields n m s) as [_ [T _]].
Qed.

Lemma observers_pull (V : version) (s s' : State) :
  pull_rel V s s' -> observers s -> observers s'.
Proof. intros P O m. rewrite (pl_fn P). apply O. Qed.

Lemma exec_quiet (V : version) (rd : node_id -> State -> option (Result Z * State)) :
  (forall n s r s', rd n s = Some (r, s') -> pull_rel V s s') ->
  (forall n s r s', observers s -> rd n s = Some (r, s') -> quiet s s') ->
  forall p s r s',
    observers s -> write_free p -> exec V rd p s = Some (r, s') -> quiet s s'.
Proof.
  intros Hp Hq. induction p as [v| |n k IH|n v k IH|v k IH]; intros s r s' O W H;
    simpl in H, W.
  - injection H as <- <-. apply quiet_refl.
  - injection H as <- <-. apply quiet_refl.
  - destruct (rd n s) as [[[v|] s1]|] eqn:E; try discriminate.
    + eapply quiet_trans; [eapply Hq; [exact O | exact E]|].
      apply (IH v s1 r s'); [|apply W|exact H].
      eapply observers_pull; [eapply Hp; exact E | exact O].
    + injection H as <- <-. eapply Hq; [exact O | exact E].
  - destruct W.
  - eapply quiet_trans; [apply loose_quiet, loose_emit|].
    apply (IH (emit v s) r s'); [|exact W|exact H].
    eapply observers_pull with (V := V); [apply loose_pull, loose_emit | exact O].
Qed.

Lemma getValue_quiet (V : version) (fuel : nat) :
  forall n s r s', observers s -> getValue V fuel n s = Some (r, s') -> quiet s s'.
Proof.
  induction fuel as [|f IH]; intros n s r s' O H; simpl in H; [discriminate|].
  pose proof (loose_addAsSub V n s) as A.
  destruct (kind (nodes s n)) eqn:K; try discriminate.
  - unfold WritableNode_getValue in H. injection H as <- <-. now apply loose_quiet.
  - assert (observers (enter n (addAsSub V n s))) as O1.
    { eapply observers_pull with (V := V); [|exact O].
      eapply pull_rel_trans; [apply loose_pull, A|].
      apply enter_pull. rewrite (lo_kind A), K. discriminate. }
    assert (quiet s (enter n (addAsSub V n s))) as Q1.
    { eapply quiet_trans; [apply loose_quiet, A | apply enter_quiet]. }
    assert (write_free (fn (nodes (addAsSub V n s) n))) as W by (rewrite (lo_fn A); apply O).
    destruct (stale (nodes (addAsSub V n s) n)).
    + unfold compute in H.
      destruct (exec V (getValue V f) _ _) as [[[v|] s2]|] eqn:E;
        cbv beta iota zeta in H; try discriminate;
        injection H as <- <-;
        pose proof (@exec_quiet V (getValue V f) (@getValue_pull V f) IH _ _ _ _ O1 W E)
          as Q2.
      * eapply quiet_trans; [exact Q1|]. eapply quiet_trans; [exact Q2|].
        apply loose_quiet, loose_finish.
      * eapply quiet_trans; [exact Q1 | exact Q2].
    + destruct (cvalue _); [|discriminate]. injection H as <- <-. now apply loose_quiet.
Qed.

(** A task whose functions only observe leaves the queue as it found it. *)
Lemma runTask_quiet (V : version) (fuel : nat) (x : node_id) (s : State)
      (r : Result unit) (s' : State) :
  observers s -> runTask V fuel x s = Some (r, s') ->
  queue s' = queue s /\ observers s' /\ forall m, kind (nodes s' m) = kind (nodes s m).
Proof.
  intros O H.
  assert (observers (enter x s)) as O0.
  { intros m. unfold enter. rewrite nodes_upd. simpl.
    destruct (Nat.eqb m x) eqn:E; [|apply O]. apply Nat.eqb_eq in E. subst m. apply O. }
  assert (forall m, kind (nodes (enter x s) m) = kind (nodes s m)) as K0
      by (intros m; apply (enter_fields x m s)).
  unfold runTask, runEffect in H.
  destruct (exec V (getValue V fuel) (fn (nodes s x)) (enter x s)) as [[[v|] s0]|] eqn:E;
    try discriminate; injection H as <- <-;
    pose proof (@exec_quiet V (getValue V fuel) (@getValue_pull V fuel)
                            (@getValue_quiet V fuel) _ _ _ _ O0 (O x) E) as [Q0 _];
    pose proof (@exec_pull V (getValue V fuel) (@getValue_pull V fuel) _ _ _ _ E) as P0.
  - pose proof (loose_trans (loose_reconcile V x s0)
                            (loose_set_context (context s) (reconcile V x s0))) as L.
    split; [|split].
    + simpl queue. change (queue (reconcile V x s0) = queue s).
      rewrite (lo_queue (loose_reconcile V x s0)). exact Q0.
    + intros m. destruct (unschedule_fields x m (set_context (context s) (reconcile V x s0)))
        as [_ _].
      rewrite nodes_upd.
      assert (forall k, write_free (fn (nodes (set_context (context s) (reconcile V x s0)) k)))
        as O2.
      { intros k. rewrite (lo_fn L), (pl_fn P0). apply O0. }
      destruct (Nat.eqb m x) eqn:Em; [|apply O2].
      apply Nat.eqb_eq in Em. subst m. apply O2.
    + intros m.
      destruct (unschedule_fields x m (set_context (context s) (reconcile V x s0)))
        as [K5 _].
      now rewrite K5, (lo_kind L), (pl_kind _ P0).
  - split; [exact Q0|]. split.
    + eapply observers_pull; [exact P0 | exact O0].
    + intros m. now rewrite (pl_kind _ P0).
Qed.


(** ** Destroying an effect *)

Lemma inert_step_trans (e : node_id) (s1 s2 s3 : State) :
  inert_step e s1 s2 -> inert_step e s2 s3 -> inert_step e s1 s3.
Proof.
  intros A B K D. destruct (A K D) as [K2 [D2 [P2 E2]]].
  destruct (B K2 D2) as [K3 [D3 [P3 E3]]].
  repeat split; try assumption; lia.
Qed.

Lemma pull_inert (e : node_id) (s s' : State) : pull_rel Vguard s s' -> inert_step e s s'.
Proof.
  intros P K D. split; [now rewrite (pl_kind _ P)|]. split; [now rewrite (pl_destroyed _ P)|].
  rewrite (pl_runs_effect P) by assumption.
  destruct (sr_queue (pl_schedq P)) as [l [Q [_ [_ Bl]]]].
  assert (pending e s' = pending e s) as Same.
  { unfold pending. rewrite Q, count_occ_app.
    assert (~ In e l) as N.
    { intros I. destruct (Bl e I) as [_ X]. simpl in X. rewrite D, orb_true_r in X.
      discriminate. }
    apply (@count_occ_not_In node_id Nat.eq_dec) in N. rewrite N. apply Nat.add_0_r. }
  rewrite Same. split; reflexivity.
Qed.

Lemma loose_inert (e : node_id) (s s' : State) : loose s s' -> inert_step e s s'.
Proof. intros L. apply pull_inert. now apply loose_pull. Qed.

(** Running the task at the head of the queue. *)
Lemma runTask_inert (fuel : nat) (e x : node_id) (q : list node_id) (s : State)
      (r : Result unit) (s' : State) :
  queue s = x :: q ->
  runTask Vguard fuel x (set_queue q s) = Some (r, s') -> inert_step e s s'.
Proof.
  intros Q H K D.
  destruct (runTask_shape _ _ _ _ H) as [s1 [s2 [P [L Fin]]]].
  destruct (enter_fields x e (set_queue q s)) as [K0 [_ [D0 R0]]].
  change (nodes (set_queue q s)) with (nodes s) in K0, D0, R0.
  assert (kind (nodes (enter x (set_queue q s)) e) = EffectNode) as K1 by congruence.
  assert (destroyed (nodes (enter x (set_queue q s)) e) = true) as D1 by congruence.
  destruct (pull_inert e P K1 D1) as [K2 [D2 [P2 E2]]].
  destruct (loose_inert e L K2 D2) as [K3 [D3 [P3 E3]]].
  assert (pending e s2 <= pending e s /\
          runs (nodes s2 e) + pending e s2 = runs (nodes s e) + pending e s) as E4.
  { rewrite E3, E2, R0. revert P2 P3. unfold pending. simpl queue. rewrite Q. simpl.
    destruct (Nat.eq_dec x e) as [->|N].
    - rewrite Nat.eqb_refl. lia.
    - assert (Nat.eqb e x = false) as F by (apply Nat.eqb_neq; congruence).
      rewrite F. lia. }
  destruct (unschedule_fields x e s2) as [K5 [D5 R5]].
  destruct Fin as [->| ->].
  - tauto.
  - rewrite K5, D5, R5. unfold pending in *. simpl queue. tauto.
Qed.

Lemma report_inert (e : node_id) (s : State) : inert_step e s (report s).
Proof. intros K D. unfold pending. simpl. auto. Qed.

Lemma runMicrotasks_inert (e : node_id) (fuel : nat) :
  forall s s', runMicrotasks Vguard fuel s = Some s' -> inert_step e s s'.
Proof.
  induction fuel as [|f IH]; intros s s' H; simpl in H; [discriminate|].
  destruct (queue s) as [|x q] eqn:Q.
  - injection H as <-. intros K D. auto.
  - destruct (runTask Vguard f x (set_queue q s)) as [[[u|] s1]|] eqn:E; try discriminate.
    + eapply inert_step_trans; [eapply runTask_inert; eassumption | eapply IH; exact H].
    + eapply inert_step_trans; [eapply runTask_inert; eassumption|].
      eapply inert_step_trans; [apply report_inert | eapply IH; exact H].
Qed.

Lemma run_ops_inert (e : node_id) (fuel : nat) (ops : list op) :
  forall s s', run_ops Vguard fuel ops s = Some s' -> inert_step e s s'.
Proof.
  induction ops as [|o rest IH]; intros s s' H; simpl in H.
  - injection H as <-. intros K D. auto.
  - destruct (run_op Vguard fuel o s) as [s1|] eqn:E; [|discriminate].
    eapply inert_step_trans; [|eapply IH; exact H].
    destruct o as [n|n v|]; simpl in E.
    + destruct (getValue Vguard fuel n s) as [[r s0]|] eqn:G; [|discriminate].
      injection E as <-. eapply pull_inert, getValue_pull; exact G.
    + eapply pull_inert, Signal_set_pull; exact E.
    + eapply runMicrotasks_inert; exact E.
Qed.

Lemma unsubscribe_guard_subs (d e m : node_id) (s : State) :
  subs (nodes (unsubscribe Vguard d e s) m) =
  if Nat.eqb m d then filter (fun r => negb (targets s e r)) (subs (nodes s m))
  else subs (nodes s m).
Proof.
  simpl. destruct (Nat.eqb m d) eqn:E; [|reflexivity].
  apply Nat.eqb_eq in E. subst m. reflexivity.
Qed.

Lemma targets_loose (s s' : State) (e : node_id) (r : WeakRef) :
  loose s s' -> targets s' e r = targets s e r.
Proof. intros L. unfold targets, deref. now rewrite (lo_collected L). Qed.

Lemma destroy_fold (e : node_id) (l : list node_id) :
  forall s,
    let s' := fold_left (fun st dep => unsubscribe Vguard dep e st) l s in
    loose s s' /\
    (forall m r, In r (subs (nodes s' m)) -> In r (subs (nodes s m))) /\
    (forall d r, In d l -> In r (subs (nodes s' d)) -> targets s e r = false).
Proof.
  induction l as [|d0 rest IH]; intros s; simpl.
  - split; [apply loose_refl|]. split; [auto | contradiction].
  - pose proof (loose_unsubscribe Vguard d0 e s) as L0.
    destruct (IH (unsubscribe Vguard d0 e s)) as [L1 [I1 T1]].
    assert (forall m r, In r (subs (nodes (unsubscribe Vguard d0 e s) m)) ->
                        In r (subs (nodes s m)) /\
                        (m = d0 -> targets s e r = false)) as Step.
    { intros m r. rewrite unsubscribe_guard_subs.
      destruct (Nat.eqb m d0) eqn:E.
      - rewrite filter_In, negb_true_iff. tauto.
      - apply Nat.eqb_neq in E. tauto. }
    split; [eapply loose_trans; eassumption|]. split.
    + intros m r Hr. apply I1 in Hr. now apply Step in Hr.
    + intros d r [<-|Hd] Hr.
      * apply I1 in Hr. apply Step in Hr. now apply (proj2 Hr).
      * rewrite <- (targets_loose e r L0). now apply (T1 d).
Qed.

Lemma destroy_tail_fields (e m : node_id) (s s' : State) :
  s' = upd e (with_handle false)
           (upd e (fun x => with_destroyed true (with_deps [] x)) s) ->
  subs (nodes s' m) = subs (nodes s m) /\
  collected (nodes s' m) = collected (nodes s m) /\
  kind (nodes s' m) = kind (nodes s m) /\
  runs (nodes s' m) = runs (nodes s m).
Proof.
  intros ->. simpl. rewrite Nat.eqb_refl. destruct (Nat.eqb m e) eqn:E; [|tauto].
  apply Nat.eqb_eq in E. subst m. simpl. tauto.
Qed.

(** C4. After the first [destroy()] of a handle: the dependency set is
    empty, the node is marked destroyed, no reference to it remains in the
    subscriber set of any node it depended on, [markAsDisty] on it returns
    at once, and whatever reads, writes and ticks follow, no new task is
    ever queued for it: its runs plus its queued tasks stay what they were,
    so with no task queued at [destroy()] its function never runs again. *)
Theorem destroy_retires_effect (s : State) (e : node_id) :
  kind (nodes s e) = EffectNode ->
  handle (nodes s e) = true ->
  deps (nodes (Effect_destroy e s) e) = [] /\
  destroyed (nodes (Effect_destroy e s) e) = true /\
  (forall d r, In d (deps (nodes s e)) -> In r (subs (nodes (Effect_destroy e s) d)) ->
               deref (Effect_destroy e s) r <> Some e) /\
  EffectNode_markAsDisty Vguard e (Effect_destroy e s) = Effect_destroy e s /\
  (forall fuel ops s', run_ops Vguard fuel ops (Effect_destroy e s) = Some s' ->
                       destroyed (nodes s' e) = true /\
                       pending e s' <= pending e s /\
                       runs (nodes s' e) + pending e s' = runs (nodes s e) + pending e s) /\
  (forall fuel ops s', ~ In e (queue s) ->
                       run_ops Vguard fuel ops (Effect_destroy e s) = Some s' ->
                       runs (nodes s' e) = runs (nodes s e) /\ ~ In e (queue s')).
Proof.
  intros K Hh. unfold Effect_destroy. rewrite Hh. unfold EffectNode_destroy.
  set (s0 := set_registry (set_delete e (registry s)) s).
  set (s1 := fold_left (fun st dep => unsubscribe Vguard dep e st) (deps (nodes s0 e)) s0).
  set (s2 := upd e (fun x => with_destroyed true (with_deps [] x)) s1).
  set (s3 := upd e (with_handle false) s2).
  destruct (destroy_fold e (deps (nodes s0 e)) s0) as [L1 [I1 T1]]. fold s1 in L1, I1, T1.
  assert (forall m, subs (nodes s3 m) = subs (nodes s1 m)) as Sub.
  { intros m. apply (@destroy_tail_fields e m s1 _ eq_refl). }
  assert (forall m, collected (nodes s3 m) = collected (nodes s m)) as Col.
  { intros m. destruct (@destroy_tail_fields e m s1 _ eq_refl) as [_ [C _]]. unfold s3, s2.
    rewrite C. apply (lo_collected L1). }
  assert (destroyed (nodes s3 e) = true) as D3.
  { unfold s3, s2. rewrite !nodes_upd_eq. reflexivity. }
  assert (kind (nodes s3 e) = EffectNode) as K3.
  { destruct (@destroy_tail_fields e e s1 _ eq_refl) as [_ [_ [C _]]]. unfold s3, s2.
    rewrite C. now rewrite (lo_kind L1). }
  assert (runs (nodes s3 e) = runs (nodes s e)) as R3.
  { destruct (@destroy_tail_fields e e s1 _ eq_refl) as [_ [_ [_ C]]]. unfold s3, s2.
    rewrite C. now rewrite (lo_runs L1). }
  assert (queue s3 = queue s) as Q3.
  { unfold s3, s2. simpl. now rewrite (lo_queue L1). }
  assert (forall fuel ops s', run_ops Vguard fuel ops s3 = Some s' ->
                       destroyed (nodes s' e) = true /\
                       pending e s' <= pending e s /\
                       runs (nodes s' e) + pending e s' = runs (nodes s e) + pending e s) as Tr.
  { intros fuel ops s' H. destruct (run_ops_inert e _ _ _ H K3 D3) as [_ [D' [P' E']]].
    split; [exact D'|]. split.
    - revert P'. unfold pending. now rewrite Q3.
    - rewrite E', R3. unfold pending. now rewrite Q3. }
  split; [|split; [|split; [|split; [|split]]]].
  - unfold s3, s2. rewrite !nodes_upd_eq. reflexivity.
  - exact D3.
  - intros d r Hd Hr. rewrite Sub in Hr. specialize (T1 d r Hd Hr).
    unfold targets in T1. unfold deref in *. rewrite Col.
    change (collected (nodes s0 (ref_target r))) with (collected (nodes s (ref_target r))) in T1.
    destruct (collected (nodes s (ref_target r))); [discriminate|].
    intros X. injection X as X. rewrite X, Nat.eqb_refl in T1. discriminate.
  - unfold EffectNode_markAsDisty, effect_blocked. rewrite D3, orb_true_r. reflexivity.
  - exact Tr.
  - intros fuel ops s' N H. destruct (Tr fuel ops s' H) as [_ [P' E']].
    apply (@count_occ_not_In nat Nat.eq_dec) in N. unfold pending in P', E'.
    rewrite N in P', E'. split; [lia|].
    apply (@count_occ_not_In nat Nat.eq_dec). lia.
Qed.

(** ** Evaluating scenarios *)

Unset Implicit Arguments.

(** Closed facts about a scenario are settled by running it. *)
Ltac by_evaluation :=
  repeat match goal with |- _ /\ _ => split end; vm_compute; reflexivity.

Lemma or_init_some (o : option State) : is_some o = true -> o = Some (or_init o).
Proof. destruct o; [reflexivity | discriminate]. Qed.

Lemma after_set_some (V : version) (n : node_id) (v : Z) (s : State) :
  is_some (Signal_set V n v s) = true -> Signal_set V n v s = Some (after_set V n v s).
Proof. apply or_init_some. Qed.

Lemma after_tick_some (V : version) (fuel : nat) (s : State) :
  is_some (runMicrotasks V fuel s) = true ->
  runMicrotasks V fuel s = Some (after_tick V fuel s).
Proof. apply or_init_some. Qed.

Lemma after_read_some (V : version) (fuel : nat) (n : node_id) (s : State) (r : Result Z) :
  option_map fst (getValue V fuel n s) = Some r ->
  getValue V fuel n s = Some (r, after_read V fuel n s).
Proof.
  unfold after_read. destruct (getValue V fuel n s) as [[r' s']|]; simpl; [|discriminate].
  intros H. injection H as ->. reflexivity.
Qed.

(** ** The claims on laziness and on the diamond *)

Lemma markAsDisty_dirty_noop (V : version) (n : node_id) (s : State) :
  kind (nodes s n) = WritableNode \/ kind (nodes s n) = ComputedNode ->
  dirty (nodes s n) = true -> markAsDisty V n s = Some s.
Proof.
  intros K D. unfold markAsDisty. simpl. destruct K as [K|K]; now rewrite K, D.
Qed.

Lemma diamond1_stratified (V : version) : stratified (fun n => n) (diamond1 V).
Proof.
  intros m. destruct V;
    do 4 (destruct m as [|m];
          [vm_compute; try discriminate; intros _; repeat split; lia|]);
    vm_compute; discriminate.
Qed.

Lemma diamond_write (V : version) : Signal_set V 0 5%Z (diamond1 V) = Some (diamond2 V).
Proof. apply after_set_some. destruct V; vm_compute; reflexivity. Qed.

Lemma diamond_reread (V : version) :
  getValue V 4 3 (diamond2 V) = Some (Ok 16%Z, diamond3 V).
Proof. apply after_read_some. destruct V; vm_compute; reflexivity. Qed.

(** ** The copy in index.ts keeps stale subscriptions *)

(** C7, evaluated.  In index.ts [subscribe] appends a new reference on
    every call; after the two reads of the diamond, [a.subs] holds two
    references to [b].  The other copy keeps one. *)
Theorem index_subscribe_duplicates :
  (forall s this sub,
      subs (nodes (subscribe Vindex this sub s) this) =
      subs (nodes s this) ++ [mkRef (next_ref s) sub]) /\
  refs_to (diamond3 Vindex) 0 1 = [mkRef 1 1; mkRef 5 1] /\
  refs_to (diamond3 Vguard) 0 1 = [mkRef 1 1].
Proof.
  split; [|split].
  - intros s this sub. simpl. now rewrite Nat.eqb_refl.
  - vm_compute. reflexivity.
  - vm_compute. reflexivity.
Qed.

(** C5, evaluated.  In index.ts, after the evaluation that no longer reads
    [x], [x] has left [d.deps] but [x.subs] still holds a reference to [d],
    and the next write to [x] marks [d] dirty.  The other copy removes the
    subscription and [d] stays clean. *)
Theorem index_pruning_keeps_subscription :
  deps (nodes (branch_before Vindex) 2) = [0; 1] /\
  deps (nodes (branch_pruned Vindex) 2) = [0] /\
  refs_to (branch_pruned Vindex) 1 2 = [mkRef 3 2] /\
  dirty (nodes (branch_pruned Vindex) 2) = false /\
  dirty (nodes (after_set Vindex 1 12%Z (branch_pruned Vindex)) 2) = true /\
  refs_to (branch_pruned Vguard) 1 2 = [] /\
  dirty (nodes (after_set Vguard 1 12%Z (branch_pruned Vguard)) 2) = false.
Proof. by_evaluation. Qed.

Ltac settle_edges :=
  repeat match goal with
         | H : _ \/ _ |- _ => destruct H as [H|H]
         | H : False |- _ => destruct H
         | H : S _ = 0 |- _ => discriminate H
         | H : 0 = S _ |- _ => discriminate H
         | H : S _ = S _ |- _ => injection H as H
         end;
  subst; try discriminate;
  try (eexists; split; [left; reflexivity | reflexivity]);
  try (left; reflexivity); try (right; left; reflexivity).

Lemma branch_before_consistent : consistent (branch_before Vindex).
Proof.
  intros a b _.
  destruct a as [|[|[|a]]]; destruct b as [|[|[|b]]]; vm_compute; split;
    try (intros [r [H E]]); try intros H; settle_edges.
Qed.

(** C6, evaluated.  In index.ts the graph is consistent before the read of
    [d] that takes the other branch, and inconsistent at rest after it. *)
Theorem index_read_breaks_consistency :
  consistent (branch_before Vindex) /\
  getValue Vindex 3 2 (branch_before Vindex) = Some (Ok 0%Z, branch_pruned Vindex) /\
  context (branch_pruned Vindex) = None /\
  queue (branch_pruned Vindex) = [] /\
  (forall m, ctxDeps (nodes (branch_pruned Vindex) m) = []) /\
  ~ consistent (branch_pruned Vindex).
Proof.
  split; [apply branch_before_consistent|].
  split; [apply after_read_some; vm_compute; reflexivity|].
  split; [vm_compute; reflexivity|]. split; [vm_compute; reflexivity|]. split.
  - intros m. do 3 (destruct m as [|m]; [vm_compute; reflexivity|]). vm_compute. reflexivity.
  - intros C.
    assert (collected (nodes (branch_pruned Vindex) 2) = false) as L
        by (vm_compute; reflexivity).
    destruct (C 1 2 L) as [_ Back]. clear C.
    assert (In 1 (deps (nodes (branch_pruned Vindex) 2))) as H.
    { apply Back. exists (mkRef 3 2). split; [|reflexivity]. vm_compute. now left. }
    clear Back L. vm_compute in H. destruct H as [H|[]]. discriminate H.
Qed.

(** ** Exceptions *)

Lemma thrower_read :
  getValue Vindex 2 1 thrower0 = Some (Exn, after_read Vindex 2 1 thrower0).
Proof. apply after_read_some. vm_compute. reflexivity. Qed.


(** C9 refuted.  An effect whose function throws in its deferred run: after
    the tick the error was reported, the queue is empty and [taskScheduled]
    is still set; a later change of its dependency queues nothing. *)
Lemma scheduled_flag_stuck_after_throw :
  runMicrotasks Vguard 3 (failing0 Vguard) = Some (after_tick Vguard 3 (failing0 Vguard)) /\
  uncaught (after_tick Vguard 3 (failing0 Vguard)) = 1 /\
  queue (after_tick Vguard 3 (failing0 Vguard)) = [] /\
  taskScheduled (nodes (after_tick Vguard 3 (failing0 Vguard)) 1) = true /\
  refs_to (after_tick Vguard 3 (failing0 Vguard)) 0 1 = [mkRef 0 1] /\
  Signal_set Vguard 0 7%Z (after_tick Vguard 3 (failing0 Vguard)) =
    Some (after_set Vguard 0 7%Z (after_tick Vguard 3 (failing0 Vguard))) /\
  wvalue (nodes (after_set Vguard 0 7%Z (after_tick Vguard 3 (failing0 Vguard))) 0) = 7%Z /\
  queue (after_set Vguard 0 7%Z (after_tick Vguard 3 (failing0 Vguard))) = [].
Proof.
  split; [apply after_tick_some; vm_compute; reflexivity|].
  split; [vm_compute; reflexivity|]. split; [vm_compute; reflexivity|].
  split; [vm_compute; reflexivity|]. split; [vm_compute; reflexivity|].
  split; [apply after_set_some; vm_compute; reflexivity|].
  split; vm_compute; reflexivity.
Qed.

(** ** Instances *)

Lemma after_task_some (V : version) (fuel : nat) (e : node_id) (s : State)
      (r : Result unit) :
  option_map fst (runTask V fuel e s) = Some r ->
  runTask V fuel e s = Some (r, after_task V fuel e s).
Proof.
  unfold after_task. destruct (runTask V fuel e s) as [[r' s']|]; simpl; [|discriminate].
  intros H. injection H as ->. reflexivity.
Qed.

Lemma bounded_intro (s : State) (N : nat) :
  size s = N -> (forall k, kind (nodes s (N + k)) = Free) -> bounded s.
Proof.
  intros Hs H n Hn. rewrite Hs in Hn. replace n with (N + (n - N)) by lia. apply H.
Qed.

Lemma refs_ok_intro (s : State) (N : nat) :
  (forall k, subs (nodes s (N + k)) = []) -> refs_okb N s = true -> refs_ok s.
Proof.
  intros Hout Hin n r Hr. destruct (Nat.lt_ge_cases n N) as [L|G].
  - unfold refs_okb in Hin. rewrite forallb_forall in Hin.
    assert (In n (seq 0 N)) as I by (apply in_seq; lia).
    specialize (Hin n I). rewrite forallb_forall in Hin. specialize (Hin r Hr).
    intros E. rewrite E in Hin. discriminate.
  - replace n with (N + (n - N)) in Hr by lia. rewrite Hout in Hr. destruct Hr.
Qed.

Ltac heap_bounded N :=
  apply (bounded_intro _ N); [vm_compute; reflexivity | intros k; vm_compute; reflexivity].

Ltac heap_refs_ok N :=
  apply (refs_ok_intro _ N); [intros k; vm_compute; reflexivity | vm_compute; reflexivity].

Lemma Signal_sets_one (V : version) (n : node_id) (v : Z) (s s' : State) :
  Signal_set V n v s = Some s' -> Signal_sets V [(n, v)] s = Some s'.
Proof. intros H. change (Signal_sets V [(n, v)] s) with
  (match Signal_set V n v s with Some s1 => Some s1 | None => None end). now rewrite H. Qed.

Lemma diamond_writes : Signal_sets Vindex [(0, 5%Z)] (diamond1 Vindex) = Some (diamond2 Vindex).
Proof. apply Signal_sets_one, diamond_write. Qed.



Lemma trio_observers : observers (trio_state Vguard).
Proof.
  intros m. do 4 (destruct m as [|m]; [vm_compute; auto|]). vm_compute. auto.
Qed.

(** [counter.set(0)] on the counter of [setupCounter]. *)
Lemma set_same_value_no_propagation_witness :
  exists s',
    Signal_set Vindex 0 (wvalue (nodes (counter_state Vindex) 0)) (counter_state Vindex)
    = Some s' /\
    (forall m, wvalue (nodes s' m) = wvalue (nodes (counter_state Vindex) m) /\
               cvalue (nodes s' m) = cvalue (nodes (counter_state Vindex) m) /\
               dirty (nodes s' m) = dirty (nodes (counter_state Vindex) m) /\
               taskScheduled (nodes s' m) = taskScheduled (nodes (counter_state Vindex) m) /\
               runs (nodes s' m) = runs (nodes (counter_state Vindex) m)) /\
    queue s' = queue (counter_state Vindex) /\
    (context (counter_state Vindex) = None -> s' = counter_state Vindex).
Proof.
  apply (@set_same_value_no_propagation Vindex (counter_state Vindex) 0).
  - vm_compute. reflexivity.
  - vm_compute. reflexivity.
Defined.

Lemma counter_bounded : bounded (counter_state Vguard).
Proof. heap_bounded 2. Qed.

Lemma counter_refs_ok : refs_ok (counter_state Vguard).
Proof. heap_refs_ok 2. Qed.

(** Destroying the effect of [setupCounter] after its first run. *)
Lemma destroy_retires_effect_witness :
  deps (nodes (Effect_destroy 1 (counter_state Vguard)) 1) = [] /\
  destroyed (nodes (Effect_destroy 1 (counter_state Vguard)) 1) = true /\
  (forall r, In r (subs (nodes (Effect_destroy 1 (counter_state Vguard)) 0)) ->
             deref (Effect_destroy 1 (counter_state Vguard)) r <> Some 1) /\
  (forall fuel ops s',
      run_ops Vguard fuel ops (Effect_destroy 1 (counter_state Vguard)) = Some s' ->
      runs (nodes s' 1) = 1 /\ ~ In 1 (queue s')).
Proof.
  destruct (@destroy_retires_effect (counter_state Vguard) 1)
    as [A [B [C [_ [_ D]]]]].
  - vm_compute. reflexivity.
  - vm_compute. reflexivity.
  - split; [exact A|]. split; [exact B|]. split.
    + intros r. apply C. vm_compute. now left.
    + intros fuel ops s' H. apply (D fuel ops s'); [|exact H]. vm_compute. intros [].
Defined.

Lemma counter_first_task :
  runTask Vguard 3 1 (set_queue [] (counter0 Vguard))
  = Some (Ok tt, after_task Vguard 3 1 (set_queue [] (counter0 Vguard))).
Proof. apply after_task_some. vm_compute. reflexivity. Qed.

Lemma failing_first_task :
  runTask Vguard 3 1 (set_queue [] (failing0 Vguard))
  = Some (Exn, after_task Vguard 3 1 (set_queue [] (failing0 Vguard))).
Proof. apply after_task_some. vm_compute. reflexivity. Qed.

(** The first task of the counter's effect returns; that of the failing
    effect throws. *)
Lemma scheduled_flag_after_task_witness :
  taskScheduled (nodes (after_task Vguard 3 1 (set_queue [] (counter0 Vguard))) 1) = false /\
  taskScheduled (nodes (after_task Vguard 3 1 (set_queue [] (failing0 Vguard))) 1) = true.
Proof.
  split.
  - exact (@scheduled_flag_after_task Vguard 3 1 (set_queue [] (counter0 Vguard)) (Ok tt)
             (after_task Vguard 3 1 (set_queue [] (counter0 Vguard))) counter_first_task).
  - refine (proj1 (@scheduled_flag_after_task Vguard 3 1 (set_queue [] (failing0 Vguard)) Exn
                     (after_task Vguard 3 1 (set_queue [] (failing0 Vguard)))
                     failing_first_task _)).
    vm_compute. reflexivity.
Defined.

Lemma counter_running_bounded : bounded counter_running.
Proof. heap_bounded 2. Qed.

Lemma counter_running_refs_ok : refs_ok counter_running.
Proof. heap_refs_ok 2. Qed.

(** [counter.set(0)] called while the counter's effect is running. *)
Lemma set_inside_evaluation_tracks_witness :
  exists s',
    Signal_set Vindex 0 0%Z counter_running = Some s' /\
    (exists r, In r (subs (nodes s' 0)) /\ deref s' r = Some 1) /\
    In 0 (ctxDeps (nodes s' 1)) /\
    (equal (nodes counter_running 0) (wvalue (nodes counter_running 0)) 0%Z = true ->
     wvalue (nodes s' 0) = wvalue (nodes counter_running 0)).
Proof.
  apply (@set_inside_evaluation_tracks Vindex counter_running 0 1 0%Z).
  - vm_compute. reflexivity.
  - vm_compute. reflexivity.
  - vm_compute. discriminate.
  - vm_compute. reflexivity.
  - exact counter_running_bounded.
  - exact counter_running_refs_ok.
Defined.

(** ** Invariants of the public operations *)

(** Any property kept by the elementary steps of the runtime is kept by
    reads, writes, effect runs and ticks. *)
Section Invariant.
Variables (V : version) (I : State -> Prop).
Hypothesis I_addAsSub : forall n s, I s -> I (addAsSub V n s).
Hypothesis I_push : forall s s', push_rel V s s' -> I s -> I s'.
Hypothesis I_wvalue : forall n v s, I s -> I (upd n (with_wvalue v) s).
Hypothesis I_enter : forall n s, I s -> I (enter n s).
Hypothesis I_emit : forall v s, I s -> I (emit v s).
Hypothesis I_exit : forall n c s, I s -> I (set_context c (reconcile V n s)).
Hypothesis I_store :
  forall n v s, I s -> I (upd n (fun x => with_dirty false (with_cvalue (Some v) x)) s).
Hypothesis I_unsched : forall e s, I s -> I (upd e (with_taskScheduled false) s).
Hypothesis I_pop : forall q s, I s -> I (set_queue q s).
Hypothesis I_report : forall s, I s -> I (report s).

Lemma Signal_set_inv (n : node_id) (v : Z) (s s' : State) :
  Signal_set V n v s = Some s' -> I s -> I s'.
Proof.
  unfold Signal_set, WritableNode_getValue.
  destruct (kind (nodes s n)); try discriminate.
  destruct (equal _ _ _); intros H Hs.
  - injection H as <-. now apply I_addAsSub.
  - apply (I_push _ _ (@setValue_push V n v _ _ H)). now apply I_wvalue, I_addAsSub.
Qed.

Lemma exec_inv (rd : node_id -> State -> option (Result Z * State)) :
  (forall n s r s', rd n s = Some (r, s') -> I s -> I s') ->
  forall p s r s', exec V rd p s = Some (r, s') -> I s -> I s'.
Proof.
  intros Hrd. induction p as [v| |n k IH|n v k IH|v k IH]; intros s r s' H Hs; simpl in H.
  - now injection H as <- <-.
  - now injection H as <- <-.
  - destruct (rd n s) as [[[v|] s1]|] eqn:E; try discriminate.
    + apply (IH v s1 r s' H). apply (Hrd _ _ _ _ E Hs).
    + injection H as <- <-. apply (Hrd _ _ _ _ E Hs).
  - destruct (Signal_set V n v s) as [s1|] eqn:E; try discriminate.
    apply (IH s1 r s' H). apply (Signal_set_inv n v s s1 E Hs).
  - apply (IH _ r s' H). now apply I_emit.
Qed.

Lemma getValue_inv (fuel : nat) :
  forall n s r s', getValue V fuel n s = Some (r, s') -> I s -> I s'.
Proof.
  induction fuel as [|f IH]; intros n s r s' H Hs; simpl in H; [discriminate|].
  destruct (kind (nodes s n)); try discriminate.
  - unfold WritableNode_getValue in H. injection H as <- <-. now apply I_addAsSub.
  - destruct (stale (nodes (addAsSub V n s) n)).
    + unfold compute in H.
      destruct (exec V (getValue V f) _ _) as [[[v|] s2]|] eqn:E;
        cbv beta iota zeta in H; try discriminate;
        injection H as <- <-;
        assert (I s2) as H2
          by (apply (exec_inv (getValue V f) IH _ _ _ _ E); now apply I_enter, I_addAsSub).
      * now apply I_store, I_exit.
      * exact H2.
    + destruct (cvalue _); [|discriminate]. injection H as <- <-. now apply I_addAsSub.
Qed.

Lemma runTask_inv (fuel : nat) (e : node_id) (s : State) (r : Result unit) (s' : State) :
  runTask V fuel e s = Some (r, s') -> I s -> I s'.
Proof.
  unfold runTask, runEffect. intros H Hs.
  destruct (exec V (getValue V fuel) _ _) as [[[v|] s2]|] eqn:E; try discriminate;
    injection H as <- <-;
    assert (I s2) as H2
      by (apply (exec_inv (getValue V fuel) (getValue_inv fuel) _ _ _ _ E);
          now apply I_enter).
  - now apply I_unsched, I_exit.
  - exact H2.
Qed.

Lemma runMicrotasks_inv (fuel : nat) :
  forall s s', runMicrotasks V fuel s = Some s' -> I s -> I s'.
Proof.
  induction fuel as [|f IH]; intros s s' H Hs; simpl in H; [discriminate|].
  destruct (queue s) as [|x q].
  - now injection H as <-.
  - destruct (runTask V f x (set_queue q s)) as [[[u|] s1]|] eqn:E; try discriminate.
    + apply (IH _ _ H). apply (runTask_inv f x _ _ _ E). now apply I_pop.
    + apply (IH _ _ H). apply I_report. apply (runTask_inv f x _ _ _ E). now apply I_pop.
Qed.

Lemma run_ops_inv (fuel : nat) (ops : list op) :
  forall s s', run_ops V fuel ops s = Some s' -> I s -> I s'.
Proof.
  induction ops as [|o rest IH]; intros s s' H Hs; simpl in H.
  - now injection H as <-.
  - destruct (run_op V fuel o s) as [s1|] eqn:E; [|discriminate].
    apply (IH _ _ H). destruct o as [n|n v|]; simpl in E.
    + destruct (getValue V fuel n s) as [[r s0]|] eqn:G; [|discriminate].
      injection E as <-. apply (getValue_inv fuel _ _ _ _ G Hs).
    + apply (Signal_set_inv _ _ _ _ E Hs).
    + apply (runMicrotasks_inv fuel _ _ E Hs).
Qed.
End Invariant.

(** ** The de-duplicating copy keeps the edges consistent *)

Lemma guard_inv_init : guard_inv init.
Proof.
  split.
  - intros a b _. simpl. split; [intros [[]|[]] | intros [r [[] _]]].
  - intros this r1 r2 [].
Qed.

Lemma guard_inv_same_edges (s s' : State) : same_edges s s' -> guard_inv s -> guard_inv s'.
Proof.
  intros E [T S]. split.
  - intros a b. destruct (E a) as [Sa _]. destruct (E b) as [_ [Db [Cb Lb]]].
    rewrite Sa, Db, Cb, Lb. apply T.
  - intros this r1 r2. destruct (E this) as [St _].
    destruct (E (ref_target r1)) as [_ [_ [_ L]]]. rewrite St, L. apply S.
Qed.

Lemma same_edges_upd (n : node_id) (f : Node -> Node) (s : State) :
  (forall x, subs (f x) = subs x /\ deps (f x) = deps x /\
             ctxDeps (f x) = ctxDeps x /\ collected (f x) = collected x) ->
  same_edges s (upd n f s).
Proof.
  intros F m. rewrite nodes_upd. destruct (Nat.eqb m n) eqn:E; [|tauto].
  apply Nat.eqb_eq in E. subst m. apply F.
Qed.

Lemma guard_inv_push (s s' : State) : push_rel Vguard s s' -> guard_inv s -> guard_inv s'.
Proof.
  intros P [T S]. split.
  - intros a b L. rewrite (pr_collected P) in L.
    rewrite (pr_deps P), (pr_ctxDeps P), (T a b L). split; intros [r [Hr Ht]]; exists r.
    + split; [|exact Ht]. apply (pr_subs_live P); [exact Hr | now rewrite Ht].
    + split; [|exact Ht]. now apply (pr_subs_incl P).
  - intros this r1 r2 H1 H2 E L. rewrite (pr_collected P) in L.
    apply (S this); try assumption; now apply (pr_subs_incl P).
Qed.

Lemma subscribe_guard_subs (this sub : node_id) (s : State) (r : WeakRef) :
  In r (subs (nodes (subscribe Vguard this sub s) this)) <->
  In r (subs (nodes s this)) \/
  (r = mkRef (next_ref s) sub /\ existsb (targets s sub) (subs (nodes s this)) = false).
Proof.
  simpl. destruct (existsb (targets s sub) (subs (nodes s this))) eqn:E.
  - split; [now left | intros [H|[_ H]]; [exact H | discriminate]].
  - simpl. rewrite Nat.eqb_refl. simpl. rewrite in_app_iff. simpl. split.
    + intros [H|[H|[]]]; [now left | right; split; [now symmetry | reflexivity]].
    + intros [H|[H _]]; [now left | right; left; now symmetry].
Qed.

Lemma guard_inv_addAsSub (n : node_id) (s : State) :
  guard_inv s -> guard_inv (addAsSub Vguard n s).
Proof.
  intros [T S]. unfold addAsSub. destruct (context s) as [ctx|] eqn:C; [|now split].
  set (s1 := subscribe Vguard n ctx s).
  assert (forall m, deps (nodes s1 m) = deps (nodes s m)) as D1
      by (intros m; apply (tn_deps (subscribe_node Vguard n ctx m s))).
  assert (forall m, ctxDeps (nodes s1 m) = ctxDeps (nodes s m)) as C1
      by (intros m; apply subscribe_ctxDeps).
  assert (forall m, collected (nodes s1 m) = collected (nodes s m)) as L1
      by (intros m; apply (tn_collected (subscribe_node Vguard n ctx m s))).
  set (s2 := upd ctx (fun x => with_ctxDeps (set_add n (ctxDeps x)) x) s1).
  assert (forall m, subs (nodes s2 m) = subs (nodes s1 m)) as S2.
  { intros m. unfold s2. rewrite nodes_upd. destruct (Nat.eqb m ctx) eqn:E; [|reflexivity].
    apply Nat.eqb_eq in E. now subst m. }
  assert (forall m, deps (nodes s2 m) = deps (nodes s m)) as D2.
  { intros m. unfold s2. rewrite nodes_upd. destruct (Nat.eqb m ctx) eqn:E; [|apply D1].
    apply Nat.eqb_eq in E. subst m. apply D1. }
  assert (forall m, collected (nodes s2 m) = collected (nodes s m)) as L2.
  { intros m. unfold s2. rewrite nodes_upd. destruct (Nat.eqb m ctx) eqn:E; [|apply L1].
    apply Nat.eqb_eq in E. subst m. apply L1. }
  assert (forall a m, In a (ctxDeps (nodes s2 m)) <->
                      (m = ctx /\ a = n) \/ In a (ctxDeps (nodes s m))) as C2.
  { intros a m. unfold s2. rewrite nodes_upd. destruct (Nat.eqb m ctx) eqn:E.
    - apply Nat.eqb_eq in E. subst m. simpl. rewrite set_add_In, C1. tauto.
    - apply Nat.eqb_neq in E. rewrite C1. tauto. }
  assert (forall m r, m <> n -> (In r (subs (nodes s2 m)) <-> In r (subs (nodes s m)))) as So.
  { intros m r Hm. rewrite S2. unfold s1. now rewrite subscribe_subs_other. }
  split.
  - intros a b L. rewrite L2 in L. rewrite D2, C2. split.
    + intros [H|[[-> ->]|H]].
      * destruct (proj1 (T a b L) (or_introl H)) as [r [Hr Ht]]. exists r.
        split; [|exact Ht]. rewrite S2. now apply subscribe_subs_incl.
      * destruct (subscribe_has_ref Vguard n ctx s) as [r [Hr Ht]]. exists r.
        split; [|exact Ht]. now rewrite S2.
      * destruct (proj1 (T a b L) (or_intror H)) as [r [Hr Ht]]. exists r.
        split; [|exact Ht]. rewrite S2. now apply subscribe_subs_incl.
    + intros [r [Hr Ht]]. destruct (Nat.eq_dec a n) as [->|Na].
      * rewrite S2 in Hr. apply subscribe_guard_subs in Hr. destruct Hr as [Hr|[-> _]].
        -- destruct (proj2 (T n b L) (ex_intro _ r (conj Hr Ht))); tauto.
        -- simpl in Ht. right. left. split; [now symmetry | reflexivity].
      * apply So in Hr; [|exact Na].
        destruct (proj2 (T a b L) (ex_intro _ r (conj Hr Ht))); tauto.
  - intros this r1 r2 H1 H2 E L. rewrite L2 in L.
    destruct (Nat.eq_dec this n) as [->|Nt].
    + rewrite S2 in H1, H2. apply subscribe_guard_subs in H1, H2.
      assert (forall r, In r (subs (nodes s n)) -> ref_target r = ctx ->
                        collected (nodes s ctx) = false ->
                        existsb (targets s ctx) (subs (nodes s n)) = false -> False) as No.
      { intros r Hr Ht Hl Hx.
        assert (existsb (targets s ctx) (subs (nodes s n)) = true) as Y.
        { apply existsb_exists. exists r. split; [exact Hr|].
          unfold targets, deref. rewrite Ht, Hl. apply Nat.eqb_refl. }
        congruence. }
      destruct H1 as [H1|[-> X1]], H2 as [H2|[-> X2]].
      * now apply (S n).
      * exfalso. simpl in E. apply (No r1 H1 E); [|exact X2]. now rewrite <- E.
      * exfalso. simpl in E, L. apply (No r2 H2 (eq_sym E) L X1).
      * reflexivity.
    + apply So in H1, H2; try assumption. now apply (S this).
Qed.

Lemma guard_inv_prune (n : node_id) (s : State) (x : node_id) :
  guard_inv s -> guard_inv (prune_step Vguard n s x).
Proof.
  intros [T S]. unfold prune_step.
  destruct (set_has x (ctxDeps (nodes s n))) eqn:Hx; [now split|].
  assert (~ In x (ctxDeps (nodes s n))) as Nx.
  { intros I. apply set_has_In in I. congruence. }
  set (s1 := upd n (fun y => with_deps (set_delete x (deps y)) y) s).
  set (s2 := unsubscribe Vguard x n s1).
  assert (forall m, subs (nodes s1 m) = subs (nodes s m)) as S1.
  { intros m. unfold s1. rewrite nodes_upd. destruct (Nat.eqb m n) eqn:E; [|reflexivity].
    apply Nat.eqb_eq in E. now subst m. }
  assert (forall m, collected (nodes s1 m) = collected (nodes s m)) as L1.
  { intros m. unfold s1. rewrite nodes_upd. destruct (Nat.eqb m n) eqn:E; [|reflexivity].
    apply Nat.eqb_eq in E. now subst m. }
  assert (forall m, ctxDeps (nodes s1 m) = ctxDeps (nodes s m)) as C1.
  { intros m. unfold s1. rewrite nodes_upd. destruct (Nat.eqb m n) eqn:E; [|reflexivity].
    apply Nat.eqb_eq in E. now subst m. }
  assert (forall a m, In a (deps (nodes s1 m)) <->
                      In a (deps (nodes s m)) /\ ~ (m = n /\ a = x)) as D1.
  { intros a m. unfold s1. rewrite nodes_upd. destruct (Nat.eqb m n) eqn:E.
    - apply Nat.eqb_eq in E. subst m. simpl. rewrite set_delete_In. tauto.
    - apply Nat.eqb_neq in E. tauto. }
  assert (forall m, collected (nodes s2 m) = collected (nodes s m)) as L2.
  { intros m. unfold s2. rewrite (lo_collected (loose_unsubscribe Vguard x n s1)). apply L1. }
  assert (forall m, deps (nodes s2 m) = deps (nodes s1 m)) as D2.
  { intros m. unfold s2. simpl. destruct (Nat.eqb m x) eqn:E; [|reflexivity].
    apply Nat.eqb_eq in E. now subst m. }
  assert (forall m, ctxDeps (nodes s2 m) = ctxDeps (nodes s m)) as C2.
  { intros m. rewrite <- C1. unfold s2. simpl. destruct (Nat.eqb m x) eqn:E; [|reflexivity].
    apply Nat.eqb_eq in E. now subst m. }
  assert (forall m r, In r (subs (nodes s2 m)) <->
                      In r (subs (nodes s m)) /\ ~ (m = x /\ targets s n r = true)) as S2.
  { intros m r. unfold s2. rewrite unsubscribe_guard_subs, <- S1.
    assert (targets s1 n r = targets s n r) as Tg.
    { unfold targets, deref. now rewrite L1. }
    destruct (Nat.eqb m x) eqn:E.
    - apply Nat.eqb_eq in E. subst m. rewrite filter_In, negb_true_iff, Tg.
      destruct (targets s n r); intuition congruence.
    - apply Nat.eqb_neq in E. tauto. }
  split.
  - intros a b L. rewrite L2 in L. rewrite D2, D1, C2. split.
    + intros H.
      assert (In a (deps (nodes s b)) \/ In a (ctxDeps (nodes s b))) as H0 by tauto.
      destruct (proj1 (T a b L) H0) as [r [Hr Ht]]. exists r. split; [|exact Ht].
      apply S2. split; [exact Hr|]. intros [-> Tg].
      unfold targets, deref in Tg. destruct (collected (nodes s (ref_target r))); [discriminate|].
      apply Nat.eqb_eq in Tg. assert (b = n) as Bn by congruence.
      destruct H as [[_ H]|H];
        [apply H; split; [exact Bn | reflexivity] | rewrite Bn in H; exact (Nx H)].
    + intros [r [Hr Ht]]. apply S2 in Hr. destruct Hr as [Hr Hn].
      destruct (proj2 (T a b L) (ex_intro _ r (conj Hr Ht))) as [H|H]; [|now right].
      left. split; [exact H|]. intros [-> ->]. apply Hn. split; [reflexivity|].
      unfold targets, deref. rewrite Ht, L. apply Nat.eqb_refl.
  - intros this r1 r2 H1 H2 E L. rewrite L2 in L. apply S2 in H1, H2.
    now apply (S this); tauto.
Qed.

Lemma guard_inv_adopt (n : node_id) (s : State) (c : node_id) :
  In c (ctxDeps (nodes s n)) -> guard_inv s ->
  guard_inv (adopt_step n s c) /\
  ctxDeps (nodes (adopt_step n s c) n) = ctxDeps (nodes s n) /\
  In c (deps (nodes (adopt_step n s c) n)) /\
  (forall d, In d (deps (nodes s n)) -> In d (deps (nodes (adopt_step n s c) n))).
Proof.
  intros Hc [T S]. unfold adopt_step.
  destruct (set_has c (deps (nodes s n))) eqn:Hd.
  - apply set_has_In in Hd. split; [split; assumption|]. split; [reflexivity|].
    split; [exact Hd | auto].
  - set (s1 := upd n (fun x => with_deps (deps x ++ [c]) x) s).
    assert (forall m, subs (nodes s1 m) = subs (nodes s m) /\
                      ctxDeps (nodes s1 m) = ctxDeps (nodes s m) /\
                      collected (nodes s1 m) = collected (nodes s m)) as F.
    { intros m. unfold s1. rewrite nodes_upd. destruct (Nat.eqb m n) eqn:E; [|tauto].
      apply Nat.eqb_eq in E. subst m. simpl. tauto. }
    assert (forall a m, In a (deps (nodes s1 m)) <->
                        In a (deps (nodes s m)) \/ (m = n /\ a = c)) as D.
    { intros a m. unfold s1. rewrite nodes_upd. destruct (Nat.eqb m n) eqn:E.
      - apply Nat.eqb_eq in E. subst m. simpl. rewrite in_app_iff. simpl.
        intuition congruence.
      - apply Nat.eqb_neq in E. tauto. }
    split; [split|split; [|split]].
    + intros a b L. destruct (F a) as [Sa _]. destruct (F b) as [_ [Cb Lb]].
      rewrite Lb in L. rewrite Sa, Cb, D, <- (T a b L).
      split; [|tauto]. intros [[H|[-> ->]]|H]; tauto.
    + intros this r1 r2. destruct (F this) as [St _].
      destruct (F (ref_target r1)) as [_ [_ L]]. rewrite St, L. apply S.
    + apply (F n).
    + apply D. right. split; reflexivity.
    + intros d Hdd. apply D. now left.
Qed.

Lemma guard_inv_adopt_fold (n : node_id) (l : list node_id) :
  forall s,
    (forall c, In c l -> In c (ctxDeps (nodes s n))) -> guard_inv s ->
    guard_inv (fold_left (adopt_step n) l s) /\
    ctxDeps (nodes (fold_left (adopt_step n) l s) n) = ctxDeps (nodes s n) /\
    (forall c, In c l -> In c (deps (nodes (fold_left (adopt_step n) l s) n))) /\
    (forall d, In d (deps (nodes s n)) -> In d (deps (nodes (fold_left (adopt_step n) l s) n))).
Proof.
  induction l as [|c rest IH]; intros s Hl G; simpl.
  - split; [exact G|]. split; [reflexivity|]. split; [intros c [] | auto].
  - destruct (guard_inv_adopt n s c (Hl c (or_introl eq_refl)) G) as [G1 [C1 [I1 M1]]].
    destruct (IH (adopt_step n s c)) as [G2 [C2 [I2 M2]]]; [|exact G1|].
    { intros c' Hc'. rewrite C1. apply Hl. now right. }
    split; [exact G2|]. split; [now rewrite C2|]. split.
    + intros c' [<-|Hc']; [now apply M2 | now apply I2].
    + intros d Hd. now apply M2, M1.
Qed.

Lemma fold_left_inv (A : Type) (P : State -> Prop) (step : State -> A -> State)
      (l : list A) :
  (forall s a, P s -> P (step s a)) -> forall s, P s -> P (fold_left step l s).
Proof.
  intros Hs. induction l as [|a l IH]; intros s H; simpl; [exact H|].
  apply IH, Hs, H.
Qed.

Lemma guard_inv_reconcile (n : node_id) (s : State) :
  guard_inv s -> guard_inv (reconcile Vguard n s).
Proof.
  intros G. unfold reconcile.
  set (s1 := fold_left (prune_step Vguard n) (deps (nodes s n)) s).
  assert (guard_inv s1) as G1.
  { unfold s1. apply fold_left_inv; [|exact G]. intros s0 a. apply guard_inv_prune. }
  destruct (guard_inv_adopt_fold n (ctxDeps (nodes s1 n)) s1 (fun c H => H) G1)
    as [[T2 S2] [C2 [I2 _]]].
  set (s2 := fold_left (adopt_step n) (ctxDeps (nodes s1 n)) s1) in *.
  assert (forall m, subs (nodes (upd n (with_ctxDeps []) s2) m) = subs (nodes s2 m) /\
                    deps (nodes (upd n (with_ctxDeps []) s2) m) = deps (nodes s2 m) /\
                    collected (nodes (upd n (with_ctxDeps []) s2) m) = collected (nodes s2 m))
    as F.
  { intros m. rewrite nodes_upd. destruct (Nat.eqb m n) eqn:E; [|tauto].
    apply Nat.eqb_eq in E. subst m. simpl. tauto. }
  split.
  - intros a b L. destruct (F a) as [Sa _]. destruct (F b) as [_ [Db Lb]].
    rewrite Lb in L. rewrite Sa, Db, <- (T2 a b L). rewrite nodes_upd.
    destruct (Nat.eqb b n) eqn:E; [|tauto].
    apply Nat.eqb_eq in E. subst b. simpl. split; [tauto|].
    intros [H|H]; [now left|]. left. apply I2. now rewrite <- C2.
  - intros this r1 r2. destruct (F this) as [St _].
    destruct (F (ref_target r1)) as [_ [_ L]]. rewrite St, L. apply S2.
Qed.

(** Every public operation of the de-duplicating copy keeps the edges
    consistent and the subscriber sets free of duplicates, whether or not a
    user function throws on the way. *)
Lemma guard_inv_run_ops (fuel : nat) (ops : list op) (s s' : State) :
  run_ops Vguard fuel ops s = Some s' -> guard_inv s -> guard_inv s'.
Proof.
  apply (run_ops_inv Vguard guard_inv).
  - apply guard_inv_addAsSub.
  - apply guard_inv_push.
  - intros n v s0. apply guard_inv_same_edges, same_edges_upd. intros x. simpl. tauto.
  - intros n s0. apply guard_inv_same_edges. unfold enter. intros m. rewrite nodes_upd.
    simpl. destruct (Nat.eqb m n) eqn:E; [|tauto].
    apply Nat.eqb_eq in E. subst m. simpl. tauto.
  - intros v s0. apply guard_inv_same_edges. intros m. simpl. tauto.
  - intros n c s0 G. apply (guard_inv_same_edges (reconcile Vguard n s0)).
    + intros m. simpl. tauto.
    + now apply guard_inv_reconcile.
  - intros n v s0. apply guard_inv_same_edges, same_edges_upd. intros x. simpl. tauto.
  - intros e s0. apply guard_inv_same_edges, same_edges_upd. intros x. simpl. tauto.
  - intros q s0. apply guard_inv_same_edges. intros m. simpl. tauto.
  - intros s0. apply guard_inv_same_edges. intros m. simpl. tauto.
Qed.

(** At rest, when no evaluation has left reads pending, this is the
    invariant of the data model. *)
Lemma tracked_at_rest (s : State) :
  tracked s -> (forall m, ctxDeps (nodes s m) = []) -> consistent s.
Proof.
  intros T R a b L. rewrite <- (T a b L), (R b). simpl. tauto.
Qed.

(** ** Pruning of dependencies that were not read *)

Lemma unsubscribe_edges (V : version) (this sub m : node_id) (s : State) :
  deps (nodes (unsubscribe V this sub s) m) = deps (nodes s m) /\
  ctxDeps (nodes (unsubscribe V this sub s) m) = ctxDeps (nodes s m).
Proof.
  destruct V; simpl.
  - destruct (find _ _); [|tauto]. simpl. destruct (Nat.eqb m this) eqn:E; [|tauto].
    apply Nat.eqb_eq in E. subst m. simpl. tauto.
  - destruct (Nat.eqb m this) eqn:E; [|tauto].
    apply Nat.eqb_eq in E. subst m. simpl. tauto.
Qed.

Lemma prune_step_fields (V : version) (n : node_id) (s : State) (x : node_id) :
  ctxDeps (nodes (prune_step V n s x) n) = ctxDeps (nodes s n) /\
  (forall d, In d (deps (nodes (prune_step V n s x) n)) -> In d (deps (nodes s n))) /\
  (~ In x (ctxDeps (nodes s n)) -> ~ In x (deps (nodes (prune_step V n s x) n))).
Proof.
  unfold prune_step. destruct (set_has x (ctxDeps (nodes s n))) eqn:Hx.
  - apply set_has_In in Hx. split; [reflexivity|]. split; [auto | tauto].
  - destruct (unsubscribe_edges V x n n
                (upd n (fun y => with_deps (set_delete x (deps y)) y) s)) as [D C].
    rewrite D, C, nodes_upd_eq. simpl. split; [reflexivity|]. split.
    + intros d Hd. apply set_delete_In in Hd. tauto.
    + intros _ Hd. apply set_delete_In in Hd. tauto.
Qed.

Lemma prune_fold_fields (V : version) (n : node_id) (l : list node_id) :
  forall s,
    ctxDeps (nodes (fold_left (prune_step V n) l s) n) = ctxDeps (nodes s n) /\
    (forall d, In d (deps (nodes (fold_left (prune_step V n) l s) n)) ->
               In d (deps (nodes s n))) /\
    (forall x, In x l -> ~ In x (ctxDeps (nodes s n)) ->
               ~ In x (deps (nodes (fold_left (prune_step V n) l s) n))).
Proof.
  induction l as [|y rest IH]; intros s; simpl.
  - split; [reflexivity|]. split; [auto | intros x []].
  - destruct (prune_step_fields V n s y) as [C1 [M1 R1]].
    destruct (IH (prune_step V n s y)) as [C2 [M2 R2]].
    split; [now rewrite C2|]. split; [intros d Hd; now apply M1, M2|].
    intros x [<-|Hx] Nx.
    + intros Hd. apply M2 in Hd. now apply R1.
    + apply R2; [exact Hx | now rewrite C1].
Qed.

Lemma adopt_fold_deps (n : node_id) (l : list node_id) :
  forall s d, In d (deps (nodes (fold_left (adopt_step n) l s) n)) ->
              In d (deps (nodes s n)) \/ In d l.
Proof.
  induction l as [|c rest IH]; intros s d H; simpl in *; [now left|].
  apply IH in H. destruct H as [H|H]; [|tauto].
  unfold adopt_step in H. destruct (set_has c (deps (nodes s n))); [now left|].
  rewrite nodes_upd_eq in H. simpl in H. apply in_app_or in H.
  destruct H as [H|[<-|[]]]; tauto.
Qed.

(** In both copies a dependency that was not read leaves [deps]. *)
Lemma reconcile_drops_unread (V : version) (n x : node_id) (s : State) :
  ~ In x (ctxDeps (nodes s n)) -> ~ In x (deps (nodes (reconcile V n s) n)).
Proof.
  intros Nx. unfold reconcile. rewrite nodes_upd_eq.
  change (~ In x (deps (nodes (fold_left (adopt_step n)
            (ctxDeps (nodes (fold_left (prune_step V n) (deps (nodes s n)) s) n))
            (fold_left (prune_step V n) (deps (nodes s n)) s)) n))).
  destruct (prune_fold_fields V n (deps (nodes s n)) s) as [C [M R]].
  intros H. apply adopt_fold_deps in H. rewrite C in H. destruct H as [H|H]; [|tauto].
  assert (In x (deps (nodes s n))) as Hx by now apply M.
  now apply (R x Hx Nx).
Qed.

(** In the de-duplicating copy it also leaves no reference behind. *)
Lemma guard_reconcile_unsubscribes (n x : node_id) (s : State) :
  guard_inv s -> collected (nodes s n) = false ->
  ~ In x (ctxDeps (nodes s n)) ->
  ~ In x (deps (nodes (reconcile Vguard n s) n)) /\
  forall r, In r (subs (nodes (reconcile Vguard n s) x)) -> ref_target r <> n.
Proof.
  intros G L Nx. pose proof (reconcile_drops_unread Vguard n x s Nx) as D.
  split; [exact D|]. intros r Hr Ht.
  destruct (guard_inv_reconcile n s G) as [T _].
  assert (collected (nodes (reconcile Vguard n s) n) = false) as L'.
  { now rewrite (lo_collected (loose_reconcile Vguard n s)). }
  destruct (proj2 (T x n L') (ex_intro _ r (conj Hr Ht))) as [H|H]; [tauto|].
  unfold reconcile in H. rewrite nodes_upd_eq in H. destruct H.
Qed.


(** ** Worked examples *)

(** The scenario of the specification: [results = [2]] after the first
    tick, [[2, 10]] after [a.set(5)] and the next tick, in both copies. *)
Example spec_scenario (V : version) :
  log (example1 V) = [2%Z] /\ log (example2 V) = [2%Z; 10%Z].
Proof. destruct V; split; vm_compute; reflexivity. Qed.

(** Three writes in one turn: one task queued, and the tick runs the effect
    once, on the final values. *)
Example trio_runs_once (V : version) :
  queue (trio_written V) = [3] /\
  runs (nodes (trio_ticked V) 3) = S (runs (nodes (trio_state V) 3)) /\
  log (trio_ticked V) = [6%Z; 60%Z] /\
  queue (trio_ticked V) = [].
Proof. destruct V; by_evaluation. Qed.

(** A reference whose target was reclaimed is dropped by the next write,
    and nothing is scheduled. *)
Example dead_reference_pruned :
  subs (nodes (collect 1 (counter_state Vindex)) 0) = [mkRef 0 1] /\
  subs (nodes counter_collected 0) = [] /\
  queue counter_collected = [].
Proof. by_evaluation. Qed.

(** * Further properties of the runtime *)

(** ** Subscriber sets *)

Lemma add_ref_collected (this sub m : node_id) (s : State) :
  collected (nodes (add_ref this sub s) m) = collected (nodes s m).
Proof. exact (tn_collected (add_ref_node this sub m s)). Qed.

Lemma subs_with_subs (l : list WeakRef) (x : Node) : subs (with_subs l x) = l.
Proof. reflexivity. Qed.

Lemma add_ref_subs (this sub : node_id) (s : State) :
  subs (nodes (add_ref this sub s) this) = subs (nodes s this) ++ [mkRef (next_ref s) sub].
Proof. unfold add_ref. simpl. now rewrite Nat.eqb_refl. Qed.

Lemma subscribe_subs_cases (V : version) (this sub : node_id) (s : State) (r : WeakRef) :
  In r (subs (nodes (subscribe V this sub s) this)) ->
  In r (subs (nodes s this)) \/ ref_target r = sub.
Proof.
  assert (In r (subs (nodes (add_ref this sub s) this)) ->
          In r (subs (nodes s this)) \/ ref_target r = sub) as A.
  { unfold add_ref. simpl. rewrite Nat.eqb_refl. simpl. intros H. apply in_app_or in H.
    destruct H as [H|[<-|[]]]; auto. }
  destruct V; simpl; [exact A|]. destruct (existsb _ _); [auto | exact A].
Qed.

(** X13. Subscribing a live node twice: the de-duplicating copy is left as
    after the first call; in index.ts the set grows by one reference per
    call. *)
Theorem subscribe_twice (this sub : node_id) (s : State) :
  collected (nodes s sub) = false ->
  subscribe Vguard this sub (subscribe Vguard this sub s) = subscribe Vguard this sub s /\
  length (subs (nodes (subscribe Vindex this sub (subscribe Vindex this sub s)) this)) =
  S (S (length (subs (nodes s this)))).
Proof.
  intros L. split.
  - unfold subscribe.
    destruct (existsb (targets s sub) (subs (nodes s this))) eqn:E.
    + now rewrite E.
    + assert (existsb (targets (add_ref this sub s) sub)
                      (subs (nodes (add_ref this sub s) this)) = true) as ->; [|reflexivity].
      apply existsb_exists. exists (mkRef (next_ref s) sub). split.
      * unfold add_ref. simpl. rewrite Nat.eqb_refl. simpl. apply in_or_app. right. now left.
      * unfold targets, deref. simpl ref_target. rewrite add_ref_collected, L.
        apply Nat.eqb_refl.
  - simpl subscribe. rewrite !add_ref_subs, !length_app. simpl. lia.
Qed.

Lemma filter_none (A : Type) (p : A -> bool) (l : list A) :
  (forall x, In x l -> p x = true) -> filter p l = l.
Proof.
  induction l as [|a l IH]; intros H; simpl; [reflexivity|].
  rewrite (H a (or_introl eq_refl)). f_equal. apply IH. intros x Hx. apply H. now right.
Qed.

Lemma existsb_agree (A : Type) (p q : A -> bool) (l : list A) :
  (forall x, p x = q x) -> existsb p l = existsb q l.
Proof. intros H. induction l as [|a l IH]; simpl; [reflexivity | now rewrite H, IH]. Qed.

Lemma find_app_none (A : Type) (p : A -> bool) (l : list A) (a : A) :
  existsb p l = false -> p a = true -> find p (l ++ [a]) = Some a.
Proof.
  induction l as [|b l IH]; simpl; intros E Pa.
  - now rewrite Pa.
  - apply orb_false_iff in E. destruct E as [Eb El]. rewrite Eb. now apply IH.
Qed.

(** X14. In both copies, [unsubscribe] after [subscribe] of a live node
    that had no reference in the set restores the set, and no other set is
    touched. *)
Theorem subscribe_unsubscribe_roundtrip (V : version) (this sub : node_id) (s : State) :
  collected (nodes s sub) = false ->
  existsb (targets s sub) (subs (nodes s this)) = false ->
  subs (nodes (unsubscribe V this sub (subscribe V this sub s)) this) = subs (nodes s this) /\
  forall m, m <> this ->
            subs (nodes (unsubscribe V this sub (subscribe V this sub s)) m) = subs (nodes s m).
Proof.
  intros L E.
  assert (subscribe V this sub s = add_ref this sub s) as ->.
  { destruct V; simpl; [reflexivity | now rewrite E]. }
  set (r := mkRef (next_ref s) sub).
  assert (subs (nodes (add_ref this sub s) this) = subs (nodes s this) ++ [r]) as S1.
  { unfold add_ref. simpl. now rewrite Nat.eqb_refl. }
  assert (forall r', targets (add_ref this sub s) sub r' = targets s sub r') as T.
  { intros r'. unfold targets, deref. now rewrite add_ref_collected. }
  assert (targets s sub r = true) as Tr.
  { unfold targets, deref. simpl. rewrite L. apply Nat.eqb_refl. }
  assert (forall x, In x (subs (nodes s this)) -> targets s sub x = false) as Old.
  { intros x Hx. destruct (targets s sub x) eqn:Tx; [|reflexivity].
    assert (existsb (targets s sub) (subs (nodes s this)) = true) as C.
    { apply existsb_exists. now exists x. }
    congruence. }
  split.
  - destruct V; unfold unsubscribe.
    + rewrite S1.
      rewrite (find_app_none _ (targets (add_ref this sub s) sub) (subs (nodes s this)) r).
      * unfold delete_ref. rewrite nodes_upd_eq, subs_with_subs, S1.
        rewrite filter_app. simpl. 
        assert (ref_eqb r r = true) as -> by now apply ref_eqb_eq.
        simpl. rewrite app_nil_r. apply filter_none.
        intros x Hx. apply negb_true_iff. destruct (ref_eqb r x) eqn:Ex; [|reflexivity].
        apply ref_eqb_eq in Ex. subst x. rewrite (Old r Hx) in Tr. discriminate.
      * rewrite <- E. apply existsb_agree. exact T.
      * now rewrite T.
    + rewrite nodes_upd_eq, subs_with_subs, S1, filter_app. simpl.
      rewrite T, Tr. simpl. rewrite app_nil_r. apply filter_none.
      intros x Hx. rewrite T, (Old x Hx). reflexivity.
  - intros m Hm.
    assert (subs (nodes (add_ref this sub s) m) = subs (nodes s m)) as S2.
    { unfold add_ref. simpl. apply Nat.eqb_neq in Hm. now rewrite Hm. }
    rewrite <- S2. destruct V; unfold unsubscribe.
    + destruct (find _ _); [|reflexivity]. unfold delete_ref. now rewrite nodes_upd_ne.
    + now rewrite nodes_upd_ne.
Qed.

(** ** Reads and writes at the top level *)

Lemma getValue_top (V : version) (f : nat) (n : node_id) (s : State) :
  context s = None ->
  getValue V (S f) n s =
  match kind (nodes s n) with
  | WritableNode => Some (Ok (wvalue (nodes s n)), s)
  | ComputedNode =>
      if stale (nodes s n) then
        match compute V (getValue V f) n s with
        | Some (Ok v, s2) =>
            Some (Ok v, upd n (fun x => with_dirty false (with_cvalue (Some v) x)) s2)
        | Some (Exn, s2) => Some (Exn, s2)
        | None => None
        end
      else
        match cvalue (nodes s n) with
        | Some v => Some (Ok v, s)
        | None => None
        end
  | _ => None
  end.
Proof.
  intros C. change (getValue V (S f) n s) with
    (match kind (nodes s n) with
     | WritableNode => let (v, s1) := WritableNode_getValue V n s in Some (Ok v, s1)
     | ComputedNode =>
         let s1 := addAsSub V n s in
         if stale (nodes s1 n) then
           match compute V (getValue V f) n s1 with
           | Some (Ok v, s2) =>
               Some (Ok v, upd n (fun x => with_dirty false (with_cvalue (Some v) x)) s2)
           | Some (Exn, s2) => Some (Exn, s2)
           | None => None
           end
         else
           match cvalue (nodes s1 n) with
           | Some v => Some (Ok v, s1)
           | None => None
           end
     | _ => None
     end).
  unfold WritableNode_getValue. cbv zeta. now rewrite (addAsSub_top V n s C).
Qed.

(** X8. Outside any evaluation, a getter called again right after it
    returned a value returns the same value and leaves the machine as it
    is: no function runs, no edge is added. *)
Theorem second_read_is_cached (V : version) (fuel : nat) (n : node_id) (s : State)
        (v : Z) (s' : State) :
  context s = None ->
  getValue V fuel n s = Some (Ok v, s') ->
  getValue V fuel n s' = Some (Ok v, s').
Proof.
  intros C H.
  pose proof (@getValue_pull V fuel _ _ _ _ H) as P.
  pose proof (@getValue_context V fuel _ _ _ _ H) as C'. simpl in C'. rewrite C in C'.
  destruct fuel as [|f]; [discriminate|].
  assert (kind (nodes s' n) = kind (nodes s n)) as K by apply (pl_kind n P).
  rewrite getValue_top in H |- * by assumption. rewrite K.
  destruct (kind (nodes s n)); try discriminate.
  - now injection H as <- <-.
  - destruct (stale (nodes s n)) eqn:St.
    + destruct (compute V (getValue V f) n s) as [[[w|] s2]|]; try discriminate.
      injection H as <- <-. rewrite nodes_upd_eq. reflexivity.
    + destruct (cvalue (nodes s n)) as [w|] eqn:Cv; [|discriminate].
      injection H as <- <-. now rewrite St, Cv.
Qed.

(** X9. Outside any evaluation, [getter.set(v)] on a well-formed heap
    returns, and the getter then returns [v], or the old value when [equal]
    accepted [v] as equal to it. *)
Theorem write_then_read (V : version) (n : node_id) (v : Z) (s : State) :
  kind (nodes s n) = WritableNode -> bounded s -> refs_ok s -> context s = None ->
  exists s',
    Signal_set V n v s = Some s' /\
    forall fuel,
      getValue V (S fuel) n s' =
      Some (Ok (if equal (nodes s n) (wvalue (nodes s n)) v then wvalue (nodes s n) else v), s').
Proof.
  intros K B R C. destruct (@Signal_set_top V n v s C K B R) as [s' [H _]].
  exists s'. split; [exact H|]. intros fuel.
  pose proof (Signal_set_pull _ _ _ _ H) as P.
  pose proof (Signal_set_context _ _ _ _ H) as C'. rewrite C in C'.
  rewrite getValue_top by assumption. rewrite (pl_kind n P), K. do 3 f_equal.
  rewrite Signal_set_unfold in H by assumption. rewrite (addAsSub_top V n s C) in H.
  destruct (equal _ _ _).
  - now injection H as <-.
  - pose proof (setValue_push _ _ _ _ H) as Q. rewrite (pr_wvalue Q), nodes_upd_eq.
    reflexivity.
Qed.

(** ** Effects: creation, deferral, destruction *)

Lemma Effect_eq (V : version) (f : prog) (s : State) :
  Effect V f s =
  let x := mkNode EffectNode false [] [] [] 0%Z None f Object_is false false false true 0 in
  let s2 := schedule (size s) (snd (alloc x s)) in
  (size s, match V with
           | Vindex => s2
           | Vguard => set_registry (set_add (size s) (registry s)) s2
           end).
Proof.
  unfold Effect, alloc. cbv beta iota zeta. unfold EffectNode_markAsDisty.
  cbn [nodes snd]. rewrite Nat.eqb_refl.
  assert (forall x, effect_blocked V (mkNode EffectNode false [] [] [] 0%Z None f Object_is
                                             false false false x 0) = false) as ->
      by (now destruct V).
  destruct V; reflexivity.
Qed.

Lemma Effect_node (V : version) (f : prog) (s : State) (m : node_id) :
  nodes (snd (Effect V f s)) m =
  if Nat.eqb m (size s)
  then mkNode EffectNode false [] [] [] 0%Z None f Object_is true false false true 0
  else nodes s m.
Proof.
  rewrite Effect_eq. cbv zeta. cbn [snd].
  assert (forall r s2, nodes (match V with
                              | Vindex => s2
                              | Vguard => set_registry r s2
                              end) m = nodes s2 m) as -> by (now destruct V).
  unfold schedule. rewrite nodes_upd. simpl.
  destruct (Nat.eqb m (size s)); [|reflexivity]. now rewrite Nat.eqb_refl.
Qed.

(** X15. [Effect(f)] allocates the node at the allocation frontier, queues
    one microtask for it and sets its flag; [f] does not run and nothing else
    changes; the task, when the host runs it, is the first run of [f]. *)
Theorem Effect_defers_first_run (V : version) (f : prog) (s : State) :
  let e := fst (Effect V f s) in
  let s' := snd (Effect V f s) in
  e = size s /\ size s' = S (size s) /\
  queue s' = queue s ++ [e] /\
  taskScheduled (nodes s' e) = true /\
  runs (nodes s' e) = 0 /\
  log s' = log s /\
  (forall m, m <> e -> nodes s' m = nodes s m) /\
  (forall fuel r s'', runTask V fuel e s' = Some (r, s'') -> runs (nodes s'' e) = 1).
Proof.
  cbv zeta.
  assert (fst (Effect V f s) = size s) as -> by (now rewrite Effect_eq).
  split; [reflexivity|]. split; [rewrite Effect_eq; now destruct V|].
  split; [rewrite Effect_eq; now destruct V|].
  split; [now rewrite Effect_node, Nat.eqb_refl|].
  split; [now rewrite Effect_node, Nat.eqb_refl|].
  split; [rewrite Effect_eq; now destruct V|]. split.
  - intros m Hm. rewrite Effect_node. apply Nat.eqb_neq in Hm. now rewrite Hm.
  - intros fuel r s'' H.
    assert (kind (nodes (snd (Effect V f s)) (size s)) = EffectNode) as K
        by (now rewrite Effect_node, Nat.eqb_refl).
    destruct (@runTask_runs V fuel _ _ _ _ K H) as [R _].
    now rewrite R, Effect_node, Nat.eqb_refl.
Qed.

(** X16. [destroy()] of a handle is idempotent, and after the first call
    the node is no longer in [window[EFFECTS]]. *)
Theorem Effect_destroy_twice (e : node_id) (s : State) :
  Effect_destroy e (Effect_destroy e s) = Effect_destroy e s /\
  (handle (nodes s e) = true -> ~ In e (registry (Effect_destroy e s))).
Proof.
  unfold Effect_destroy at 2 3 4. destruct (handle (nodes s e)) eqn:Hh.
  - split.
    + unfold Effect_destroy. now rewrite nodes_upd_eq.
    + intros _. unfold EffectNode_destroy. simpl.
      assert (forall l s0, registry (fold_left (fun st dep => unsubscribe Vguard dep e st) l s0)
                           = registry s0) as F.
      { induction l as [|d l IH]; intros s0; simpl; [reflexivity|]. now rewrite IH. }
      rewrite F. simpl. intros H. apply set_delete_In in H. tauto.
  - split; [|discriminate]. unfold Effect_destroy. now rewrite Hh.
Qed.

Lemma set_delete_add (x : node_id) (l : list node_id) :
  ~ In x l -> set_delete x (set_add x l) = l.
Proof.
  intros N. unfold set_add.
  assert (set_has x l = false) as ->.
  { destruct (set_has x l) eqn:E; [|reflexivity]. apply set_has_In in E. tauto. }
  unfold set_delete. rewrite filter_app. simpl. rewrite Nat.eqb_refl. simpl.
  rewrite app_nil_r. induction l as [|a l IH]; simpl; [reflexivity|].
  destruct (Nat.eqb a x) eqn:E.
  - apply Nat.eqb_eq in E. subst a. exfalso. apply N. now left.
  - simpl. f_equal. apply IH. intros H. apply N. now right.
Qed.

(** X17. [Effect(f)] followed by [destroy()] of its handle restores
    [window[EFFECTS]]; the node is destroyed, the handle is spent, and
    [markAsDisty] on the node does nothing.  The task the constructor
    queued is still in the queue: when the host runs it, [f] runs once. *)
Theorem Effect_then_destroy (f : prog) (s : State) :
  ~ In (size s) (registry s) ->
  let e := fst (Effect Vguard f s) in
  let s' := Effect_destroy e (snd (Effect Vguard f s)) in
  registry s' = registry s /\
  destroyed (nodes s' e) = true /\ handle (nodes s' e) = false /\
  EffectNode_markAsDisty Vguard e s' = s' /\
  queue s' = queue s ++ [e] /\
  (forall fuel r s'', runTask Vguard fuel e s' = Some (r, s'') -> runs (nodes s'' e) = 1).
Proof.
  intros N. cbv zeta.
  assert (fst (Effect Vguard f s) = size s) as -> by (now rewrite Effect_eq).
  pose proof (Effect_node Vguard f s (size s)) as Nd. rewrite Nat.eqb_refl in Nd.
  assert (registry (snd (Effect Vguard f s)) = set_add (size s) (registry s)) as Rg
      by (now rewrite Effect_eq).
  assert (queue (snd (Effect Vguard f s)) = queue s ++ [size s]) as Qu
      by (now rewrite Effect_eq).
  unfold Effect_destroy. rewrite Nd. cbn [handle]. unfold EffectNode_destroy.
  change (deps (nodes (set_registry (set_delete (size s) (registry (snd (Effect Vguard f s))))
                                    (snd (Effect Vguard f s))) (size s)))
    with (deps (nodes (snd (Effect Vguard f s)) (size s))).
  rewrite Nd. cbn [deps fold_left].
  split; [|split; [|split; [|split; [|split]]]].
  - change (set_delete (size s) (registry (snd (Effect Vguard f s))) = registry s).
    rewrite Rg. now apply set_delete_add.
  - now rewrite nodes_upd_eq, nodes_upd_eq.
  - now rewrite nodes_upd_eq.
  - unfold EffectNode_markAsDisty. rewrite nodes_upd_eq, nodes_upd_eq. simpl.
    now rewrite orb_true_r.
  - exact Qu.
  - intros fuel r s'' H.
    assert (forall (A : Type) (g : Node -> A),
               (forall b x, g (with_handle b x) = g x) ->
               (forall b x, g (with_destroyed b x) = g x) ->
               (forall l x, g (with_deps l x) = g x) ->
               g (nodes (upd (size s) (with_handle false)
                          (upd (size s) (fun x => with_destroyed true (with_deps [] x))
                             (set_registry
                                (set_delete (size s) (registry (snd (Effect Vguard f s))))
                                (snd (Effect Vguard f s))))) (size s)) =
               g (nodes (snd (Effect Vguard f s)) (size s))) as G.
    { intros A g G1 G2 G3. now rewrite nodes_upd_eq, nodes_upd_eq, G1, G2, G3. }
    assert (kind (nodes (upd (size s) (with_handle false)
                          (upd (size s) (fun x => with_destroyed true (with_deps [] x))
                             (set_registry
                                (set_delete (size s) (registry (snd (Effect Vguard f s))))
                                (snd (Effect Vguard f s))))) (size s)) = EffectNode) as K.
    { rewrite (G _ kind) by reflexivity. now rewrite Nd. }
    destruct (@runTask_runs Vguard fuel _ _ _ _ K H) as [R _].
    rewrite R, (G _ runs) by reflexivity. now rewrite Nd.
Qed.

(** ** The task of an effect *)

Lemma count_occ_absent (l : list node_id) (e : node_id) :
  ~ In e l -> count_occ Nat.eq_dec l e = 0.
Proof. intros H. now apply count_occ_not_In. Qed.

(** X11. While the deferred task of an effect runs, its flag is still set:
    whatever its function writes, no further task is queued for the effect
    itself. *)
Theorem running_effect_ignores_marks (V : version) (fuel : nat) (e : node_id) (s : State)
        (r : Result unit) (s' : State) :
  kind (nodes s e) = EffectNode ->
  taskScheduled (nodes s e) = true ->
  runTask V fuel e s = Some (r, s') ->
  pending e s' = pending e s.
Proof.
  intros K T H. destruct (@runTask_shape V fuel e s r s' H) as [s1 [s2 [P [L E]]]].
  assert (queue s' = queue s2) as Q1 by (destruct E as [->| ->]; reflexivity).
  destruct (sr_queue (pl_schedq P)) as [l [Q [_ [I _]]]].
  unfold pending. rewrite Q1, (lo_queue L), Q, count_occ_app.
  change (queue (enter e s)) with (queue s).
  assert (~ In e l) as Hn.
  2: { pose proof (count_occ_absent l e Hn) as Z0. unfold node_id in *. lia. }
  intros Hl. apply I in Hl. destruct Hl as [F _].
  destruct (enter_fields e e s) as [_ [Ts _]]. rewrite Ts, T in F. discriminate.
Qed.

(** ** Dead references *)

Lemma notify_drops_dead (V : version) (mark : node_id -> State -> option State)
      (this : node_id) :
  (forall n s s', mark n s = Some s' -> push_rel V s s') ->
  forall refs s s',
    notify mark this refs s = Some s' ->
    forall r, In r refs -> collected (nodes s (ref_target r)) = true ->
              ~ In r (subs (nodes s' this)).
Proof.
  intros Hm. induction refs as [|r0 rest IH]; intros s s' H r Hr Hc; [destruct Hr|].
  simpl in H. destruct (deref s r0) as [sub|] eqn:Hd.
  - destruct (mark sub s) as [s1|] eqn:M; [|discriminate].
    pose proof (Hm _ _ _ M) as P.
    destruct Hr as [->|Hr].
    + unfold deref in Hd. rewrite Hc in Hd. discriminate.
    + apply (IH s1 s' H r Hr). now rewrite (pr_collected P).
  - pose proof (@notify_push V mark this rest Hm _ _ H) as P.
    destruct Hr as [->|Hr].
    + intros Hin. apply (pr_subs_incl P) in Hin. unfold delete_ref in Hin.
      rewrite nodes_upd_eq in Hin. simpl in Hin. apply filter_In in Hin.
      destruct Hin as [_ Hin]. apply negb_true_iff in Hin.
      assert (ref_eqb r r = true) as X by now apply ref_eqb_eq. congruence.
    + apply (IH _ s' H r Hr).
      now rewrite (pr_collected (push_delete_dead V this r0 s Hd)).
Qed.

Lemma setValue_live_refs (V : version) (n : node_id) (v : Z) (s s' : State) :
  setValue V n v s = Some s' ->
  forall r, In r (subs (nodes s' n)) <->
            In r (subs (nodes s n)) /\ collected (nodes s (ref_target r)) = false.
Proof.
  intros H r. pose proof (setValue_push _ _ _ _ H) as P.
  assert (subs (nodes (upd n (with_wvalue v) s) n) = subs (nodes s n)) as S1
      by now rewrite nodes_upd_eq.
  assert (forall m, collected (nodes (upd n (with_wvalue v) s) m) = collected (nodes s m)) as C1.
  { intros m. rewrite nodes_upd. destruct (Nat.eqb m n) eqn:E; [|reflexivity].
    apply Nat.eqb_eq in E. now subst m. }
  split.
  - intros Hr. pose proof (pr_subs_incl P _ _ Hr) as Hr0. rewrite S1 in Hr0.
    split; [exact Hr0|].
    destruct (collected (nodes s (ref_target r))) eqn:Hc; [|reflexivity].
    exfalso. unfold setValue in H. cbv zeta in H.
    refine (@notify_drops_dead V (markAsDisty V) n _ _ _ _ H r _ _ Hr).
    + intros. eapply markAsDisty_push; eassumption.
    + now rewrite S1.
    + now rewrite C1.
  - intros [Hr Hc]. apply (pr_subs_live P).
    + now rewrite S1.
    + now rewrite C1.
Qed.

(** ** Dependencies after an evaluation *)

Lemma adopt_fold_keeps (n : node_id) (l : list node_id) :
  forall s d, In d (deps (nodes s n)) -> In d (deps (nodes (fold_left (adopt_step n) l s) n)).
Proof.
  induction l as [|c rest IH]; intros s d H; simpl; [assumption|].
  apply IH. unfold adopt_step. destruct (set_has c (deps (nodes s n))); [assumption|].
  rewrite nodes_upd_eq. simpl. apply in_or_app. now left.
Qed.

Lemma adopt_fold_adds (n : node_id) (l : list node_id) :
  forall s d, In d l -> In d (deps (nodes (fold_left (adopt_step n) l s) n)).
Proof.
  induction l as [|c rest IH]; intros s d H; simpl; [destruct H|].
  destruct H as [->|H]; [|now apply IH].
  apply adopt_fold_keeps. unfold adopt_step.
  destruct (set_has d (deps (nodes s n))) eqn:E; [now apply set_has_In|].
  rewrite nodes_upd_eq. simpl. apply in_or_app. right. now left.
Qed.

(** X12. The two loops that close an evaluation leave in [deps] exactly the
    nodes recorded in [ctxDeps] during it, and empty [ctxDeps]. *)
Theorem reconcile_deps_are_reads (V : version) (n : node_id) (s : State) :
  (forall x, In x (deps (nodes (reconcile V n s) n)) <-> In x (ctxDeps (nodes s n))) /\
  ctxDeps (nodes (reconcile V n s) n) = [].
Proof.
  split.
  - intros x. split.
    + intros H. destruct (in_dec Nat.eq_dec x (ctxDeps (nodes s n))) as [Y|N]; [exact Y|].
      exfalso. exact (reconcile_drops_unread V n x s N H).
    + intros H. unfold reconcile. rewrite nodes_upd_eq.
      change (In x (deps (nodes (fold_left (adopt_step n)
                (ctxDeps (nodes (fold_left (prune_step V n) (deps (nodes s n)) s) n))
                (fold_left (prune_step V n) (deps (nodes s n)) s)) n))).
      destruct (prune_fold_fields V n (deps (nodes s n)) s) as [C _].
      apply adopt_fold_adds. now rewrite C.
  - unfold reconcile. now rewrite nodes_upd_eq.
Qed.

(** ** What a notification reaches *)

Lemma marked_push (V : version) (s s' : State) (m : node_id) :
  push_rel V s s' -> marked V (nodes s m) = true -> marked V (nodes s' m) = true.
Proof.
  intros P. unfold marked. rewrite (pr_kind P). destruct (kind (nodes s m)); auto.
  - apply (pr_dirty P).
  - apply (pr_dirty P).
  - apply (sr_blocked m (pr_schedq P)).
Qed.

Lemma propagated_refl (V : version) (s : State) : propagated V s s.
Proof. intros m r A B. congruence. Qed.

Lemma propagated_trans (V : version) (s1 s2 s3 : State) :
  push_rel V s2 s3 -> propagated V s1 s2 -> propagated V s2 s3 -> propagated V s1 s3.
Proof.
  intros P A B m r C D Hr. destruct (dirty (nodes s2 m)) eqn:E.
  - apply (marked_push V _ _ _ P). apply (A m r C E). now apply (pr_subs_incl P).
  - now apply (B m r).
Qed.

Lemma propagated_same_dirty (V : version) (s s' : State) :
  (forall m, dirty (nodes s' m) = dirty (nodes s m)) -> propagated V s s'.
Proof. intros H m r A B. rewrite H in B. congruence. Qed.

Lemma notify_marks (V : version) (mark : node_id -> State -> option State) (this : node_id) :
  (forall n s s', mark n s = Some s' ->
                  push_rel V s s' /\ marked V (nodes s' n) = true /\ propagated V s s') ->
  forall refs s s',
    notify mark this refs s = Some s' ->
    propagated V s s' /\
    forall r, In r refs -> In r (subs (nodes s' this)) ->
              marked V (nodes s' (ref_target r)) = true.
Proof.
  intros Hm.
  assert (forall n s s', mark n s = Some s' -> push_rel V s s') as Hp.
  { intros n s s' H. now destruct (Hm n s s' H). }
  induction refs as [|r0 rest IH]; intros s s' H.
  - injection H as <-. split; [apply propagated_refl | intros r []].
  - simpl in H. destruct (deref s r0) as [sub|] eqn:Hd.
    + destruct (mark sub s) as [s1|] eqn:M; [|discriminate].
      destruct (Hm _ _ _ M) as [P1 [M1 C1]]. destruct (IH _ _ H) as [C2 R2].
      pose proof (@notify_push V mark this rest Hp _ _ H) as P2.
      split; [exact (propagated_trans V s s1 s' P2 C1 C2)|].
      intros r [<-|Hr] Hin; [|now apply R2].
      assert (sub = ref_target r0) as ->.
      { unfold deref in Hd. destruct (collected _); congruence. }
      now apply (marked_push V _ _ _ P2).
    + destruct (IH _ _ H) as [C2 R2].
      pose proof (@notify_push V mark this rest Hp _ _ H) as P2.
      split.
      * apply (propagated_trans V s (delete_ref this r0 s) s' P2); [|exact C2].
        apply propagated_same_dirty. intros m. unfold delete_ref. rewrite nodes_upd.
        destruct (Nat.eqb m this) eqn:E; [|reflexivity].
        apply Nat.eqb_eq in E. now subst m.
      * intros r [<-|Hr] Hin; [|now apply R2].
        exfalso. apply (pr_subs_incl P2) in Hin. unfold delete_ref in Hin.
        rewrite nodes_upd_eq in Hin. simpl in Hin. apply filter_In in Hin.
        destruct Hin as [_ Hin]. apply negb_true_iff in Hin.
        assert (ref_eqb r0 r0 = true) as X by now apply ref_eqb_eq. congruence.
Qed.

Lemma markAsDisty_fuel_marks (V : version) (fuel : nat) :
  forall n s s',
    markAsDisty_fuel V fuel n s = Some s' ->
    push_rel V s s' /\ marked V (nodes s' n) = true /\ propagated V s s'.
Proof.
  induction fuel as [|f IH]; intros n s s' H; [discriminate|].
  split; [exact (@markAsDisty_fuel_push V (S f) n s s' H)|].
  simpl in H.
  assert (kind (nodes s n) = WritableNode \/ kind (nodes s n) = ComputedNode ->
          (if dirty (nodes s n) then Some s
           else notify (markAsDisty_fuel V f) n (subs (nodes (upd n (with_dirty true) s) n))
                       (upd n (with_dirty true) s)) = Some s' ->
          marked V (nodes s' n) = true /\ propagated V s s') as Main.
  { intros K H1. destruct (dirty (nodes s n)) eqn:D.
    - injection H1 as <-. split; [|apply propagated_refl].
      unfold marked. destruct K as [-> | ->]; exact D.
    - destruct (@notify_marks V (markAsDisty_fuel V f) n IH _ _ _ H1) as [C R].
      assert (push_rel V (upd n (with_dirty true) s) s') as P.
      { eapply notify_push; [|exact H1]. intros ? ? ? X. now destruct (IH _ _ _ X). }
      assert (dirty (nodes s' n) = true) as D'.
      { apply (pr_dirty P). now rewrite nodes_upd_eq. }
      split.
      + unfold marked. rewrite (pr_kind P), nodes_upd_eq.
        change (kind (with_dirty true (nodes s n))) with (kind (nodes s n)).
        destruct K as [-> | ->]; exact D'.
      + intros m r A B Hr. destruct (Nat.eqb m n) eqn:E.
        * apply Nat.eqb_eq in E. subst m. apply R; [|exact Hr].
          now apply (pr_subs_incl P).
        * apply (C m r); try assumption. now rewrite nodes_upd, E. }
  destruct (kind (nodes s n)) eqn:K; try discriminate.
  - apply Main; auto.
  - apply Main; auto.
  - injection H as <-. split.
    + unfold marked.
      assert (kind (nodes (EffectNode_markAsDisty V n s) n) = EffectNode) as ->.
      { rewrite (pr_kind (push_EffectNode_markAsDisty V n s K)). exact K. }
      unfold EffectNode_markAsDisty. destruct (effect_blocked V (nodes s n)) eqn:B; [exact B|].
      apply blocked_of_sched. unfold schedule. now rewrite nodes_upd_eq.
    + apply propagated_same_dirty. intros m. unfold EffectNode_markAsDisty.
      destruct (effect_blocked V (nodes s n)); [reflexivity|].
      unfold schedule. rewrite nodes_upd. destruct (Nat.eqb m n) eqn:E; [|reflexivity].
      apply Nat.eqb_eq in E. now subst m.
Qed.

(** X6. [markAsDisty] returns on every well-formed heap, cyclic or not; it
    leaves the node marked and the subscribers of every node it turned dirty
    marked, and touches no value, cache, dependency set, counter, [context],
    output or registry; a dirty flag is never lowered. *)
Theorem markAsDisty_marks_downstream (V : version) (n : node_id) (s : State) :
  bounded s -> refs_ok s -> kind (nodes s n) <> Free ->
  exists s',
    markAsDisty V n s = Some s' /\
    marked V (nodes s' n) = true /\
    propagated V s s' /\
    context s' = context s /\ log s' = log s /\ registry s' = registry s /\
    forall m, kind (nodes s' m) = kind (nodes s m) /\
              wvalue (nodes s' m) = wvalue (nodes s m) /\
              cvalue (nodes s' m) = cvalue (nodes s m) /\
              deps (nodes s' m) = deps (nodes s m) /\
              runs (nodes s' m) = runs (nodes s m) /\
              (dirty (nodes s m) = true -> dirty (nodes s' m) = true).
Proof.
  intros B R K. destruct (@markAsDisty_total V n s B R K) as [s' H]. exists s'.
  split; [exact H|]. destruct (markAsDisty_fuel_marks V _ _ _ _ H) as [P [M C]].
  split; [exact M|]. split; [exact C|].
  split; [apply (pr_context P)|]. split; [apply (pr_log P)|].
  split; [apply (pr_registry P)|]. intros m.
  rewrite (pr_kind P), (pr_wvalue P), (pr_cvalue P), (pr_deps P), (pr_runs P).
  repeat split; try reflexivity. apply (pr_dirty P).
Qed.

(** X5. [setValue] on a well-formed heap returns, stores the value, and
    leaves every subscriber of the signal marked: a derived node dirty, an
    effect scheduled (or destroyed); the same holds for the subscribers of
    every node the call turned dirty. *)
Theorem setValue_marks_subscribers (V : version) (n : node_id) (v : Z) (s : State) :
  bounded s -> refs_ok s ->
  exists s',
    setValue V n v s = Some s' /\
    wvalue (nodes s' n) = v /\
    (forall r, In r (subs (nodes s' n)) -> marked V (nodes s' (ref_target r)) = true) /\
    propagated V s s'.
Proof.
  intros B R. destruct (@setValue_total V n v s B R) as [s' H]. exists s'.
  split; [exact H|]. pose proof (setValue_push _ _ _ _ H) as P.
  split; [now rewrite (pr_wvalue P), nodes_upd_eq|].
  unfold setValue in H. cbv zeta in H.
  destruct (@notify_marks V (markAsDisty V) n
              (fun a b c => markAsDisty_fuel_marks V _ a b c) _ _ _ H) as [C M].
  split.
  - intros r Hr. apply M; [|exact Hr]. now apply (pr_subs_incl P).
  - intros m r A D. apply C; [|exact D]. rewrite nodes_upd.
    destruct (Nat.eqb m n) eqn:E; [|exact A]. apply Nat.eqb_eq in E. now subst m.
Qed.

(** X10. No getter call and no [getter.set] call runs an effect function,
    whatever the functions of the graph do: effects only run from the
    microtask queue. *)
Theorem reads_and_writes_run_no_effect (V : version) (fuel : nat) (s s' : State)
        (e : node_id) :
  kind (nodes s e) = EffectNode ->
  (forall n r, getValue V fuel n s = Some (r, s') -> runs (nodes s' e) = runs (nodes s e)) /\
  (forall n v, Signal_set V n v s = Some s' -> runs (nodes s' e) = runs (nodes s e)).
Proof.
  intros K. split.
  - intros n r H. exact (pl_runs_effect (@getValue_pull V fuel _ _ _ _ H) e K).
  - intros n v H. exact (pl_runs_effect (Signal_set_pull _ _ _ _ H) e K).
Qed.

(** X4. In the de-duplicating copy, reads, writes and ticks keep the edge
    invariant and never leave two references to one live subscriber; when no
    evaluation has reads pending, [a] is in [b.deps] exactly when [a.subs]
    holds a reference to [b]. *)
Theorem guard_graph_stays_consistent (fuel : nat) (ops : list op) (s s' : State) :
  guard_inv s ->
  run_ops Vguard fuel ops s = Some s' ->
  single_ref s' /\
  ((forall m, ctxDeps (nodes s' m) = []) -> consistent s').
Proof.
  intros G H. destruct (guard_inv_run_ops fuel ops s s' H G) as [T S1].
  split; [exact S1|]. intros C. now apply tracked_at_rest.
Qed.

(** ** Reads return current values *)

Lemma denote_prog_ext (den1 den2 : node_id -> option Z) (p : prog) :
  (forall m, In m (trace den1 p) -> den2 m = den1 m) ->
  denote_prog den2 p = denote_prog den1 p /\ trace den2 p = trace den1 p.
Proof.
  induction p as [v| |n k IH|n v k IH|v k IH]; simpl; intros H; auto.
  rewrite (H n (or_introl eq_refl)). destruct (den1 n) as [x|] eqn:E; [|auto].
  destruct (IH x) as [A B].
  - intros m Hm. apply H. right. exact Hm.
  - split; [exact A | now rewrite B].
Qed.

Lemma trace_below (rank : node_id -> nat) (s : State) (den : node_id -> option Z) (b : nat)
      (p : prog) :
  formula rank s b p -> forall m, In m (trace den p) -> rank m < b.
Proof.
  induction p as [v| |n k IH|n v k IH|v k IH]; simpl; intros F m Hm; try contradiction.
  - destruct F as [Fn [_ Fk]]. destruct Hm as [<-|Hm]; [exact Fn|].
    destruct (den n) as [x|]; [|destruct Hm]. exact (IH x (Fk x) m Hm).
  - exact (IH F m Hm).
Qed.

Lemma formula_static (rank : node_id -> nat) (s s' : State) (b : nat) (p : prog) :
  (forall m, kind (nodes s' m) = kind (nodes s m)) ->
  formula rank s b p -> formula rank s' b p.
Proof.
  intros K. induction p as [v| |n k IH|n v k IH|v k IH]; simpl; auto.
  intros [A [B C]]. rewrite K. auto.
Qed.

Lemma formula_reads_below (rank : node_id -> nat) (s : State) (b : nat) (p : prog) :
  formula rank s b p -> reads_below rank b p.
Proof.
  induction p as [v| |n k IH|n v k IH|v k IH]; simpl; auto; try tauto.
  intros [A [B C]]. auto.
Qed.

Lemma formula_write_free (rank : node_id -> nat) (s : State) (b : nat) (p : prog) :
  formula rank s b p -> write_free p.
Proof.
  induction p as [v| |n k IH|n v k IH|v k IH]; simpl; auto.
  intros [A [B C]]. auto.
Qed.

Lemma static_refl (s : State) : static s s.
Proof. constructor; reflexivity. Qed.

Lemma static_trans (s1 s2 s3 : State) : static s1 s2 -> static s2 s3 -> static s1 s3.
Proof.
  intros A B. constructor; intros m.
  - now rewrite (st_kind _ _ B), (st_kind _ _ A).
  - now rewrite (st_fn _ _ B), (st_fn _ _ A).
  - now rewrite (st_wvalue _ _ B), (st_wvalue _ _ A).
  - now rewrite (st_collected _ _ B), (st_collected _ _ A).
Qed.

Lemma pure_graph_static (rank : node_id -> nat) (s s' : State) :
  static s s' -> pure_graph rank s -> pure_graph rank s'.
Proof.
  intros St [F C]. split; intros m.
  - rewrite (st_fn _ _ St). apply (formula_static rank s s'); [apply (st_kind _ _ St) | apply F].
  - rewrite (st_collected _ _ St). apply C.
Qed.

Lemma denote_static (s s' : State) :
  static s s' -> forall f n, denote f s' n = denote f s n.
Proof.
  intros St. induction f as [|f IH]; intros n; simpl; [reflexivity|].
  rewrite (st_kind _ _ St), (st_wvalue _ _ St), (st_fn _ _ St).
  destruct (kind (nodes s n)); try reflexivity.
  apply denote_prog_ext. intros m _. apply IH.
Qed.

Lemma current_static (rank : node_id -> nat) (s s' : State) (n : node_id) :
  static s s' -> current rank s' n = current rank s n.
Proof. intros St. apply denote_static. exact St. Qed.

Lemma denote_prog_below (rank : node_id -> nat) (s : State) (den1 den2 : node_id -> option Z)
      (b : nat) (p : prog) :
  formula rank s b p ->
  (forall m, rank m < b -> den2 m = den1 m) ->
  denote_prog den2 p = denote_prog den1 p /\ trace den2 p = trace den1 p.
Proof.
  intros F H. apply denote_prog_ext. intros m Hm. apply H.
  exact (trace_below rank s den1 b p F m Hm).
Qed.

(** Past the rank of the node, more fuel changes nothing. *)
Lemma denote_fuel (rank : node_id -> nat) (s : State) :
  pure_graph rank s ->
  forall k n f, rank n < k -> rank n < f -> denote f s n = denote (S (rank n)) s n.
Proof.
  intros [F _]. induction k as [|k IH]; intros n f Hk Hf; [lia|].
  destruct f as [|f]; [lia|]. simpl.
  destruct (kind (nodes s n)); try reflexivity.
  apply (denote_prog_below rank s _ _ (rank n) _ (F n)).
  intros m Hm. rewrite (IH m f) by lia. symmetry. apply (IH m (rank n)); lia.
Qed.

Lemma current_signal (rank : node_id -> nat) (s : State) (n : node_id) :
  kind (nodes s n) = WritableNode -> current rank s n = Some (wvalue (nodes s n)).
Proof. intros K. unfold current. simpl. now rewrite K. Qed.

Lemma current_computed (rank : node_id -> nat) (s : State) (n : node_id) :
  pure_graph rank s -> kind (nodes s n) = ComputedNode ->
  current rank s n = denote_prog (current rank s) (fn (nodes s n)) /\
  trace (denote (rank n) s) (fn (nodes s n)) = trace (current rank s) (fn (nodes s n)).
Proof.
  intros P K. unfold current at 1. simpl. rewrite K.
  destruct P as [F C].
  destruct (denote_prog_below rank s (current rank s) (denote (rank n) s) (rank n) _ (F n))
    as [A B]; [|split; [exact A | exact B]].
  intros m Hm. unfold current.
  apply (denote_fuel rank s (conj F C) (S (rank m))); lia.
Qed.

(** Fields that dependency tracking never writes. *)
Section EdgeBlind.
Variables (A : Type) (g : Node -> A).
Hypothesis g_subs : forall l x, g (with_subs l x) = g x.
Hypothesis g_deps : forall l x, g (with_deps l x) = g x.
Hypothesis g_ctxDeps : forall l x, g (with_ctxDeps l x) = g x.

Lemma blind_upd (n m : node_id) (f : Node -> Node) (s : State) :
  (forall x, g (f x) = g x) -> g (nodes (upd n f s) m) = g (nodes s m).
Proof.
  intros H. rewrite nodes_upd. destruct (Nat.eqb m n) eqn:E; [|reflexivity].
  apply Nat.eqb_eq in E. subst m. apply H.
Qed.

Lemma blind_unsubscribe (V : version) (this sub m : node_id) (s : State) :
  g (nodes (unsubscribe V this sub s) m) = g (nodes s m).
Proof.
  destruct V; unfold unsubscribe.
  - destruct (find _ _); [|reflexivity]. unfold delete_ref. apply blind_upd.
    intros x. apply g_subs.
  - apply blind_upd. intros x. apply g_subs.
Qed.

Lemma blind_prune_step (V : version) (n : node_id) (s : State) (d m : node_id) :
  g (nodes (prune_step V n s d) m) = g (nodes s m).
Proof.
  unfold prune_step. destruct (set_has _ _); [reflexivity|].
  rewrite blind_unsubscribe. apply blind_upd. intros x. apply g_deps.
Qed.

Lemma blind_adopt_step (n : node_id) (s : State) (d m : node_id) :
  g (nodes (adopt_step n s d) m) = g (nodes s m).
Proof.
  unfold adopt_step. destruct (set_has _ _); [reflexivity|].
  apply blind_upd. intros x. apply g_deps.
Qed.

Lemma blind_fold (step : State -> node_id -> State) (m : node_id) :
  (forall s d, g (nodes (step s d) m) = g (nodes s m)) ->
  forall l s, g (nodes (fold_left step l s) m) = g (nodes s m).
Proof.
  intros H. induction l as [|d l IH]; intros s; simpl; [reflexivity|].
  now rewrite IH, H.
Qed.

Lemma blind_reconcile (V : version) (n m : node_id) (s : State) :
  g (nodes (reconcile V n s) m) = g (nodes s m).
Proof.
  unfold reconcile. rewrite blind_upd by (intros x; apply g_ctxDeps).
  rewrite blind_fold by (intros; apply blind_adopt_step).
  apply blind_fold. intros. apply blind_prune_step.
Qed.

Lemma blind_addAsSub (V : version) (n m : node_id) (s : State) :
  g (nodes (addAsSub V n s) m) = g (nodes s m).
Proof.
  pose proof (addAsSub_node V n m s) as T. unfold track_node in T. rewrite T.
  now rewrite g_ctxDeps, g_subs.
Qed.
End EdgeBlind.

Lemma static_blind (s s' : State) :
  (forall (A : Type) (g : Node -> A),
      (forall l x, g (with_subs l x) = g x) ->
      (forall l x, g (with_deps l x) = g x) ->
      (forall l x, g (with_ctxDeps l x) = g x) ->
      forall m, g (nodes s' m) = g (nodes s m)) ->
  static s s' /\ forall m, dirty (nodes s' m) = dirty (nodes s m) /\
                           cvalue (nodes s' m) = cvalue (nodes s m).
Proof.
  intros H. split; [constructor|]; intros m; try split; apply H; reflexivity.
Qed.

Lemma reconcile_static (V : version) (n : node_id) (s : State) :
  static s (reconcile V n s) /\
  forall m, dirty (nodes (reconcile V n s) m) = dirty (nodes s m) /\
            cvalue (nodes (reconcile V n s) m) = cvalue (nodes s m).
Proof. apply static_blind. intros. now apply blind_reconcile. Qed.

Lemma addAsSub_static (V : version) (n : node_id) (s : State) :
  static s (addAsSub V n s) /\
  forall m, dirty (nodes (addAsSub V n s) m) = dirty (nodes s m) /\
            cvalue (nodes (addAsSub V n s) m) = cvalue (nodes s m).
Proof. apply static_blind. intros. now apply blind_addAsSub. Qed.

(** ** References kept by tracking and by the closing loops *)

Lemma has_ref_addAsSub (V : version) (n : node_id) (s : State) (m c : node_id) :
  has_ref s m c -> has_ref (addAsSub V n s) m c.
Proof.
  intros [r [Hr Ht]]. exists r. split; [|exact Ht].
  unfold addAsSub. destruct (context s) as [ctx|]; [|exact Hr].
  rewrite nodes_upd.
  assert (In r (subs (nodes (subscribe V n ctx s) m))) as X
      by now apply subscribe_subs_incl.
  destruct (Nat.eqb m ctx) eqn:E; [|exact X]. apply Nat.eqb_eq in E. now subst m.
Qed.

Lemma ctxDeps_addAsSub (V : version) (n : node_id) (s : State) (m c : node_id) :
  In m (ctxDeps (nodes s c)) -> In m (ctxDeps (nodes (addAsSub V n s) c)).
Proof.
  intros H. unfold addAsSub. destruct (context s) as [ctx|]; [|exact H].
  rewrite nodes_upd. destruct (Nat.eqb c ctx) eqn:E.
  - apply Nat.eqb_eq in E. subst c. simpl. apply set_add_In. right.
    now rewrite subscribe_ctxDeps.
  - now rewrite subscribe_ctxDeps.
Qed.

Lemma targets_target (s : State) (sub : node_id) (r : WeakRef) :
  targets s sub r = true -> ref_target r = sub.
Proof.
  unfold targets, deref. destruct (collected _); [discriminate|]. apply Nat.eqb_eq.
Qed.

(** [unsubscribe] only removes references to [sub], and only from [this]. *)
Lemma has_ref_unsubscribe (V : version) (this sub : node_id) (s : State) (m c : node_id) :
  c <> sub \/ m <> this -> has_ref s m c -> has_ref (unsubscribe V this sub s) m c.
Proof.
  intros D [r [Hr Ht]]. exists r. split; [|exact Ht].
  destruct (Nat.eqb m this) eqn:E.
  - apply Nat.eqb_eq in E. subst m. assert (c <> sub) as Hc by tauto.
    destruct V; unfold unsubscribe.
    + destruct (find _ _) as [r0|] eqn:F; [|exact Hr].
      apply find_some in F. destruct F as [_ F]. apply targets_target in F.
      unfold delete_ref. rewrite nodes_upd_eq. simpl. apply filter_In. split; [exact Hr|].
      apply negb_true_iff. destruct (ref_eqb r0 r) eqn:X; [|reflexivity].
      apply ref_eqb_eq in X. subst r0. congruence.
    + rewrite nodes_upd_eq. simpl. apply filter_In. split; [exact Hr|].
      apply negb_true_iff. destruct (targets s sub r) eqn:X; [|reflexivity].
      apply targets_target in X. congruence.
  - apply Nat.eqb_neq in E. destruct V; unfold unsubscribe.
    + destruct (find _ _); [|exact Hr]. unfold delete_ref. now rewrite nodes_upd_ne.
    + now rewrite nodes_upd_ne.
Qed.

Lemma has_ref_upd (n : node_id) (f : Node -> Node) (s : State) (m c : node_id) :
  (forall x, subs (f x) = subs x) -> has_ref s m c -> has_ref (upd n f s) m c.
Proof.
  intros H [r [Hr Ht]]. exists r. split; [|exact Ht]. rewrite nodes_upd.
  destruct (Nat.eqb m n) eqn:E; [|exact Hr]. apply Nat.eqb_eq in E. subst m. now rewrite H.
Qed.

Lemma has_ref_prune_fold (V : version) (x : node_id) (m c : node_id) :
  forall l s,
    c <> x \/ In m (ctxDeps (nodes s x)) ->
    has_ref s m c -> has_ref (fold_left (prune_step V x) l s) m c.
Proof.
  induction l as [|d l IH]; intros s D H; simpl; [exact H|].
  destruct (prune_step_fields V x s d) as [C _].
  apply IH; [now rewrite C|].
  unfold prune_step. destruct (set_has d (ctxDeps (nodes s x))) eqn:E; [exact H|].
  apply has_ref_unsubscribe.
  - destruct D as [D|D]; [now left|]. right. intros ->.
    apply set_has_In in D. congruence.
  - apply has_ref_upd; [reflexivity | exact H].
Qed.

Lemma has_ref_adopt_fold (x : node_id) (m c : node_id) :
  forall l s, has_ref s m c -> has_ref (fold_left (adopt_step x) l s) m c.
Proof.
  induction l as [|d l IH]; intros s H; simpl; [exact H|]. apply IH.
  unfold adopt_step. destruct (set_has _ _); [exact H|].
  apply has_ref_upd; [reflexivity | exact H].
Qed.

(** [reconcile] of [x] keeps every reference except those to [x] held by
    nodes that [x] did not read. *)
Lemma has_ref_reconcile (V : version) (x : node_id) (s : State) (m c : node_id) :
  c <> x \/ In m (ctxDeps (nodes s x)) ->
  has_ref s m c -> has_ref (reconcile V x s) m c.
Proof.
  intros D H. unfold reconcile. apply has_ref_upd; [reflexivity|].
  apply has_ref_adopt_fold. now apply has_ref_prune_fold.
Qed.

Lemma ctxDeps_unsubscribe (V : version) (this sub c : node_id) (s : State) :
  ctxDeps (nodes (unsubscribe V this sub s) c) = ctxDeps (nodes s c).
Proof. now destruct (unsubscribe_edges V this sub c s). Qed.

Lemma ctxDeps_reconcile (V : version) (x c : node_id) (s : State) :
  c <> x -> ctxDeps (nodes (reconcile V x s) c) = ctxDeps (nodes s c).
Proof.
  intros D. unfold reconcile. rewrite nodes_upd_ne by exact D.
  assert (forall l s0, ctxDeps (nodes (fold_left (adopt_step x) l s0) c) = ctxDeps (nodes s0 c))
    as A.
  { induction l as [|d l IH]; intros s0; simpl; [reflexivity|]. rewrite IH.
    unfold adopt_step. destruct (set_has _ _); [reflexivity|]. now rewrite nodes_upd_ne. }
  assert (forall l s0, ctxDeps (nodes (fold_left (prune_step V x) l s0) c) = ctxDeps (nodes s0 c))
    as P.
  { induction l as [|d l IH]; intros s0; simpl; [reflexivity|]. rewrite IH.
    unfold prune_step. destruct (set_has _ _); [reflexivity|].
    rewrite ctxDeps_unsubscribe. now rewrite nodes_upd_ne. }
  now rewrite A, P.
Qed.

Lemma denote_prog_static (rank : node_id -> nat) (s s' : State) (p : prog) :
  static s s' ->
  denote_prog (current rank s') p = denote_prog (current rank s) p /\
  trace (current rank s') p = trace (current rank s) p.
Proof. intros St. apply denote_prog_ext. intros m _. now apply current_static. Qed.

Lemma link_refl (rank : node_id -> nat) (b : nat) (s : State) : link rank b s s.
Proof. constructor; auto using static_refl. Qed.

Lemma link_trans (rank : node_id -> nat) (b : nat) (s1 s2 s3 : State) :
  link rank b s1 s2 -> link rank b s2 s3 -> link rank b s1 s3.
Proof.
  intros A B. constructor.
  - exact (static_trans _ _ _ (ln_static _ _ _ _ A) (ln_static _ _ _ _ B)).
  - intros m H. apply (ln_settled _ _ _ _ B), (ln_settled _ _ _ _ A), H.
  - intros c m Hb H. apply (ln_ref _ _ _ _ B c m Hb), (ln_ref _ _ _ _ A c m Hb), H.
  - intros c m Hb H. apply (ln_ctx _ _ _ _ B c m Hb), (ln_ctx _ _ _ _ A c m Hb), H.
Qed.

Lemma link_mono (rank : node_id -> nat) (b b' : nat) (s s' : State) :
  b <= b' -> link rank b s s' -> link rank b' s s'.
Proof.
  intros L A. constructor.
  - exact (ln_static _ _ _ _ A).
  - exact (ln_settled _ _ _ _ A).
  - intros c m Hb. apply (ln_ref _ _ _ _ A). lia.
  - intros c m Hb. apply (ln_ctx _ _ _ _ A). lia.
Qed.

Lemma settled_same (s s' : State) (m : node_id) :
  kind (nodes s' m) = kind (nodes s m) ->
  (stale (nodes s m) = false -> stale (nodes s' m) = false) ->
  settled s m -> settled s' m.
Proof.
  intros K S [H|[H1 H2]]; [left | right]; rewrite K; auto.
Qed.

Lemma stale_same (x x' : Node) :
  dirty x' = dirty x -> cvalue x' = cvalue x -> stale x' = stale x.
Proof. intros D C. unfold stale. now rewrite D, C. Qed.

(** A step that leaves the cached values and flags alone and loses no
    reference that a sound cache relies on keeps every cache sound. *)
Lemma fresh_transfer (rank : node_id -> nat) (s s' : State) :
  static s s' ->
  (forall m, dirty (nodes s' m) = dirty (nodes s m) /\
             cvalue (nodes s' m) = cvalue (nodes s m)) ->
  (forall c m, kind (nodes s c) = ComputedNode -> stale (nodes s c) = false ->
               In m (trace (current rank s) (fn (nodes s c))) ->
               has_ref s m c -> has_ref s' m c) ->
  fresh rank s -> fresh rank s'.
Proof.
  intros St DC R F c K S.
  assert (forall m, stale (nodes s' m) = stale (nodes s m)) as SS.
  { intros m. destruct (DC m). now apply stale_same. }
  rewrite (st_kind _ _ St) in K. rewrite SS in S. destruct (F c K S) as [A B].
  destruct (denote_prog_ext (current rank s) (current rank s') (fn (nodes s c))) as [_ T].
  { intros m _. now apply current_static. }
  split.
  - rewrite (current_static rank s s' c St). destruct (DC c) as [_ ->]. exact A.
  - intros m Hm. rewrite (st_fn _ _ St), T in Hm. destruct (B m Hm) as [B1 B2]. split.
    + apply (settled_same s s'); [apply (st_kind _ _ St) | now rewrite SS | exact B1].
    + now apply (R c m).
Qed.

(** Steps that touch neither a value, nor a flag of the caches, nor an edge. *)
Lemma calm_step (rank : node_id -> nat) (b : nat) (s s' : State) :
  (forall m, nodes s' m =
             with_taskScheduled (taskScheduled (nodes s' m))
               (with_runs (runs (nodes s' m)) (nodes s m))) ->
  link rank b s s' /\ (fresh rank s -> fresh rank s').
Proof.
  intros H.
  assert (forall (A : Type) (g : Node -> A),
             (forall t x, g (with_taskScheduled t x) = g x) ->
             (forall k x, g (with_runs k x) = g x) ->
             forall m, g (nodes s' m) = g (nodes s m)) as G.
  { intros A g G1 G2 m. rewrite (H m). now rewrite G1, G2. }
  assert (static s s') as St by (constructor; intros m; apply G; reflexivity).
  assert (forall m c, has_ref s m c -> has_ref s' m c) as R.
  { intros m c [r [Hr Ht]]. exists r. split; [|exact Ht].
    now rewrite (G _ subs (fun _ _ => eq_refl) (fun _ _ => eq_refl) m). }
  assert (forall m, dirty (nodes s' m) = dirty (nodes s m) /\
                    cvalue (nodes s' m) = cvalue (nodes s m)) as DC.
  { intros m. split; apply G; reflexivity. }
  split.
  - constructor; [exact St| | |].
    + intros m. apply settled_same; [apply (st_kind _ _ St)|].
      destruct (DC m) as [D C]. now rewrite (stale_same _ _ D C).
    + intros c m _. apply R.
    + intros c m _. now rewrite (G _ ctxDeps (fun _ _ => eq_refl) (fun _ _ => eq_refl) c).
  - apply fresh_transfer; try assumption. intros c m _ _ _. apply R.
Qed.

Lemma calm_state (s : State) (nd : node_id -> Node) :
  nd = nodes s ->
  forall m, nd m = with_taskScheduled (taskScheduled (nd m)) (with_runs (runs (nd m)) (nodes s m)).
Proof. intros -> m. now destruct (nodes s m). Qed.

Lemma calm_upd (n : node_id) (f : Node -> Node) (s : State) :
  (forall x, f x = with_taskScheduled (taskScheduled (f x)) (with_runs (runs (f x)) x)) ->
  forall m, nodes (upd n f s) m =
            with_taskScheduled (taskScheduled (nodes (upd n f s) m))
              (with_runs (runs (nodes (upd n f s) m)) (nodes s m)).
Proof.
  intros H m. rewrite nodes_upd. destruct (Nat.eqb m n) eqn:E.
  - apply Nat.eqb_eq in E. subst m. apply H.
  - now destruct (nodes s m).
Qed.

Lemma calm_enter (x : node_id) (s : State) :
  forall m, nodes (enter x s) m =
            with_taskScheduled (taskScheduled (nodes (enter x s) m))
              (with_runs (runs (nodes (enter x s) m)) (nodes s m)).
Proof.
  unfold enter. intros m. rewrite nodes_upd. simpl. destruct (Nat.eqb m x) eqn:E.
  - apply Nat.eqb_eq in E. subst m. now destruct (nodes s x).
  - now destruct (nodes s m).
Qed.

Lemma link_addAsSub (V : version) (rank : node_id -> nat) (b : nat) (n : node_id) (s : State) :
  link rank b s (addAsSub V n s) /\ (fresh rank s -> fresh rank (addAsSub V n s)).
Proof.
  destruct (addAsSub_static V n s) as [St DC].
  split.
  - constructor; [exact St| | |].
    + intros m. apply settled_same; [apply (st_kind _ _ St)|].
      destruct (DC m) as [D C]. now rewrite (stale_same _ _ D C).
    + intros c m _. apply has_ref_addAsSub.
    + intros c m _. apply ctxDeps_addAsSub.
  - apply fresh_transfer; try assumption. intros c m _ _ _. apply has_ref_addAsSub.
Qed.

(** Storing the value just computed. *)
Lemma fresh_store (rank : node_id -> nat) (n : node_id) (v : Z) (s : State) :
  pure_graph rank s -> fresh rank s ->
  kind (nodes s n) = ComputedNode ->
  current rank s n = Some v ->
  (forall m, In m (trace (current rank s) (fn (nodes s n))) -> settled s m /\ has_ref s m n) ->
  let s' := upd n (fun x => with_dirty false (with_cvalue (Some v) x)) s in
  link rank 0 s s' /\ fresh rank s' /\ settled s' n.
Proof.
  intros P F K Cv T s'.
  assert (forall (A : Type) (g : Node -> A),
             (forall d x, g (with_dirty d x) = g x) ->
             (forall c x, g (with_cvalue c x) = g x) ->
             forall m, g (nodes s' m) = g (nodes s m)) as G.
  { intros A g G1 G2 m. unfold s'. rewrite nodes_upd. destruct (Nat.eqb m n) eqn:E.
    - apply Nat.eqb_eq in E. subst m. now rewrite G1, G2.
    - reflexivity. }
  assert (static s s') as St by (constructor; intros m; apply G; reflexivity).
  assert (forall m c, has_ref s m c -> has_ref s' m c) as R.
  { intros m c [r [Hr Ht]]. exists r. split; [|exact Ht].
    now rewrite (G _ subs (fun _ _ => eq_refl) (fun _ _ => eq_refl) m). }
  assert (stale (nodes s' n) = false) as Sn.
  { unfold s'. now rewrite nodes_upd_eq. }
  assert (forall m, settled s m -> settled s' m) as Se.
  { intros m. destruct (Nat.eqb m n) eqn:E.
    - apply Nat.eqb_eq in E. subst m. intros _. right. split; [|exact Sn].
      now rewrite (st_kind _ _ St).
    - unfold s', settled. rewrite nodes_upd, E. auto. }
  assert (forall c, trace (current rank s') (fn (nodes s' c)) =
                    trace (current rank s) (fn (nodes s c))) as Tr.
  { intros c. rewrite (st_fn _ _ St). apply denote_prog_ext.
    intros m _. now apply current_static. }
  split; [|split].
  - constructor; [exact St | exact Se | intros c m _; apply R |].
    intros c m _. now rewrite (G _ ctxDeps (fun _ _ => eq_refl) (fun _ _ => eq_refl) c).
  - intros c Kc Sc. destruct (Nat.eqb c n) eqn:E.
    + apply Nat.eqb_eq in E. subst c. split.
      * rewrite (current_static rank s s' n St), Cv. unfold s'. now rewrite nodes_upd_eq.
      * intros m Hm. rewrite Tr in Hm. destruct (T m Hm). auto.
    + assert (nodes s' c = nodes s c) as Nc by (unfold s'; now rewrite nodes_upd, E).
      rewrite Nc in Kc, Sc. destruct (F c Kc Sc) as [A B]. split.
      * now rewrite (current_static rank s s' c St), Nc.
      * intros m Hm. rewrite Tr in Hm. destruct (B m Hm). auto.
  - right. split; [now rewrite (st_kind _ _ St) | exact Sn].
Qed.

(** The two loops that close an evaluation of [x]. *)
Lemma link_reconcile (V : version) (rank : node_id -> nat) (x : node_id) (s : State) :
  (forall m, In m (trace (current rank s) (fn (nodes s x))) -> In m (ctxDeps (nodes s x))) ->
  link rank (S (rank x)) s (reconcile V x s) /\
  (fresh rank s -> fresh rank (reconcile V x s)).
Proof.
  intros T. destruct (reconcile_static V x s) as [St DC].
  split.
  - constructor; [exact St| | |].
    + intros m. apply settled_same; [apply (st_kind _ _ St)|].
      destruct (DC m) as [D C]. now rewrite (stale_same _ _ D C).
    + intros c m Hb. apply has_ref_reconcile. left. intros ->. lia.
    + intros c m Hb. rewrite ctxDeps_reconcile; [auto|]. intros ->. lia.
  - apply fresh_transfer; try assumption.
    intros c m _ _ Hm. apply has_ref_reconcile.
    destruct (Nat.eq_dec c x) as [->|N]; [right; now apply T | now left].
Qed.

Section Evaluation.
Variables (V : version) (rank : node_id -> nat).
Variable rd : node_id -> State -> option (Result Z * State).

(** What is assumed of the getters a closure calls. *)
Hypothesis rd_spec :
  forall n s r s',
    pure_graph rank s -> fresh rank s ->
    (forall x, context s = Some x -> rank n < rank x) ->
    rd n s = Some (r, s') ->
    exists v, r = Ok v /\ current rank s n = Some v /\
              link rank (S (rank n)) s s' /\ fresh rank s' /\
              context s' = context s /\ settled s' n /\
              (forall x, context s = Some x ->
                         has_ref s' n x /\ In n (ctxDeps (nodes s' x))).

Lemma exec_fresh (x : node_id) (b : nat) :
  b <= rank x ->
  forall p s r s',
    pure_graph rank s -> fresh rank s -> context s = Some x ->
    formula rank s b p ->
    exec V rd p s = Some (r, s') ->
    exists v, r = Ok v /\ denote_prog (current rank s) p = Some v /\
              link rank b s s' /\ fresh rank s' /\ context s' = Some x /\
              (forall m, In m (trace (current rank s) p) ->
                         settled s' m /\ has_ref s' m x /\ In m (ctxDeps (nodes s' x))).
Proof.
  intros Hb. induction p as [v| |n k IH|n v k IH|v k IH]; intros s r s' P F C Fo H;
    simpl in H, Fo.
  - injection H as <- <-. exists v. split; [reflexivity|]. split; [reflexivity|].
    split; [apply link_refl|]. split; [exact F|]. split; [exact C|]. intros m [].
  - destruct Fo.
  - destruct Fo as [Fn [_ Fk]].
    destruct (rd n s) as [[r1 s1]|] eqn:E; [|discriminate].
    destruct (rd_spec n s r1 s1 P F) as [v1 [-> [Cv [L1 [F1 [C1 [S1 T1]]]]]]]; [|exact E|].
    { intros y Hy. rewrite C in Hy. injection Hy as <-. lia. }
    destruct (T1 x C) as [R1 D1].
    pose proof (pure_graph_static rank s s1 (ln_static _ _ _ _ L1) P) as P1.
    assert (formula rank s1 b (k v1)) as Fo1.
    { apply (formula_static rank s s1); [apply (st_kind _ _ (ln_static _ _ _ _ L1)) | apply Fk]. }
    rewrite C in C1.
    destruct (IH v1 s1 r s' P1 F1 C1 Fo1 H) as [v [-> [Dv [L2 [F2 [C2 T2]]]]]].
    assert (forall m, current rank s1 m = current rank s m) as Cs.
    { intros m. apply current_static. exact (ln_static _ _ _ _ L1). }
    destruct (denote_prog_ext (current rank s) (current rank s1) (k v1)) as [Dp Tp].
    { intros m _. apply Cs. }
    exists v. split; [reflexivity|]. split; [simpl; now rewrite Cv, <- Dp|].
    split; [|split; [exact F2|split; [exact C2|]]].
    + apply (link_trans rank b s s1 s'); [|exact L2].
      apply (link_mono rank (S (rank n)) b); [lia | exact L1].
    + simpl. rewrite Cv. intros m [<-|Hm].
      * split; [exact (ln_settled _ _ _ _ L2 _ S1)|].
        split; [exact (ln_ref _ _ _ _ L2 x _ Hb R1) | exact (ln_ctx _ _ _ _ L2 x _ Hb D1)].
      * apply T2. now rewrite Tp.
  - destruct Fo.
  - destruct (calm_step rank b s (emit v s) (calm_state s (nodes (emit v s)) eq_refl)) as [L0 F0].
    pose proof (pure_graph_static rank s _ (ln_static _ _ _ _ L0) P) as P0.
    assert (formula rank (emit v s) b k) as Fo0
        by (apply (formula_static rank s); [reflexivity | exact Fo]).
    destruct (IH (emit v s) r s' P0 (F0 F) C Fo0 H) as [w [-> [Dv [L2 [F2 [C2 T2]]]]]].
    destruct (denote_prog_static rank s (emit v s) k (ln_static _ _ _ _ L0)) as [Dp Tp].
    exists w. split; [reflexivity|]. split; [simpl; now rewrite <- Dp|].
    split; [exact (link_trans rank b _ _ _ L0 L2)|]. split; [exact F2|]. split; [exact C2|].
    simpl. intros m Hm. apply T2. now rewrite Tp.
Qed.

(** [context = this; fn(); the two loops; context = prevCtx], as in
    [compute] and [runEffect]. *)
Lemma evaluation_fresh (x : node_id) (s : State) (r : Result Z) (s1 : State) :
  pure_graph rank s -> fresh rank s ->
  exec V rd (fn (nodes s x)) (enter x s) = Some (r, s1) ->
  exists v, r = Ok v /\ denote_prog (current rank s) (fn (nodes s x)) = Some v /\
            forall c,
              link rank (S (rank x)) s (set_context c (reconcile V x s1)) /\
              fresh rank (set_context c (reconcile V x s1)) /\
              forall m, In m (trace (current rank s) (fn (nodes s x))) ->
                        settled (set_context c (reconcile V x s1)) m /\
                        has_ref (set_context c (reconcile V x s1)) m x.
Proof.
  intros P F H.
  destruct (calm_step rank (rank x) s (enter x s) (calm_enter x s)) as [L0 F0].
  pose proof (pure_graph_static rank s _ (ln_static _ _ _ _ L0) P) as P0.
  assert (forall m, current rank (enter x s) m = current rank s m) as Cs.
  { intros m. apply current_static. exact (ln_static _ _ _ _ L0). }
  destruct (denote_prog_ext (current rank s) (current rank (enter x s)) (fn (nodes s x)))
    as [Dp Tp]. { intros m _. apply Cs. }
  assert (fn (nodes (enter x s) x) = fn (nodes s x)) as Fx
      by apply (st_fn _ _ (ln_static _ _ _ _ L0)).
  assert (formula rank (enter x s) (rank x) (fn (nodes s x))) as Fo.
  { rewrite <- Fx. apply (proj1 P0). }
  destruct (exec_fresh x (rank x) (le_n _) _ _ _ _ P0 (F0 F) eq_refl Fo H)
    as [v [-> [Dv [L1 [F1 [C1 T1]]]]]].
  exists v. split; [reflexivity|]. split; [now rewrite <- Dp|]. intros c.
  assert (forall m, current rank s1 m = current rank s m) as Cs1.
  { intros m. rewrite <- Cs. apply current_static. exact (ln_static _ _ _ _ L1). }
  assert (fn (nodes s1 x) = fn (nodes s x)) as Fx1.
  { rewrite (st_fn _ _ (ln_static _ _ _ _ L1)). exact Fx. }
  destruct (denote_prog_ext (current rank s) (current rank s1) (fn (nodes s x)))
    as [_ Tp1]. { intros m _. apply Cs1. }
  destruct (link_reconcile V rank x s1) as [L2 F2].
  { intros m Hm. rewrite Fx1, Tp1, <- Tp in Hm. now destruct (T1 m Hm) as [_ [_ X]]. }
  destruct (calm_step rank (S (rank x)) (reconcile V x s1)
                      (set_context c (reconcile V x s1))
                      (calm_state (reconcile V x s1) (nodes (set_context c (reconcile V x s1)))
                                  eq_refl)) as [L3 F3].
  split; [|split; [exact (F3 (F2 F1))|]].
  - apply (link_trans rank _ s (enter x s)); [apply (link_mono rank (rank x)); [lia|exact L0]|].
    apply (link_trans rank _ _ s1); [apply (link_mono rank (rank x)); [lia|exact L1]|].
    exact (link_trans rank _ _ _ _ L2 L3).
  - intros m Hm. rewrite <- Tp in Hm. destruct (T1 m Hm) as [A [B D]]. split.
    + exact (ln_settled _ _ _ _ L3 _ (ln_settled _ _ _ _ L2 _ A)).
    + destruct B as [r0 [Hr Ht]]. 
      assert (has_ref (reconcile V x s1) m x) as [r1 [Hr1 Ht1]].
      { apply has_ref_reconcile; [now right | now exists r0]. }
      now exists r1.
Qed.
End Evaluation.

Lemma getValue_S (V : version) (f : nat) (n : node_id) (s : State) :
  getValue V (S f) n s =
  match kind (nodes s n) with
  | WritableNode => Some (Ok (wvalue (nodes (addAsSub V n s) n)), addAsSub V n s)
  | ComputedNode =>
      if stale (nodes (addAsSub V n s) n) then
        match compute V (getValue V f) n (addAsSub V n s) with
        | Some (Ok v, s2) =>
            Some (Ok v, upd n (fun x => with_dirty false (with_cvalue (Some v) x)) s2)
        | Some (Exn, s2) => Some (Exn, s2)
        | None => None
        end
      else
        match cvalue (nodes (addAsSub V n s) n) with
        | Some v => Some (Ok v, addAsSub V n s)
        | None => None
        end
  | _ => None
  end.
Proof. reflexivity. Qed.

Lemma stale_false (x : Node) :
  stale x = false <-> dirty x = false /\ exists v, cvalue x = Some v.
Proof.
  unfold stale. destruct (cvalue x) as [v|].
  - split; [intros H; split; [exact H | now exists v] | tauto].
  - split; [discriminate | intros [_ [v H]]; discriminate].
Qed.

Lemma getValue_fresh (V : version) (rank : node_id -> nat) (f : nat) :
  forall n s r s',
    pure_graph rank s -> fresh rank s ->
    (forall x, context s = Some x -> rank n < rank x) ->
    getValue V f n s = Some (r, s') ->
    exists v, r = Ok v /\ current rank s n = Some v /\
              link rank (S (rank n)) s s' /\ fresh rank s' /\
              context s' = context s /\ settled s' n /\
              (forall x, context s = Some x ->
                         has_ref s' n x /\ In n (ctxDeps (nodes s' x))).
Proof.
  induction f as [|f IH]; intros n s r s' P F Cx H; [discriminate|].
  rewrite getValue_S in H.
  destruct (link_addAsSub V rank (S (rank n)) n s) as [L0 F0].
  destruct (addAsSub_static V n s) as [St0 DC0].
  destruct (addAsSub_state V n s) as [_ [C0 _]].
  pose proof (pure_graph_static rank s _ St0 P) as P0.
  assert (forall x, context s = Some x ->
                    has_ref (addAsSub V n s) n x /\ In n (ctxDeps (nodes (addAsSub V n s) x)))
    as T0.
  { intros x Hx. exact (addAsSub_tracks V n s Hx). }
  destruct (kind (nodes s n)) eqn:K; try discriminate.
  - injection H as <- <-. exists (wvalue (nodes s n)).
    split; [now rewrite (st_wvalue _ _ St0)|].
    split; [now apply current_signal|]. split; [exact L0|]. split; [exact (F0 F)|].
    split; [exact C0|]. split; [|exact T0].
    left. now rewrite (st_kind _ _ St0).
  - assert (kind (nodes (addAsSub V n s) n) = ComputedNode) as K0
        by now rewrite (st_kind _ _ St0).
    destruct (stale (nodes (addAsSub V n s) n)) eqn:Sn.
    + unfold compute in H. cbv zeta in H.
      destruct (exec V (getValue V f) (fn (nodes (addAsSub V n s) n))
                     (enter n (addAsSub V n s))) as [[r1 s2]|] eqn:E; [|discriminate].
      destruct (evaluation_fresh V rank (getValue V f) IH n _ _ _ P0 (F0 F) E)
        as [v [-> [Dv Post]]].
      destruct (Post (context (addAsSub V n s))) as [L1 [F1 T1]].
      injection H as <- <-.
      set (s3 := set_context (context (addAsSub V n s)) (reconcile V n s2)) in *.
      pose proof (ln_static _ _ _ _ L1) as St1.
      pose proof (pure_graph_static rank _ _ St1 P0) as P3.
      destruct (current_computed rank _ n P0 K0) as [Cn _].
      destruct (denote_prog_static rank _ s3 (fn (nodes (addAsSub V n s) n)) St1) as [_ Tp].
      destruct (fresh_store rank n v s3 P3 F1) as [L2 [F2 S2]].
      { now rewrite (st_kind _ _ St1). }
      { rewrite (current_static rank _ s3 n St1), Cn. exact Dv. }
      { intros m Hm. rewrite (st_fn _ _ St1), Tp in Hm. now apply T1. }
      assert (link rank (S (rank n)) s
                   (upd n (fun x => with_dirty false (with_cvalue (Some v) x)) s3)) as L.
      { apply (link_trans rank _ _ _ _ L0), (link_trans rank _ _ _ _ L1).
        apply (link_mono rank 0); [lia | exact L2]. }
      exists v. split; [reflexivity|].
      split; [now rewrite <- (current_static rank s _ n St0), Cn|].
      split; [exact L|]. split; [exact F2|]. split; [exact C0|]. split; [exact S2|].
      intros x Hx. destruct (T0 x Hx) as [A B]. pose proof (Cx x Hx) as Rx.
      assert (link rank (S (rank n)) (addAsSub V n s)
                   (upd n (fun x => with_dirty false (with_cvalue (Some v) x)) s3)) as L'.
      { apply (link_trans rank _ _ _ _ L1). apply (link_mono rank 0); [lia | exact L2]. }
      split; [apply (ln_ref _ _ _ _ L' x n); [lia | exact A]
             | apply (ln_ctx _ _ _ _ L' x n); [lia | exact B]].
    + destruct (cvalue (nodes (addAsSub V n s) n)) as [v|] eqn:Cv; [|discriminate].
      injection H as <- <-. exists v. split; [reflexivity|].
      destruct (F0 F n K0 Sn) as [A _]. rewrite Cv in A.
      split; [now rewrite <- (current_static rank s _ n St0)|].
      split; [exact L0|]. split; [exact (F0 F)|]. split; [exact C0|]. split; [|exact T0].
      right. split; [exact K0 | exact Sn].
Qed.

Lemma runTask_fresh (V : version) (rank : node_id -> nat) (fuel : nat) (e : node_id)
      (s : State) (r : Result unit) (s' : State) :
  pure_graph rank s -> fresh rank s ->
  runTask V fuel e s = Some (r, s') ->
  r = Ok tt /\ pure_graph rank s' /\ fresh rank s' /\ context s' = context s /\
  static s s'.
Proof.
  intros P F H. unfold runTask, runEffect in H. cbv zeta in H.
  destruct (exec V (getValue V fuel) (fn (nodes s e)) (enter e s)) as [[r1 s1]|] eqn:E;
    [|discriminate].
  destruct (evaluation_fresh V rank (getValue V fuel) (getValue_fresh V rank fuel)
                             e _ _ _ P F E) as [v [-> [_ Post]]].
  destruct (Post (context s)) as [L1 [F1 _]].
  injection H as <- <-. split; [reflexivity|].
  set (s2 := set_context (context s) (reconcile V e s1)) in *.
  destruct (calm_step rank 0 s2 (upd e (with_taskScheduled false) s2)) as [L2 F2].
  { apply calm_upd. intros x. now destruct x. }
  split; [|split; [exact (F2 F1) | split; [reflexivity|]]].
  - apply (pure_graph_static rank s2); [exact (ln_static _ _ _ _ L2)|].
    exact (pure_graph_static rank s s2 (ln_static _ _ _ _ L1) P).
  - exact (static_trans _ _ _ (ln_static _ _ _ _ L1) (ln_static _ _ _ _ L2)).
Qed.

Lemma runMicrotasks_fresh (V : version) (rank : node_id -> nat) (fuel : nat) :
  forall s s',
    pure_graph rank s -> fresh rank s ->
    runMicrotasks V fuel s = Some s' ->
    pure_graph rank s' /\ fresh rank s' /\ context s' = context s.
Proof.
  induction fuel as [|f IH]; intros s s' P F H; [discriminate|]. simpl in H.
  destruct (queue s) as [|e q] eqn:Q.
  - injection H as <-. auto.
  - destruct (calm_step rank 0 s (set_queue q s) (calm_state s (nodes (set_queue q s)) eq_refl))
      as [L0 F0].
    pose proof (pure_graph_static rank s _ (ln_static _ _ _ _ L0) P) as P0.
    destruct (runTask V f e (set_queue q s)) as [[r s1]|] eqn:E; [|discriminate].
    destruct (runTask_fresh V rank f e _ _ _ P0 (F0 F) E) as [-> [P1 [F1 [C1 _]]]].
    destruct (IH s1 s' P1 F1 H) as [P2 [F2 C2]].
    split; [exact P2|]. split; [exact F2|]. now rewrite C2, C1.
Qed.

(** ** A write keeps every clean cache sound *)

Lemma fresh_setValue (V : version) (rank : node_id -> nat) (n : node_id) (v : Z)
      (s s' : State) :
  pure_graph rank s -> fresh rank s ->
  setValue V n v s = Some s' ->
  pure_graph rank s' /\ fresh rank s'.
Proof.
  intros P F H. pose proof (setValue_push _ _ _ _ H) as Pu.
  unfold setValue in H. cbv zeta in H.
  destruct (@notify_marks V (markAsDisty V) n
              (fun a b c => markAsDisty_fuel_marks V _ a b c) _ _ _ H) as [Cl M].
  set (s1 := upd n (with_wvalue v) s) in *.
  assert (forall (A : Type) (g : Node -> A),
             (forall w x, g (with_wvalue w x) = g x) ->
             forall m, g (nodes s1 m) = g (nodes s m)) as G.
  { intros A g G1 m. unfold s1. rewrite nodes_upd. destruct (Nat.eqb m n) eqn:E; [|reflexivity].
    apply Nat.eqb_eq in E. subst m. apply G1. }
  assert (forall m, kind (nodes s' m) = kind (nodes s m)) as K.
  { intros m. rewrite (pr_kind Pu). now apply G. }
  assert (forall m, fn (nodes s' m) = fn (nodes s m)) as Fn.
  { intros m. rewrite (pr_fn Pu). now apply G. }
  assert (forall m, collected (nodes s' m) = false) as Col.
  { intros m. rewrite (pr_collected Pu), (G _ collected (fun _ _ => eq_refl)).
    apply (proj2 P). }
  assert (forall m, cvalue (nodes s' m) = cvalue (nodes s m)) as CV.
  { intros m. rewrite (pr_cvalue Pu). now apply G. }
  assert (forall m, m <> n -> wvalue (nodes s' m) = wvalue (nodes s m)) as W.
  { intros m Hm. rewrite (pr_wvalue Pu). unfold s1. now rewrite nodes_upd_ne. }
  assert (forall m, dirty (nodes s m) = true -> dirty (nodes s' m) = true) as D.
  { intros m Hm. apply (pr_dirty Pu). now rewrite (G _ dirty (fun _ _ => eq_refl)). }
  assert (forall m r, In r (subs (nodes s m)) -> In r (subs (nodes s' m))) as Rr.
  { intros m r Hr. apply (pr_subs_live Pu).
    - now rewrite (G _ subs (fun _ _ => eq_refl)).
    - rewrite (G _ collected (fun _ _ => eq_refl)). apply (proj2 P). }
  assert (forall m c, has_ref s m c -> has_ref s' m c) as R.
  { intros m c [r [Hr Ht]]. exists r. split; [now apply Rr | exact Ht]. }
  assert (forall c, kind (nodes s c) = ComputedNode -> marked V (nodes s' c) = true ->
                    dirty (nodes s' c) = true) as Mk.
  { intros c Kc. unfold marked. now rewrite K, Kc. }
  assert (forall c, has_ref s n c -> kind (nodes s c) = ComputedNode ->
                    dirty (nodes s' c) = true) as Ha.
  { intros c [r [Hr <-]] Kc. apply Mk; [exact Kc|]. apply M; [|now apply Rr].
    now rewrite (G _ subs (fun _ _ => eq_refl)). }
  assert (forall m c, dirty (nodes s m) = false -> dirty (nodes s' m) = true ->
                      has_ref s m c -> kind (nodes s c) = ComputedNode ->
                      dirty (nodes s' c) = true) as Hb.
  { intros m c D0 D1 [r [Hr <-]] Kc. apply Mk; [exact Kc|]. apply (Cl m r).
    - now rewrite (G _ dirty (fun _ _ => eq_refl)).
    - exact D1.
    - now apply Rr. }
  assert (pure_graph rank s') as P'.
  { split; [|exact Col]. intros m. rewrite Fn.
    apply (formula_static rank s s' _ _ K). apply (proj1 P). }
  split; [exact P'|].
  assert (forall k c, rank c < k -> kind (nodes s' c) = ComputedNode ->
                      stale (nodes s' c) = false ->
                      cache_ok rank s' c /\ current rank s' c = current rank s c) as Main.
  { induction k as [|k IH]; intros c Hk Kc Sc; [lia|].
    rewrite K in Kc. apply stale_false in Sc. destruct Sc as [Dc [w Cw]].
    assert (dirty (nodes s c) = false) as Dc0.
    { destruct (dirty (nodes s c)) eqn:X; [|reflexivity]. apply D in X. congruence. }
    assert (stale (nodes s c) = false) as Sc0.
    { apply stale_false. split; [exact Dc0|]. exists w. now rewrite <- CV. }
    destruct (F c Kc Sc0) as [A T].
    assert (forall m, In m (trace (current rank s) (fn (nodes s c))) ->
                      current rank s' m = current rank s m /\ settled s' m) as E.
    { intros m Hm. destruct (T m Hm) as [Sm Rm].
      assert (rank m < rank c) as Lm.
      { exact (trace_below rank s _ _ _ (proj1 P c) m Hm). }
      assert (m <> n) as Nm.
      { intros ->. pose proof (Ha c Rm Kc). congruence. }
      destruct Sm as [Km|[Km Stm]].
      - split; [|left; now rewrite K].
        rewrite !current_signal by (try rewrite K; exact Km). now rewrite W.
      - apply stale_false in Stm. destruct Stm as [Dm [u Cu]].
        assert (dirty (nodes s' m) = false) as Dm'.
        { destruct (dirty (nodes s' m)) eqn:X; [|reflexivity].
          pose proof (Hb m c Dm X Rm Kc). congruence. }
        assert (stale (nodes s' m) = false) as Stm'.
        { apply stale_false. split; [exact Dm'|]. exists u. now rewrite CV. }
        assert (kind (nodes s' m) = ComputedNode) as Km' by now rewrite K.
        destruct (IH m ltac:(lia) Km' Stm') as [_ X].
        split; [exact X | right; split; assumption]. }
    destruct (denote_prog_ext (current rank s) (current rank s') (fn (nodes s c)))
      as [Dp Tp]. { intros m Hm. now destruct (E m Hm). }
    assert (kind (nodes s' c) = ComputedNode) as Kc' by now rewrite K.
    destruct (current_computed rank s' c P' Kc') as [C1 _].
    destruct (current_computed rank s c P Kc) as [C0 _].
    assert (current rank s' c = current rank s c) as Eq.
    { now rewrite C1, Fn, Dp, <- C0. }
    split; [|exact Eq]. split.
    - now rewrite Eq, A, CV.
    - intros m Hm. rewrite Fn, Tp in Hm. destruct (E m Hm) as [_ X].
      split; [exact X|]. apply R. now destruct (T m Hm). }
  intros c Kc Sc. now destruct (Main (S (rank c)) c (le_n _) Kc Sc).
Qed.

Lemma Signal_set_fresh (V : version) (rank : node_id -> nat) (n : node_id) (v : Z)
      (s s' : State) :
  pure_graph rank s -> fresh rank s -> context s = None ->
  Signal_set V n v s = Some s' ->
  pure_graph rank s' /\ fresh rank s' /\ context s' = None.
Proof.
  intros P F C H. pose proof (Signal_set_context _ _ _ _ H) as C'. rewrite C in C'.
  assert (kind (nodes s n) = WritableNode) as K.
  { unfold Signal_set in H. destruct (kind (nodes s n)); try discriminate. reflexivity. }
  rewrite Signal_set_unfold in H by exact K. rewrite (addAsSub_top V n s C) in H.
  destruct (equal _ _ _).
  - injection H as <-. auto.
  - destruct (fresh_setValue V rank n v s s' P F H). auto.
Qed.

Lemma run_ops_fresh (V : version) (rank : node_id -> nat) (fuel : nat) (ops : list op) :
  forall s s',
    pure_graph rank s -> fresh rank s -> context s = None ->
    run_ops V fuel ops s = Some s' ->
    pure_graph rank s' /\ fresh rank s' /\ context s' = None.
Proof.
  induction ops as [|o ops IH]; intros s s' P F C H; simpl in H.
  - injection H as <-. auto.
  - destruct (run_op V fuel o s) as [s1|] eqn:E; [|discriminate].
    assert (pure_graph rank s1 /\ fresh rank s1 /\ context s1 = None) as [P1 [F1 C1]].
    { destruct o as [n|n v|]; simpl in E.
      - destruct (getValue V fuel n s) as [[r s2]|] eqn:G; [|discriminate].
        injection E as ->.
        destruct (getValue_fresh V rank fuel n s r s1 P F) as [w [_ [_ [L [F1 [C1 _]]]]]];
          [intros x Hx; congruence | exact G |].
        split; [exact (pure_graph_static rank s s1 (ln_static _ _ _ _ L) P)|].
        split; [exact F1 | congruence].
      - exact (Signal_set_fresh V rank n v s s1 P F C E).
      - destruct (runMicrotasks_fresh V rank fuel s s1 P F E) as [P1 [F1 C1]].
        split; [exact P1|]. split; [exact F1 | congruence]. }
    exact (IH s1 s' P1 F1 C1 H).
Qed.

(** ** Getters return *)

Lemma pure_graph_pull (V : version) (rank : node_id -> nat) (s s' : State) :
  pull_rel V s s' -> pure_graph rank s -> pure_graph rank s'.
Proof.
  intros Pl [F C]. split; intros m.
  - rewrite (pl_fn Pl). apply (formula_static rank s s'); [|apply F].
    intros x. apply (pl_kind x Pl).
  - rewrite (pl_collected Pl). apply C.
Qed.

Lemma exec_returns (V : version) (rank : node_id -> nat)
      (rd : node_id -> State -> option (Result Z * State)) (b : nat) :
  (forall n s r s', rd n s = Some (r, s') -> pull_rel V s s') ->
  (forall n s, pure_graph rank s -> rank n < b ->
               kind (nodes s n) = WritableNode \/ kind (nodes s n) = ComputedNode ->
               exists r s', rd n s = Some (r, s')) ->
  forall p s, pure_graph rank s -> formula rank s b p ->
              exists r s', exec V rd p s = Some (r, s').
Proof.
  intros Hp Hr. induction p as [v| |n k IH|n v k IH|v k IH]; intros s P Fo; simpl in *.
  - eauto.
  - eauto.
  - destruct Fo as [Fn [Fk Fv]]. destruct (Hr n s P Fn Fk) as [r1 [s1 E]]. rewrite E.
    destruct r1 as [x|]; [|eauto]. pose proof (Hp _ _ _ _ E) as Pl. apply IH.
    + exact (pure_graph_pull V rank s s1 Pl P).
    + apply (formula_static rank s s1); [|apply Fv]. intros m. apply (pl_kind m Pl).
  - destruct Fo.
  - apply IH.
    + apply (pure_graph_static rank s); [constructor; reflexivity | exact P].
    + apply (formula_static rank s); [reflexivity | exact Fo].
Qed.

Lemma getValue_returns (V : version) (rank : node_id -> nat) (f : nat) :
  forall n s, pure_graph rank s -> rank n < f ->
              kind (nodes s n) = WritableNode \/ kind (nodes s n) = ComputedNode ->
              exists r s', getValue V f n s = Some (r, s').
Proof.
  induction f as [|f IH]; intros n s P L K; [lia|]. rewrite getValue_S.
  destruct K as [K|K]; rewrite K; [eauto|].
  destruct (stale (nodes (addAsSub V n s) n)) eqn:St.
  - unfold compute. cbv zeta.
    destruct (addAsSub_static V n s) as [St0 _].
    pose proof (pure_graph_static rank s _ St0 P) as P0.
    destruct (calm_step rank 0 _ (enter n (addAsSub V n s)) (calm_enter n (addAsSub V n s)))
      as [L1 _].
    pose proof (pure_graph_static rank _ _ (ln_static _ _ _ _ L1) P0) as P1.
    destruct (exec_returns V rank (getValue V f) (rank n) (@getValue_pull V f)) with
        (p := fn (nodes (addAsSub V n s) n)) (s := enter n (addAsSub V n s))
      as [r [s1 E]].
    + intros m s0 Ps Lm Km. apply IH; [exact Ps | lia | exact Km].
    + exact P1.
    + rewrite <- (st_fn _ _ (ln_static _ _ _ _ L1)). apply (proj1 P1).
    + rewrite E. destruct r; eauto.
  - apply stale_false in St. destruct St as [_ [v Cv]]. rewrite Cv. eauto.
Qed.

Lemma fresh_uncached (rank : node_id -> nat) (s : State) :
  (forall c, kind (nodes s c) = ComputedNode -> cvalue (nodes s c) = None) ->
  fresh rank s.
Proof.
  intros H c K S. unfold stale in S. rewrite (H c K) in S. discriminate.
Qed.

(** X2. Under the same assumptions, a derived node that holds a cached value
    and is not marked dirty holds the value its function has on the current
    signal values: a stale cache is always marked. *)
Theorem clean_cache_is_current (V : version) (rank : node_id -> nat) (fuel : nat)
        (ops : list op) (s s' : State) (c : node_id) :
  pure_graph rank s ->
  (forall m, kind (nodes s m) = ComputedNode -> cvalue (nodes s m) = None) ->
  context s = None ->
  run_ops V fuel ops s = Some s' ->
  kind (nodes s' c) = ComputedNode ->
  stale (nodes s' c) = false ->
  cvalue (nodes s' c) = denote (S (rank c)) s' c.
Proof.
  intros P U C H K S.
  destruct (run_ops_fresh V rank fuel ops s s' P (fresh_uncached rank s U) C H) as [_ [F _]].
  destruct (F c K S) as [A _]. symmetry. exact A.
Qed.

(** X1. In a graph whose functions are formulas over lower-ranked nodes,
    started with no cached value: after any sequence of reads, writes and
    ticks, the getter of a signal or derived node returns, and what it
    returns is the value of the node computed from the values the signals
    hold at that moment. *)
Theorem read_returns_current_value (V : version) (rank : node_id -> nat) (fuel : nat)
        (ops : list op) (s s' : State) (n : node_id) :
  pure_graph rank s ->
  (forall m, kind (nodes s m) = ComputedNode -> cvalue (nodes s m) = None) ->
  context s = None ->
  run_ops V fuel ops s = Some s' ->
  kind (nodes s' n) = WritableNode \/ kind (nodes s' n) = ComputedNode ->
  exists v s'',
    getValue V (S (rank n)) n s' = Some (Ok v, s'') /\
    denote (S (rank n)) s' n = Some v.
Proof.
  intros P U C H K.
  destruct (run_ops_fresh V rank fuel ops s s' P (fresh_uncached rank s U) C H)
    as [P' [F' C']].
  destruct (getValue_returns V rank (S (rank n)) n s' P' (le_n _) K) as [r [s'' G]].
  destruct (getValue_fresh V rank (S (rank n)) n s' r s'' P' F') as [v [-> [Cv _]]];
    [intros x Hx; congruence | exact G |].
  exists v, s''. split; [exact G | exact Cv].
Qed.

(** ** A computation that throws *)

Lemma Signal_set_keeps_cache (V : version) (n : node_id) (v : Z) (s s' : State) (d : node_id) :
  Signal_set V n v s = Some s' ->
  cvalue (nodes s' d) = cvalue (nodes s d) /\
  (dirty (nodes s d) = true -> dirty (nodes s' d) = true).
Proof.
  intros H.
  assert (kind (nodes s n) = WritableNode) as K.
  { unfold Signal_set in H. destruct (kind (nodes s n)); try discriminate. reflexivity. }
  rewrite (@Signal_set_unfold V n v s K) in H.
  destruct (addAsSub_static V n s) as [_ DC]. destruct (DC d) as [D C].
  destruct (equal _ _ _).
  - injection H as <-. rewrite C, D. auto.
  - pose proof (setValue_push _ _ _ _ H) as P. rewrite (pr_cvalue P). split.
    + rewrite (blind_upd _ cvalue n d) by reflexivity. exact C.
    + intros Hd. apply (pr_dirty P). rewrite (blind_upd _ dirty n d) by reflexivity.
      now rewrite D.
Qed.

Section KeepsCache.
Variables (V : version) (rank : node_id -> nat) (d : node_id).

Lemma exec_keeps_cache (rd : node_id -> State -> option (Result Z * State)) :
  (forall n s r s', rd n s = Some (r, s') -> pull_rel V s s') ->
  (forall n s r s', stratified rank s -> rank n < rank d -> rd n s = Some (r, s') ->
                    cvalue (nodes s' d) = cvalue (nodes s d) /\
                    (dirty (nodes s d) = true -> dirty (nodes s' d) = true)) ->
  forall p s r s',
    stratified rank s -> reads_below rank (rank d) p ->
    exec V rd p s = Some (r, s') ->
    cvalue (nodes s' d) = cvalue (nodes s d) /\
    (dirty (nodes s d) = true -> dirty (nodes s' d) = true).
Proof.
  intros Hp Hr. induction p as [v| |n k IH|n v k IH|v k IH]; intros s r s' St B H;
    simpl in H, B.
  - injection H as <- <-. auto.
  - injection H as <- <-. auto.
  - destruct B as [Bn Bk]. destruct (rd n s) as [[[v|] s1]|] eqn:E; try discriminate.
    + destruct (Hr n s _ s1 St Bn E) as [C1 D1].
      destruct (IH v s1 r s') as [C2 D2]; auto.
      * eapply stratified_pull; [eapply Hp; exact E | exact St].
      * split; [congruence | auto].
    + injection H as <- <-. eapply Hr; eauto.
  - destruct (Signal_set V n v s) as [s1|] eqn:E; try discriminate.
    destruct (Signal_set_keeps_cache V n v s s1 d E) as [C1 D1].
    destruct (IH s1 r s') as [C2 D2]; auto.
    + eapply stratified_pull; [eapply Signal_set_pull; exact E | exact St].
    + split; [congruence | auto].
  - destruct (IH (emit v s) r s') as [C2 D2]; auto.
Qed.

Lemma getValue_keeps_cache (fuel : nat) :
  forall n s r s',
    stratified rank s -> rank n < rank d ->
    getValue V fuel n s = Some (r, s') ->
    cvalue (nodes s' d) = cvalue (nodes s d) /\
    (dirty (nodes s d) = true -> dirty (nodes s' d) = true).
Proof.
  induction fuel as [|f IH]; intros n s r s' St L H; [discriminate|].
  rewrite getValue_S in H.
  destruct (addAsSub_static V n s) as [_ DC]. destruct (DC d) as [D0 C0].
  pose proof (loose_addAsSub V n s) as A.
  destruct (kind (nodes s n)) eqn:K; try discriminate.
  - injection H as <- <-. rewrite C0, D0. auto.
  - assert (stratified rank (enter n (addAsSub V n s))) as S0.
    { eapply stratified_pull with (V := V); [|exact St].
      eapply pull_rel_trans; [apply loose_pull, A|].
      apply enter_pull. rewrite (lo_kind A), K. discriminate. }
    assert (reads_below rank (rank d) (fn (nodes (addAsSub V n s) n))) as B0.
    { rewrite (lo_fn A). apply reads_below_mono with (a := rank n); [lia|]. now apply St. }
    assert (d <> n) as Nd by (intros ->; lia).
    assert (cvalue (nodes (enter n (addAsSub V n s)) d) = cvalue (nodes s d) /\
            dirty (nodes (enter n (addAsSub V n s)) d) = dirty (nodes s d)) as [C1 D1].
    { unfold enter. rewrite nodes_upd_ne by exact Nd. simpl. auto. }
    destruct (stale (nodes (addAsSub V n s) n)).
    + unfold compute in H. cbv zeta in H.
      destruct (exec V (getValue V f) _ _) as [[[v|] s2]|] eqn:E; try discriminate;
        injection H as <- <-;
        destruct (@exec_keeps_cache (getValue V f) (@getValue_pull V f) IH _ _ _ _ S0 B0 E)
          as [C2 D2].
      * rewrite nodes_upd_ne by exact Nd.
        change (nodes (set_context (context (addAsSub V n s)) (reconcile V n s2)))
          with (nodes (reconcile V n s2)).
        rewrite (blind_reconcile _ cvalue (fun _ _ => eq_refl) (fun _ _ => eq_refl)
                                 (fun _ _ => eq_refl)).
        rewrite (blind_reconcile _ dirty (fun _ _ => eq_refl) (fun _ _ => eq_refl)
                                 (fun _ _ => eq_refl)).
        split; [congruence|]. intros Hd. apply D2. congruence.
      * split; [congruence|]. intros Hd. apply D2. congruence.
    + destruct (cvalue (nodes (addAsSub V n s) n)); [|discriminate].
      injection H as <- <-. rewrite C0, D0. auto.
Qed.
End KeepsCache.

(** X21. When the getter of a node throws, the node is a derived node, its
    cache is what it was and the node is still stale: the next call of the
    getter runs the function again.  The functions of the graph may write
    and emit; derived nodes read lower-ranked nodes. *)
Theorem thrown_computation_is_not_cached (V : version) (rank : node_id -> nat) (fuel : nat)
        (n : node_id) (s s' : State) :
  stratified rank s ->
  getValue V fuel n s = Some (Exn, s') ->
  kind (nodes s n) = ComputedNode /\
  cvalue (nodes s' n) = cvalue (nodes s n) /\
  stale (nodes s' n) = true.
Proof.
  intros St H. destruct fuel as [|f]; [discriminate|]. rewrite getValue_S in H.
  destruct (addAsSub_static V n s) as [_ DC]. destruct (DC n) as [D0 C0].
  pose proof (loose_addAsSub V n s) as A.
  destruct (kind (nodes s n)) eqn:K; try discriminate.
  split; [reflexivity|].
  assert (stratified rank (enter n (addAsSub V n s))) as S0.
  { eapply stratified_pull with (V := V); [|exact St].
    eapply pull_rel_trans; [apply loose_pull, A|].
    apply enter_pull. rewrite (lo_kind A), K. discriminate. }
  assert (reads_below rank (rank n) (fn (nodes (addAsSub V n s) n))) as B0.
  { rewrite (lo_fn A). now apply St. }
  assert (cvalue (nodes (enter n (addAsSub V n s)) n) = cvalue (nodes s n) /\
          dirty (nodes (enter n (addAsSub V n s)) n) = dirty (nodes s n)) as [C1 D1].
  { unfold enter. rewrite nodes_upd_eq. simpl. auto. }
  destruct (stale (nodes (addAsSub V n s) n)) eqn:Sn.
  - unfold compute in H. cbv zeta in H.
    destruct (exec V (getValue V f) _ _) as [[[v|] s2]|] eqn:E; try discriminate.
    injection H as <-.
    destruct (@exec_keeps_cache V rank n (getValue V f) (@getValue_pull V f)
                (getValue_keeps_cache V rank n f) _ _ _ _ S0 B0 E) as [C2 D2].
    split; [congruence|].
    unfold stale in Sn |- *. rewrite C2, C1. rewrite C0 in Sn.
    destruct (cvalue (nodes s n)); [|reflexivity].
    apply D2. rewrite D1. now rewrite D0 in Sn.
  - destruct (cvalue (nodes (addAsSub V n s) n)); discriminate.
Qed.

(** A derived node whose function reads a signal and throws. *)
Lemma thrown_computation_is_not_cached_witness :
  kind (nodes thrower0 1) = ComputedNode /\
  cvalue (nodes (after_read Vindex 2 1 thrower0) 1) = cvalue (nodes thrower0 1) /\
  stale (nodes (after_read Vindex 2 1 thrower0) 1) = true.
Proof.
  apply (thrown_computation_is_not_cached Vindex (fun n => n) 2 1 thrower0).
  - intros m. do 2 (destruct m as [|m]; [vm_compute; try discriminate; intros _; repeat split; lia|]).
    vm_compute. discriminate.
  - exact thrower_read.
Defined.

(** ** Dependencies stay subscribed *)

Lemma reconcile_deps_incl (V : version) (n x : node_id) (s : State) :
  In x (deps (nodes (reconcile V n s) n)) -> In x (ctxDeps (nodes s n)).
Proof.
  intros H. destruct (in_dec Nat.eq_dec x (ctxDeps (nodes s n))) as [Y|N]; [exact Y|].
  exfalso. exact (reconcile_drops_unread V n x s N H).
Qed.

Lemma deps_subscribed_same (s s' : State) :
  same_edges s s' -> deps_subscribed s -> deps_subscribed s'.
Proof.
  intros E I a b L H. destruct (E b) as [_ [Db [Cb Lb]]]. rewrite Lb in L.
  rewrite Db, Cb in H. destruct (I a b L H) as [r [Hr Ht]].
  exists r. split; [|exact Ht]. destruct (E a) as [-> _]. exact Hr.
Qed.

Lemma deps_subscribed_run_ops (V : version) (fuel : nat) (ops : list op) (s s' : State) :
  run_ops V fuel ops s = Some s' -> deps_subscribed s -> deps_subscribed s'.
Proof.
  apply (run_ops_inv V deps_subscribed).
  - intros n s0 I a b L H.
    rewrite (blind_addAsSub _ collected (fun _ _ => eq_refl) (fun _ _ => eq_refl)) in L.
    rewrite (blind_addAsSub _ deps (fun _ _ => eq_refl) (fun _ _ => eq_refl)) in H.
    unfold addAsSub in *. destruct (context s0) as [ctx|] eqn:C; [|now apply I].
    rewrite nodes_upd in H. destruct (Nat.eqb b ctx) eqn:E.
    + apply Nat.eqb_eq in E. subst b. simpl in H. rewrite set_add_In in H.
      rewrite subscribe_ctxDeps in H.
      assert (a = n \/ (In a (deps (nodes s0 ctx)) \/ In a (ctxDeps (nodes s0 ctx)))) as H' by tauto.
      destruct H' as [->|H'].
      * destruct (subscribe_has_ref V n ctx s0) as [r [Hr Ht]]. exists r. split; [|exact Ht].
        rewrite nodes_upd. destruct (Nat.eqb n ctx) eqn:E'; [|exact Hr].
        apply Nat.eqb_eq in E'. now subst n.
      * destruct (I a ctx L H') as [r [Hr Ht]]. exists r. split; [|exact Ht].
        rewrite nodes_upd.
        assert (In r (subs (nodes (subscribe V n ctx s0) a))) as X
            by now apply subscribe_subs_incl.
        destruct (Nat.eqb a ctx) eqn:E'; [|exact X]. apply Nat.eqb_eq in E'. now subst a.
    + rewrite subscribe_ctxDeps in H.
      destruct (I a b L H) as [r [Hr Ht]]. exists r. split; [|exact Ht].
      rewrite nodes_upd.
      assert (In r (subs (nodes (subscribe V n ctx s0) a))) as X
          by now apply subscribe_subs_incl.
      destruct (Nat.eqb a ctx) eqn:E'; [|exact X]. apply Nat.eqb_eq in E'. now subst a.
  - intros s0 s1 P I a b L H. rewrite (pr_collected P) in L.
    rewrite (pr_deps P), (pr_ctxDeps P) in H. destruct (I a b L H) as [r [Hr Ht]].
    exists r. split; [|exact Ht]. apply (pr_subs_live P); [exact Hr | now rewrite Ht].
  - intros n v s0. apply deps_subscribed_same, same_edges_upd. intros x. simpl. tauto.
  - intros n s0. apply deps_subscribed_same. unfold enter. intros m. rewrite nodes_upd.
    simpl. destruct (Nat.eqb m n) eqn:E; [|tauto].
    apply Nat.eqb_eq in E. subst m. simpl. tauto.
  - intros v s0. apply deps_subscribed_same. intros m. simpl. tauto.
  - intros n c s0 I. apply (deps_subscribed_same (reconcile V n s0)).
    { intros m. simpl. tauto. }
    intros a b L H.
    rewrite (blind_reconcile _ collected (fun _ _ => eq_refl) (fun _ _ => eq_refl)
                             (fun _ _ => eq_refl)) in L.
    destruct (Nat.eq_dec b n) as [->|N].
    + assert (In a (ctxDeps (nodes s0 n))) as Hc.
      { destruct H as [H|H]; [now apply (reconcile_deps_incl V n a s0)|].
        unfold reconcile in H. rewrite nodes_upd_eq in H. destruct H. }
      apply has_ref_reconcile; [now right|]. apply I; [exact L | now right].
    + apply has_ref_reconcile; [now left|]. apply I; [exact L|].
      rewrite ctxDeps_reconcile in H by exact N.
      assert (deps (nodes (reconcile V n s0) b) = deps (nodes s0 b)) as Db.
      { unfold reconcile. rewrite nodes_upd_ne by exact N.
        assert (forall l t, deps (nodes (fold_left (adopt_step n) l t) b) = deps (nodes t b)) as A.
        { induction l as [|d l IH]; intros t; simpl; [reflexivity|]. rewrite IH.
          unfold adopt_step. destruct (set_has _ _); [reflexivity|]. now rewrite nodes_upd_ne. }
        assert (forall l t, deps (nodes (fold_left (prune_step V n) l t) b) = deps (nodes t b)) as P.
        { induction l as [|d l IH]; intros t; simpl; [reflexivity|]. rewrite IH.
          unfold prune_step. destruct (set_has _ _); [reflexivity|].
          destruct (unsubscribe_edges V d n b (upd n (fun y => with_deps (set_delete d (deps y)) y) t))
            as [-> _]. now rewrite nodes_upd_ne. }
        now rewrite A, P. }
      now rewrite Db in H.
  - intros n v s0. apply deps_subscribed_same, same_edges_upd. intros x. simpl. tauto.
  - intros e s0. apply deps_subscribed_same, same_edges_upd. intros x. simpl. tauto.
  - intros q s0. apply deps_subscribed_same. intros m. simpl. tauto.
  - intros s0. apply deps_subscribed_same. intros m. simpl. tauto.
Qed.

(** X3. In both copies, whatever the functions do: once every dependency
    holds a reference to its dependent, reads, writes and ticks keep it so;
    for every live node [b] and every [a] in [b.deps], [a.subs] holds a
    reference that resolves to [b]. *)
Theorem dependencies_stay_subscribed (V : version) (fuel : nat) (ops : list op) (s s' : State) :
  deps_subscribed s ->
  run_ops V fuel ops s = Some s' ->
  forall a b, collected (nodes s' b) = false -> In a (deps (nodes s' b)) ->
              exists r, In r (subs (nodes s' a)) /\ deref s' r = Some b.
Proof.
  intros I H a b L Hd.
  destruct (deps_subscribed_run_ops V fuel ops s s' H I a b L (or_introl Hd)) as [r [Hr Ht]].
  exists r. split; [exact Hr|]. unfold deref. now rewrite Ht, L.
Qed.

(** ** Reclaimed nodes are left alone *)

Lemma notify_skips_collected (V : version) (mark : node_id -> State -> option State)
      (this e : node_id) :
  e <> this ->
  (forall n s s', mark n s = Some s' -> collected (nodes s n) = false ->
                  collected (nodes s e) = true ->
                  push_rel V s s' /\ nodes s' e = nodes s e /\ pending e s' = pending e s) ->
  forall refs s s',
    notify mark this refs s = Some s' -> collected (nodes s e) = true ->
    nodes s' e = nodes s e /\ pending e s' = pending e s.
Proof.
  intros Ne Hm. induction refs as [|r rest IH]; intros s s' H C; simpl in H.
  - injection H as <-. auto.
  - destruct (deref s r) as [sub|] eqn:Hd.
    + destruct (mark sub s) as [s1|] eqn:M; [|discriminate].
      assert (collected (nodes s sub) = false) as Cs.
      { unfold deref in Hd. destruct (collected (nodes s (ref_target r))) eqn:X; [discriminate|].
        injection Hd as <-. exact X. }
      destruct (Hm _ _ _ M Cs C) as [P [N1 Q1]].
      destruct (IH s1 s' H) as [N2 Q2]; [now rewrite N1|]. split; congruence.
    + destruct (IH _ s' H) as [N2 Q2].
      { unfold delete_ref. now rewrite nodes_upd_ne. }
      split; [|exact Q2]. rewrite N2. unfold delete_ref. now rewrite nodes_upd_ne.
Qed.

Lemma markAsDisty_fuel_skips_collected (V : version) (e : node_id) (fuel : nat) :
  forall n s s',
    markAsDisty_fuel V fuel n s = Some s' -> collected (nodes s n) = false ->
    collected (nodes s e) = true ->
    push_rel V s s' /\ nodes s' e = nodes s e /\ pending e s' = pending e s.
Proof.
  induction fuel as [|f IH]; intros n s s' H Cn Ce; [discriminate|].
  split; [exact (@markAsDisty_fuel_push V (S f) n s s' H)|].
  assert (e <> n) as Ne by (intros ->; congruence).
  simpl in H.
  assert ((if dirty (nodes s n) then Some s
           else notify (markAsDisty_fuel V f) n (subs (nodes (upd n (with_dirty true) s) n))
                       (upd n (with_dirty true) s)) = Some s' ->
          nodes s' e = nodes s e /\ pending e s' = pending e s) as Main.
  { destruct (dirty (nodes s n)).
    - intros X. injection X as <-. auto.
    - intros X.
      destruct (notify_skips_collected V (markAsDisty_fuel V f) n e Ne IH _ _ _ X) as [A B].
      + now rewrite nodes_upd_ne.
      + rewrite A. split; [now rewrite nodes_upd_ne | exact B]. }
  destruct (kind (nodes s n)); try discriminate; try (now apply Main).
  injection H as <-. unfold EffectNode_markAsDisty.
  destruct (effect_blocked V (nodes s n)); [auto|]. unfold schedule. split.
  - now rewrite nodes_upd_ne.
  - unfold pending. simpl. rewrite count_occ_app. simpl.
    destruct (Nat.eq_dec n e) as [->|_]; [congruence | apply Nat.add_0_r].
Qed.

Lemma setValue_skips_collected (V : version) (n : node_id) (v : Z) (s s' : State)
        (e : node_id) :
  setValue V n v s = Some s' ->
  collected (nodes s e) = true -> e <> n ->
  nodes s' e = nodes s e /\ pending e s' = pending e s.
Proof.
  intros H C Ne. unfold setValue in H. cbv zeta in H.
  destruct (notify_skips_collected V (markAsDisty V) n e Ne
              (fun a b c => markAsDisty_fuel_skips_collected V e _ a b c) _ _ _ H) as [A B].
  - now rewrite nodes_upd_ne.
  - split; [rewrite A; now rewrite nodes_upd_ne | exact B].
Qed.

(** X7. After [setValue] the subscriber set of the signal holds exactly the
    references it held to objects that were not reclaimed; a reclaimed object
    is not touched and no task is queued for it. *)
Theorem setValue_drops_reclaimed (V : version) (n : node_id) (v : Z) (s s' : State) :
  setValue V n v s = Some s' ->
  (forall r, In r (subs (nodes s' n)) <->
             In r (subs (nodes s n)) /\ collected (nodes s (ref_target r)) = false) /\
  (forall e, collected (nodes s e) = true -> e <> n ->
             nodes s' e = nodes s e /\ pending e s' = pending e s).
Proof.
  intros H. split.
  - exact (setValue_live_refs V n v s s' H).
  - intros e. exact (setValue_skips_collected V n v s s' e H).
Qed.

(** ** Graphs as the factories declare them *)

(** A heap without edges satisfies every edge invariant. *)
Lemma no_edges_guard_inv (s : State) :
  (forall m, subs (nodes s m) = [] /\ deps (nodes s m) = [] /\ ctxDeps (nodes s m) = []) ->
  guard_inv s /\ deps_subscribed s.
Proof.
  intros H. split; [split|].
  - intros a b _. destruct (H b) as [_ [-> ->]]. destruct (H a) as [-> _]. simpl.
    split; [tauto | intros [r [[] _]]].
  - intros this r1 r2 H1. destruct (H this) as [E _]. rewrite E in H1. destruct H1.
  - intros a b _. destruct (H b) as [_ [-> ->]]. simpl. tauto.
Qed.

Lemma declared_init : declared init.
Proof.
  constructor; try reflexivity; simpl; auto.
  - intros n _. reflexivity.
  - constructor.
  - intros e. split; [intros [] | discriminate].
  - discriminate.
Qed.

Lemma declared_alloc (x : Node) (s : State) :
  declared s ->
  kind x = WritableNode \/ kind x = ComputedNode ->
  subs x = [] -> deps x = [] -> ctxDeps x = [] -> collected x = false ->
  dirty x = false -> cvalue x = None -> runs x = 0 ->
  declared (snd (alloc x s)).
Proof.
  intros D K S1 S2 S3 S4 S5 S6 S7.
  assert (forall m, nodes (snd (alloc x s)) m = if Nat.eqb m (size s) then x else nodes s m)
    as N by reflexivity.
  assert (kind (nodes s (size s)) = Free) as Fr by (apply (dc_bounded _ D); lia).
  constructor.
  - intros m Hm. simpl in Hm. rewrite N. destruct (Nat.eqb m (size s)) eqn:E.
    + apply Nat.eqb_eq in E. lia.
    + apply (dc_bounded _ D). lia.
  - exact (dc_context _ D).
  - exact (dc_log _ D).
  - intros m. rewrite N. destruct (Nat.eqb m (size s)); [auto | apply (dc_edges _ D)].
  - intros m. rewrite N. destruct (Nat.eqb m (size s)); [auto | apply (dc_live _ D)].
  - intros m. rewrite N. destruct (Nat.eqb m (size s)); [auto | apply (dc_clean _ D)].
  - exact (dc_queue _ D).
  - intros e. rewrite N. change (queue (snd (alloc x s))) with (queue s).
    destruct (Nat.eqb e (size s)) eqn:E; [|apply (dc_effects _ D)].
    apply Nat.eqb_eq in E. subst e. rewrite (dc_effects _ D), Fr.
    split; [discriminate | destruct K as [-> | ->]; discriminate].
  - intros e. rewrite N. destruct (Nat.eqb e (size s)); [|apply (dc_sched _ D)].
    destruct K as [-> | ->]; discriminate.
Qed.

Lemma declared_Effect (V : version) (f : prog) (s : State) :
  declared s -> declared (snd (Effect V f s)).
Proof.
  intros D.
  assert (kind (nodes s (size s)) = Free) as Fr by (apply (dc_bounded _ D); lia).
  assert (queue (snd (Effect V f s)) = queue s ++ [size s]) as Q
      by (rewrite Effect_eq; now destruct V).
  assert (~ In (size s) (queue s)) as Nq.
  { intros H. apply (dc_effects _ D) in H. congruence. }
  constructor.
  - intros m Hm. rewrite Effect_node.
    assert (size (snd (Effect V f s)) = S (size s)) as Sz by (rewrite Effect_eq; now destruct V).
    rewrite Sz in Hm. destruct (Nat.eqb m (size s)) eqn:E.
    + apply Nat.eqb_eq in E. lia.
    + apply (dc_bounded _ D). lia.
  - rewrite Effect_eq. destruct V; exact (dc_context _ D).
  - rewrite Effect_eq. destruct V; exact (dc_log _ D).
  - intros m. rewrite Effect_node. destruct (Nat.eqb m (size s)); [auto | apply (dc_edges _ D)].
  - intros m. rewrite Effect_node. destruct (Nat.eqb m (size s)); [auto | apply (dc_live _ D)].
  - intros m. rewrite Effect_node. destruct (Nat.eqb m (size s)); [auto | apply (dc_clean _ D)].
  - rewrite Q. apply NoDup_app; [exact (dc_queue _ D) | repeat constructor; intros [] |].
    intros e H1 [<-|[]]. exact (Nq H1).
  - intros e. rewrite Q, Effect_node, in_app_iff. destruct (Nat.eqb e (size s)) eqn:E.
    + apply Nat.eqb_eq in E. subst e. simpl. tauto.
    + apply Nat.eqb_neq in E. rewrite (dc_effects _ D). simpl. 
      split; [intros [H|[H|[]]]; [exact H | congruence] | auto].
  - intros e. rewrite Effect_node. destruct (Nat.eqb e (size s)); [auto | apply (dc_sched _ D)].
Qed.

Lemma declared_declare (V : version) (d : decl) (s : State) :
  declared s -> declared (declare V s d).
Proof.
  intros D. destruct d as [v eq|f|f]; simpl.
  - apply declared_alloc; auto.
  - apply declared_alloc; auto.
  - now apply declared_Effect.
Qed.

Lemma declare_size (V : version) (d : decl) (s : State) : size (declare V s d) = S (size s).
Proof. destruct d; simpl; try reflexivity. rewrite Effect_eq. now destruct V. Qed.

Lemma build_declared (V : version) (ds : list decl) :
  declared (build V ds) /\ size (build V ds) = length ds.
Proof.
  assert (forall l s, declared s ->
                      declared (fold_left (declare V) l s) /\
                      size (fold_left (declare V) l s) = size s + length l) as F.
  { induction l as [|d l IH]; intros s D; simpl.
    - split; [exact D | lia].
    - destruct (IH _ (declared_declare V d s D)) as [A B]. split; [exact A|].
      rewrite B, declare_size. lia. }
  exact (F ds init declared_init).
Qed.

(** X18. After any sequence of [Signal], [Computed] and [Effect] calls on
    the empty machine: one node per call, no edge, nothing dirty, cached,
    run or reclaimed, [context] is [NONE], and the microtask queue holds
    every effect exactly once and nothing else. *)
Theorem factories_declare_an_idle_graph (V : version) (ds : list decl) :
  declared (build V ds) /\ size (build V ds) = length ds /\
  (forall e, count_occ Nat.eq_dec (queue (build V ds)) e =
             if Kind_eqb (kind (nodes (build V ds) e)) EffectNode then 1 else 0) /\
  refs_ok (build V ds) /\ guard_inv (build V ds) /\ deps_subscribed (build V ds).
Proof.
  destruct (build_declared V ds) as [D S]. split; [exact D|]. split; [exact S|].
  destruct (no_edges_guard_inv _ (dc_edges _ D)) as [G1 G2].
  split; [|split; [|split; [exact G1 | exact G2]]].
  2: { intros m r Hr. destruct (dc_edges _ D m) as [E _]. rewrite E in Hr. destruct Hr. }
  intros e.
  assert (kind (nodes (build V ds) e) <> EffectNode ->
          count_occ Nat.eq_dec (queue (build V ds)) e = 0) as No.
  { intros N. apply count_occ_not_In. intros H. now apply (dc_effects _ D) in H. }
  destruct (kind (nodes (build V ds) e)) eqn:K; simpl;
    try (apply No; discriminate).
  apply NoDup_count_occ'; [exact (dc_queue _ D)|]. now apply (dc_effects _ D).
Qed.

(** ** Operations return *)

Lemma subs_unsubscribe_incl (V : version) (this sub m : node_id) (s : State) (r : WeakRef) :
  In r (subs (nodes (unsubscribe V this sub s) m)) -> In r (subs (nodes s m)).
Proof.
  destruct V; unfold unsubscribe.
  - destruct (find _ _); [|auto]. unfold delete_ref. rewrite nodes_upd.
    destruct (Nat.eqb m this) eqn:E; [|auto]. apply Nat.eqb_eq in E. subst m.
    simpl. intros H. apply filter_In in H. tauto.
  - rewrite nodes_upd. destruct (Nat.eqb m this) eqn:E; [|auto].
    apply Nat.eqb_eq in E. subst m. simpl. intros H. apply filter_In in H. tauto.
Qed.

Lemma subs_reconcile_incl (V : version) (x m : node_id) (s : State) (r : WeakRef) :
  In r (subs (nodes (reconcile V x s) m)) -> In r (subs (nodes s m)).
Proof.
  unfold reconcile. rewrite (blind_upd _ subs x m (with_ctxDeps [])) by reflexivity.
  rewrite (blind_fold _ subs (adopt_step x) m).
  2: { intros s0 d. unfold adopt_step. destruct (set_has _ _); [reflexivity|].
       now apply blind_upd. }
  generalize (deps (nodes s x)). intros l. revert s.
  induction l as [|d l IH]; intros s H; simpl in H; [exact H|].
  apply IH in H. unfold prune_step in H. destruct (set_has _ _); [exact H|].
  apply subs_unsubscribe_incl in H.
  now rewrite (blind_upd _ subs x m) in H by reflexivity.
Qed.

Lemma sound_heap_same (s s' : State) :
  size s' = size s -> context s' = context s ->
  (forall m, kind (nodes s' m) = kind (nodes s m)) ->
  (forall m r, In r (subs (nodes s' m)) -> In r (subs (nodes s m))) ->
  sound_heap s -> sound_heap s'.
Proof.
  intros Sz Cx K Su [B [R C]]. split; [|split].
  - intros m Hm. rewrite K. apply B. now rewrite <- Sz.
  - intros m r Hr. rewrite K. apply (R m). now apply Su.
  - intros c Hc. rewrite K. apply C. now rewrite <- Cx.
Qed.

Lemma sound_heap_addAsSub (V : version) (n : node_id) (s : State) :
  sound_heap s -> sound_heap (addAsSub V n s).
Proof.
  intros [B [R C]].
  assert (forall m, kind (nodes (addAsSub V n s) m) = kind (nodes s m)) as K.
  { intros m. now apply blind_addAsSub. }
  destruct (addAsSub_state V n s) as [Sz [Cx _]].
  split; [|split].
  - intros m Hm. rewrite K. apply B. now rewrite <- Sz.
  - intros m r Hr. rewrite K. unfold addAsSub in Hr. destruct (context s) as [c|] eqn:E.
    + rewrite (blind_upd _ subs c m) in Hr by reflexivity.
      destruct (Nat.eq_dec m n) as [->|N].
      * apply subscribe_subs_cases in Hr. destruct Hr as [Hr| ->]; [now apply (R n)|].
        now apply C.
      * rewrite subscribe_subs_other in Hr by exact N. now apply (R m).
    + now apply (R m).
  - intros c Hc. rewrite K. apply C. now rewrite <- Cx.
Qed.

Lemma sound_heap_exit (V : version) (x : node_id) (prev : option node_id) (s : State) :
  sound_heap s -> (forall c, prev = Some c -> kind (nodes s c) <> Free) ->
  sound_heap (set_context prev (reconcile V x s)).
Proof.
  intros [B [R C]] Pc.
  assert (forall m, kind (nodes (reconcile V x s) m) = kind (nodes s m)) as K.
  { intros m. now apply blind_reconcile. }
  split; [|split].
  - intros m Hm. change (kind (nodes (reconcile V x s) m) = Free). rewrite K. apply B.
    change (size (reconcile V x s) <= m) in Hm.
    now rewrite (lo_size (loose_reconcile V x s)) in Hm.
  - intros m r Hr. change (kind (nodes (reconcile V x s) (ref_target r)) <> Free).
    rewrite K. apply (R m). eapply subs_reconcile_incl. exact Hr.
  - intros c Hc. change (kind (nodes (reconcile V x s) c) <> Free). rewrite K.
    now apply Pc.
Qed.

Section Progress.
Variables (V : version) (rank : node_id -> nat).
Variable rd : node_id -> State -> option (Result Z * State).
Variable b : nat.

Hypothesis rd_pull : forall n s r s', rd n s = Some (r, s') -> pull_rel V s s'.
Hypothesis rd_returns :
  forall n s, pure_graph rank s -> sound_heap s -> rank n < b ->
              kind (nodes s n) = WritableNode \/ kind (nodes s n) = ComputedNode ->
              exists v s', rd n s = Some (Ok v, s') /\ sound_heap s' /\
                           context s' = context s.

Lemma exec_progress :
  forall p s, pure_graph rank s -> sound_heap s -> formula rank s b p ->
              exists v s', exec V rd p s = Some (Ok v, s') /\ sound_heap s' /\
                           context s' = context s.
Proof.
  induction p as [v| |n k IH|n v k IH|v k IH]; intros s P H Fo; simpl in *.
  - eauto.
  - destruct Fo.
  - destruct Fo as [Fn [Fk Fv]]. destruct (rd_returns n s P H Fn Fk) as [x [s1 [E [H1 C1]]]].
    rewrite E. pose proof (rd_pull _ _ _ _ E) as Pl.
    destruct (IH x s1) as [w [s2 [E2 [H2 C2]]]].
    + exact (pure_graph_pull V rank s s1 Pl P).
    + exact H1.
    + apply (formula_static rank s s1); [|apply Fv]. intros m. apply (pl_kind m Pl).
    + exists w, s2. split; [exact E2|]. split; [exact H2 | congruence].
  - destruct Fo.
  - destruct (IH (emit v s)) as [w [s2 [E2 [H2 C2]]]].
    + apply (pure_graph_static rank s); [constructor; reflexivity | exact P].
    + apply (sound_heap_same s); auto.
    + apply (formula_static rank s); [reflexivity | exact Fo].
    + exists w, s2. auto.
Qed.
End Progress.

Lemma sound_heap_enter (x : node_id) (s : State) :
  sound_heap s -> kind (nodes s x) <> Free -> sound_heap (enter x s).
Proof.
  intros [B [R C]] K0.
  assert (forall m, kind (nodes (enter x s) m) = kind (nodes s m)) as K.
  { intros m. now destruct (enter_fields x m s). }
  assert (forall m, subs (nodes (enter x s) m) = subs (nodes s m)) as Su.
  { intros m. unfold enter. rewrite (blind_upd _ subs x m) by reflexivity. reflexivity. }
  split; [|split].
  - intros m Hm. rewrite K. now apply B.
  - intros m r Hr. rewrite K. apply (R m). now rewrite <- Su.
  - intros c Hc. rewrite K. injection Hc as <-. exact K0.
Qed.

(** [context = x; fn(); loops; context = prev] returns. *)
Lemma evaluation_progress (V : version) (rank : node_id -> nat) (f : nat) (x : node_id)
      (s : State) :
  (forall n s0, pure_graph rank s0 -> sound_heap s0 -> rank n < f ->
                kind (nodes s0 n) = WritableNode \/ kind (nodes s0 n) = ComputedNode ->
                exists v s', getValue V f n s0 = Some (Ok v, s') /\ sound_heap s' /\
                             context s' = context s0) ->
  rank x <= f ->
  pure_graph rank s -> sound_heap s -> kind (nodes s x) <> Free ->
  exists v s1,
    exec V (getValue V f) (fn (nodes s x)) (enter x s) = Some (Ok v, s1) /\
    sound_heap (set_context (context s) (reconcile V x s1)).
Proof.
  intros IH Lx P H K.
  destruct (calm_step rank 0 s (enter x s) (calm_enter x s)) as [L1 _].
  pose proof (pure_graph_static rank _ _ (ln_static _ _ _ _ L1) P) as P1.
  destruct (exec_progress V rank (getValue V f) (rank x) (@getValue_pull V f)) with
      (p := fn (nodes s x)) (s := enter x s) as [v [s1 [E [H1 C1]]]].
  - intros m s0 Ps Hs Lm Km. apply IH; auto. lia.
  - exact P1.
  - now apply sound_heap_enter.
  - rewrite <- (st_fn _ _ (ln_static _ _ _ _ L1)). apply (proj1 P1).
  - exists v, s1. split; [exact E|]. apply sound_heap_exit; [exact H1|].
    intros c Hc. pose proof (@exec_pull V (getValue V f) (@getValue_pull V f) _ _ _ _ E) as Pl.
    rewrite (pl_kind c Pl). destruct (enter_fields x c s) as [-> _].
    destruct H as [_ [_ C]]. now apply C.
Qed.

Lemma getValue_progress (V : version) (rank : node_id -> nat) (f : nat) :
  forall n s, pure_graph rank s -> sound_heap s -> rank n < f ->
              kind (nodes s n) = WritableNode \/ kind (nodes s n) = ComputedNode ->
              exists v s', getValue V f n s = Some (Ok v, s') /\ sound_heap s' /\
                           context s' = context s.
Proof.
  induction f as [|f IH]; intros n s P H L K; [lia|]. rewrite getValue_S.
  pose proof (sound_heap_addAsSub V n s H) as H0.
  destruct (addAsSub_state V n s) as [_ [C0 _]].
  destruct (addAsSub_static V n s) as [St0 _].
  destruct K as [K|K]; rewrite K.
  - eauto.
  - destruct (stale (nodes (addAsSub V n s) n)) eqn:St.
    + unfold compute. cbv zeta.
      destruct (evaluation_progress V rank f n (addAsSub V n s)) as [v [s1 [E H1]]].
      * exact IH.
      * lia.
      * exact (pure_graph_static rank s _ St0 P).
      * exact H0.
      * rewrite (st_kind _ _ St0), K. discriminate.
      * rewrite E. eexists. eexists. split; [reflexivity|]. split.
        -- revert H1. apply sound_heap_same; try reflexivity.
           ++ intros m. now apply blind_upd.
           ++ intros m r. now rewrite (blind_upd _ subs n m) by reflexivity.
        -- exact C0.
    + apply stale_false in St. destruct St as [_ [v Cv]]. rewrite Cv. eauto.
Qed.

Lemma pure_graph_observers (rank : node_id -> nat) (s : State) :
  pure_graph rank s -> observers s.
Proof. intros [F _] m. exact (formula_write_free rank s _ _ (F m)). Qed.

Lemma runTask_progress (V : version) (rank : node_id -> nat) (f : nat) (e : node_id)
      (s : State) :
  rank e <= f ->
  pure_graph rank s -> sound_heap s -> kind (nodes s e) = EffectNode ->
  exists s',
    runTask V f e s = Some (Ok tt, s') /\
    pure_graph rank s' /\ sound_heap s' /\ context s' = context s /\
    size s' = size s /\ queue s' = queue s /\
    (forall m, kind (nodes s' m) = kind (nodes s m)) /\
    (forall m, m <> e -> taskScheduled (nodes s' m) = taskScheduled (nodes s m)).
Proof.
  intros Rk P H K.
  destruct (evaluation_progress V rank f e s) as [v [s1 [E H1]]].
  - intros n s0 P0 H0 L0 K0. now apply (getValue_progress V rank f).
  - exact Rk.
  - exact P.
  - exact H.
  - rewrite K. discriminate.
  - set (s2 := set_context (context s) (reconcile V e s1)) in *.
    set (s' := upd e (with_taskScheduled false) s2).
    assert (runTask V f e s = Some (Ok tt, s')) as RT.
    { unfold runTask, runEffect. cbv zeta. now rewrite E. }
    exists s'. split; [exact RT|].
    destruct (@runTask_quiet V f e s (Ok tt) s' (pure_graph_observers rank s P) RT)
      as [Q [_ Kd]].
    pose proof (@exec_pull V (getValue V f) (@getValue_pull V f) _ _ _ _ E) as Pl.
    assert (observers (enter e s)) as O1.
    { intros m. destruct (calm_step rank 0 s (enter e s) (calm_enter e s)) as [L _].
      rewrite (st_fn _ _ (ln_static _ _ _ _ L)). apply (pure_graph_observers rank s P). }
    assert (write_free (fn (nodes s e))) as W by apply (pure_graph_observers rank s P).
    pose proof (@exec_quiet V (getValue V f) (@getValue_pull V f) (@getValue_quiet V f)
                            _ _ _ _ O1 W E) as [_ T1].
    assert (forall (A : Type) (g : Node -> A),
               (forall l x, g (with_subs l x) = g x) ->
               (forall l x, g (with_deps l x) = g x) ->
               (forall l x, g (with_ctxDeps l x) = g x) ->
               (forall t x, g (with_taskScheduled t x) = g x) ->
               forall m, g (nodes s' m) = g (nodes s1 m)) as G.
    { intros A g G1 G2 G3 G4 m. unfold s'.
      rewrite (blind_upd _ g e m (with_taskScheduled false)) by (intros; apply G4).
      change (nodes s2) with (nodes (reconcile V e s1)).
      now rewrite (blind_reconcile _ g G1 G2 G3). }
    split; [|split; [|split; [|split; [|split; [|split]]]]].
    + split; intros m.
      * rewrite (G _ fn) by reflexivity. rewrite (pl_fn Pl).
        destruct (calm_step rank 0 s (enter e s) (calm_enter e s)) as [L _].
        rewrite (st_fn _ _ (ln_static _ _ _ _ L)).
        apply (formula_static rank s s'); [exact Kd | apply (proj1 P)].
      * rewrite (G _ collected) by reflexivity. rewrite (pl_collected Pl).
        destruct (calm_step rank 0 s (enter e s) (calm_enter e s)) as [L _].
        rewrite (st_collected _ _ (ln_static _ _ _ _ L)). apply (proj2 P).
    + revert H1. apply sound_heap_same; try reflexivity.
      * intros m. unfold s'. now apply blind_upd.
      * intros m r. unfold s'. now rewrite (blind_upd _ subs e m) by reflexivity.
    + reflexivity.
    + change (size s') with (size (reconcile V e s1)).
      rewrite (lo_size (loose_reconcile V e s1)), (pl_size Pl). reflexivity.
    + exact Q.
    + exact Kd.
    + intros m Hm. unfold s'. rewrite nodes_upd_ne by exact Hm.
      change (nodes s2) with (nodes (reconcile V e s1)).
      rewrite (blind_reconcile _ taskScheduled (fun _ _ => eq_refl) (fun _ _ => eq_refl)
                               (fun _ _ => eq_refl)).
      rewrite T1. now destruct (enter_fields e m s) as [_ [-> _]].
Qed.

Lemma tick_progress (V : version) (rank : node_id -> nat) (f : nat) :
  forall F s,
    (forall m, kind (nodes s m) = EffectNode -> rank m < f) ->
    length (queue s) + f + 1 <= F ->
    pure_graph rank s -> sound_heap s -> sound_queue s ->
    exists s',
      runMicrotasks V F s = Some s' /\
      pure_graph rank s' /\ sound_heap s' /\ context s' = context s /\
      size s' = size s /\ queue s' = [] /\
      (forall m, kind (nodes s' m) = kind (nodes s m)).
Proof.
  induction F as [|F IH]; intros s Rk L P H Q; [lia|]. simpl.
  destruct (queue s) as [|e q] eqn:Eq.
  - exists s. auto 10.
  - simpl in L. destruct Q as [N Qe]. rewrite Eq in N, Qe.
    destruct (Qe e (or_introl eq_refl)) as [Ke _].
    assert (sound_heap (set_queue q s)) as H0 by (revert H; apply sound_heap_same; auto).
    assert (pure_graph rank (set_queue q s)) as P0.
    { apply (pure_graph_static rank s); [constructor; reflexivity | exact P]. }
    assert (rank e <= F) as RkF by (specialize (Rk e Ke); lia).
    destruct (runTask_progress V rank F e (set_queue q s) RkF P0 H0 Ke)
      as [s1 [RT [P1 [H1 [C1 [S1 [Q1 [K1 T1]]]]]]]].
    rewrite RT. destruct (IH s1) as [s' [R [P2 [H2 [C2 [S2 [Q2 K2]]]]]]].
    + intros m. rewrite K1. apply Rk.
    + rewrite Q1. simpl. lia.
    + exact P1.
    + exact H1.
    + unfold sound_queue. rewrite Q1. simpl. inversion N as [|? ? Ne Nq]. split; [exact Nq|].
      intros y Hy. rewrite K1. destruct (Qe y (or_intror Hy)) as [Ky Ty].
      split; [exact Ky|]. rewrite T1; [exact Ty|]. intros ->. contradiction.
    + exists s'. split; [exact R|]. split; [exact P2|]. split; [exact H2|].
      split; [now rewrite C2, C1|]. split; [now rewrite S2, S1|]. split; [exact Q2|].
      intros m. now rewrite K2, K1.
Qed.

Lemma queue_length (s : State) :
  bounded s -> sound_queue s -> length (queue s) <= size s.
Proof.
  intros B [N Q].
  assert (incl (queue s) (seq 0 (size s))) as I.
  { intros e He. apply in_seq. destruct (Q e He) as [K _].
    destruct (Nat.lt_ge_cases e (size s)) as [L|G]; [lia|]. rewrite (B e G) in K.
    discriminate. }
  pose proof (NoDup_incl_length N I) as L. now rewrite length_seq in L.
Qed.

Lemma sound_queue_sched (V : version) (s s' : State) :
  sched_rel V s s' -> sound_queue s -> sound_queue s'.
Proof.
  intros R [N Q]. destruct (sr_queue R) as [l [Eq [Nl [I E]]]]. split.
  - rewrite Eq. apply NoDup_app; [exact N | exact Nl|].
    intros e H1 H2. apply I in H2. destruct (Q e H1) as [_ T]. destruct H2. congruence.
  - intros e He. rewrite Eq in He. apply in_app_iff in He. rewrite (sr_kind R).
    destruct He as [He|He].
    + destruct (Q e He) as [K T]. split; [exact K | now apply (sr_sched R)].
    + split; [now destruct (E e He) | now apply I].
Qed.

Lemma valid_op_same (s s' : State) (o : op) :
  (forall m, kind (nodes s' m) = kind (nodes s m)) -> valid_op s o -> valid_op s' o.
Proof. intros K. destruct o; simpl; rewrite ?K; auto. Qed.

Lemma run_ops_progress (V : version) (rank : node_id -> nat) (f F : nat) :
  forall ops s,
    (forall m, kind (nodes s m) <> Free -> rank m < f) ->
    size s + f + 1 <= F ->
    pure_graph rank s -> sound_heap s -> sound_queue s -> context s = None ->
    Forall (valid_op s) ops ->
    exists s', run_ops V F ops s = Some s'.
Proof.
  induction ops as [|o ops IH]; intros s Rk L P H Q C Va; simpl; [eauto|].
  inversion Va as [|? ? Vo Vr]; subst.
  assert (exists s1, run_op V F o s = Some s1 /\ size s1 = size s /\
                     pure_graph rank s1 /\ sound_heap s1 /\ sound_queue s1 /\
                     context s1 = None /\
                     forall m, kind (nodes s1 m) = kind (nodes s m)) as [s1 [E [S1 [P1 [H1 [Q1 [C1 K1]]]]]]].
  { destruct o as [n|n v|]; simpl in Vo |- *.
    - destruct (getValue_progress V rank F n s P H) as [v [s1 [E [H1 C1]]]]; [|exact Vo|].
      { assert (rank n < f); [|lia]. apply Rk. destruct Vo as [-> | ->]; discriminate. }
      rewrite E. exists s1. split; [reflexivity|].
      pose proof (@getValue_pull V F _ _ _ _ E) as Pl.
      split; [apply (pl_size Pl)|]. split; [exact (pure_graph_pull V rank s s1 Pl P)|].
      split; [exact H1|]. split; [exact (sound_queue_sched V s s1 (pl_schedq Pl) Q)|].
      split; [congruence|]. intros m. apply (pl_kind m Pl).
    - destruct H as [B [R Cx]].
      destruct (@Signal_set_top V n v s C Vo B R) as [s1 [E [C1 [B1 R1]]]].
      exists s1. split; [exact E|]. pose proof (Signal_set_pull _ _ _ _ E) as Pl.
      split; [apply (pl_size Pl)|]. split; [exact (pure_graph_pull V rank s s1 Pl P)|].
      split; [split; [exact B1 | split; [exact R1 | intros c Hc; congruence]]|].
      split; [exact (sound_queue_sched V s s1 (pl_schedq Pl) Q)|].
      split; [exact C1|]. intros m. apply (pl_kind m Pl).
    - destruct (tick_progress V rank f F s) as [s1 [E [P1 [H1 [C1 [S1 [Q1 K1]]]]]]];
        try assumption.
      { intros m Km. apply Rk. rewrite Km. discriminate. }
      { pose proof (queue_length s (proj1 H) Q). lia. }
      exists s1. split; [exact E|]. split; [exact S1|]. split; [exact P1|].
      split; [exact H1|]. split; [|split; [congruence | exact K1]].
      split; rewrite Q1; [constructor | intros e []]. }
  rewrite E. apply IH; try assumption.
  - intros m. rewrite K1. apply Rk.
  - lia.
  - revert Vr. apply Forall_impl. intros o'. now apply valid_op_same.
Qed.

Lemma declared_sound (s : State) : declared s -> sound_heap s /\ sound_queue s.
Proof.
  intros D. split; [split; [|split]|split].
  - exact (dc_bounded _ D).
  - intros m r Hr. destruct (dc_edges _ D m) as [E _]. rewrite E in Hr. destruct Hr.
  - intros c Hc. rewrite (dc_context _ D) in Hc. discriminate.
  - exact (dc_queue _ D).
  - intros e He. apply (dc_effects _ D) in He. split; [exact He | now apply (dc_sched _ D)].
Qed.

(** X20. A module that declares a graph of formulas with the factories and
    then performs any sequence of getter calls, [set] calls and ticks on it:
    with fuel above the number of nodes plus their ranks every operation
    returns, [context] is [NONE] afterwards, and every getter then returns
    the value of its node on the current signal values. *)
Theorem declared_program_runs (V : version) (rank : node_id -> nat) (f : nat)
        (ds : list decl) (ops : list op) :
  pure_graph rank (build V ds) ->
  (forall m, m < length ds -> rank m < f) ->
  Forall (valid_op (build V ds)) ops ->
  exists s',
    run_ops V (length ds + f + 1) ops (build V ds) = Some s' /\
    context s' = None /\
    forall n, kind (nodes s' n) = WritableNode \/ kind (nodes s' n) = ComputedNode ->
              exists v s'',
                getValue V (S (rank n)) n s' = Some (Ok v, s'') /\
                denote (S (rank n)) s' n = Some v.
Proof.
  intros P Rk Va. destruct (build_declared V ds) as [D Sz].
  destruct (declared_sound _ D) as [H Q].
  destruct (run_ops_progress V rank f (length ds + f + 1) ops (build V ds))
    as [s' R]; try assumption.
  - intros m Km. apply Rk. rewrite <- Sz.
    destruct (Nat.lt_ge_cases m (size (build V ds))) as [L|G]; [exact L|].
    now rewrite (dc_bounded _ D m G) in Km.
  - rewrite Sz. lia.
  - exact (dc_context _ D).
  - exists s'. split; [exact R|].
    assert (fresh rank (build V ds)) as F.
    { apply fresh_uncached. intros c _. now destruct (dc_clean _ D c) as [_ [C _]]. }
    destruct (run_ops_fresh V rank _ ops _ s' P F (dc_context _ D) R) as [P' [F' C']].
    split; [exact C'|]. intros n K.
    destruct (getValue_returns V rank (S (rank n)) n s' P' (le_n _) K) as [r [s'' G]].
    destruct (getValue_fresh V rank (S (rank n)) n s' r s'' P' F') as [v [-> [Cv _]]];
      [intros x Hx; congruence | exact G |].
    exists v, s''. split; [exact G | exact Cv].
Qed.

(** The diamond as a module declares it. *)
Lemma diamond_build_pure :
  pure_graph (fun n => n)
    (build Vindex [NewSignal 1%Z Object_is;
                   NewComputed (Read 0 (fun x => Ret (x * 2)%Z));
                   NewComputed (Read 0 (fun x => Ret (x + 1)%Z));
                   NewComputed (Read 1 (fun x => Read 2 (fun y => Ret (x + y)%Z)))]).
Proof.
  split; intros m.
  - do 4 (destruct m as [|m]; [vm_compute; repeat split; auto; lia|]).
    vm_compute. exact I.
  - do 4 (destruct m as [|m]; [vm_compute; reflexivity|]). vm_compute. reflexivity.
Qed.

(** The diamond declared, read, written and ticked. *)
Lemma declared_program_runs_witness :
  exists s',
    run_ops Vindex (4 + 4 + 1) [OpRead 3; OpSet 0 5%Z; OpTick]
            (build Vindex [NewSignal 1%Z Object_is;
                           NewComputed (Read 0 (fun x => Ret (x * 2)%Z));
                           NewComputed (Read 0 (fun x => Ret (x + 1)%Z));
                           NewComputed (Read 1 (fun x => Read 2 (fun y => Ret (x + y)%Z)))])
    = Some s' /\ context s' = None.
Proof.
  destruct (declared_program_runs Vindex (fun n => n) 4 _ [OpRead 3; OpSet 0 5%Z; OpTick]
              diamond_build_pure) as [s' [R [C _]]].
  - intros m Hm. exact Hm.
  - apply Forall_cons; [right; vm_compute; reflexivity|].
    apply Forall_cons; [vm_compute; reflexivity|].
    apply Forall_cons; [exact I | apply Forall_nil].
  - exists s'. split; [exact R | exact C].
Defined.

(** ** The counter *)

Lemma exec_render (V : version) (f : nat) (c : node_id) (s : State) :
  kind (nodes s c) = WritableNode ->
  exec V (getValue V (S f)) (render c) s =
  Some (Ok 0%Z, emit (wvalue (nodes s c)) (addAsSub V c s)).
Proof.
  intros K. unfold render. cbn [exec]. rewrite getValue_S, K.
  rewrite (blind_addAsSub _ wvalue (fun _ _ => eq_refl) (fun _ _ => eq_refl) V c c s).
  reflexivity.
Qed.

(** When every dependency was read again, the loops remove no reference. *)
Lemma prune_fold_all_read (V : version) (x : node_id) :
  forall l s, (forall d, In d l -> In d (ctxDeps (nodes s x))) ->
              fold_left (prune_step V x) l s = s.
Proof.
  induction l as [|d l IH]; intros s H; simpl; [reflexivity|].
  assert (prune_step V x s d = s) as ->.
  { unfold prune_step.
    assert (set_has d (ctxDeps (nodes s x)) = true) as -> by (apply set_has_In, H; now left).
    reflexivity. }
  apply IH. intros d' Hd. apply H. now right.
Qed.

Lemma reconcile_all_read (V : version) (x : node_id) (s : State) :
  (forall d, In d (deps (nodes s x)) -> In d (ctxDeps (nodes s x))) ->
  forall m, subs (nodes (reconcile V x s) m) = subs (nodes s m).
Proof.
  intros H m. unfold reconcile. rewrite (prune_fold_all_read V x _ s H).
  rewrite (blind_upd _ subs x m (with_ctxDeps [])) by reflexivity.
  apply blind_fold. intros s0 d. unfold adopt_step. destruct (set_has _ _); [reflexivity|].
  now apply blind_upd.
Qed.

Lemma reconcile_log (V : version) (x : node_id) (s : State) :
  log (reconcile V x s) = log s.
Proof.
  assert (forall a b t, log (unsubscribe V a b t) = log t) as LU.
  { intros a b t. destruct V; unfold unsubscribe; [|reflexivity].
    destruct (find _ _); reflexivity. }
  assert (forall l t, log (fold_left (prune_step V x) l t) = log t) as LP.
  { induction l as [|d l IH]; intros t; simpl; [reflexivity|]. rewrite IH.
    unfold prune_step. destruct (set_has _ _); [reflexivity|]. now rewrite LU. }
  assert (forall l t, log (fold_left (adopt_step x) l t) = log t) as LA.
  { induction l as [|d l IH]; intros t; simpl; [reflexivity|]. rewrite IH.
    unfold adopt_step. destruct (set_has _ _); reflexivity. }
  unfold reconcile.
  change (log (fold_left (adopt_step x)
                 (ctxDeps (nodes (fold_left (prune_step V x) (deps (nodes s x)) s) x))
                 (fold_left (prune_step V x) (deps (nodes s x)) s)) = log s).
  now rewrite LA, LP.
Qed.

Lemma shape_refs_ok (sched : bool) (k : Z) (s : State) : counter_shape sched k s -> refs_ok s.
Proof.
  intros Sh m r Hr. destruct (Nat.eq_dec m 0) as [->|N].
  - rewrite (cs_subs0 _ _ _ Sh r Hr), (cs_kind1 _ _ _ Sh). discriminate.
  - rewrite (cs_subs _ _ _ Sh m N) in Hr. destruct Hr.
Qed.

(** The loops of an evaluation leave the [deps] and [ctxDeps] of every other
    node alone. *)
Lemma reconcile_edges_other (V : version) (n m : node_id) (s : State) :
  m <> n ->
  deps (nodes (reconcile V n s) m) = deps (nodes s m) /\
  ctxDeps (nodes (reconcile V n s) m) = ctxDeps (nodes s m).
Proof.
  intros N.
  assert (forall l t, deps (nodes (fold_left (prune_step V n) l t) m) = deps (nodes t m) /\
                      ctxDeps (nodes (fold_left (prune_step V n) l t) m) = ctxDeps (nodes t m))
    as LP.
  { induction l as [|d l IH]; intros t; simpl; [auto|].
    destruct (IH (prune_step V n t d)) as [-> ->].
    unfold prune_step. destruct (set_has _ _); [auto|].
    destruct (unsubscribe_edges V d n m
                (upd n (fun x => with_deps (set_delete d (deps x)) x) t)) as [-> ->].
    now rewrite nodes_upd_ne. }
  assert (forall l t, deps (nodes (fold_left (adopt_step n) l t) m) = deps (nodes t m) /\
                      ctxDeps (nodes (fold_left (adopt_step n) l t) m) = ctxDeps (nodes t m))
    as LA.
  { induction l as [|d l IH]; intros t; simpl; [auto|].
    destruct (IH (adopt_step n t d)) as [-> ->].
    unfold adopt_step. destruct (set_has _ _); [auto|]. now rewrite nodes_upd_ne. }
  unfold reconcile. cbv zeta. rewrite nodes_upd_ne by exact N.
  destruct (LA (ctxDeps (nodes (fold_left (prune_step V n) (deps (nodes s n)) s) n))
               (fold_left (prune_step V n) (deps (nodes s n)) s)) as [-> ->].
  apply LP.
Qed.

Lemma counter_tick (V : version) (f : nat) (k : Z) (s : State) :
  counter_shape true k s ->
  exists s', runMicrotasks V (S (S f)) s = Some s' /\
             counter_shape false k s' /\ log s' = log s ++ [k] /\
             length (subs (nodes s' 0)) =
             match V with
             | Vindex => S (length (subs (nodes s 0)))
             | Vguard => Nat.max 1 (length (subs (nodes s 0)))
             end /\
             (counter_held V s -> counter_held V s').
Proof.
  intros Sh.
  set (s0 := set_queue [] s).
  set (sA := addAsSub V 0 (enter 1 s0)).
  set (sB := emit k sA).
  set (s' := upd 1 (with_taskScheduled false) (set_context None (reconcile V 1 sB))).
  assert (kind (nodes (enter 1 s0) 0) = WritableNode) as K0.
  { destruct (enter_fields 1 0 s0) as [-> _]. exact (cs_kind0 _ _ _ Sh). }
  assert (runTask V (S f) 1 s0 = Some (Ok tt, s')) as RT.
  { unfold runTask, runEffect. cbv zeta.
    change (fn (nodes s0 1)) with (fn (nodes s 1)). rewrite (cs_fn _ _ _ Sh).
    rewrite (exec_render V f 0 _ K0).
    destruct (enter_fields 1 0 s0) as [_ _].
    assert (wvalue (nodes (enter 1 s0) 0) = k) as ->.
    { unfold enter. rewrite nodes_upd_ne by discriminate. exact (cs_value _ _ _ Sh). }
    change (context s0) with (context s). rewrite (cs_context _ _ _ Sh). reflexivity. }
  assert (queue s' = []) as Q'.
  { change (queue s') with (queue (reconcile V 1 sB)).
    rewrite (lo_queue (loose_reconcile V 1 sB)).
    change (queue sB) with (queue sA). unfold sA.
    now rewrite (lo_queue (loose_addAsSub V 0 (enter 1 s0))). }
  exists s'. split.
  { change (runMicrotasks V (S (S f)) s) with
      (match queue s with
       | [] => Some s
       | e :: q =>
           match runTask V (S f) e (set_queue q s) with
           | Some (Ok _, s1) => runMicrotasks V (S f) s1
           | Some (Exn, s1) => runMicrotasks V (S f) (report s1)
           | None => None
           end
       end).
    rewrite (cs_queue _ _ _ Sh). cbv beta iota. change (set_queue [] s) with s0. rewrite RT.
    change (runMicrotasks V (S f) s') with
      (match queue s' with
       | [] => Some s'
       | e :: q =>
           match runTask V f e (set_queue q s') with
           | Some (Ok _, s1) => runMicrotasks V f s1
           | Some (Exn, s1) => runMicrotasks V f (report s1)
           | None => None
           end
       end).
    now rewrite Q'. }
  assert (forall (A : Type) (g : Node -> A),
             (forall l x, g (with_subs l x) = g x) ->
             (forall l x, g (with_deps l x) = g x) ->
             (forall l x, g (with_ctxDeps l x) = g x) ->
             (forall t x, g (with_taskScheduled t x) = g x) ->
             (forall j x, g (with_runs j x) = g x) ->
             forall m, g (nodes s' m) = g (nodes s m)) as G.
  { intros A g G1 G2 G3 G4 G5 m. unfold s'.
    rewrite (blind_upd _ g 1 m (with_taskScheduled false)) by (intros; apply G4).
    change (nodes (set_context None (reconcile V 1 sB))) with (nodes (reconcile V 1 sB)).
    rewrite (blind_reconcile _ g G1 G2 G3).
    change (nodes sB) with (nodes sA). unfold sA.
    rewrite (blind_addAsSub _ g G1 G3). unfold enter.
    rewrite (blind_upd _ g 1 m) by (intros; apply G5). reflexivity. }
  assert (context (enter 1 s0) = Some 1) as Cx by reflexivity.
  assert (forall m, subs (nodes sA m) = subs (nodes (subscribe V 0 1 (enter 1 s0)) m)) as SA.
  { intros m. unfold sA, addAsSub. rewrite Cx. now apply blind_upd. }
  assert (forall m, subs (nodes (enter 1 s0) m) = subs (nodes s m)) as SE.
  { intros m. unfold enter. rewrite (blind_upd _ subs 1 m) by reflexivity. reflexivity. }
  assert (ctxDeps (nodes sB 1) = [0]) as CB.
  { change (nodes sB) with (nodes sA). unfold sA, addAsSub. rewrite Cx, nodes_upd_eq.
    simpl ctxDeps. rewrite subscribe_ctxDeps. unfold enter. rewrite nodes_upd_eq.
    simpl ctxDeps. change (nodes (set_context (Some 1) s0)) with (nodes s).
    now rewrite (cs_ctxDeps _ _ _ Sh). }
  assert (forall d, In d (deps (nodes sB 1)) -> d = 0) as DB.
  { intros d. change (nodes sB) with (nodes sA). unfold sA.
    rewrite (blind_addAsSub _ deps (fun _ _ => eq_refl) (fun _ _ => eq_refl)).
    unfold enter. rewrite nodes_upd_eq. simpl deps.
    change (nodes (set_context (Some 1) s0)) with (nodes s). apply (cs_deps _ _ _ Sh). }
  assert (forall m, subs (nodes s' m) = subs (nodes sA m)) as S'.
  { intros m. unfold s'. rewrite (blind_upd _ subs 1 m (with_taskScheduled false)) by reflexivity.
    change (nodes (set_context None (reconcile V 1 sB))) with (nodes (reconcile V 1 sB)).
    rewrite reconcile_all_read; [reflexivity|].
    intros d Hd. rewrite CB, (DB d Hd). now left. }
  split.
  - constructor.
    + reflexivity.
    + exact Q'.
    + change (size s') with (size (reconcile V 1 sB)).
      rewrite (lo_size (loose_reconcile V 1 sB)). change (size sB) with (size sA).
      unfold sA. rewrite (lo_size (loose_addAsSub V 0 (enter 1 s0))).
      exact (cs_size _ _ _ Sh).
    + intros m Hm. rewrite (G _ kind) by reflexivity. apply (cs_bounded _ _ _ Sh).
      change (size s') with (size (reconcile V 1 sB)) in Hm.
      rewrite (lo_size (loose_reconcile V 1 sB)) in Hm. change (size sB) with (size sA) in Hm.
      unfold sA in Hm. now rewrite (lo_size (loose_addAsSub V 0 (enter 1 s0))) in Hm.
    + rewrite (G _ kind) by reflexivity. exact (cs_kind0 _ _ _ Sh).
    + rewrite (G _ equal) by reflexivity. exact (cs_equal _ _ _ Sh).
    + rewrite (G _ wvalue) by reflexivity. exact (cs_value _ _ _ Sh).
    + rewrite (G _ kind) by reflexivity. exact (cs_kind1 _ _ _ Sh).
    + rewrite (G _ fn) by reflexivity. exact (cs_fn _ _ _ Sh).
    + unfold s'. now rewrite nodes_upd_eq.
    + rewrite (G _ destroyed) by reflexivity. exact (cs_destroyed _ _ _ Sh).
    + rewrite (G _ collected) by reflexivity. exact (cs_collected _ _ _ Sh).
    + intros r Hr. rewrite S', SA in Hr. apply subscribe_subs_cases in Hr.
      destruct Hr as [Hr|Hr]; [|exact Hr]. rewrite SE in Hr. exact (cs_subs0 _ _ _ Sh r Hr).
    + intros _. destruct (subscribe_has_ref V 0 1 (enter 1 s0)) as [r [Hr Ht]].
      exists r. split; [|exact Ht]. now rewrite S', SA.
    + intros m Hm. rewrite S', SA, subscribe_subs_other by exact Hm. rewrite SE.
      exact (cs_subs _ _ _ Sh m Hm).
    + intros d Hd. unfold s' in Hd.
      rewrite (blind_upd _ deps 1 1 (with_taskScheduled false)) in Hd by reflexivity.
      change (nodes (set_context None (reconcile V 1 sB))) with (nodes (reconcile V 1 sB)) in Hd.
      apply reconcile_deps_incl in Hd. rewrite CB in Hd.
      destruct Hd as [<-|[]]. reflexivity.
    + unfold s'. rewrite (blind_upd _ ctxDeps 1 1 (with_taskScheduled false)) by reflexivity.
      change (nodes (set_context None (reconcile V 1 sB))) with (nodes (reconcile V 1 sB)).
      unfold reconcile. now rewrite nodes_upd_eq.
  - change (log s') with (log (reconcile V 1 sB)).
    split.
    { rewrite reconcile_log. change (log sB) with (log sA ++ [k]). f_equal.
      unfold sA. now destruct (addAsSub_state V 0 (enter 1 s0)) as [_ [_ [_ [_ [-> _]]]]]. }
    split.
    2:{ intros [Rg [D0 C0]]. split; [|split].
        - change (registry s') with (registry (reconcile V 1 sB)).
          rewrite (lo_registry (loose_reconcile V 1 sB)). change (registry sB) with (registry sA).
          unfold sA. rewrite (lo_registry (loose_addAsSub V 0 (enter 1 s0))). exact Rg.
        - unfold s'. rewrite (blind_upd _ deps 1 0 (with_taskScheduled false)) by reflexivity.
          change (nodes (set_context None (reconcile V 1 sB))) with (nodes (reconcile V 1 sB)).
          rewrite (proj1 (reconcile_edges_other V 1 0 sB (fun E => O_S 0 E))).
          change (nodes sB) with (nodes sA). unfold sA.
          rewrite (blind_addAsSub _ deps (fun _ _ => eq_refl) (fun _ _ => eq_refl)).
          unfold enter. rewrite nodes_upd_ne by discriminate. exact D0.
        - unfold s'. rewrite (blind_upd _ ctxDeps 1 0 (with_taskScheduled false)) by reflexivity.
          change (nodes (set_context None (reconcile V 1 sB))) with (nodes (reconcile V 1 sB)).
          rewrite (proj2 (reconcile_edges_other V 1 0 sB (fun E => O_S 0 E))).
          change (nodes sB) with (nodes sA). unfold sA, addAsSub. rewrite Cx.
          rewrite nodes_upd_ne by discriminate. rewrite subscribe_ctxDeps.
          unfold enter. rewrite nodes_upd_ne by discriminate. exact C0. }
    rewrite S', SA. destruct V.
    + unfold subscribe. rewrite add_ref_subs, length_app, SE. simpl. lia.
    + unfold subscribe. rewrite SE. destruct (subs (nodes s 0)) as [|r l] eqn:E0.
      * cbn [existsb]. rewrite add_ref_subs, SE, E0. reflexivity.
      * assert (targets (enter 1 s0) 1 r = true) as T.
        { unfold targets, deref.
          rewrite (cs_subs0 _ _ _ Sh r) by (rewrite E0; now left).
          destruct (enter_fields 1 1 s0) as [_ _].
          assert (collected (nodes (enter 1 s0) 1) = false) as ->; [|apply Nat.eqb_refl].
          unfold enter. rewrite nodes_upd_eq. exact (cs_collected _ _ _ Sh). }
        cbn [existsb]. rewrite T. cbn [orb]. rewrite SE, E0. simpl. lia.
Qed.

Lemma NoDup_all_same (l : list node_id) (a : node_id) :
  NoDup l -> (forall x, In x l -> x = a) -> In a l -> l = [a].
Proof.
  intros N H I. destruct l as [|x l]; [destruct I|].
  assert (x = a) as -> by (apply H; now left).
  destruct l as [|y l]; [reflexivity|].
  assert (y = a) as -> by (apply H; right; now left).
  inversion N as [|? ? N1 _]. exfalso. apply N1. now left.
Qed.

(** Notifying effects only: the set under iteration is left as it is. *)
Lemma notify_effects_keep (V : version) (this : node_id) :
  forall refs s s',
    (forall r, In r refs -> collected (nodes s (ref_target r)) = false /\
                            kind (nodes s (ref_target r)) = EffectNode) ->
    kind (nodes s this) <> EffectNode ->
    notify (markAsDisty V) this refs s = Some s' ->
    subs (nodes s' this) = subs (nodes s this).
Proof.
  induction refs as [|r rest IH]; intros s s' H K N; simpl in N.
  - now injection N as <-.
  - destruct (H r (or_introl eq_refl)) as [C E].
    unfold deref in N. rewrite C in N. rewrite (markAsDisty_effect V _ _ E) in N.
    pose proof (push_EffectNode_markAsDisty V _ s E) as P.
    assert (subs (nodes s' this) = subs (nodes (EffectNode_markAsDisty V (ref_target r) s) this))
      as ->.
    { apply IH; [| |exact N].
      - intros r0 Hr0. rewrite (pr_collected P), (pr_kind P). apply H. now right.
      - now rewrite (pr_kind P). }
    unfold EffectNode_markAsDisty. destruct (effect_blocked V _); [reflexivity|].
    unfold schedule. rewrite nodes_upd_ne; [reflexivity|]. intros ->. contradiction.
Qed.

Lemma js_succ_exact (k : Z) : (0 <= k < 2 ^ 53)%Z -> js_succ k = Some (k + 1)%Z.
Proof.
  intros H. unfold js_succ.
  assert ((Z.abs k <? 2 ^ 53)%Z = true) as -> by (apply Z.ltb_lt; lia). reflexivity.
Qed.

Lemma counter_click (V : version) (f : nat) (k : Z) (s : State) :
  (0 <= k < 2 ^ 53)%Z ->
  counter_shape false k s ->
  exists s1, mousedown V (S f) 0 s = Some s1 /\
             counter_shape true (k + 1) s1 /\ log s1 = log s /\
             subs (nodes s1 0) = subs (nodes s 0) /\
             (counter_held V s -> counter_held V s1).
Proof.
  intros Bk Sh. pose proof (shape_refs_ok _ _ _ Sh) as R.
  unfold mousedown. rewrite (getValue_top V f 0 s (cs_context _ _ _ Sh)).
  rewrite (cs_kind0 _ _ _ Sh), (cs_value _ _ _ Sh). rewrite (js_succ_exact k Bk).
  rewrite (@Signal_set_unfold V 0 (k + 1)%Z s (cs_kind0 _ _ _ Sh)).
  rewrite (addAsSub_top V 0 s (cs_context _ _ _ Sh)).
  rewrite (cs_equal _ _ _ Sh), (cs_value _ _ _ Sh). unfold Object_is.
  assert (Z.eqb k (k + 1) = false) as -> by (apply Z.eqb_neq; lia).
  destruct (@setValue_total V 0 (k + 1)%Z s (cs_bounded _ _ _ Sh) R) as [s1 H].
  exists s1. split; [exact H|]. pose proof (setValue_push _ _ _ _ H) as P.
  set (s0 := upd 0 (with_wvalue (k + 1)%Z) s) in *.
  assert (forall (A : Type) (g : Node -> A),
             (forall w x, g (with_wvalue w x) = g x) ->
             forall m, g (nodes s0 m) = g (nodes s m)) as G.
  { intros A g G1 m. unfold s0. now apply blind_upd. }
  destruct (cs_ref _ _ _ Sh eq_refl) as [r [Hr Ht]].
  assert (taskScheduled (nodes s1 1) = true) as T1.
  { unfold setValue in H. cbv zeta in H. fold s0 in H.
    apply (@notify_schedules V 0 1 r _ _ _) with (5 := H).
    - now rewrite (G _ subs (fun _ _ => eq_refl)).
    - unfold deref. rewrite Ht, (G _ collected (fun _ _ => eq_refl)).
      now rewrite (cs_collected _ _ _ Sh).
    - rewrite (G _ kind (fun _ _ => eq_refl)). exact (cs_kind1 _ _ _ Sh).
    - intros _. rewrite (G _ destroyed (fun _ _ => eq_refl)). exact (cs_destroyed _ _ _ Sh). }
  assert (forall m, kind (nodes s1 m) = kind (nodes s m)) as K.
  { intros m. rewrite (pr_kind P). now apply G. }
  split.
  - constructor.
    + rewrite (pr_context P). exact (cs_context _ _ _ Sh).
    + destruct (sr_queue (pr_schedq P)) as [l [Q [N [I E]]]].
      rewrite Q. change (queue s0) with (queue s). rewrite (cs_queue _ _ _ Sh). simpl.
      apply NoDup_all_same; [exact N| |].
      * intros x Hx. destruct (E x Hx) as [Kx _].
        rewrite (G _ kind (fun _ _ => eq_refl)) in Kx.
        destruct x as [|[|x]]; [|reflexivity|].
        -- rewrite (cs_kind0 _ _ _ Sh) in Kx. discriminate.
        -- rewrite (cs_bounded _ _ _ Sh (S (S x))) in Kx; [discriminate|].
           rewrite (cs_size _ _ _ Sh). lia.
      * apply I. split; [|exact T1].
        rewrite (G _ taskScheduled (fun _ _ => eq_refl)). exact (cs_sched _ _ _ Sh).
    + rewrite (pr_size P). exact (cs_size _ _ _ Sh).
    + intros m Hm. rewrite K. apply (cs_bounded _ _ _ Sh).
      now rewrite (pr_size P) in Hm.
    + rewrite K. exact (cs_kind0 _ _ _ Sh).
    + rewrite (pr_equal P), (G _ equal (fun _ _ => eq_refl)). exact (cs_equal _ _ _ Sh).
    + rewrite (pr_wvalue P). unfold s0. now rewrite nodes_upd_eq.
    + rewrite K. exact (cs_kind1 _ _ _ Sh).
    + rewrite (pr_fn P), (G _ fn (fun _ _ => eq_refl)). exact (cs_fn _ _ _ Sh).
    + exact T1.
    + rewrite (pr_destroyed P), (G _ destroyed (fun _ _ => eq_refl)).
      exact (cs_destroyed _ _ _ Sh).
    + rewrite (pr_collected P), (G _ collected (fun _ _ => eq_refl)).
      exact (cs_collected _ _ _ Sh).
    + intros r0 Hr0. apply (pr_subs_incl P) in Hr0.
      rewrite (G _ subs (fun _ _ => eq_refl)) in Hr0. exact (cs_subs0 _ _ _ Sh r0 Hr0).
    + discriminate.
    + intros m Hm. destruct (subs (nodes s1 m)) as [|r0 l] eqn:E; [reflexivity|].
      assert (In r0 (subs (nodes s0 m))) as X.
      { apply (pr_subs_incl P). rewrite E. now left. }
      rewrite (G _ subs (fun _ _ => eq_refl)), (cs_subs _ _ _ Sh m Hm) in X. destruct X.
    + intros d. rewrite (pr_deps P), (G _ deps (fun _ _ => eq_refl)).
      apply (cs_deps _ _ _ Sh).
    + rewrite (pr_ctxDeps P), (G _ ctxDeps (fun _ _ => eq_refl)).
      exact (cs_ctxDeps _ _ _ Sh).
  - split; [now rewrite (pr_log P)|].
    split.
    2:{ intros [Rg [D0 C0]]. split; [|split].
        - rewrite (pr_registry P). exact Rg.
        - rewrite (pr_deps P), (G _ deps (fun _ _ => eq_refl)). exact D0.
        - rewrite (pr_ctxDeps P), (G _ ctxDeps (fun _ _ => eq_refl)). exact C0. }
    unfold setValue in H. cbv zeta in H. fold s0 in H.
    assert (subs (nodes s1 0) = subs (nodes s0 0)) as ->.
    { apply (notify_effects_keep V 0 _ _ _) with (3 := H).
      - intros r0 Hr0. rewrite (G _ subs (fun _ _ => eq_refl)) in Hr0.
        rewrite (cs_subs0 _ _ _ Sh r0 Hr0).
        rewrite (G _ collected (fun _ _ => eq_refl)), (G _ kind (fun _ _ => eq_refl)).
        split; [exact (cs_collected _ _ _ Sh) | exact (cs_kind1 _ _ _ Sh)].
      - rewrite (G _ kind (fun _ _ => eq_refl)), (cs_kind0 _ _ _ Sh). discriminate. }
    now rewrite (G _ subs (fun _ _ => eq_refl)).
Qed.

Lemma setupCounter_shape (V : version) :
  counter_shape true 0 (snd (setupCounter V init)) /\ log (snd (setupCounter V init)) = [] /\
  counter_held V (snd (setupCounter V init)).
Proof.
  split; [|split; [now destruct V | destruct V; repeat split]].
  constructor; try (destruct V; reflexivity).
  - intros m Hm. destruct V; destruct m as [|[|m]]; simpl in Hm; try lia; reflexivity.
  - destruct V; intros r [].
  - discriminate.
  - intros m Hm. destruct V; destruct m as [|[|m]]; try reflexivity; congruence.
  - destruct V; intros d [].
Qed.

(** A click on the page whose effect was reclaimed: the counter moves, the
    dead references are dropped, nothing is queued and nothing is written. *)
Lemma dead_click (f : nat) (k : Z) (s : State) :
  (0 <= k < 2 ^ 53)%Z ->
  counter_dead k s ->
  exists s1, mousedown Vindex (S f) 0 s = Some s1 /\
             counter_dead (k + 1) s1 /\ log s1 = log s.
Proof.
  intros Bk Sh.
  assert (refs_ok s) as R.
  { intros m r Hr. destruct (Nat.eq_dec m 0) as [->|N].
    - rewrite (cd_subs0 _ _ Sh r Hr), (cd_kind1 _ _ Sh). discriminate.
    - rewrite (cd_subs _ _ Sh m N) in Hr. destruct Hr. }
  unfold mousedown. rewrite (getValue_top Vindex f 0 s (cd_context _ _ Sh)).
  rewrite (cd_kind0 _ _ Sh), (cd_value _ _ Sh). rewrite (js_succ_exact k Bk).
  rewrite (@Signal_set_unfold Vindex 0 (k + 1)%Z s (cd_kind0 _ _ Sh)).
  rewrite (addAsSub_top Vindex 0 s (cd_context _ _ Sh)).
  rewrite (cd_equal _ _ Sh), (cd_value _ _ Sh). unfold Object_is.
  assert (Z.eqb k (k + 1) = false) as -> by (apply Z.eqb_neq; lia).
  destruct (@setValue_total Vindex 0 (k + 1)%Z s (cd_bounded _ _ Sh) R) as [s1 H].
  exists s1. split; [exact H|]. pose proof (setValue_push _ _ _ _ H) as P.
  set (s0 := upd 0 (with_wvalue (k + 1)%Z) s) in *.
  assert (forall (A : Type) (g : Node -> A),
             (forall w x, g (with_wvalue w x) = g x) ->
             forall m, g (nodes s0 m) = g (nodes s m)) as G.
  { intros A g G1 m. unfold s0. now apply blind_upd. }
  assert (forall m, kind (nodes s1 m) = kind (nodes s m)) as K.
  { intros m. rewrite (pr_kind P). now apply G. }
  destruct (setValue_skips_collected Vindex 0 (k + 1)%Z s s1 1 H (cd_collected _ _ Sh))
    as [N1 _]; [discriminate|].
  split; [|now rewrite (pr_log P)].
  constructor.
  - rewrite (pr_context P). exact (cd_context _ _ Sh).
  - destruct (sr_queue (pr_schedq P)) as [l [Q [_ [I E]]]].
    rewrite Q. change (queue s0) with (queue s). rewrite (cd_queue _ _ Sh). simpl.
    destruct l as [|x l]; [reflexivity|]. exfalso.
    destruct (E x (or_introl eq_refl)) as [Kx _].
    rewrite (G _ kind (fun _ _ => eq_refl)) in Kx.
    destruct x as [|[|x]].
    + rewrite (cd_kind0 _ _ Sh) in Kx. discriminate.
    + destruct (proj1 (I 1) (or_introl eq_refl)) as [T0 T1].
      rewrite (G _ taskScheduled (fun _ _ => eq_refl)) in T0.
      rewrite N1 in T1. congruence.
    + rewrite (cd_bounded _ _ Sh (S (S x))) in Kx; [discriminate|].
      rewrite (cd_size _ _ Sh). lia.
  - rewrite (pr_size P). exact (cd_size _ _ Sh).
  - intros m Hm. rewrite K. apply (cd_bounded _ _ Sh). now rewrite (pr_size P) in Hm.
  - rewrite K. exact (cd_kind0 _ _ Sh).
  - rewrite (pr_equal P), (G _ equal (fun _ _ => eq_refl)). exact (cd_equal _ _ Sh).
  - rewrite (pr_wvalue P). unfold s0. now rewrite nodes_upd_eq.
  - rewrite K. exact (cd_kind1 _ _ Sh).
  - rewrite (pr_collected P), (G _ collected (fun _ _ => eq_refl)). exact (cd_collected _ _ Sh).
  - intros r0 Hr0. apply (pr_subs_incl P) in Hr0.
    rewrite (G _ subs (fun _ _ => eq_refl)) in Hr0. exact (cd_subs0 _ _ Sh r0 Hr0).
  - intros m Hm. destruct (subs (nodes s1 m)) as [|r0 l] eqn:E; [reflexivity|].
    assert (In r0 (subs (nodes s0 m))) as X.
    { apply (pr_subs_incl P). rewrite E. now left. }
    rewrite (G _ subs (fun _ _ => eq_refl)), (cd_subs _ _ Sh m Hm) in X. destruct X.
Qed.

Lemma dead_reclaim (m : node_id) (k : Z) (s : State) :
  counter_dead k s -> counter_dead k (reclaim [0 : node_id] m s).
Proof.
  intros Sh. unfold reclaim. destruct (_ && _); [|exact Sh].
  assert (forall (A : Type) (g : Node -> A),
             (forall b x, g (with_collected b x) = g x) ->
             forall x, g (nodes (collect m s) x) = g (nodes s x)) as G.
  { intros A g G1 x. unfold collect. now apply blind_upd. }
  constructor.
  - exact (cd_context _ _ Sh).
  - exact (cd_queue _ _ Sh).
  - exact (cd_size _ _ Sh).
  - intros x Hx. rewrite (G _ kind (fun _ _ => eq_refl)). now apply (cd_bounded _ _ Sh).
  - rewrite (G _ kind (fun _ _ => eq_refl)). exact (cd_kind0 _ _ Sh).
  - rewrite (G _ equal (fun _ _ => eq_refl)). exact (cd_equal _ _ Sh).
  - rewrite (G _ wvalue (fun _ _ => eq_refl)). exact (cd_value _ _ Sh).
  - rewrite (G _ kind (fun _ _ => eq_refl)). exact (cd_kind1 _ _ Sh).
  - unfold collect. rewrite nodes_upd. destruct (Nat.eqb 1 m); [reflexivity|].
    exact (cd_collected _ _ Sh).
  - intros r. rewrite (G _ subs (fun _ _ => eq_refl)). apply (cd_subs0 _ _ Sh).
  - intros x Hx. rewrite (G _ subs (fun _ _ => eq_refl)). now apply (cd_subs _ _ Sh).
Qed.

Lemma host_dead (f : nat) :
  forall evs j s,
    (Z.of_nat (j + clicks_of evs) <= 2 ^ 53)%Z ->
    counter_dead (Z.of_nat j) s ->
    exists s', host Vindex (S (S f)) 0 evs s = Some s' /\
               wvalue (nodes s' 0) = Z.of_nat (j + clicks_of evs) /\
               queue s' = [] /\ log s' = log s.
Proof.
  induction evs as [|[|m] evs IH]; intros j s Bk Sh.
  - exists s. split; [reflexivity|]. rewrite Nat.add_0_r.
    split; [exact (cd_value _ _ Sh)|]. split; [exact (cd_queue _ _ Sh) | reflexivity].
  - cbn [clicks_of] in Bk |- *.
    destruct (dead_click (S f) (Z.of_nat j) s) as [s1 [H1 [Sh1 L1]]]; [lia|exact Sh|].
    assert (Z.of_nat j + 1 = Z.of_nat (S j))%Z as E by lia. rewrite E in Sh1.
    destruct (IH (S j) s1) as [s' [H2 [W2 [Q2 L2]]]]; [lia|exact Sh1|].
    exists s'. split; [|split; [|split]].
    + cbn [host]. rewrite H1.
      change (runMicrotasks Vindex (S (S f)) s1) with
        (match queue s1 with
         | [] => Some s1
         | e :: q =>
             match runTask Vindex (S f) e (set_queue q s1) with
             | Some (Ok _, s2) => runMicrotasks Vindex (S f) s2
             | Some (Exn, s2) => runMicrotasks Vindex (S f) (report s2)
             | None => None
             end
         end).
      rewrite (cd_queue _ _ Sh1). exact H2.
    + rewrite W2. f_equal. lia.
    + exact Q2.
    + now rewrite L2, L1.
  - cbn [clicks_of host] in Bk |- *.
    destruct (IH j (reclaim [0 : node_id] m s) Bk (dead_reclaim m _ s Sh)) as [s' [H [W [Q L]]]].
    exists s'. split; [exact H|]. split; [exact W|]. split; [exact Q|].
    rewrite L. unfold reclaim. now destruct (_ && _).
Qed.

(** What the collector can do to the page while the effect is alive. *)
Lemma alive_reclaim (V : version) (m : node_id) (k : Z) (s : State) :
  counter_shape false k s -> counter_held V s ->
  reclaim [0 : node_id] m s =
  match V with
  | Vindex => if Nat.eqb m 1 then collect 1 s else s
  | Vguard => s
  end.
Proof.
  intros Sh [Rg [D0 C0]]. unfold reclaim.
  destruct m as [|[|m]].
  - assert (held [0 : node_id] s 0 = true) as -> by reflexivity.
    rewrite andb_false_r. now destruct V.
  - assert (held [0 : node_id] s 1 = match V with Vindex => false | Vguard => true end) as ->.
    { unfold held. rewrite (cs_context _ _ _ Sh), (cs_queue _ _ _ Sh), Rg, (cs_size _ _ _ Sh).
      cbn [seq existsb]. rewrite D0, C0, (cs_ctxDeps _ _ _ Sh).
      assert (set_has 1 (deps (nodes s 1)) = false) as ->.
      { destruct (set_has 1 (deps (nodes s 1))) eqn:E; [|reflexivity].
        apply set_has_In in E. apply (cs_deps _ _ _ Sh) in E. discriminate. }
      destruct V; simpl; now rewrite ?andb_false_r. }
    rewrite (cs_size _ _ _ Sh). now destruct V.
  - rewrite (cs_size _ _ _ Sh). cbn [Nat.ltb Nat.leb andb Nat.eqb]. now destruct V.
Qed.

Lemma collect_shape (k : Z) (s : State) :
  counter_shape false k s -> counter_dead k (collect 1 s).
Proof.
  intros Sh.
  assert (forall (A : Type) (g : Node -> A),
             (forall b x, g (with_collected b x) = g x) ->
             forall x, g (nodes (collect 1 s) x) = g (nodes s x)) as G.
  { intros A g G1 x. unfold collect. now apply blind_upd. }
  constructor.
  - exact (cs_context _ _ _ Sh).
  - exact (cs_queue _ _ _ Sh).
  - exact (cs_size _ _ _ Sh).
  - intros x Hx. rewrite (G _ kind (fun _ _ => eq_refl)). now apply (cs_bounded _ _ _ Sh).
  - rewrite (G _ kind (fun _ _ => eq_refl)). exact (cs_kind0 _ _ _ Sh).
  - rewrite (G _ equal (fun _ _ => eq_refl)). exact (cs_equal _ _ _ Sh).
  - rewrite (G _ wvalue (fun _ _ => eq_refl)). exact (cs_value _ _ _ Sh).
  - rewrite (G _ kind (fun _ _ => eq_refl)). exact (cs_kind1 _ _ _ Sh).
  - unfold collect. now rewrite nodes_upd_eq.
  - intros r. rewrite (G _ subs (fun _ _ => eq_refl)). apply (cs_subs0 _ _ _ Sh).
  - intros x Hx. rewrite (G _ subs (fun _ _ => eq_refl)). now apply (cs_subs _ _ _ Sh).
Qed.

Lemma host_alive (V : version) (f : nat) :
  forall evs j s,
    (Z.of_nat (j + clicks_of evs) <= 2 ^ 53)%Z ->
    counter_shape false (Z.of_nat j) s -> counter_held V s ->
    exists s', host V (S (S f)) 0 evs s = Some s' /\
               wvalue (nodes s' 0) = Z.of_nat (j + clicks_of evs) /\
               queue s' = [] /\
               log s' = log s ++
                        map Z.of_nat (seq (S j) match V with
                                                | Vindex => clicks_before_reclaim 1 evs
                                                | Vguard => clicks_of evs
                                                end) /\
               (V = Vguard \/ ~ In (Reclaim 1) evs ->
                length (subs (nodes s' 0)) =
                match V with
                | Vindex => length (subs (nodes s 0)) + clicks_of evs
                | Vguard => length (subs (nodes s 0))
                end).
Proof.
  induction evs as [|[|m] evs IH]; intros j s Bk Sh He.
  - exists s. split; [reflexivity|]. rewrite Nat.add_0_r.
    split; [exact (cs_value _ _ _ Sh)|]. split; [exact (cs_queue _ _ _ Sh)|].
    split; [destruct V; simpl; now rewrite app_nil_r|].
    intros _. destruct V; simpl; lia.
  - cbn [clicks_of clicks_before_reclaim] in Bk |- *.
    destruct (counter_click V (S f) (Z.of_nat j) s) as [s1 [H1 [Sh1 [L1 [R1 He1]]]]];
      [lia|exact Sh|].
    destruct (counter_tick V f _ s1 Sh1) as [s2 [H2 [Sh2 [L2 [R2 He2]]]]].
    assert (Z.of_nat j + 1 = Z.of_nat (S j))%Z as E by lia. rewrite E in Sh2, L2.
    destruct (IH (S j) s2) as [s' [H3 [W3 [Q3 [L3 R3]]]]]; [lia|exact Sh2|auto|].
    exists s'. split; [|split; [|split; [|split]]].
    + cbn [host]. now rewrite H1, H2.
    + rewrite W3. f_equal. lia.
    + exact Q3.
    + rewrite L3, L2, L1, <- app_assoc. destruct V; reflexivity.
    + intros Hn. rewrite R3, R2, R1.
      * destruct V; [lia|].
        destruct (cs_ref _ _ _ Sh eq_refl) as [r [Hr _]].
        destruct (subs (nodes s 0)); [destruct Hr | simpl; lia].
      * destruct Hn as [Hn|Hn]; [now left | right]. intros X. apply Hn. now right.
  - cbn [clicks_of clicks_before_reclaim host] in Bk |- *.
    rewrite (alive_reclaim V m _ s Sh He). destruct V.
    + destruct (Nat.eqb m 1) eqn:Em.
      * apply Nat.eqb_eq in Em. subst m.
        destruct (host_dead f evs j (collect 1 s) Bk (collect_shape _ s Sh))
          as [s' [H [W [Q L]]]].
        exists s'. split; [exact H|]. split; [exact W|]. split; [exact Q|].
        split; [simpl; now rewrite app_nil_r|].
        intros [X|X]; [discriminate|]. exfalso. apply X. now left.
      * destruct (IH j s Bk Sh He) as [s' [H [W [Q [L R]]]]].
        exists s'. split; [exact H|]. split; [exact W|]. split; [exact Q|].
        split; [exact L|]. intros [X|X]; [discriminate|]. apply R. right.
        intros Y. apply X. now right.
    + destruct (IH j s Bk Sh He) as [s' [H [W [Q [L R]]]]].
      exists s'. split; [exact H|]. split; [exact W|]. split; [exact Q|].
      split; [exact L|]. intros _. apply R. now left.
Qed.

(** X19. [setupCounter] under any sequence of clicks and attempts of the
    collector, each click followed by the host's microtask checkpoint, for
    at most 2^53 clicks: the run returns, the counter holds the number of
    clicks and nothing is queued.  In the copy with [window[EFFECTS]] the
    effect is held and the texts written are 0, 1, ..., [k], each once.
    With index.ts nothing holds the effect once its first task ran: the
    texts written are those up to the last click before the collector
    first turns to it, and later clicks write nothing.  While the effect
    lives the subscriber set of the counter grows by one reference per
    click in index.ts and holds one in the other copy. *)
Theorem setupCounter_counts_clicks (V : version) (f : nat) (evs : list host_event) :
  (Z.of_nat (clicks_of evs) <= 2 ^ 53)%Z ->
  exists s1 s',
    runMicrotasks V (S (S f)) (snd (setupCounter V init)) = Some s1 /\
    host V (S (S f)) (fst (setupCounter V init)) evs s1 = Some s' /\
    wvalue (nodes s' (fst (setupCounter V init))) = Z.of_nat (clicks_of evs) /\
    queue s' = [] /\
    log s' = map Z.of_nat (seq 0 (S match V with
                                    | Vindex => clicks_before_reclaim 1 evs
                                    | Vguard => clicks_of evs
                                    end)) /\
    (V = Vguard \/ ~ In (Reclaim 1) evs ->
     length (subs (nodes s' (fst (setupCounter V init)))) =
     match V with
     | Vindex => S (clicks_of evs)
     | Vguard => 1
     end).
Proof.
  intros Bk.
  destruct (setupCounter_shape V) as [Sh0 [L0 He0]].
  destruct (counter_tick V f _ _ Sh0) as [s1 [H1 [Sh1 [L1 [R1 He1]]]]].
  destruct (host_alive V f evs 0 s1 Bk Sh1 (He1 He0)) as [s' [H2 [W2 [Q2 [L2 R2]]]]].
  exists s1, s'. split; [exact H1|].
  assert (fst (setupCounter V init) = 0) as -> by now destruct V.
  split; [exact H2|]. split; [exact W2|]. split; [exact Q2|]. split.
  - rewrite L2, L1, L0. reflexivity.
  - intros Hn. rewrite (R2 Hn), R1. destruct V; reflexivity.
Qed.

(** Three clicks, the collector turning to the effect after the second:
    with index.ts the third click is not rendered. *)
Lemma setupCounter_counts_clicks_witness :
  exists s1 s',
    runMicrotasks Vindex 2 (snd (setupCounter Vindex init)) = Some s1 /\
    host Vindex 2 0 [Click; Click; Reclaim 1; Click] s1 = Some s' /\
    wvalue (nodes s' 0) = 3%Z /\
    log s' = [0; 1; 2]%Z.
Proof.
  destruct (setupCounter_counts_clicks Vindex 0 [Click; Click; Reclaim 1; Click])
    as [s1 [s' [A [B [C [_ [D _]]]]]]].
  - vm_compute. discriminate.
  - exists s1, s'. split; [exact A|]. split; [exact B|]. split; [exact C | exact D].
Defined.

(** ** What a tick renders *)

Lemma silent_pull (V : version) (s s' : State) :
  pull_rel V s s' -> silent_computations s -> silent_computations s'.
Proof. intros P S m K. rewrite (pl_kind m P) in K. rewrite (pl_fn P). now apply S. Qed.

Lemma silent_static (s s' : State) :
  static s s' -> silent_computations s -> silent_computations s'.
Proof.
  intros St S m K. rewrite (st_kind _ _ St) in K. rewrite (st_fn _ _ St). now apply S.
Qed.

Lemma Signal_set_log (V : version) (n : node_id) (v : Z) (s s' : State) :
  Signal_set V n v s = Some s' -> log s' = log s.
Proof.
  intros H.
  assert (kind (nodes s n) = WritableNode) as K.
  { unfold Signal_set in H. destruct (kind (nodes s n)); try discriminate. reflexivity. }
  rewrite (@Signal_set_unfold V n v s K) in H.
  destruct (addAsSub_state V n s) as [_ [_ [_ [_ [L _]]]]].
  destruct (equal _ _ _).
  - now injection H as <-.
  - pose proof (setValue_push _ _ _ _ H) as P. now rewrite (pr_log P).
Qed.

Lemma exec_silent (V : version) (rd : node_id -> State -> option (Result Z * State)) :
  (forall n s r s', rd n s = Some (r, s') -> pull_rel V s s') ->
  (forall n s r s', silent_computations s -> rd n s = Some (r, s') -> log s' = log s) ->
  forall p s r s',
    silent_computations s -> silent p -> exec V rd p s = Some (r, s') -> log s' = log s.
Proof.
  intros Hp Hl. induction p as [v| |n k IH|n v k IH|v k IH]; intros s r s' S Si H;
    simpl in H, Si.
  - now injection H as <- <-.
  - now injection H as <- <-.
  - destruct (rd n s) as [[[v|] s1]|] eqn:E; try discriminate.
    + rewrite (IH v s1 r s'); [exact (Hl n s _ s1 S E) | | apply Si | exact H].
      exact (silent_pull V s s1 (Hp _ _ _ _ E) S).
    + injection H as <- <-. exact (Hl n s _ s1 S E).
  - destruct (Signal_set V n v s) as [s1|] eqn:E; try discriminate.
    rewrite (IH s1 r s'); [exact (Signal_set_log V n v s s1 E) | | exact Si | exact H].
    exact (silent_pull V s s1 (Signal_set_pull _ _ _ _ E) S).
  - destruct Si.
Qed.

Lemma getValue_silent (V : version) (fuel : nat) :
  forall n s r s',
    silent_computations s -> getValue V fuel n s = Some (r, s') -> log s' = log s.
Proof.
  induction fuel as [|f IH]; intros n s r s' S H; [discriminate|].
  rewrite getValue_S in H.
  destruct (addAsSub_state V n s) as [_ [_ [_ [_ [L0 _]]]]].
  destruct (addAsSub_static V n s) as [St0 _].
  destruct (kind (nodes s n)) eqn:K; try discriminate.
  - now injection H as <- <-.
  - pose proof (loose_addAsSub V n s) as A.
    assert (silent_computations (enter n (addAsSub V n s))) as S1.
    { apply (silent_pull V s); [|exact S].
      eapply pull_rel_trans; [apply loose_pull, A|].
      apply enter_pull. rewrite (lo_kind A), K. discriminate. }
    assert (silent (fn (nodes (addAsSub V n s) n))) as Si.
    { rewrite (st_fn _ _ St0). now apply S. }
    destruct (stale (nodes (addAsSub V n s) n)).
    + unfold compute in H. cbv zeta in H.
      destruct (exec V (getValue V f) _ _) as [[[v|] s2]|] eqn:E; try discriminate;
        injection H as <- <-;
        pose proof (exec_silent V (getValue V f) (@getValue_pull V f) IH _ _ _ _ S1 Si E)
          as L2.
      * change (log (reconcile V n s2) = log s). rewrite reconcile_log, L2. exact L0.
      * rewrite L2. exact L0.
    + destruct (cvalue _); [|discriminate]. now injection H as <- <-.
Qed.

Lemma exec_emits (V : version) (rank : node_id -> nat) (f : nat) (x : node_id) (b : nat) :
  b <= rank x ->
  forall p s r s',
    pure_graph rank s -> fresh rank s -> silent_computations s -> context s = Some x ->
    formula rank s b p ->
    exec V (getValue V f) p s = Some (r, s') ->
    log s' = log s ++ emits (current rank s) p.
Proof.
  intros Hb. induction p as [v| |n k IH|n v k IH|v k IH]; intros s r s' P F S C Fo H;
    simpl in H, Fo.
  - injection H as <- <-. simpl. now rewrite app_nil_r.
  - destruct Fo.
  - destruct Fo as [Fn [_ Fk]].
    destruct (getValue V f n s) as [[r1 s1]|] eqn:E; [|discriminate].
    destruct (getValue_fresh V rank f n s r1 s1 P F) as [v1 [-> [Cv [L1 [F1 [C1 _]]]]]];
      [|exact E|].
    { intros y Hy. rewrite C in Hy. injection Hy as <-. lia. }
    pose proof (ln_static _ _ _ _ L1) as St.
    rewrite (IH v1 s1 r s'); [| | | | | |exact H].
    + rewrite (getValue_silent V f n s _ s1 S E). simpl. rewrite Cv. f_equal.
      clear - St. induction (k v1) as [w| |m k' IH'|m w k' IH'|w k' IH']; simpl; auto.
      * rewrite (current_static rank s s1 m St). destruct (current rank s m); auto.
      * now rewrite IH'.
    + exact (pure_graph_static rank s s1 St P).
    + exact F1.
    + exact (silent_static s s1 St S).
    + congruence.
    + apply (formula_static rank s s1); [apply (st_kind _ _ St) | apply Fk].
  - destruct Fo.
  - rewrite (IH (emit v s) r s'); [| | | | | |exact H].
    + simpl. rewrite <- app_assoc. simpl. do 2 f_equal.
      assert (static s (emit v s)) as St by (constructor; reflexivity).
      clear - St. induction k as [w| |m k' IH'|m w k' IH'|w k' IH']; simpl; auto.
      * rewrite (current_static rank s _ m St). destruct (current rank s m); auto.
      * now rewrite IH'.
    + apply (pure_graph_static rank s); [constructor; reflexivity | exact P].
    + destruct (calm_step rank 0 s (emit v s) (calm_state s (nodes (emit v s)) eq_refl))
        as [_ F0]. now apply F0.
    + exact S.
    + exact C.
    + apply (formula_static rank s); [reflexivity | exact Fo].
Qed.

Lemma emits_ext (den den' : node_id -> option Z) (p : prog) :
  (forall m, den' m = den m) -> emits den' p = emits den p.
Proof.
  intros E. induction p as [w| |m k IH|m w k IH|w k IH]; simpl; auto.
  - rewrite E. destruct (den m); auto.
  - now rewrite IH.
Qed.

Lemma runTask_emits (V : version) (rank : node_id -> nat) (fuel : nat) (e : node_id)
      (s : State) (r : Result unit) (s' : State) :
  pure_graph rank s -> fresh rank s -> silent_computations s ->
  runTask V fuel e s = Some (r, s') ->
  log s' = log s ++ emits (current rank s) (fn (nodes s e)).
Proof.
  intros P F S H. unfold runTask, runEffect in H. cbv zeta in H.
  destruct (exec V (getValue V fuel) (fn (nodes s e)) (enter e s)) as [[r1 s1]|] eqn:E;
    [|discriminate].
  destruct (calm_step rank (rank e) s (enter e s) (calm_enter e s)) as [L0 F0].
  pose proof (ln_static _ _ _ _ L0) as St.
  pose proof (pure_graph_static rank s _ St P) as P0.
  assert (formula rank (enter e s) (rank e) (fn (nodes s e))) as Fo.
  { rewrite <- (st_fn _ _ St e). apply (proj1 P0). }
  pose proof (exec_emits V rank fuel e (rank e) (le_n _) _ _ _ _ P0 (F0 F)
                (silent_static s _ St S) eq_refl Fo E) as L1.
  rewrite (emits_ext (current rank s) (current rank (enter e s))) in L1
    by (intros m; now apply current_static).
  assert (log s' = log s1) as ->.
  { destruct r1 as [v|]; injection H as <- <-; [|reflexivity].
    change (log (reconcile V e s1) = log s1). apply reconcile_log. }
  exact L1.
Qed.

Lemma runMicrotasks_emits (V : version) (rank : node_id -> nat) (fuel : nat) :
  forall s s',
    pure_graph rank s -> fresh rank s -> silent_computations s ->
    runMicrotasks V fuel s = Some s' ->
    log s' = log s ++ flat_map (fun e => emits (current rank s) (fn (nodes s e))) (queue s).
Proof.
  induction fuel as [|f IH]; intros s s' P F S H; [discriminate|]. simpl in H.
  destruct (queue s) as [|e q] eqn:Q.
  - injection H as <-. simpl. now rewrite app_nil_r.
  - destruct (calm_step rank 0 s (set_queue q s) (calm_state s (nodes (set_queue q s)) eq_refl))
      as [L0 F0].
    pose proof (pure_graph_static rank s _ (ln_static _ _ _ _ L0) P) as P0.
    destruct (runTask V f e (set_queue q s)) as [[r s1]|] eqn:E; [|discriminate].
    destruct (runTask_fresh V rank f e _ _ _ P0 (F0 F) E) as [-> [P1 [F1 [_ St]]]].
    pose proof (runTask_emits V rank f e _ _ _ P0 (F0 F) S E) as L1.
    destruct (runTask_quiet V f e (pure_graph_observers rank _ P0) E) as [Q1 _].
    rewrite (IH s1 s' P1 F1 (silent_static _ _ St S) H), L1, Q1. simpl.
    pose proof (ln_static _ _ _ _ L0) as St0.
    rewrite <- app_assoc. f_equal. change (log (set_queue q s)) with (log s).
    change (nodes (set_queue q s)) with (nodes s). change (queue (set_queue q s)) with q.
    rewrite (emits_ext (current rank s) (current rank (set_queue q s)) (fn (nodes s e))
               (fun x => current_static rank s _ x St0)).
    f_equal.
    apply flat_map_ext. intros m. rewrite (st_fn _ _ St m).
    apply emits_ext. intros x. rewrite (current_static rank _ _ x St).
    now apply current_static.
Qed.

Lemma silent_same (s s' : State) :
  (forall m, kind (nodes s' m) = kind (nodes s m)) ->
  (forall m, fn (nodes s' m) = fn (nodes s m)) ->
  silent_computations s -> silent_computations s'.
Proof. intros K Fn S m Km. rewrite K in Km. rewrite Fn. now apply S. Qed.

Lemma silent_run_ops (V : version) (fuel : nat) (ops : list op) (s s' : State) :
  run_ops V fuel ops s = Some s' -> silent_computations s -> silent_computations s'.
Proof.
  apply (run_ops_inv V silent_computations).
  - intros n s0. apply silent_static. apply addAsSub_static.
  - intros s0 s1 P. apply silent_same; intros m; [apply (pr_kind P) | apply (pr_fn P)].
  - intros n v s0. apply silent_same; intros m;
      [apply (blind_upd _ kind n m) | apply (blind_upd _ fn n m)]; reflexivity.
  - intros n s0. apply silent_static. exact (ln_static _ _ _ _
      (proj1 (calm_step (fun x => x) 0 s0 (enter n s0) (calm_enter n s0)))).
  - intros v s0. apply silent_same; reflexivity.
  - intros n c s0. apply silent_same; intros m.
    + change (kind (nodes (reconcile V n s0) m) = kind (nodes s0 m)).
      now rewrite (blind_reconcile _ kind (fun _ _ => eq_refl) (fun _ _ => eq_refl)
                                   (fun _ _ => eq_refl)).
    + change (fn (nodes (reconcile V n s0) m) = fn (nodes s0 m)).
      now rewrite (blind_reconcile _ fn (fun _ _ => eq_refl) (fun _ _ => eq_refl)
                                   (fun _ _ => eq_refl)).
  - intros n v s0. apply silent_same; intros m;
      [apply (blind_upd _ kind n m) | apply (blind_upd _ fn n m)]; reflexivity.
  - intros e s0. apply silent_same; intros m;
      [apply (blind_upd _ kind e m) | apply (blind_upd _ fn e m)]; reflexivity.
  - intros q s0. apply silent_same; reflexivity.
  - intros s0. apply silent_same; reflexivity.
Qed.

(** X22. In a graph of formulas where only effects produce output, started
    with no cached value: at any point reached by reads, writes and ticks,
    a tick appends to the output, for each queued effect in queue order,
    what its function emits when every getter it calls answers the value of
    its node on the current signal values. *)
Theorem tick_renders_current_values (V : version) (rank : node_id -> nat) (fuel F : nat)
        (ops : list op) (s0 s s' : State) :
  pure_graph rank s0 ->
  (forall m, kind (nodes s0 m) = ComputedNode -> cvalue (nodes s0 m) = None) ->
  context s0 = None ->
  silent_computations s0 ->
  run_ops V fuel ops s0 = Some s ->
  runMicrotasks V F s = Some s' ->
  log s' = log s ++ flat_map (fun e => emits (current rank s) (fn (nodes s e))) (queue s).
Proof.
  intros P U C S R T.
  destruct (run_ops_fresh V rank fuel ops s0 s P (fresh_uncached rank s0 U) C R)
    as [P1 [F1 _]].
  exact (runMicrotasks_emits V rank F s s' P1 F1 (silent_run_ops V fuel ops s0 s R S) T).
Qed.

(** ** Instances of the further properties *)

(** On the empty machine, node 1 subscribing to node 0 twice. *)
Lemma subscribe_twice_witness :
  subscribe Vguard 0 1 (subscribe Vguard 0 1 init) = subscribe Vguard 0 1 init /\
  length (subs (nodes (subscribe Vindex 0 1 (subscribe Vindex 0 1 init)) 0)) = 2.
Proof. exact (subscribe_twice 0 1 init eq_refl). Defined.

(** On the empty machine the set of node 0 is empty again. *)
Lemma subscribe_unsubscribe_roundtrip_witness :
  subs (nodes (unsubscribe Vindex 0 1 (subscribe Vindex 0 1 init)) 0) = [].
Proof. exact (proj1 (subscribe_unsubscribe_roundtrip Vindex 0 1 init eq_refl eq_refl)). Defined.

Lemma diamond_first_read : getValue Vindex 4 3 diamond0 = Some (Ok 4%Z, diamond1 Vindex).
Proof. apply after_read_some. vm_compute. reflexivity. Qed.

(** The diamond: [d()] twice. *)
Lemma second_read_is_cached_witness :
  getValue Vindex 4 3 (diamond1 Vindex) = Some (Ok 4%Z, diamond1 Vindex).
Proof.
  apply (second_read_is_cached Vindex 4 3 diamond0 4%Z (diamond1 Vindex));
    [reflexivity | exact diamond_first_read].
Defined.

(** The counter: [counter.set(7)] then [counter()]. *)
Lemma write_then_read_witness :
  exists s',
    Signal_set Vguard 0 7%Z (counter_state Vguard) = Some s' /\
    forall fuel, getValue Vguard (S fuel) 0 s' = Some (Ok 7%Z, s').
Proof.
  destruct (write_then_read Vguard 0 7%Z (counter_state Vguard)) as [s' [H R]].
  - vm_compute. reflexivity.
  - exact counter_bounded.
  - exact counter_refs_ok.
  - vm_compute. reflexivity.
  - exists s'. split; [exact H|]. intros fuel. rewrite (R fuel). do 3 f_equal.
Defined.

(** An effect created on the empty machine and destroyed at once. *)
Lemma Effect_then_destroy_witness :
  registry (Effect_destroy (fst (Effect Vguard (Ret 0%Z) init))
                           (snd (Effect Vguard (Ret 0%Z) init))) = registry init.
Proof. exact (proj1 (Effect_then_destroy (Ret 0%Z) init (fun H => H))). Defined.

(** The first task of the counter's effect. *)
Lemma running_effect_ignores_marks_witness :
  pending 1 (after_task Vguard 3 1 (set_queue [] (counter0 Vguard))) =
  pending 1 (set_queue [] (counter0 Vguard)).
Proof.
  apply (running_effect_ignores_marks Vguard 3 1 _ (Ok tt)).
  - vm_compute. reflexivity.
  - vm_compute. reflexivity.
  - exact counter_first_task.
Defined.

(** The counter's effect. *)
Lemma reads_and_writes_run_no_effect_witness :
  runs (nodes (after_read Vindex 4 0 (counter_state Vindex)) 1) =
  runs (nodes (counter_state Vindex) 1) /\
  runs (nodes (after_set Vindex 0 7%Z (counter_state Vindex)) 1) =
  runs (nodes (counter_state Vindex) 1).
Proof.
  split.
  - apply (proj1 (reads_and_writes_run_no_effect Vindex 4 (counter_state Vindex)
                    (after_read Vindex 4 0 (counter_state Vindex)) 1 eq_refl) 0 (Ok 0%Z)).
    apply after_read_some. vm_compute. reflexivity.
  - apply (proj2 (reads_and_writes_run_no_effect Vindex 4 (counter_state Vindex)
                    (after_set Vindex 0 7%Z (counter_state Vindex)) 1 eq_refl) 0 7%Z).
    apply after_set_some. vm_compute. reflexivity.
Defined.

(** The branching scenario, run in each copy. *)
Lemma branch0_no_edges :
  forall m, subs (nodes branch0 m) = [] /\ deps (nodes branch0 m) = [] /\
            ctxDeps (nodes branch0 m) = [].
Proof. intros m. do 3 (destruct m as [|m]; [vm_compute; auto|]). vm_compute. auto. Qed.

Lemma branch_run (V : version) :
  run_ops V 3 [OpRead 2; OpSet 1 11%Z; OpRead 2; OpSet 0 0%Z; OpRead 2] branch0 =
  Some (or_init (run_ops V 3 [OpRead 2; OpSet 1 11%Z; OpRead 2; OpSet 0 0%Z; OpRead 2] branch0)).
Proof. apply or_init_some. destruct V; vm_compute; reflexivity. Qed.

(** The branching scenario in the de-duplicating copy. *)
Lemma guard_graph_stays_consistent_witness :
  consistent
    (or_init (run_ops Vguard 3 [OpRead 2; OpSet 1 11%Z; OpRead 2; OpSet 0 0%Z; OpRead 2] branch0)).
Proof.
  refine (proj2 (guard_graph_stays_consistent 3 _ branch0 _
                   (proj1 (no_edges_guard_inv branch0 branch0_no_edges))
                   (branch_run Vguard)) _).
  intros m. do 3 (destruct m as [|m]; [vm_compute; reflexivity|]). vm_compute. reflexivity.
Defined.

(** The branching scenario in index.ts: [flag] still notifies [d]. *)
Lemma dependencies_stay_subscribed_witness :
  exists r,
    In r (subs (nodes (or_init (run_ops Vindex 3
             [OpRead 2; OpSet 1 11%Z; OpRead 2; OpSet 0 0%Z; OpRead 2] branch0)) 0)) /\
    deref (or_init (run_ops Vindex 3
             [OpRead 2; OpSet 1 11%Z; OpRead 2; OpSet 0 0%Z; OpRead 2] branch0)) r = Some 2.
Proof.
  apply (dependencies_stay_subscribed Vindex 3 _ branch0 _
           (proj2 (no_edges_guard_inv branch0 branch0_no_edges)) (branch_run Vindex) 0 2).
  - vm_compute. reflexivity.
  - vm_compute. auto.
Defined.

(** The counter written through [setValue]. *)
Lemma setValue_marks_subscribers_witness :
  exists s',
    setValue Vguard 0 7%Z (counter_state Vguard) = Some s' /\
    wvalue (nodes s' 0) = 7%Z /\
    (forall r, In r (subs (nodes s' 0)) -> marked Vguard (nodes s' (ref_target r)) = true) /\
    propagated Vguard (counter_state Vguard) s'.
Proof.
  exact (setValue_marks_subscribers Vguard 0 7%Z (counter_state Vguard)
           counter_bounded counter_refs_ok).
Defined.

(** The counter's signal marked directly. *)
Lemma markAsDisty_marks_downstream_witness :
  exists s',
    markAsDisty Vguard 0 (counter_state Vguard) = Some s' /\
    marked Vguard (nodes s' 0) = true.
Proof.
  destruct (markAsDisty_marks_downstream Vguard 0 (counter_state Vguard)
              counter_bounded counter_refs_ok) as [s' [H [M _]]].
  - vm_compute. discriminate.
  - exists s'. split; assumption.
Defined.

Lemma collected_write :
  setValue Vindex 0 1%Z (collect 1 (counter_state Vindex)) =
  Some (or_init (setValue Vindex 0 1%Z (collect 1 (counter_state Vindex)))).
Proof. apply or_init_some. vm_compute. reflexivity. Qed.

(** The counter's effect reclaimed, then the counter written. *)
Lemma setValue_drops_reclaimed_witness :
  nodes (or_init (setValue Vindex 0 1%Z (collect 1 (counter_state Vindex)))) 1 =
  nodes (collect 1 (counter_state Vindex)) 1 /\
  pending 1 (or_init (setValue Vindex 0 1%Z (collect 1 (counter_state Vindex)))) =
  pending 1 (collect 1 (counter_state Vindex)).
Proof.
  apply (proj2 (setValue_drops_reclaimed Vindex 0 1%Z _ _ collected_write) 1).
  - vm_compute. reflexivity.
  - discriminate.
Defined.

(** The diamond is a pure graph under the rank [fun n => n]. *)
Lemma diamond0_pure : pure_graph (fun n => n) diamond0.
Proof.
  split; intros m.
  - do 4 (destruct m as [|m];
          [vm_compute; repeat split; auto; lia|]).
    vm_compute. exact I.
  - do 4 (destruct m as [|m]; [vm_compute; reflexivity|]). vm_compute. reflexivity.
Qed.

Lemma diamond0_uncached :
  forall m, kind (nodes diamond0 m) = ComputedNode -> cvalue (nodes diamond0 m) = None.
Proof.
  intros m _. do 4 (destruct m as [|m]; [vm_compute; reflexivity|]). vm_compute. reflexivity.
Qed.

Lemma diamond_run :
  run_ops Vindex 4 [OpRead 3; OpSet 0 5%Z] diamond0 =
  Some (or_init (run_ops Vindex 4 [OpRead 3; OpSet 0 5%Z] diamond0)).
Proof. apply or_init_some. vm_compute. reflexivity. Qed.

(** The diamond after [d(); a.set(5)]: [d()] returns the current value. *)
Lemma read_returns_current_value_witness :
  exists v s'',
    getValue Vindex 4 3 (or_init (run_ops Vindex 4 [OpRead 3; OpSet 0 5%Z] diamond0)) =
    Some (Ok v, s'') /\
    denote 4 (or_init (run_ops Vindex 4 [OpRead 3; OpSet 0 5%Z] diamond0)) 3 = Some v.
Proof.
  apply (read_returns_current_value Vindex (fun n => n) 4 _ diamond0 _ 3
           diamond0_pure diamond0_uncached eq_refl diamond_run).
  right. vm_compute. reflexivity.
Defined.

(** The diamond after [d(); a.set(5); b()]: the cache of [b]. *)
Lemma clean_cache_is_current_witness :
  cvalue (nodes (or_init (run_ops Vindex 4 [OpRead 3; OpSet 0 5%Z; OpRead 1] diamond0)) 1) =
  denote 2 (or_init (run_ops Vindex 4 [OpRead 3; OpSet 0 5%Z; OpRead 1] diamond0)) 1.
Proof.
  apply (clean_cache_is_current Vindex (fun n => n) 4 [OpRead 3; OpSet 0 5%Z; OpRead 1]
           diamond0 _ 1 diamond0_pure diamond0_uncached eq_refl).
  - apply or_init_some. vm_compute. reflexivity.
  - vm_compute. reflexivity.
  - vm_compute. reflexivity.
Defined.

Lemma example0_pure : pure_graph (fun n => n) (example0 Vindex).
Proof.
  split; intros m.
  - do 3 (destruct m as [|m]; [vm_compute; repeat split; auto; lia|]).
    vm_compute. exact I.
  - do 3 (destruct m as [|m]; [vm_compute; reflexivity|]). vm_compute. reflexivity.
Qed.

Lemma example0_silent : silent_computations (example0 Vindex).
Proof.
  intros m. do 3 (destruct m as [|m]; [vm_compute; try discriminate; auto|]).
  vm_compute. discriminate.
Qed.

(** The example graph after the first tick and [a.set(5)]: the next tick. *)
Lemma tick_renders_current_values_witness :
  log (after_tick Vindex 4
         (or_init (run_ops Vindex 4 [OpTick; OpSet 0 5%Z] (example0 Vindex)))) =
  log (or_init (run_ops Vindex 4 [OpTick; OpSet 0 5%Z] (example0 Vindex))) ++
  flat_map
    (fun e => emits (current (fun n => n)
                       (or_init (run_ops Vindex 4 [OpTick; OpSet 0 5%Z] (example0 Vindex))))
                (fn (nodes (or_init (run_ops Vindex 4 [OpTick; OpSet 0 5%Z] (example0 Vindex)))
                       e)))
    (queue (or_init (run_ops Vindex 4 [OpTick; OpSet 0 5%Z] (example0 Vindex)))).
Proof.
  apply (tick_renders_current_values Vindex (fun n => n) 4 4 [OpTick; OpSet 0 5%Z]
           (example0 Vindex) _ _ example0_pure).
  - intros m _. do 3 (destruct m as [|m]; [vm_compute; reflexivity|]). vm_compute. reflexivity.
  - reflexivity.
  - exact example0_silent.
  - apply or_init_some. vm_compute. reflexivity.
  - apply after_tick_some. vm_compute. reflexivity.
Defined.

(** * Laziness, coalescing and the context slot *)

(** ** The context slot *)










(** ** Laziness and the diamond *)

Lemma stale_clean (x : Node) : stale x = false -> dirty x = false.
Proof. unfold stale. destruct (cvalue x); [auto | discriminate]. Qed.

Lemma dirty_stale (x : Node) : dirty x = true -> stale x = true.
Proof. unfold stale. destruct (cvalue x); auto. Qed.

Lemma deref_live (s : State) (r : WeakRef) (m : node_id) :
  deref s r = Some m -> ref_target r = m /\ collected (nodes s m) = false.
Proof.
  unfold deref. destruct (collected (nodes s (ref_target r))) eqn:E; [discriminate|].
  intros H. injection H as <-. auto.
Qed.

(** A value-changing write at top level marks the live subscribers of the
    signal and propagates. *)
Lemma Signal_set_marks (V : version) (n : node_id) (v : Z) (s : State) :
  context s = None -> kind (nodes s n) = WritableNode -> bounded s -> refs_ok s ->
  equal (nodes s n) (wvalue (nodes s n)) v = false ->
  exists s',
    Signal_set V n v s = Some s' /\
    (forall m r, In r (subs (nodes s m)) -> collected (nodes s (ref_target r)) = false ->
                 In r (subs (nodes s' m))) /\
    (forall m, kind (nodes s' m) = kind (nodes s m)) /\
    (forall r, In r (subs (nodes s' n)) -> marked V (nodes s' (ref_target r)) = true) /\
    (forall m r, dirty (nodes s m) = false -> dirty (nodes s' m) = true ->
                 In r (subs (nodes s' m)) -> marked V (nodes s' (ref_target r)) = true).
Proof.
  intros C K B R E. rewrite Signal_set_unfold by assumption.
  rewrite E, addAsSub_top by assumption.
  destruct (@setValue_total V n v s B R) as [s' H]. exists s'. split; [exact H|].
  pose proof (setValue_push _ _ _ _ H) as P.
  assert (forall m, subs (nodes (upd n (with_wvalue v) s) m) = subs (nodes s m)) as Su.
  { intros m. now rewrite (blind_upd _ subs n m) by reflexivity. }
  assert (forall m, collected (nodes (upd n (with_wvalue v) s) m) = collected (nodes s m)) as Co.
  { intros m. now rewrite (blind_upd _ collected n m) by reflexivity. }
  assert (forall m, dirty (nodes (upd n (with_wvalue v) s) m) = dirty (nodes s m)) as Di.
  { intros m. now rewrite (blind_upd _ dirty n m) by reflexivity. }
  unfold setValue in H. cbv zeta in H.
  destruct (@notify_marks V (markAsDisty V) n
              (fun a b c => markAsDisty_fuel_marks V _ a b c) _ _ _ H) as [Pr M].
  split; [|split; [|split]].
  - intros m r Hr Hc. apply (pr_subs_live P); [now rewrite Su | now rewrite Co].
  - intros m. rewrite (pr_kind P). now rewrite (blind_upd _ kind n m) by reflexivity.
  - intros r Hr. apply M; [|exact Hr]. now apply (pr_subs_incl P).
  - intros m r A D. apply Pr; [|exact D]. now rewrite Di.
Qed.

(** The getter of a stale derived node runs its function exactly once. *)
Lemma getValue_stale_runs (V : version) (rank : node_id -> nat) (d : node_id) (fuel : nat)
      (s : State) (r : Result Z) (s' : State) :
  stratified rank s ->
  kind (nodes s d) = ComputedNode -> stale (nodes s d) = true ->
  getValue V fuel d s = Some (r, s') -> runs (nodes s' d) = S (runs (nodes s d)).
Proof.
  intros St K Sd H. destruct fuel as [|f]; [discriminate|]. rewrite getValue_S, K in H.
  pose proof (loose_addAsSub V d s) as A.
  assert (runs (nodes (enter d (addAsSub V d s)) d) = S (runs (nodes s d))) as R0.
  { destruct (enter_fields d d (addAsSub V d s)) as [_ [_ [_ R]]].
    now rewrite R, Nat.eqb_refl, (lo_runs A). }
  assert (stratified rank (enter d (addAsSub V d s))) as S0.
  { eapply stratified_pull with (V := V); [|exact St].
    eapply pull_rel_trans; [apply loose_pull, A|].
    apply enter_pull. rewrite (lo_kind A), K. discriminate. }
  assert (reads_below rank (rank d) (fn (nodes (addAsSub V d s) d))) as B0.
  { rewrite (lo_fn A). now apply St. }
  assert (stale (nodes (addAsSub V d s) d) = true) as Sd'.
  { destruct (addAsSub_static V d s) as [_ DC]. destruct (DC d) as [D0 C0].
    unfold stale in *. now rewrite C0, D0. }
  rewrite Sd' in H.
  unfold compute in H. cbv zeta in H.
  destruct (exec V (getValue V f) _ _) as [[[v|] s2]|] eqn:E; try discriminate;
    injection H as <- <-;
    pose proof (@exec_below V rank d (getValue V f) (@getValue_pull V f)
                            (@getValue_below V rank d f) _ _ _ _ S0 B0 E) as R2.
  - rewrite (lo_runs (loose_finish V d v _ s2)). now rewrite R2.
  - now rewrite R2.
Qed.

Lemma diamond_write_marks (V : version) (s : State) (a b c d : node_id) (v : Z) :
  bounded s -> refs_ok s -> context s = None ->
  diamond s a b c d ->
  equal (nodes s a) (wvalue (nodes s a)) v = false ->
  exists s1,
    Signal_set V a v s = Some s1 /\
    context s1 = None /\ bounded s1 /\ refs_ok s1 /\
    dirty (nodes s1 b) = true /\ dirty (nodes s1 c) = true /\ dirty (nodes s1 d) = true.
Proof.
  intros B R C D E.
  destruct (Signal_set_marks V a v s C (dm_a _ _ _ _ _ D) B R E)
    as [s1 [H [Live [Ki [Ma Pr]]]]].
  destruct (Signal_set_top V a v C (dm_a _ _ _ _ _ D) B R) as [s1' [H' [C1 [B1 R1]]]].
  rewrite H in H'. injection H' as <-.
  exists s1. split; [exact H|]. split; [exact C1|]. split; [exact B1|]. split; [exact R1|].
  assert (forall x y, kind (nodes s y) = ComputedNode ->
                      (exists r, In r (subs (nodes s x)) /\ deref s r = Some y) ->
                      (forall r, In r (subs (nodes s1 x)) ->
                                 marked V (nodes s1 (ref_target r)) = true) ->
                      dirty (nodes s1 y) = true) as Step.
  { intros x y Ky [r [Hr Hd]] Hx. destruct (deref_live s r y Hd) as [T L].
    assert (marked V (nodes s1 y) = true) as My.
    { rewrite <- T. apply Hx. apply Live; [exact Hr | now rewrite T]. }
    unfold marked in My. now rewrite Ki, Ky in My. }
  assert (dirty (nodes s1 b) = true) as Db
      by exact (Step a b (dm_b _ _ _ _ _ D) (dm_ab _ _ _ _ _ D) Ma).
  assert (dirty (nodes s1 c) = true) as Dc
      by exact (Step a c (dm_c _ _ _ _ _ D) (dm_ac _ _ _ _ _ D) Ma).
  split; [exact Db|]. split; [exact Dc|].
  apply (Step b d (dm_d _ _ _ _ _ D) (dm_bd _ _ _ _ _ D)).
  intros r Hr. apply (Pr b r); [|exact Db|exact Hr].
  apply stale_clean, (dm_clean_b _ _ _ _ _ D).
Qed.

(** C1. In an acyclic graph, writes never run a computation function, and
    the read that follows any number of writes runs the function of the node
    read at most once; marking a node that is already dirty changes nothing.
    In every diamond at rest, of whatever functions and values, a write to
    [a] that changes its value returns, runs no function, and leaves [b],
    [c] and [d] dirty; the next read of [d] runs the function of [d] exactly
    once, and it returns when the functions of the graph are formulas.  The
    diamond of the specification is evaluated as well. *)
Theorem derived_recomputes_lazily (V : version) :
  (forall (rank : node_id -> nat) (s : State) (d : node_id) (ws : list (node_id * Z))
          (s1 : State),
      stratified rank s ->
      Signal_sets V ws s = Some s1 ->
      runs (nodes s1 d) = runs (nodes s d) /\
      forall fuel r s2, getValue V fuel d s1 = Some (r, s2) ->
                        runs (nodes s2 d) <= S (runs (nodes s d))) /\
  (forall n s, kind (nodes s n) = WritableNode \/ kind (nodes s n) = ComputedNode ->
               dirty (nodes s n) = true -> markAsDisty V n s = Some s) /\
  (forall (rank : node_id -> nat) (s : State) (a b c d : node_id) (v : Z),
      stratified rank s -> bounded s -> refs_ok s -> context s = None ->
      diamond s a b c d ->
      equal (nodes s a) (wvalue (nodes s a)) v = false ->
      exists s1,
        Signal_set V a v s = Some s1 /\
        (forall m, runs (nodes s1 m) = runs (nodes s m)) /\
        dirty (nodes s1 b) = true /\ dirty (nodes s1 c) = true /\
        dirty (nodes s1 d) = true /\
        (forall fuel r s2, getValue V fuel d s1 = Some (r, s2) ->
                           runs (nodes s2 d) = S (runs (nodes s d))) /\
        (forall fuel, pure_graph rank s -> rank d < fuel ->
                      exists w s2, getValue V fuel d s1 = Some (Ok w, s2) /\
                                   runs (nodes s2 d) = S (runs (nodes s d)))) /\
  (Signal_set V 0 5%Z (diamond1 V) = Some (diamond2 V) /\
   runs (nodes (diamond2 V) 3) = runs (nodes (diamond1 V) 3) /\
   dirty (nodes (diamond2 V) 3) = true /\
   getValue V 4 3 (diamond2 V) = Some (Ok 16%Z, diamond3 V) /\
   runs (nodes (diamond3 V) 3) = S (runs (nodes (diamond1 V) 3))).
Proof.
  split; [|split; [|split]].
  - intros rank s d ws s1 St H. pose proof (@Signal_sets_runs V ws s s1 d H) as R.
    split; [exact R|]. intros fuel r s2 G. rewrite <- R.
    eapply getValue_runs_once; [|exact G].
    eapply stratified_pull; [eapply Signal_sets_pull; exact H | exact St].
  - apply markAsDisty_dirty_noop.
  - intros rank s a b c d v St B R C D E.
    destruct (diamond_write_marks V s a b c d v B R C D E)
      as [s1 [H [C1 [B1 [R1 [Db [Dc Dd]]]]]]].
    pose proof (Signal_set_pull _ _ _ _ H) as Pl.
    assert (forall m, runs (nodes s1 m) = runs (nodes s m)) as Ru
        by (intros m; exact (Signal_set_runs _ _ _ _ m H)).
    assert (forall fuel r s2, getValue V fuel d s1 = Some (r, s2) ->
                              runs (nodes s2 d) = S (runs (nodes s d))) as Once.
    { intros fuel r s2 G. rewrite <- Ru.
      apply (getValue_stale_runs V rank d fuel s1 r s2); [| | |exact G].
      - exact (stratified_pull Pl St).
      - rewrite (pl_kind d Pl). exact (dm_d _ _ _ _ _ D).
      - now apply dirty_stale. }
    exists s1. split; [exact H|]. split; [exact Ru|]. split; [exact Db|].
    split; [exact Dc|]. split; [exact Dd|]. split; [exact Once|].
    intros fuel P L.
    destruct (getValue_progress V rank fuel d s1) as [w [s2 [G _]]].
    + exact (pure_graph_pull V rank s s1 Pl P).
    + split; [exact B1|]. split; [exact R1|]. intros x Hx. congruence.
    + exact L.
    + right. rewrite (pl_kind d Pl). exact (dm_d _ _ _ _ _ D).
    + exists w, s2. split; [exact G | exact (Once _ _ _ G)].
  - split; [apply diamond_write|]. split; [destruct V; vm_compute; reflexivity|].
    split; [destruct V; vm_compute; reflexivity|].
    split; [apply diamond_reread|]. destruct V; vm_compute; reflexivity.
Qed.

Lemma diamond1_bounded : bounded (diamond1 Vindex).
Proof. heap_bounded 4. Qed.

Lemma diamond1_refs_ok : refs_ok (diamond1 Vindex).
Proof. heap_refs_ok 4. Qed.

Lemma diamond1_diamond : diamond (diamond1 Vindex) 0 1 2 3.
Proof.
  constructor; try (vm_compute; reflexivity).
  - exists (mkRef 1 1). split; [vm_compute; auto | vm_compute; reflexivity].
  - exists (mkRef 3 2). split; [vm_compute; auto | vm_compute; reflexivity].
  - exists (mkRef 0 3). split; [vm_compute; auto | vm_compute; reflexivity].
  - exists (mkRef 2 3). split; [vm_compute; auto | vm_compute; reflexivity].
Qed.

Lemma diamond1_pure : pure_graph (fun n => n) (diamond1 Vindex).
Proof.
  exact (pure_graph_pull Vindex (fun n => n) diamond0 (diamond1 Vindex)
           (@getValue_pull Vindex 4 _ _ _ _ diamond_first_read) diamond0_pure).
Qed.

(** The diamond of the specification, by the general statement: [a.set(5)]
    after the first read of [d], then [d()]. *)
Lemma derived_recomputes_lazily_witness :
  exists s1,
    Signal_set Vindex 0 5%Z (diamond1 Vindex) = Some s1 /\
    dirty (nodes s1 3) = true /\
    exists w s2, getValue Vindex 4 3 s1 = Some (Ok w, s2) /\
                 runs (nodes s2 3) = S (runs (nodes (diamond1 Vindex) 3)).
Proof.
  destruct (proj1 (proj2 (proj2 (derived_recomputes_lazily Vindex)))
                  (fun n => n) (diamond1 Vindex) 0 1 2 3 5%Z
                  (diamond1_stratified Vindex) diamond1_bounded diamond1_refs_ok eq_refl
                  diamond1_diamond eq_refl)
    as [s1 [H [_ [_ [_ [D [_ T]]]]]]].
  exists s1. split; [exact H|]. split; [exact D|].
  apply T; [exact diamond1_pure | lia].
Defined.

(** ** Coalescing *)






